(** * A shallow embedding of redis.c (the 2008 single-file server)

    The development follows the layout of the C file: utility functions,
    the object model, the networking layer and the protocol parser, the
    snapshot codec, the commands, the cron.  Byte strings are lists of
    8-bit characters, hash tables are finite maps, linked lists are lists,
    machine integers are [Z] with their wrap-around written out. *)

From Stdlib Require Import ZArith Ascii String List Lia.
From stdpp Require Import gmap strings list sorting.

Set Warnings "-register-all".
Local Open Scope Z_scope.

(** ** Machine integers *)

Definition INT_MIN : Z := - 2 ^ 31.
Definition INT_MAX : Z := 2 ^ 31 - 1.
Definition LLONG_MIN : Z := - 2 ^ 63.
Definition LLONG_MAX : Z := 2 ^ 63 - 1.

(** Conversion to a signed [w]-bit integer (two's complement). *)
Definition to_signed (w : Z) (z : Z) : Z :=
  (z + 2 ^ (w - 1)) mod 2 ^ w - 2 ^ (w - 1).

Definition to_int (z : Z) : Z := to_signed 32 z.
Definition to_longlong (z : Z) : Z := to_signed 64 z.
Definition to_uint32 (z : Z) : Z := z mod 2 ^ 32.
Definition to_uint8 (z : Z) : Z := z mod 2 ^ 8.

(** ** Static server configuration and constants *)

Definition REDIS_OK : Z := 0.
Definition REDIS_ERR : Z := -1.
Definition REDIS_QUERYBUF_LEN : Z := 1024.
Definition REDIS_MAX_ARGS : nat := 16.
Definition REDIS_DEFAULT_DBNUM : nat := 16.
Definition REDIS_MAXIDLETIME : Z := 60 * 5.
Definition REDIS_HT_MINFILL : Z := 10.
Definition REDIS_HT_MINSLOTS : Z := 16384.

Definition REDIS_CMD_BULK : Z := 1.
Definition REDIS_CMD_INLINE : Z := 0.

Definition REDIS_STRING : Z := 0.
Definition REDIS_LIST : Z := 1.
Definition REDIS_SET : Z := 2.
Definition REDIS_HASH : Z := 3.
Definition REDIS_SELECTDB : Z := 254.
Definition REDIS_EOF : Z := 255.

Definition REDIS_HEAD : Z := 0.
Definition REDIS_TAIL : Z := 1.

(** ** Byte strings (sds) and the C string functions the server calls *)

Abbreviation sds := (list ascii).

Definition NUL : ascii := "000"%char.
Definition LF : ascii := "010"%char.
Definition CR : ascii := "013"%char.
Definition SP : ascii := " "%char.

Definition char_code (c : ascii) : Z := Z.of_N (N_of_ascii c).
Definition char_of (z : Z) : ascii := ascii_of_N (Z.to_N z).

Definition sdsnew (s : string) : sds := list_ascii_of_string s.
Definition sdsempty : sds := [].
Definition sdslen (s : sds) : Z := Z.of_nat (length s).
Definition sdscatlen (s t : sds) : sds := s ++ t.
Definition sdsnewlen (buf : sds) (len : Z) : sds := take (Z.to_nat len) buf.

(** Modelled from the spec: sds.c is not part of the sources.  The server
    only calls [sdsrange(s,start,-1)], which keeps the bytes from offset
    [start] to the end. *)
Definition sdsrange_from (s : sds) (start : Z) : sds := drop (Z.to_nat start) s.

Definition tolower (c : ascii) : ascii :=
  let n := char_code c in
  if (65 <=? n) && (n <=? 90) then char_of (n + 32) else c.

Definition sdstolower (s : sds) : sds := map tolower s.

(** A C string ends at its first NUL byte. *)
Fixpoint cstr (s : sds) : sds :=
  match s with
  | [] => []
  | c :: s' => if Ascii.eqb c NUL then [] else c :: cstr s'
  end.

Definition sds_eqb (a b : sds) : bool := bool_decide (a = b).

(** [strcmp(a,b) == 0] *)
Definition strcmp0 (a b : sds) : bool := sds_eqb (cstr a) (cstr b).

(** [strchr(s,c)] for a non-NUL [c]: the offset of the first [c] before
    the end of the C string, if any. *)
Fixpoint strchr (s : sds) (c : ascii) : option nat :=
  match s with
  | [] => None
  | x :: s' =>
      if Ascii.eqb x c then Some O
      else if Ascii.eqb x NUL then None
      else match strchr s' c with Some n => Some (S n) | None => None end
  end.

(** Modelled from the spec: [sdssplitlen(s,len," ",1,&argc)] from sds.c
    (not part of the sources) cuts the line at every space; two spaces in
    a row, or a space at either end, give an empty token. *)
Fixpoint sdssplit_go (s : sds) (cur : sds) : list sds :=
  match s with
  | [] => [rev cur]
  | c :: s' =>
      if Ascii.eqb c SP then rev cur :: sdssplit_go s' []
      else sdssplit_go s' (c :: cur)
  end.

Definition sdssplitlen (s : sds) : list sds := sdssplit_go s [].

Definition isspace (c : ascii) : bool :=
  let n := char_code c in (n =? 32) || ((9 <=? n) && (n <=? 13)).

Definition isdigit (c : ascii) : bool :=
  let n := char_code c in (48 <=? n) && (n <=? 57).

Fixpoint skip_spaces (s : sds) : sds :=
  match s with
  | c :: s' => if isspace c then skip_spaces s' else s
  | [] => []
  end.

Fixpoint digits_value (s : sds) (acc : Z) : Z :=
  match s with
  | c :: s' =>
      if isdigit c then digits_value s' (10 * acc + (char_code c - 48))
      else acc
  | [] => acc
  end.

(** The number a decimal prefix denotes: leading white space, an optional
    sign, then digits up to the first byte that is not one. *)
Definition decimal_prefix (s : sds) : Z :=
  match skip_spaces s with
  | c :: r =>
      if Ascii.eqb c "-"%char then - digits_value r 0
      else if Ascii.eqb c "+"%char then digits_value r 0
      else digits_value (c :: r) 0
  | [] => 0
  end.

Definition clamp (lo hi z : Z) : Z := Z.max lo (Z.min hi z).

(** [strtoll(s,&eptr,10)] of the C library: out of range values saturate. *)
Definition strtoll (s : sds) : Z := clamp LLONG_MIN LLONG_MAX (decimal_prefix s).

(** [atoi(s)] of the C library, that is [(int)strtol(s,NULL,10)] with a
    64-bit [long]. *)
Definition atoi (s : sds) : Z := to_int (strtoll s).

(** Decimal output of [printf]. *)
Definition digit_char (d : Z) : ascii := char_of (48 + d).

Fixpoint utoa (fuel : nat) (n : Z) (acc : sds) : sds :=
  match fuel with
  | O => acc
  | S f =>
      let acc' := digit_char (n mod 10) :: acc in
      if n / 10 =? 0 then acc' else utoa f (n / 10) acc'
  end.

Definition fmt_unsigned (n : Z) : sds := utoa (S (Z.to_nat (Z.log2 n))) n [].

(** ["%lld"] *)
Definition fmt_lld (v : Z) : sds :=
  if v <? 0 then "-"%char :: fmt_unsigned (- v) else fmt_unsigned v.

(** ["%d"]: the argument is read as an [int]. *)
Definition fmt_d (v : Z) : sds := fmt_lld (to_int v).

(** ["%lu"] with a 64-bit [unsigned long]. *)
Definition fmt_lu (v : Z) : sds := fmt_unsigned (v mod 2 ^ 64).

Definition crlf_bytes : sds := [CR; LF].

(** ** Glob-style pattern matching *)

(** A [char] widened to [int] (the [char] type is signed). *)
Definition char_int (c : ascii) : Z :=
  let n := char_code c in if 128 <=? n then n - 256 else n.

Definition tolower_int (n : Z) : Z :=
  if (65 <=? n) && (n <=? 90) then n + 32 else n.

Definition char_eqb (nocase : bool) (a b : ascii) : bool :=
  if nocase then tolower_int (char_int a) =? tolower_int (char_int b)
  else Ascii.eqb a b.

(** The string as [stringmatchlen] holds it.  [At bytes]: the pointer is on
    the first of [bytes], or on the terminating NUL of the sds when [bytes]
    is empty, and [stringLen] is the length of [bytes].  [Past]: a class or
    a NUL pattern byte has matched that terminator, the pointer is one past
    it and [stringLen] is -1. *)
Inductive str : Type :=
| At (bytes : sds)
| Past.

(** [string[0]]; there is no byte to read past the terminator. *)
Definition str_byte (string : str) : option ascii :=
  match string with
  | At bytes => Some (hd NUL bytes)
  | Past => None
  end.

(** [string++; stringLen--;] the pointer cannot move on from [Past]. *)
Definition str_next (string : str) : option str :=
  match string with
  | At (_ :: bytes) => Some (At bytes)
  | At [] => Some Past
  | Past => None
  end.

(** The [while(1)] loop of the ['['] case: [c] is [string[0]], the result
    is the [match] flag and the pattern after the class.  At its end the
    pattern reads as the terminating NUL of the sds, with [patternLen]
    being 0.  [None] stands for a read outside the pattern or the string,
    which the C language gives no meaning: a backslash that ends the
    pattern is followed by the terminator, which is compared, and then
    [pattern++; patternLen--] leaves -1 and the next round reads past the
    terminator. *)
Fixpoint match_class (nocase : bool) (pattern : sds) (c : option ascii)
    (matched : bool) : option (bool * sds) :=
  match pattern with
  | [] => Some (matched, [])
  | p0 :: rest =>
      if Ascii.eqb p0 "\"%char then
        match rest, c with
        | p1 :: rest', Some c0 =>
            match_class nocase rest' c (matched || Ascii.eqb p1 c0)
        | _, _ => None
        end
      else if Ascii.eqb p0 "]"%char then Some (matched, rest)
      else
        match c with
        | None => None
        | Some c0 =>
            match rest with
            | p1 :: p2 :: rest' =>
                if Ascii.eqb p1 "-"%char then
                  let lo := Z.min (char_int p0) (char_int p2) in
                  let hi := Z.max (char_int p0) (char_int p2) in
                  let lo := if nocase then tolower_int lo else lo in
                  let hi := if nocase then tolower_int hi else hi in
                  let ci := if nocase then tolower_int (char_int c0)
                            else char_int c0 in
                  match_class nocase rest' c
                    (matched || ((lo <=? ci) && (ci <=? hi)))
                else match_class nocase rest c (matched || char_eqb nocase p0 c0)
            | _ => match_class nocase rest c (matched || char_eqb nocase p0 c0)
            end
        end
  end.

Fixpoint skip_stars (pattern : sds) : sds :=
  match pattern with
  | c :: rest => if Ascii.eqb c "*"%char then skip_stars rest else pattern
  | [] => []
  end.

(** [stringmatchlen]: [patternLen] is the length of [pattern].  Every
    round of the outer loop consumes a pattern byte, which bounds the
    rounds by the fuel: a bound above the length of the pattern is never
    reached.  [None] stands for a read outside the pattern or the string,
    or a move of the string pointer further past its end. *)
Fixpoint stringmatchlen_go (fuel : nat) (pattern : sds) (string : str)
    (nocase : bool) : option bool :=
  match fuel with
  | O => None
  | S fuel' =>
      (* after [pattern++; patternLen--]: [if (stringLen == 0)] the stars
         that follow are skipped and the loop ends *)
      let continue (pattern : sds) (string : str) : option bool :=
        match string with
        | At [] => Some (bool_decide (skip_stars pattern = []))
        | _ => stringmatchlen_go fuel' pattern string nocase
        end in
      match pattern with
      | [] =>
          (* patternLen == 0 && stringLen == 0 *)
          Some (match string with At [] => true | _ => false end)
      | p0 :: rest =>
          if Ascii.eqb p0 "*"%char then
            let rest := skip_stars rest in
            match rest with
            | [] => Some true
            | _ =>
                match string with
                | At bytes =>
                    (fix star (str : sds) : option bool :=
                       match str with
                       | [] => Some false
                       | _ :: str' =>
                           match stringmatchlen_go fuel' rest (At str) nocase with
                           | Some true => Some true
                           | Some false => star str'
                           | None => None
                           end
                       end) bytes
                | Past =>
                    (* [while(stringLen)] with -1: after a call that does
                       not match comes [string++] *)
                    match stringmatchlen_go fuel' rest Past nocase with
                    | Some true => Some true
                    | _ => None
                    end
                end
            end
          else if Ascii.eqb p0 "?"%char then
            match string with
            | At [] => Some false
            | At (_ :: string') => continue rest (At string')
            | Past => None
            end
          else if Ascii.eqb p0 "["%char then
            let not := Ascii.eqb (hd NUL rest) "^"%char in
            let rest := if not then tl rest else rest in
            match match_class nocase rest (str_byte string) false with
            | None => None
            | Some (matched, rest) =>
                if xorb not matched then
                  match str_next string with
                  | Some string' => continue rest string'
                  | None => None
                  end
                else Some false
            end
          else
            let '(p0, rest) :=
              match rest with
              | p1 :: rest' =>
                  if Ascii.eqb p0 "\"%char then (p1, rest') else (p0, rest)
              | [] => (p0, rest)
              end in
            match str_byte string, str_next string with
            | Some c0, Some string' =>
                if char_eqb nocase p0 c0 then continue rest string'
                else Some false
            | _, _ => None
            end
      end
  end.

Definition stringmatchlen (pattern string : sds) (nocase : bool) : option bool :=
  stringmatchlen_go (S (length pattern)) pattern (At string) nocase.

(** ** Hash tables *)

(** Modelled from the spec: dict.c is not part of the sources.  A hash
    table with string keys is a finite map; [dictAdd] refuses a key that is
    present, [dictReplace] overwrites, [dictDelete] reports whether the key
    was there, and the iterator visits every entry once. *)
Definition DICT_OK : Z := 0.
Definition DICT_ERR : Z := 1.

Section Dict.
Context {V : Type}.

Definition dictFind (d : gmap sds V) (key : sds) : option V := d !! key.

Definition dictAdd (d : gmap sds V) (key : sds) (val : V) : Z * gmap sds V :=
  match d !! key with
  | Some _ => (DICT_ERR, d)
  | None => (DICT_OK, <[key := val]> d)
  end.

Definition dictReplace (d : gmap sds V) (key : sds) (val : V) : gmap sds V :=
  <[key := val]> d.

Definition dictDelete (d : gmap sds V) (key : sds) : Z * gmap sds V :=
  match d !! key with
  | Some _ => (DICT_OK, delete key d)
  | None => (DICT_ERR, d)
  end.

Definition dictGetHashTableUsed (d : gmap sds V) : Z := Z.of_nat (size d).

(** The entries in the order [dictNext] yields them. *)
Definition dictEntries (d : gmap sds V) : list (sds * V) := map_to_list d.
End Dict.

(** ** Redis objects *)

(** [robj]: the [type] tag together with the payload [ptr] points to.  A
    list holds object pointers; a set is a hash table (setDictType) whose
    keys are object pointers, found by the string they hold. *)
Inductive robj : Type :=
| StringObject (ptr : sds)
| ListObject (ptr : list robj)
| SetObject (ptr : gmap sds robj).

Definition obj_type (o : robj) : Z :=
  match o with
  | StringObject _ => REDIS_STRING
  | ListObject _ => REDIS_LIST
  | SetObject _ => REDIS_SET
  end.

(** [o->ptr] read as an sds, as the code does with argv entries, keys and
    container elements. *)
Definition sds_ptr (o : robj) : sds :=
  match o with
  | StringObject s => s
  | _ => []
  end.

Definition createStringObject (ptr : sds) (len : Z) : robj :=
  StringObject (sdsnewlen ptr len).
Definition createListObject : robj := ListObject [].
Definition createSetObject : robj := SetObject ∅.

(** ** Server and client state *)

Record saveparam := mkSaveparam { seconds : Z; changes : Z }.

(** [c_dict] is the index [j] with [c->dict == server.dict[j]];
    [argc] is the length of [c_argv]. *)
Record redisClient := mkClient {
  c_fd : Z;
  c_dict : nat;
  c_querybuf : sds;
  c_argv : list robj;
  c_bulklen : Z;
  c_reply : list robj;
  c_sentlen : Z;
  c_lastinteraction : Z
}.

(** [dbnum] is the length of [s_dict].  The last three fields are the
    environment of the process: what [time(NULL)] returns, the content of
    the file dump.rdb in the working directory, and the entry the random
    source of [dictGetRandomKey] selects. *)
Record redisServer := mkServer {
  s_dict : list (gmap sds robj);
  s_dirty : Z;
  s_cronloops : Z;
  s_maxidletime : Z;
  s_bgsaveinprogress : bool;
  s_lastsave : Z;
  s_saveparams : list saveparam;
  s_time : Z;
  s_dumpfile : option sds;
  s_random : nat
}.

Definition dbnum (s : redisServer) : Z := Z.of_nat (length (s_dict s)).

Definition set_querybuf (c : redisClient) (q : sds) : redisClient :=
  mkClient (c_fd c) (c_dict c) q (c_argv c) (c_bulklen c) (c_reply c)
    (c_sentlen c) (c_lastinteraction c).
Definition set_argv (c : redisClient) (a : list robj) : redisClient :=
  mkClient (c_fd c) (c_dict c) (c_querybuf c) a (c_bulklen c) (c_reply c)
    (c_sentlen c) (c_lastinteraction c).
Definition set_bulklen (c : redisClient) (n : Z) : redisClient :=
  mkClient (c_fd c) (c_dict c) (c_querybuf c) (c_argv c) n (c_reply c)
    (c_sentlen c) (c_lastinteraction c).
Definition set_reply (c : redisClient) (r : list robj) : redisClient :=
  mkClient (c_fd c) (c_dict c) (c_querybuf c) (c_argv c) (c_bulklen c) r
    (c_sentlen c) (c_lastinteraction c).
Definition set_c_dict (c : redisClient) (j : nat) : redisClient :=
  mkClient (c_fd c) j (c_querybuf c) (c_argv c) (c_bulklen c) (c_reply c)
    (c_sentlen c) (c_lastinteraction c).
Definition set_sentlen (c : redisClient) (n : Z) : redisClient :=
  mkClient (c_fd c) (c_dict c) (c_querybuf c) (c_argv c) (c_bulklen c)
    (c_reply c) n (c_lastinteraction c).
Definition set_lastinteraction (c : redisClient) (t : Z) : redisClient :=
  mkClient (c_fd c) (c_dict c) (c_querybuf c) (c_argv c) (c_bulklen c)
    (c_reply c) (c_sentlen c) t.

Definition set_s_dict (s : redisServer) (d : list (gmap sds robj)) : redisServer :=
  mkServer d (s_dirty s) (s_cronloops s) (s_maxidletime s)
    (s_bgsaveinprogress s) (s_lastsave s) (s_saveparams s) (s_time s)
    (s_dumpfile s) (s_random s).
Definition set_dirty (s : redisServer) (n : Z) : redisServer :=
  mkServer (s_dict s) n (s_cronloops s) (s_maxidletime s)
    (s_bgsaveinprogress s) (s_lastsave s) (s_saveparams s) (s_time s)
    (s_dumpfile s) (s_random s).
Definition set_cronloops (s : redisServer) (n : Z) : redisServer :=
  mkServer (s_dict s) (s_dirty s) n (s_maxidletime s)
    (s_bgsaveinprogress s) (s_lastsave s) (s_saveparams s) (s_time s)
    (s_dumpfile s) (s_random s).
Definition set_bgsaveinprogress (s : redisServer) (b : bool) : redisServer :=
  mkServer (s_dict s) (s_dirty s) (s_cronloops s) (s_maxidletime s) b
    (s_lastsave s) (s_saveparams s) (s_time s) (s_dumpfile s) (s_random s).
Definition set_lastsave (s : redisServer) (t : Z) : redisServer :=
  mkServer (s_dict s) (s_dirty s) (s_cronloops s) (s_maxidletime s)
    (s_bgsaveinprogress s) t (s_saveparams s) (s_time s) (s_dumpfile s)
    (s_random s).
Definition set_time (s : redisServer) (t : Z) : redisServer :=
  mkServer (s_dict s) (s_dirty s) (s_cronloops s) (s_maxidletime s)
    (s_bgsaveinprogress s) (s_lastsave s) (s_saveparams s) t (s_dumpfile s)
    (s_random s).
Definition set_dumpfile (s : redisServer) (f : option sds) : redisServer :=
  mkServer (s_dict s) (s_dirty s) (s_cronloops s) (s_maxidletime s)
    (s_bgsaveinprogress s) (s_lastsave s) (s_saveparams s) (s_time s) f
    (s_random s).

(** [server.dirty++] on a [long long]. *)
Definition incr_dirty (s : redisServer) : redisServer :=
  set_dirty s (to_longlong (s_dirty s + 1)).

(** The database [c->dict] points to, and the store through that pointer. *)
Definition client_dict (c : redisClient) (s : redisServer) : gmap sds robj :=
  default ∅ (s_dict s !! c_dict c).
Definition set_client_dict (c : redisClient) (s : redisServer)
    (d : gmap sds robj) : redisServer :=
  set_s_dict s (<[c_dict c := d]> (s_dict s)).

(** [c->argv[i]]; the arity check of [processCommand] keeps [i] below
    [argc]. *)
Definition argv_at (c : redisClient) (i : nat) : robj :=
  nth i (c_argv c) (StringObject []).
Definition argc (c : redisClient) : Z := Z.of_nat (length (c_argv c)).

(** ** Shared reply objects ([createSharedObjects]) *)

Module shared.
Definition crlf : robj := StringObject crlf_bytes.
Definition ok : robj := StringObject (sdsnew "+OK" ++ crlf_bytes).
Definition err : robj := StringObject (sdsnew "-ERR" ++ crlf_bytes).
Definition zerobulk : robj :=
  StringObject (sdsnew "0" ++ crlf_bytes ++ crlf_bytes).
Definition nil : robj := StringObject (sdsnew "nil" ++ crlf_bytes).
Definition zero : robj := StringObject (sdsnew "0" ++ crlf_bytes).
Definition one : robj := StringObject (sdsnew "1" ++ crlf_bytes).
Definition minus1 : robj := StringObject (sdsnew "-1" ++ crlf_bytes).
Definition minus2 : robj := StringObject (sdsnew "-2" ++ crlf_bytes).
Definition minus3 : robj := StringObject (sdsnew "-3" ++ crlf_bytes).
Definition minus4 : robj := StringObject (sdsnew "-4" ++ crlf_bytes).
Definition pong : robj := StringObject (sdsnew "+PONG" ++ crlf_bytes).
Definition wrongtypeerr : robj :=
  StringObject
    (sdsnew "-ERR Operation against a key holding the wrong kind of value"
     ++ crlf_bytes).
Definition wrongtypeerrbulk : robj :=
  StringObject
    (fmt_d (- sdslen (sds_ptr wrongtypeerr) + 2) ++ crlf_bytes
     ++ sds_ptr wrongtypeerr).
Definition nokeyerr : robj :=
  StringObject (sdsnew "-ERR no suck key" ++ crlf_bytes).
Definition nokeyerrbulk : robj :=
  StringObject
    (fmt_d (- sdslen (sds_ptr nokeyerr) + 2) ++ crlf_bytes
     ++ sds_ptr nokeyerr).
Definition space : robj := StringObject (sdsnew " ").
End shared.

(** ** Replies *)

(** [addReply] appends the object to the client's reply list (the event
    loop is taken to accept the writable handler). *)
Definition addReply (c : redisClient) (obj : robj) : redisClient :=
  set_reply c (c_reply c ++ [obj]).

Definition addReplySds (c : redisClient) (s : sds) : redisClient :=
  addReply c (StringObject s).

(** The bytes a reply list puts on the wire. *)
Definition reply_bytes (r : list robj) : sds := concat (map sds_ptr r).

(** ** DB saving / loading *)

(** The four bytes [htonl(n)] leaves in memory: most significant first. *)
Definition htonl_bytes (n : Z) : sds :=
  let n := to_uint32 n in
  [char_of (n / 2 ^ 24); char_of (n / 2 ^ 16 mod 256);
   char_of (n / 2 ^ 8 mod 256); char_of (n mod 256)].

Definition ntohl_bytes (b : sds) : Z :=
  match b with
  | [b0; b1; b2; b3] =>
      char_code b0 * 2 ^ 24 + char_code b1 * 2 ^ 16
      + char_code b2 * 2 ^ 8 + char_code b3
  | _ => 0
  end.

(** [fwrite(ptr,size,1,fp)]: the file is the list of bytes written so far.
    The call returns 0, here [None], when [size] is 0; the file system is
    taken to accept every other write. *)
Definition fwrite (data : sds) (fp : sds) : option sds :=
  if sdslen data =? 0 then None else Some (fp ++ data).

(** The length word, then the bytes unless there are none
    ([sdslen(s) && fwrite(...)]). *)
Definition save_string (s : sds) (fp : sds) : option sds :=
  fp ← fwrite (htonl_bytes (sdslen s)) fp;
  if sdslen s =? 0 then Some fp else fwrite s fp.

Fixpoint save_elements (l : list robj) (fp : sds) : option sds :=
  match l with
  | [] => Some fp
  | eleobj :: ln => fp ← save_string (sds_ptr eleobj) fp; save_elements ln fp
  end.

Definition save_entry (key : sds) (o : robj) (fp : sds) : option sds :=
  fp ← fwrite [char_of (to_uint8 (obj_type o))] fp;
  fp ← fwrite (htonl_bytes (sdslen key)) fp;
  fp ← fwrite key fp;
  match o with
  | StringObject sval => save_string sval fp
  | ListObject l =>
      fp ← fwrite (htonl_bytes (Z.of_nat (length l))) fp;
      save_elements l fp
  | SetObject set =>
      fp ← fwrite (htonl_bytes (dictGetHashTableUsed set)) fp;
      save_elements (snd <$> dictEntries set) fp
  end.

Fixpoint save_entries (l : list (sds * robj)) (fp : sds) : option sds :=
  match l with
  | [] => Some fp
  | (key, o) :: l' => fp ← save_entry key o fp; save_entries l' fp
  end.

(** The loop over [server.dict[j]], from index [j] on. *)
Fixpoint save_dbs (j : Z) (dbs : list (gmap sds robj)) (fp : sds) : option sds :=
  match dbs with
  | [] => Some fp
  | d :: dbs' =>
      if dictGetHashTableUsed d =? 0 then save_dbs (j + 1) dbs' fp
      else
        fp ← fwrite [char_of REDIS_SELECTDB] fp;
        fp ← fwrite (htonl_bytes j) fp;
        fp ← save_entries (dictEntries d) fp;
        save_dbs (j + 1) dbs' fp
  end.

(** What a successful [saveDb] leaves in the temporary file. *)
Definition rdb_image (dbs : list (gmap sds robj)) : option sds :=
  fp ← fwrite (sdsnew "REDIS0000") [];
  fp ← save_dbs 0 dbs fp;
  fwrite [char_of REDIS_EOF] fp.

(** [saveDb("dump.rdb")]: on success the temporary file is renamed over the
    dump file, [dirty] is cleared and [lastsave] is set; on a write error
    the temporary file is removed. *)
Definition saveDb (s : redisServer) : Z * redisServer :=
  match rdb_image (s_dict s) with
  | Some fp =>
      (REDIS_OK, set_lastsave (set_dirty (set_dumpfile s (Some fp)) 0) (s_time s))
  | None => (REDIS_ERR, s)
  end.

(** [saveDbBackground]: the child writes the snapshot in its own process;
    the parent only records that a save is in progress. *)
Definition saveDbBackground (s : redisServer) : Z * redisServer :=
  if s_bgsaveinprogress s then (REDIS_ERR, s)
  else (REDIS_OK, set_bgsaveinprogress s true).

(** How [loadDb] can end other than by returning [REDIS_OK]. *)
Inductive load_error : Type :=
| NoFile        (* fopen failed: return REDIS_ERR *)
| WrongSignature (* return REDIS_ERR *)
| ShortRead     (* eoferr: exit(1) *)
| TooManyDbs    (* exit(1) *)
| DuplicatedKey (* exit(1) *)
| UnknownType   (* assert(0 != 0) *)
| OutOfMemory.  (* oom("dictAdd"): abort *)

Inductive loading (A : Type) : Type :=
| Got (a : A)
| Stop (e : load_error).
Arguments Got {A} a.
Arguments Stop {A} e.

Global Instance loading_ret : MRet loading := λ A a, Got a.
Global Instance loading_bind : MBind loading := λ A B k m,
  match m with
  | Got a => k a
  | Stop e => Stop e
  end.

(** [fread(buf,size,1,fp) == 0] sends the loader to [eoferr]: when [size]
    is 0, and when fewer than [size] bytes are left.  The result is the
    item read and the rest of the file. *)
Definition fread (size : Z) (fp : sds) : loading (sds * sds) :=
  if (size =? 0) || (sdslen fp <? size) then Stop ShortRead
  else Got (take (Z.to_nat size) fp, drop (Z.to_nat size) fp).

Definition load_u32 (fp : sds) : loading (Z * sds) :=
  '(b, fp) ← fread 4 fp; Got (ntohl_bytes b, fp).

(** A length word, then that many bytes unless the length is 0
    ([vlen && fread(...)]). *)
Definition load_string (fp : sds) : loading (sds * sds) :=
  '(vlen, fp) ← load_u32 fp;
  if vlen =? 0 then Got ([], fp) else fread vlen fp.

(** [while(listlen--)], with [add] the insertion into the container
    being built.  Every round reads at least the four bytes of a length
    word, so the bytes left bound the number of rounds. *)
Fixpoint load_elements {A : Type} (add : A → robj → loading A)
    (fuel : nat) (listlen : Z) (acc : A) (fp : sds) : loading (A * sds) :=
  if listlen =? 0 then Got (acc, fp)
  else
    match fuel with
    | O => Stop ShortRead
    | S fuel' =>
        '(val, fp) ← load_string fp;
        acc ← add acc (StringObject val);
        load_elements add fuel' (to_uint32 (listlen - 1)) acc fp
    end.

(** [listAddNodeTail] on the list being loaded. *)
Definition load_list_add (l : list robj) (ele : robj) : loading (list robj) :=
  Got (l ++ [ele]).

(** [dictAdd] on the set being loaded, fatal when the member is there. *)
Definition load_set_add (set : gmap sds robj) (ele : robj)
    : loading (gmap sds robj) :=
  let '(retval, set') := dictAdd set (sds_ptr ele) ele in
  if retval =? DICT_ERR then Stop OutOfMemory else Got set'.

Definition load_value (type : Z) (fp : sds) : loading (robj * sds) :=
  if type =? REDIS_STRING then
    '(val, fp) ← load_string fp; Got (StringObject val, fp)
  else if type =? REDIS_LIST then
    '(listlen, fp) ← load_u32 fp;
    '(l, fp) ← load_elements load_list_add (length fp) listlen [] fp;
    Got (ListObject l, fp)
  else if type =? REDIS_SET then
    '(listlen, fp) ← load_u32 fp;
    '(set, fp) ← load_elements load_set_add (length fp) listlen ∅ fp;
    Got (SetObject set, fp)
  else Stop UnknownType.

(** The [while(1)] loop; [d] is the index of the database selected last.
    Every round reads at least the type byte. *)
Fixpoint load_records (fuel : nat) (dbs : list (gmap sds robj)) (d : nat)
    (fp : sds) : loading (list (gmap sds robj)) :=
  match fuel with
  | O => Stop ShortRead
  | S fuel' =>
      '(t, fp) ← fread 1 fp;
      let type := char_code (hd NUL t) in
      if type =? REDIS_EOF then Got dbs
      else if type =? REDIS_SELECTDB then
        '(dbid, fp) ← load_u32 fp;
        if dbid >=? Z.of_nat (length dbs) then Stop TooManyDbs
        else load_records fuel' dbs (Z.to_nat dbid) fp
      else
        '(klen, fp) ← load_u32 fp;
        '(key, fp) ← fread klen fp;
        '(o, fp) ← load_value type fp;
        let '(retval, d') := dictAdd (default ∅ (dbs !! d)) key o in
        if retval =? DICT_ERR then Stop DuplicatedKey
        else load_records fuel' (<[d := d']> dbs) d fp
  end.

(** [loadDb("dump.rdb")] on the databases of the server. *)
Definition loadDb (s : redisServer) : loading redisServer :=
  match s_dumpfile s with
  | None => Stop NoFile
  | Some fp =>
      '(buf, fp) ← fread 9 fp;
      if negb (sds_eqb buf (sdsnew "REDIS0000")) then Stop WrongSignature
      else
        dbs ← load_records (S (length fp)) (s_dict s) 0 fp;
        Got (set_s_dict s dbs)
  end.

(** How a handler or a command procedure leaves its client: still valid,
    destroyed by [freeClient], the process gone through [exit], or in a
    way the C language gives no meaning ([processCommand] reading
    [c->argv[0]] of an empty argv, a read past the end of an array, an
    object that is no sds handed on as one, a call through a NULL
    pointer): then no behaviour is given. *)
Inductive outcome : Type :=
| Alive (c : redisClient) (s : redisServer)
| Freed (s : redisServer)
| Exited
| Undefined.

(** ** Commands *)

(** The key a command names: the string its argv entry holds. *)
Definition key_at (c : redisClient) (i : nat) : sds := sds_ptr (argv_at c i).

(** The header of a bulk item: ["%d\r\n"] of a length. *)
Definition bulk_header (len : Z) : sds := fmt_d len ++ crlf_bytes.

Definition pingCommand (c : redisClient) (s : redisServer)
    : redisClient * redisServer :=
  (addReply c shared.pong, s).

Definition echoCommand (c : redisClient) (s : redisServer)
    : redisClient * redisServer :=
  let c := addReplySds c (bulk_header (sdslen (sds_ptr (argv_at c 1)))) in
  let c := addReply c (argv_at c 1) in
  (addReply c shared.crlf, s).

(** *** Strings *)

Definition setGenericCommand (nx : bool) (c : redisClient) (s : redisServer)
    : redisClient * redisServer :=
  let '(retval, d) := dictAdd (client_dict c s) (key_at c 1) (argv_at c 2) in
  if retval =? DICT_ERR then
    if negb nx then
      let d := dictReplace d (key_at c 1) (argv_at c 2) in
      (addReply c (if nx then shared.one else shared.ok),
       incr_dirty (set_client_dict c s d))
    else (addReply c shared.zero, s)
  else
    (addReply c (if nx then shared.one else shared.ok),
     incr_dirty (set_client_dict c s d)).

Definition setCommand := setGenericCommand false.
Definition setnxCommand := setGenericCommand true.

Definition getCommand (c : redisClient) (s : redisServer)
    : redisClient * redisServer :=
  match dictFind (client_dict c s) (key_at c 1) with
  | None => (addReply c shared.nil, s)
  | Some o =>
      if negb (obj_type o =? REDIS_STRING) then
        (addReply c shared.wrongtypeerrbulk, s)
      else
        let c := addReplySds c (bulk_header (sdslen (sds_ptr o))) in
        let c := addReply c o in
        (addReply c shared.crlf, s)
  end.

(** The [long long] the key currently reads as. *)
Definition incr_current (d : gmap sds robj) (key : sds) : Z :=
  match dictFind d key with
  | None => 0
  | Some o =>
      if negb (obj_type o =? REDIS_STRING) then 0 else strtoll (sds_ptr o)
  end.

Definition incrDecrCommand (incr : Z) (c : redisClient) (s : redisServer)
    : redisClient * redisServer :=
  let value := incr_current (client_dict c s) (key_at c 1) in
  let value := to_longlong (value + incr) in
  let o := StringObject (fmt_lld value) in
  let '(retval, d) := dictAdd (client_dict c s) (key_at c 1) o in
  let d := if retval =? DICT_ERR then dictReplace d (key_at c 1) o else d in
  let c := addReply c o in
  (addReply c shared.crlf, incr_dirty (set_client_dict c s d)).

Definition incrCommand := incrDecrCommand 1.
Definition decrCommand := incrDecrCommand (-1).

Definition incrbyCommand (c : redisClient) (s : redisServer)
    : redisClient * redisServer :=
  let incr := atoi (sds_ptr (argv_at c 2)) in
  incrDecrCommand incr c s.

Definition decrbyCommand (c : redisClient) (s : redisServer)
    : redisClient * redisServer :=
  let incr := atoi (sds_ptr (argv_at c 2)) in
  incrDecrCommand (to_int (- incr)) c s.

(** *** Type agnostic commands *)

Definition delCommand (c : redisClient) (s : redisServer)
    : redisClient * redisServer :=
  let '(retval, d) := dictDelete (client_dict c s) (key_at c 1) in
  if retval =? DICT_OK then
    (addReply c shared.one, incr_dirty (set_client_dict c s d))
  else (addReply c shared.zero, s).

Definition existsCommand (c : redisClient) (s : redisServer)
    : redisClient * redisServer :=
  match dictFind (client_dict c s) (key_at c 1) with
  | None => (addReply c shared.zero, s)
  | Some _ => (addReply c shared.one, s)
  end.

Definition selectDb (c : redisClient) (s : redisServer) (id : Z)
    : Z * redisClient :=
  if (id <? 0) || (id >=? dbnum s) then (REDIS_ERR, c)
  else (REDIS_OK, set_c_dict c (Z.to_nat id)).

(** On an invalid index the error line is handed to [addReplySds] as a
    C string literal, not as an sds made by [sdsnew]: the object queued
    has no sds header for [sdslen] to read when the reply is sent, and
    [sdsfree] cannot free it.  A reply list holds sds strings only: the
    client this call leaves is none that has a meaning. *)
Definition selectCommand (c : redisClient) (s : redisServer) : outcome :=
  let id := atoi (sds_ptr (argv_at c 1)) in
  let '(retval, c) := selectDb c s id in
  if retval =? REDIS_ERR then Undefined
  else Alive (addReply c shared.ok) s.

Definition randomkeyCommand (c : redisClient) (s : redisServer)
    : redisClient * redisServer :=
  let entries := dictEntries (client_dict c s) in
  match entries !! (s_random s mod length entries)%nat with
  | None => (addReply c shared.crlf, s)
  | Some (key, _) =>
      let c := addReply c (StringObject key) in
      (addReply c shared.crlf, s)
  end.

(** The loop of [keysCommand] over the entries of the database. *)
Fixpoint keys_loop (pattern : sds) (entries : list (sds * robj))
    (c : redisClient) (numkeys keyslen : Z) : option (redisClient * Z * Z) :=
  match entries with
  | [] => Some (c, numkeys, keyslen)
  | (key, _) :: rest =>
      match (if sds_eqb (cstr pattern) (sdsnew "*") then Some true
             else stringmatchlen pattern key false) with
      | Some true =>
          let c := if negb (numkeys =? 0) then addReply c shared.space else c in
          let c := addReply c (StringObject key) in
          keys_loop pattern rest c (to_int (numkeys + 1))
            (to_int (keyslen + sdslen key))
      | Some false => keys_loop pattern rest c numkeys keyslen
      | None => None
      end
  end.

(** [lenobj] is appended first and its string is filled in after the
    loop: the slot it occupies in the reply list is rewritten. *)
Definition keysCommand (c : redisClient) (s : redisServer) : outcome :=
  let pattern := sds_ptr (argv_at c 1) in
  let slot := length (c_reply c) in
  let c := addReply c (StringObject []) in
  match keys_loop pattern (dictEntries (client_dict c s)) c 0 0 with
  | None => Undefined
  | Some (c, numkeys, keyslen) =>
      let total := keyslen + (if negb (numkeys =? 0) then numkeys - 1 else 0) in
      let lenobj := StringObject (fmt_lu (to_int total) ++ crlf_bytes) in
      let c := set_reply c (<[slot := lenobj]> (c_reply c)) in
      Alive (addReply c shared.crlf) s
  end.

Definition dbsizeCommand (c : redisClient) (s : redisServer)
    : redisClient * redisServer :=
  (addReplySds c
     (fmt_lu (dictGetHashTableUsed (client_dict c s)) ++ crlf_bytes), s).

Definition lastsaveCommand (c : redisClient) (s : redisServer)
    : redisClient * redisServer :=
  (addReplySds c (fmt_lu (s_lastsave s) ++ crlf_bytes), s).

Definition typeCommand (c : redisClient) (s : redisServer)
    : redisClient * redisServer :=
  let type :=
    match dictFind (client_dict c s) (key_at c 1) with
    | None => sdsnew "none"
    | Some (StringObject _) => sdsnew "string"
    | Some (ListObject _) => sdsnew "list"
    | Some (SetObject _) => sdsnew "set"
    end in
  let c := addReplySds c type in
  (addReply c shared.crlf, s).

Definition saveCommand (c : redisClient) (s : redisServer)
    : redisClient * redisServer :=
  let '(retval, s) := saveDb s in
  if retval =? REDIS_OK then (addReply c shared.ok, s)
  else (addReply c shared.err, s).

Definition bgsaveCommand (c : redisClient) (s : redisServer)
    : redisClient * redisServer :=
  if s_bgsaveinprogress s then
    (addReplySds c
       (sdsnew "-ERR background save already in progress" ++ crlf_bytes), s)
  else
    let '(retval, s) := saveDbBackground s in
    if retval =? REDIS_OK then (addReply c shared.ok, s)
    else (addReply c shared.err, s).

(** [shutdownCommand] leaves the process through [exit(1)] when the save
    succeeds. *)
Definition shutdownCommand (c : redisClient) (s : redisServer) : outcome :=
  let '(retval, s) := saveDb s in
  if retval =? REDIS_OK then Exited
  else
    Alive (addReplySds c
             (sdsnew "-ERR can't quit, problems saving the DB" ++ crlf_bytes)) s.

Definition renameGenericCommand (nx : bool) (c : redisClient) (s : redisServer)
    : redisClient * redisServer :=
  if sds_eqb (key_at c 1) (key_at c 2) then
    if nx then (addReply c shared.minus3, s)
    else
      (addReplySds c
         (sdsnew "-ERR src and dest key are the same" ++ crlf_bytes), s)
  else
    match dictFind (client_dict c s) (key_at c 1) with
    | None =>
        if nx then (addReply c shared.minus1, s)
        else (addReply c shared.nokeyerr, s)
    | Some o =>
        let '(retval, d) := dictAdd (client_dict c s) (key_at c 2) o in
        if (retval =? DICT_ERR) && nx then (addReply c shared.zero, s)
        else
          let d := if retval =? DICT_ERR then dictReplace d (key_at c 2) o else d in
          let '(_, d) := dictDelete d (key_at c 1) in
          (addReply c (if nx then shared.one else shared.ok),
           incr_dirty (set_client_dict c s d))
    end.

Definition renameCommand := renameGenericCommand false.
Definition renamenxCommand := renameGenericCommand true.

Definition moveCommand (c : redisClient) (s : redisServer)
    : redisClient * redisServer :=
  let src := c_dict c in
  let '(retval, c') := selectDb c s (atoi (sds_ptr (argv_at c 2))) in
  if retval =? REDIS_ERR then (addReply c shared.minus4, s)
  else
    let dst := c_dict c' in
    if bool_decide (src = dst) then (addReply c shared.minus3, s)
    else
      match dictFind (client_dict c s) (key_at c 1) with
      | None => (addReply c shared.zero, s)
      | Some o =>
          let '(retval, d) := dictAdd (client_dict c' s) (key_at c 1) o in
          if retval =? DICT_ERR then (addReply c shared.zero, s)
          else
            let s := set_client_dict c' s d in
            let '(_, d) := dictDelete (client_dict c s) (key_at c 1) in
            (addReply c shared.one, incr_dirty (set_client_dict c s d))
      end.

(** *** Lists *)

(** Modelled from the spec: adlist.c is not part of the sources.
    [listIndex(list,index)] counts from the head for [index >= 0] and from
    the tail for a negative one ([-1] is the last node); the result is the
    position of the node, [None] for NULL. *)
Definition listIndex {A : Type} (l : list A) (index : Z) : option nat :=
  let len := Z.of_nat (length l) in
  let i := if index <? 0 then len + index else index in
  if (0 <=? i) && (i <? len) then Some (Z.to_nat i) else None.

Definition listLength {A : Type} (l : list A) : Z := Z.of_nat (length l).

(** [listDelNode] on the first and on the last node. *)
Definition listDelFirst {A : Type} (l : list A) : list A := tail l.
Definition listDelLast {A : Type} (l : list A) : list A := removelast l.

Definition pushGenericCommand (where_ : Z) (c : redisClient) (s : redisServer)
    : redisClient * redisServer :=
  match dictFind (client_dict c s) (key_at c 1) with
  | None =>
      let l := if where_ =? REDIS_HEAD then argv_at c 2 :: [] else [] ++ [argv_at c 2] in
      let '(_, d) := dictAdd (client_dict c s) (key_at c 1) (ListObject l) in
      (addReply c shared.ok, incr_dirty (set_client_dict c s d))
  | Some (ListObject l) =>
      let l := if where_ =? REDIS_HEAD then argv_at c 2 :: l else l ++ [argv_at c 2] in
      let d := <[key_at c 1 := ListObject l]> (client_dict c s) in
      (addReply c shared.ok, incr_dirty (set_client_dict c s d))
  | Some _ => (addReply c shared.wrongtypeerr, s)
  end.

Definition lpushCommand := pushGenericCommand REDIS_HEAD.
Definition rpushCommand := pushGenericCommand REDIS_TAIL.

Definition llenCommand (c : redisClient) (s : redisServer)
    : redisClient * redisServer :=
  match dictFind (client_dict c s) (key_at c 1) with
  | None => (addReply c shared.zero, s)
  | Some (ListObject l) => (addReplySds c (bulk_header (listLength l)), s)
  | Some _ => (addReply c shared.minus2, s)
  end.

(** The three items of one bulk element: header, the object, CRLF. *)
Definition addReplyBulk (c : redisClient) (ele : robj) : redisClient :=
  let c := addReplySds c (bulk_header (sdslen (sds_ptr ele))) in
  let c := addReply c ele in
  addReply c shared.crlf.

Definition lindexCommand (c : redisClient) (s : redisServer)
    : redisClient * redisServer :=
  let index := atoi (sds_ptr (argv_at c 2)) in
  match dictFind (client_dict c s) (key_at c 1) with
  | None => (addReply c shared.nil, s)
  | Some (ListObject l) =>
      match ln ← listIndex l index; l !! ln with
      | None => (addReply c shared.nil, s)
      | Some ele => (addReplyBulk c ele, s)
      end
  | Some _ => (addReply c shared.wrongtypeerrbulk, s)
  end.

Definition lsetCommand (c : redisClient) (s : redisServer)
    : redisClient * redisServer :=
  let index := atoi (sds_ptr (argv_at c 2)) in
  match dictFind (client_dict c s) (key_at c 1) with
  | None => (addReply c shared.nokeyerr, s)
  | Some (ListObject l) =>
      match listIndex l index with
      | None =>
          (addReplySds c (sdsnew "-ERR index out of range" ++ crlf_bytes), s)
      | Some ln =>
          let l := <[ln := argv_at c 3]> l in
          let d := <[key_at c 1 := ListObject l]> (client_dict c s) in
          (addReply c shared.ok, incr_dirty (set_client_dict c s d))
      end
  | Some _ => (addReply c shared.wrongtypeerr, s)
  end.

Definition popGenericCommand (where_ : Z) (c : redisClient) (s : redisServer)
    : redisClient * redisServer :=
  match dictFind (client_dict c s) (key_at c 1) with
  | None => (addReply c shared.nil, s)
  | Some (ListObject l) =>
      let ln := if where_ =? REDIS_HEAD then head l else last l in
      match ln with
      | None => (addReply c shared.nil, s)
      | Some ele =>
          let c := addReplyBulk c ele in
          let l := if where_ =? REDIS_HEAD then listDelFirst l else listDelLast l in
          let d := <[key_at c 1 := ListObject l]> (client_dict c s) in
          (c, incr_dirty (set_client_dict c s d))
      end
  | Some _ => (addReply c shared.wrongtypeerrbulk, s)
  end.

Definition lpopCommand := popGenericCommand REDIS_HEAD.
Definition rpopCommand := popGenericCommand REDIS_TAIL.

(** The [for] loop of [lrangeCommand]: [ln] is the list from the current
    node on, [ln->next] its tail. *)
Fixpoint lrange_loop (rangelen : nat) (ln : list robj) (c : redisClient)
    : redisClient :=
  match rangelen, ln with
  | S j, ele :: next => lrange_loop j next (addReplyBulk c ele)
  | _, _ => c
  end.

Definition lrangeCommand (c : redisClient) (s : redisServer)
    : redisClient * redisServer :=
  let start := atoi (sds_ptr (argv_at c 2)) in
  let end_ := atoi (sds_ptr (argv_at c 3)) in
  match dictFind (client_dict c s) (key_at c 1) with
  | None => (addReply c shared.nil, s)
  | Some (ListObject l) =>
      let llen := to_int (listLength l) in
      (* convert negative indexes *)
      let start := if start <? 0 then to_int (llen + start) else start in
      let end_ := if end_ <? 0 then to_int (llen + end_) else end_ in
      let start := if start <? 0 then 0 else start in
      let end_ := if end_ <? 0 then 0 else end_ in
      (* indexes sanity checks *)
      if (start >? end_) || (start >=? llen) then (addReply c shared.zero, s)
      else
        let end_ := if end_ >=? llen then to_int (llen - 1) else end_ in
        let rangelen := to_int (to_int (end_ - start) + 1) in
        let ln := match listIndex l start with
                  | Some n => drop n l
                  | None => []
                  end in
        let c := addReplySds c (bulk_header rangelen) in
        (lrange_loop (Z.to_nat rangelen) ln c, s)
  | Some _ => (addReply c shared.wrongtypeerrbulk, s)
  end.

Definition ltrimCommand (c : redisClient) (s : redisServer)
    : redisClient * redisServer :=
  let start := atoi (sds_ptr (argv_at c 2)) in
  let end_ := atoi (sds_ptr (argv_at c 3)) in
  match dictFind (client_dict c s) (key_at c 1) with
  | None => (addReply c shared.nokeyerr, s)
  | Some (ListObject l) =>
      let llen := to_int (listLength l) in
      let start := if start <? 0 then to_int (llen + start) else start in
      let end_ := if end_ <? 0 then to_int (llen + end_) else end_ in
      let start := if start <? 0 then 0 else start in
      let end_ := if end_ <? 0 then 0 else end_ in
      let '(ltrim, rtrim) :=
        if (start >? end_) || (start >=? llen) then (llen, 0)
        else
          let end_ := if end_ >=? llen then to_int (llen - 1) else end_ in
          (start, to_int (to_int (llen - end_) - 1)) in
      let l := Nat.iter (Z.to_nat ltrim) listDelFirst l in
      let l := Nat.iter (Z.to_nat rtrim) listDelLast l in
      let d := <[key_at c 1 := ListObject l]> (client_dict c s) in
      (addReply c shared.ok, incr_dirty (set_client_dict c s d))
  | Some _ => (addReply c shared.wrongtypeerr, s)
  end.

(** *** Sets *)

Definition saddCommand (c : redisClient) (s : redisServer)
    : redisClient * redisServer :=
  let found :=
    match dictFind (client_dict c s) (key_at c 1) with
    | None =>
        let '(_, d) := dictAdd (client_dict c s) (key_at c 1) createSetObject in
        Some (∅, d)
    | Some (SetObject set) => Some (set, client_dict c s)
    | Some _ => None
    end in
  match found with
  | None => (addReply c shared.minus2, s)
  | Some (set, d) =>
      let '(retval, set) := dictAdd set (sds_ptr (argv_at c 2)) (argv_at c 2) in
      let s := set_client_dict c s (<[key_at c 1 := SetObject set]> d) in
      if retval =? DICT_OK then (addReply c shared.one, incr_dirty s)
      else (addReply c shared.zero, s)
  end.

Definition sremCommand (c : redisClient) (s : redisServer)
    : redisClient * redisServer :=
  match dictFind (client_dict c s) (key_at c 1) with
  | None => (addReply c shared.zero, s)
  | Some (SetObject set) =>
      let '(retval, set) := dictDelete set (sds_ptr (argv_at c 2)) in
      if retval =? DICT_OK then
        let d := <[key_at c 1 := SetObject set]> (client_dict c s) in
        (addReply c shared.one, incr_dirty (set_client_dict c s d))
      else (addReply c shared.zero, s)
  | Some _ => (addReply c shared.minus2, s)
  end.

Definition sismemberCommand (c : redisClient) (s : redisServer)
    : redisClient * redisServer :=
  match dictFind (client_dict c s) (key_at c 1) with
  | None => (addReply c shared.zero, s)
  | Some (SetObject set) =>
      match dictFind set (sds_ptr (argv_at c 2)) with
      | Some _ => (addReply c shared.one, s)
      | None => (addReply c shared.zero, s)
      end
  | Some _ => (addReply c shared.minus2, s)
  end.

Definition scardCommand (c : redisClient) (s : redisServer)
    : redisClient * redisServer :=
  match dictFind (client_dict c s) (key_at c 1) with
  | None => (addReply c shared.zero, s)
  | Some (SetObject set) =>
      (addReplySds c (bulk_header (dictGetHashTableUsed set)), s)
  | Some _ => (addReply c shared.minus2, s)
  end.

Definition qsortCompareSetsByCardinality (d1 d2 : gmap sds robj) : Z :=
  to_int (dictGetHashTableUsed d1 - dictGetHashTableUsed d2).

(** The order [qsort] sorts by: [d1] may come before [d2] when the
    comparison is not positive. *)
Definition sets_by_cardinality (d1 d2 : gmap sds robj) : Prop :=
  qsortCompareSetsByCardinality d1 d2 <= 0.

Global Instance sets_by_cardinality_dec d1 d2
    : Decision (sets_by_cardinality d1 d2) :=
  Z_le_dec _ _.

(** [qsort] of the C library, here a merge sort. *)
Definition qsort (dv : list (gmap sds robj)) : list (gmap sds robj) :=
  merge_sort sets_by_cardinality dv.

(** The first loop of [sinterCommand]: the set behind every key, or the
    reply that ends the command at the first key that is missing or holds
    another type. *)
Fixpoint sinter_gather (d : gmap sds robj) (keys : list robj)
    : robj + list (gmap sds robj) :=
  match keys with
  | [] => inr []
  | key :: keys' =>
      match dictFind d (sds_ptr key) with
      | None => inl shared.nil
      | Some (SetObject set) =>
          match sinter_gather d keys' with
          | inl e => inl e
          | inr dv => inr (set :: dv)
          end
      | Some _ => inl shared.wrongtypeerrbulk
      end
  end.

(** The loop over the members of [dv[0]]: a member found in every other
    set is replied and counted. *)
Fixpoint sinter_loop (others : list (gmap sds robj))
    (entries : list (sds * robj)) (c : redisClient) (cardinality : Z)
    : redisClient * Z :=
  match entries with
  | [] => (c, cardinality)
  | (_, ele) :: rest =>
      if forallb (λ dvj, bool_decide (is_Some (dictFind dvj (sds_ptr ele)))) others
      then sinter_loop others rest (addReplyBulk c ele) (to_int (cardinality + 1))
      else sinter_loop others rest c cardinality
  end.

Definition sinterCommand (c : redisClient) (s : redisServer)
    : redisClient * redisServer :=
  match sinter_gather (client_dict c s) (tail (c_argv c)) with
  | inl e => (addReply c e, s)
  | inr dv =>
      let dv := qsort dv in
      let slot := length (c_reply c) in
      let c := addReply c (StringObject []) in
      let '(c, cardinality) :=
        sinter_loop (tail dv) (dictEntries (default ∅ (head dv))) c 0 in
      let lenobj := StringObject (bulk_header cardinality) in
      (set_reply c (<[slot := lenobj]> (c_reply c)), s)
  end.

(** ** The command table *)

(** A command procedure leaves the client and the server as an outcome
    tells; [returns] is for the procedures that always come back. *)
Definition redisCommandProc : Type := redisClient → redisServer → outcome.

Definition returns (f : redisClient → redisServer → redisClient * redisServer)
    : redisCommandProc :=
  λ c s, Alive (f c s).1 (f c s).2.

(** The call through the NULL [proc] of the entry that ends the table. *)
Definition null_proc : redisCommandProc := λ _ _, Undefined.

Record redisCommand := mkCommand {
  cmd_name : sds;
  cmd_proc : redisCommandProc;
  cmd_arity : Z;
  cmd_type : Z
}.

Definition cmdTable : list redisCommand := [
  mkCommand (sdsnew "get") (returns getCommand) 2 REDIS_CMD_INLINE;
  mkCommand (sdsnew "set") (returns setCommand) 3 REDIS_CMD_BULK;
  mkCommand (sdsnew "setnx") (returns setnxCommand) 3 REDIS_CMD_BULK;
  mkCommand (sdsnew "del") (returns delCommand) 2 REDIS_CMD_INLINE;
  mkCommand (sdsnew "exists") (returns existsCommand) 2 REDIS_CMD_INLINE;
  mkCommand (sdsnew "incr") (returns incrCommand) 2 REDIS_CMD_INLINE;
  mkCommand (sdsnew "decr") (returns decrCommand) 2 REDIS_CMD_INLINE;
  mkCommand (sdsnew "rpush") (returns rpushCommand) 3 REDIS_CMD_BULK;
  mkCommand (sdsnew "lpush") (returns lpushCommand) 3 REDIS_CMD_BULK;
  mkCommand (sdsnew "rpop") (returns rpopCommand) 2 REDIS_CMD_INLINE;
  mkCommand (sdsnew "lpop") (returns lpopCommand) 2 REDIS_CMD_INLINE;
  mkCommand (sdsnew "llen") (returns llenCommand) 2 REDIS_CMD_INLINE;
  mkCommand (sdsnew "lindex") (returns lindexCommand) 3 REDIS_CMD_INLINE;
  mkCommand (sdsnew "lset") (returns lsetCommand) 4 REDIS_CMD_BULK;
  mkCommand (sdsnew "lrange") (returns lrangeCommand) 4 REDIS_CMD_INLINE;
  mkCommand (sdsnew "ltrim") (returns ltrimCommand) 4 REDIS_CMD_INLINE;
  mkCommand (sdsnew "sadd") (returns saddCommand) 3 REDIS_CMD_BULK;
  mkCommand (sdsnew "srem") (returns sremCommand) 3 REDIS_CMD_BULK;
  mkCommand (sdsnew "sismember") (returns sismemberCommand) 3 REDIS_CMD_BULK;
  mkCommand (sdsnew "scard") (returns scardCommand) 2 REDIS_CMD_INLINE;
  mkCommand (sdsnew "sinter") (returns sinterCommand) (-2) REDIS_CMD_INLINE;
  mkCommand (sdsnew "smembers") (returns sinterCommand) 2 REDIS_CMD_INLINE;
  mkCommand (sdsnew "incrby") (returns incrbyCommand) 3 REDIS_CMD_INLINE;
  mkCommand (sdsnew "decrby") (returns decrbyCommand) 3 REDIS_CMD_INLINE;
  mkCommand (sdsnew "randomkey") (returns randomkeyCommand) 1 REDIS_CMD_INLINE;
  mkCommand (sdsnew "select") selectCommand 2 REDIS_CMD_INLINE;
  mkCommand (sdsnew "move") (returns moveCommand) 3 REDIS_CMD_INLINE;
  mkCommand (sdsnew "rename") (returns renameCommand) 3 REDIS_CMD_INLINE;
  mkCommand (sdsnew "renamenx") (returns renamenxCommand) 3 REDIS_CMD_INLINE;
  mkCommand (sdsnew "keys") keysCommand 2 REDIS_CMD_INLINE;
  mkCommand (sdsnew "dbsize") (returns dbsizeCommand) 1 REDIS_CMD_INLINE;
  mkCommand (sdsnew "ping") (returns pingCommand) 1 REDIS_CMD_INLINE;
  mkCommand (sdsnew "echo") (returns echoCommand) 2 REDIS_CMD_BULK;
  mkCommand (sdsnew "save") (returns saveCommand) 1 REDIS_CMD_INLINE;
  mkCommand (sdsnew "bgsave") (returns bgsaveCommand) 1 REDIS_CMD_INLINE;
  mkCommand (sdsnew "shutdown") shutdownCommand 1 REDIS_CMD_INLINE;
  mkCommand (sdsnew "lastsave") (returns lastsaveCommand) 1 REDIS_CMD_INLINE;
  mkCommand (sdsnew "type") (returns typeCommand) 2 REDIS_CMD_INLINE;
  (* the entry that ends the table: an empty name, not a NULL one *)
  mkCommand sdsempty null_proc 0 0
].

(** What [lookupCommand] comes to: an entry, the NULL it returns when the
    scan meets an entry whose name is NULL, or a scan that reads on past
    the table.  No entry of [cmdTable] has a NULL name, the last one has
    the empty name: a name that no entry bears takes the scan past the
    table. *)
Inductive lookup_result : Type :=
| Found (cmd : redisCommand)
| NotFound
| PastTable.

(** The scan of [lookupCommand] from an entry of the table on. *)
Fixpoint lookupCommand_from (table : list redisCommand) (name : sds)
    : lookup_result :=
  match table with
  | [] => PastTable
  | cmd :: table' =>
      if strcmp0 name (cmd_name cmd) then Found cmd
      else lookupCommand_from table' name
  end.

Definition lookupCommand (name : sds) : lookup_result :=
  lookupCommand_from cmdTable name.

(** ** Networking: the protocol parser *)

(** [resetClient] prepares the client to process the next command. *)
Definition resetClient (c : redisClient) : redisClient :=
  set_bulklen (set_argv c []) (-1).

(** [cmd->proc(c); resetClient(c); return 1;] *)
Definition execCommand (cmd : redisCommand) (c : redisClient) (s : redisServer)
    : outcome :=
  match cmd_proc cmd c s with
  | Alive c s => Alive (resetClient c) s
  | o => o
  end.

Definition processCommand (c : redisClient) (s : redisServer) : outcome :=
  match c_argv c with
  | [] => Undefined
  | argv0 :: args =>
      let c := set_argv c (StringObject (sdstolower (sds_ptr argv0)) :: args) in
      if strcmp0 (sds_ptr (argv_at c 0)) (sdsnew "quit") then Freed s
      else
        match lookupCommand (sds_ptr (argv_at c 0)) with
        | PastTable => Undefined
        | NotFound =>
            let c := addReplySds c (sdsnew "-ERR unknown command" ++ crlf_bytes) in
            Alive (resetClient c) s
        | Found cmd =>
            if ((cmd_arity cmd >? 0) && negb (cmd_arity cmd =? argc c))
               || (argc c <? - cmd_arity cmd)
            then
              let c := addReplySds c
                         (sdsnew "-ERR wrong number of arguments" ++ crlf_bytes) in
              Alive (resetClient c) s
            else if (cmd_type cmd =? REDIS_CMD_BULK) && (c_bulklen c =? -1) then
              let bulklen := atoi (sds_ptr (argv_at c (length (c_argv c) - 1))) in
              let c := set_argv c (removelast (c_argv c)) in
              if (bulklen <? 0) || (bulklen >? 1024 * 1024 * 1024) then
                let c := addReplySds c
                           (sdsnew "-ERR invalid bulk write count" ++ crlf_bytes) in
                Alive (resetClient c) s
              else
                let c := set_bulklen c (to_int (bulklen + 2)) in
                (* the bulk data may be in the buffer already *)
                if to_int (sdslen (c_querybuf c)) >=? c_bulklen c then
                  let c := set_argv c
                             (c_argv c ++
                              [createStringObject (c_querybuf c) (c_bulklen c - 2)]) in
                  let c := set_querybuf c
                             (sdsrange_from (c_querybuf c) (c_bulklen c)) in
                  execCommand cmd c s
                else Alive c s
            else execCommand cmd c s
        end
  end.

(** What [read(fd,buf,REDIS_QUERYBUF_LEN)] gave: an error (with [errno]
    being EAGAIN or not) or [nread] bytes, none at end of file. *)
Inductive read_result : Type :=
| ReadError (eagain : bool)
| ReadData (buf : sds).

(** The line of a query: the bytes before the LF at offset [p], with the
    LF and a CR just before it overwritten by NUL, cut by [sdsupdatelen]
    at the first NUL.  (With [p = 0] the byte before the LF is not part of
    the string and is not a CR.) *)
Definition query_line (query : sds) (p : nat) : sds :=
  let query := <[p := NUL]> query in
  let query :=
    match p with
    | S p' => if bool_decide (query !! p' = Some CR) then <[p' := NUL]> query
              else query
    | O => query
    end in
  cstr query.

(** The non-empty tokens among the first [REDIS_MAX_ARGS] become argv
    entries of type string. *)
Definition query_args (tokens : list sds) : list robj :=
  StringObject <$> filter (λ t, sdslen t ≠ 0) (take REDIS_MAX_ARGS tokens).

(** The code from the label [again] on.  A round that jumps back has
    taken a line out of the buffer, so the length of the buffer bounds the
    rounds. *)
Fixpoint readQuery_again (fuel : nat) (c : redisClient) (s : redisServer)
    : outcome :=
  match fuel with
  | O => Alive c s
  | S fuel' =>
      if c_bulklen c =? -1 then
        match strchr (c_querybuf c) LF with
        | Some p =>
            let query := c_querybuf c in
            (* leave data after the first line of the query in the buffer *)
            let c := set_querybuf c (drop (S p) query) in
            let query := query_line query p in
            if sdslen query =? 0 then Alive c s (* ignore empty query *)
            else
              let c := set_argv c (c_argv c ++ query_args (sdssplitlen query)) in
              match processCommand c s with
              | Alive c s =>
                  if negb (sdslen (c_querybuf c) =? 0)
                  then readQuery_again fuel' c s
                  else Alive c s
              | o => o
              end
        | None =>
            if sdslen (c_querybuf c) >=? 1024 then Freed s else Alive c s
        end
      else
        let qbl := to_int (sdslen (c_querybuf c)) in
        if c_bulklen c <=? qbl then
          let c := set_argv c
                     (c_argv c ++
                      [createStringObject (c_querybuf c) (c_bulklen c - 2)]) in
          let c := set_querybuf c (sdsrange_from (c_querybuf c) (c_bulklen c)) in
          processCommand c s
        else Alive c s
  end.

Definition readQueryFromClient (r : read_result) (c : redisClient)
    (s : redisServer) : outcome :=
  match r with
  | ReadError eagain => if eagain then Alive c s else Freed s
  | ReadData buf =>
      if sdslen buf =? 0 then Freed s
      else
        let c := set_querybuf c (sdscatlen (c_querybuf c) buf) in
        let c := set_lastinteraction c (s_time s) in
        readQuery_again (S (length (c_querybuf c))) c s
  end.

(** [createClient]: database 0 selected, inline mode. *)
Definition createClient (fd : Z) (s : redisServer) : redisClient :=
  mkClient fd 0 sdsempty [] (-1) [] 0 (s_time s).

(** ** The cron and the event loop *)

(** The server together with the list [server.clients]. *)
Record world := mkWorld {
  w_server : redisServer;
  w_clients : list redisClient
}.

Definition closeTimedoutClients (w : world) : world :=
  let s := w_server w in
  mkWorld s
    (filter (λ c, ¬ (s_time s - c_lastinteraction c > s_maxidletime s))
       (w_clients w)).

(** The loop over [server.saveparams]: the first rule that holds starts a
    background save and ends the loop. *)
Fixpoint cron_save_rules (params : list saveparam) (s : redisServer)
    : redisServer :=
  match params with
  | [] => s
  | sp :: params' =>
      if (s_dirty s >=? changes sp) && (s_time s - s_lastsave s >? seconds sp)
      then snd (saveDbBackground s)
      else cron_save_rules params' s
  end.

(** [serverCron]; [pid] is what [wait4(-1,&statloc,WNOHANG,NULL)] returns
    and [exitcode] is [WEXITSTATUS(statloc)].  Resizing a hash table does
    not change the map it holds. *)
Definition serverCron (pid exitcode : Z) (w : world) : world :=
  let loops := s_cronloops (w_server w) in
  let w := mkWorld (set_cronloops (w_server w) (to_int (loops + 1))) (w_clients w) in
  let w := if Z.rem loops 10 =? 0 then closeTimedoutClients w else w in
  let s := w_server w in
  let s :=
    if s_bgsaveinprogress s then
      if negb (pid =? 0) then
        let s := if exitcode =? 0 then set_lastsave (set_dirty s 0) (s_time s)
                 else s in
        set_bgsaveinprogress s false
      else s
    else cron_save_rules (s_saveparams s) s in
  mkWorld s (w_clients w).

(** [initServerConfig] and [initServer] with [dbnum] databases. *)
Definition default_saveparams : list saveparam :=
  [mkSaveparam (60 * 60) 1; mkSaveparam 300 100; mkSaveparam 60 10000].

Definition initServer (dbnum : nat) (params : list saveparam) (now : Z)
    (dumpfile : option sds) : redisServer :=
  mkServer (replicate dbnum ∅) 0 0 REDIS_MAXIDLETIME false now params now
    dumpfile 0.

(** The events that drive the server once it runs. *)
Inductive event : Type :=
| Accept (fd : Z)
| Readable (i : nat) (r : read_result)
| Written (i : nat) (reply : list robj) (sentlen : Z)
| WriteFailed (i : nat)
| Cron (pid exitcode : Z)
| Environment (now : Z) (random : nat) (dumpfile : option sds).

(** One turn of the event loop; [None] when the process is gone, when no
    behaviour is given, or when the event names no client.  [Written] is [sendReplyToClient] after which
    the reply list and the offset into its head are as given. *)
Definition handle_event (e : event) (w : world) : option world :=
  let s := w_server w in
  match e with
  | Accept fd => Some (mkWorld s (w_clients w ++ [createClient fd s]))
  | Readable i r =>
      c ← w_clients w !! i;
      match readQueryFromClient r c s with
      | Alive c s => Some (mkWorld s (<[i := c]> (w_clients w)))
      | Freed s => Some (mkWorld s (delete i (w_clients w)))
      | Exited | Undefined => None
      end
  | Written i reply sentlen =>
      c ← w_clients w !! i;
      Some (mkWorld s (<[i := set_sentlen (set_reply c reply) sentlen]> (w_clients w)))
  | WriteFailed i =>
      c ← w_clients w !! i;
      Some (mkWorld s (delete i (w_clients w)))
  | Cron pid exitcode => Some (serverCron pid exitcode w)
  | Environment now random dumpfile =>
      Some (mkWorld
              (mkServer (s_dict s) (s_dirty s) (s_cronloops s) (s_maxidletime s)
                 (s_bgsaveinprogress s) (s_lastsave s) (s_saveparams s) now
                 dumpfile random)
              (w_clients w))
  end.

(** The worlds the server can be in: started with empty databases, or with
    what [loadDb] made of a dump file, and then any sequence of events. *)
Inductive reachable : world → Prop :=
| reachable_fresh dbnum params now dumpfile :
    (0 < dbnum)%nat →
    reachable (mkWorld (initServer dbnum params now dumpfile) [])
| reachable_loaded dbnum params now dumpfile s :
    (0 < dbnum)%nat →
    loadDb (initServer dbnum params now dumpfile) = Got s →
    reachable (mkWorld s [])
| reachable_event e w w' :
    reachable w → handle_event e w = Some w' → reachable w'.

(** Running a list of reads on one client, for the scenarios. *)
Fixpoint feed (inputs : list sds) (c : redisClient) (s : redisServer) : outcome :=
  match inputs with
  | [] => Alive c s
  | buf :: inputs' =>
      match readQueryFromClient (ReadData buf) c s with
      | Alive c s => feed inputs' c s
      | o => o
      end
  end.

Definition reply_of (o : outcome) : sds :=
  match o with
  | Alive c _ => reply_bytes (c_reply c)
  | _ => []
  end.

Definition wire (lines : list string) : sds :=
  concat ((λ l, sdsnew l ++ crlf_bytes) <$> lines).


(** * Specification-level definitions *)

(** ** The cron save trigger *)

(** A rule holds when the changes reach its threshold and strictly more
    than its seconds have passed since [lastsave]. *)
Definition rule_holds (s : redisServer) (sp : saveparam) : Prop :=
  s_dirty s >= changes sp ∧ s_time s - s_lastsave s > seconds sp.

(** One rule (60 seconds, 1 change), one change, 61 seconds since the
    last save. *)
Definition cron_example : world :=
  mkWorld (mkServer [∅] 1 0 REDIS_MAXIDLETIME false 0 [mkSaveparam 60 1] 61 None 0) [].

(** ** The protocol parser *)

(** A server just started, for the examples. *)
Definition empty_line_server : redisServer :=
  initServer 16 default_saveparams 0 None.


(** The client once its buffer gave the bulk argument: the first [N] bytes
    become the last argv entry and [bulklen] bytes leave the buffer. *)
Definition take_bulk (c : redisClient) (N : Z) : redisClient :=
  set_querybuf
    (set_argv c (c_argv c ++ [createStringObject (c_querybuf c) N]))
    (sdsrange_from (c_querybuf c) (c_bulklen c)).


(** A client that sent the header line [SET foo <count>], with [buf]
    already in its query buffer. *)
Definition bulk_example (count : string) (buf : sds) : redisClient :=
  mkClient 5 0 buf
    [StringObject (sdsnew "SET"); StringObject (sdsnew "foo");
     StringObject (sdsnew count)]
    (-1) [] 0 0.

Definition set_entry : redisCommand :=
  mkCommand (sdsnew "set") (returns setCommand) 3 REDIS_CMD_BULK.

(** What is left to observe of an outcome in the examples: the reply
    bytes, argc and [bulklen] of a client that is alive. *)
Definition observe (o : outcome) : option (sds * Z * Z) :=
  match o with
  | Alive c _ => Some (reply_bytes (c_reply c), argc c, c_bulklen c)
  | _ => None
  end.


(** ** Commands run one after the other *)

(** A command procedure run on the argv [args] the way [processCommand]
    runs it once the arguments are complete: the procedure, then
    [resetClient]. *)
Definition call (proc : redisClient → redisServer → redisClient * redisServer)
    (args : list sds) (cs : redisClient * redisServer)
    : redisClient * redisServer :=
  let '(c, s) := proc (set_argv (fst cs) (StringObject <$> args)) (snd cs) in
  (resetClient c, s).

(** The same for a procedure that may not come back. *)
Definition call_proc (proc : redisCommandProc) (args : list sds)
    (cs : redisClient * redisServer) : outcome :=
  match proc (set_argv (fst cs) (StringObject <$> args)) (snd cs) with
  | Alive c s => Alive (resetClient c) s
  | o => o
  end.

(** The items of a bulk reply that carries the string [v]. *)
Definition bulk_reply (v : sds) : list robj :=
  [StringObject (bulk_header (sdslen v)); StringObject v; shared.crlf].

(** A server whose database 0 holds the string "old" under the key "k". *)
Definition setnx_example : redisServer :=
  set_s_dict empty_line_server
    (<[0%nat := {[sdsnew "k" := StringObject (sdsnew "old")]}]>
       (s_dict empty_line_server)).


(** ** INCR, DECR, INCRBY, DECRBY *)

Inductive incr_command : Type := INCR | DECR | INCRBY | DECRBY.

Definition incr_proc (cmd : incr_command)
    : redisClient → redisServer → redisClient * redisServer :=
  match cmd with
  | INCR => incrCommand
  | DECR => decrCommand
  | INCRBY => incrbyCommand
  | DECRBY => decrbyCommand
  end.

(** The delta of each command as the code computes it: [d] is the [int]
    that [atoi] reads from the argument, and [-d] is negated as an [int]. *)
Definition incr_delta (cmd : incr_command) (c : redisClient) : Z :=
  match cmd with
  | INCR => 1
  | DECR => -1
  | INCRBY => atoi (sds_ptr (argv_at c 2))
  | DECRBY => to_int (- atoi (sds_ptr (argv_at c 2)))
  end.

(** A value with no number to read: after the leading white space and an
    optional sign there is no digit. *)
Definition no_number (v : sds) : Prop :=
  match skip_spaces v with
  | c :: r =>
      if Ascii.eqb c "-"%char || Ascii.eqb c "+"%char
      then match r with c' :: _ => isdigit c' = false | [] => True end
      else isdigit c = false
  | [] => True
  end.

(** The client and server after one of the four commands stored and
    replied the [long long] [value]. *)
Definition incr_result (c : redisClient) (s : redisServer) (value : Z)
    : redisClient * redisServer :=
  let o := StringObject (fmt_lld value) in
  (addReply (addReply c o) shared.crlf,
   incr_dirty (set_client_dict c s (<[key_at c 1 := o]> (client_dict c s)))).

(** A client about to run [INCRBY k 3000000000] on a fresh server. *)
Definition incrby_example : redisClient :=
  set_argv (createClient 5 empty_line_server)
    (StringObject <$> [sdsnew "incrby"; sdsnew "k"; sdsnew "3000000000"]).




(** ** LRANGE *)

(** The three items each element of a multi-bulk reply takes: the length
    line, the element, CRLF. *)
Definition bulk_items (ele : robj) : list robj :=
  [StringObject (bulk_header (sdslen (sds_ptr ele))); ele; shared.crlf].

(** The reply of LRANGE in the words of the specification: a negative
    index [i] stands for [len+i], what is still negative becomes 0; the
    literal 0 when [start > end] or [start >= len]; else [end] is cut to
    [len-1] and the count line is followed by the items of the window. *)
Definition lrange_reply (l : list robj) (start end_ : Z) : list robj :=
  let len := Z.of_nat (length l) in
  let start := Z.max 0 (if start <? 0 then len + start else start) in
  let end_ := Z.max 0 (if end_ <? 0 then len + end_ else end_) in
  if (start >? end_) || (start >=? len) then [shared.zero]
  else
    let end_ := Z.min end_ (len - 1) in
    StringObject (bulk_header (end_ - start + 1))
    :: concat (bulk_items <$>
                 take (Z.to_nat (end_ - start + 1)) (drop (Z.to_nat start) l)).

(** A server whose database 0 holds the list a, b, c under "l", and a
    client about to run [LRANGE l -2 -1]. *)
Definition lrange_example_list : list robj :=
  [StringObject (sdsnew "a"); StringObject (sdsnew "b"); StringObject (sdsnew "c")].

Definition lrange_example_server : redisServer :=
  set_s_dict empty_line_server
    (<[0%nat := {[sdsnew "l" := ListObject lrange_example_list]}]>
       (s_dict empty_line_server)).

Definition lrange_example_client : redisClient :=
  set_argv (createClient 5 lrange_example_server)
    (StringObject <$> [sdsnew "lrange"; sdsnew "l"; sdsnew "-2"; sdsnew "-1"]).

(** A client about to run [LRANGE l 0 4294967296] on the same server. *)
Definition lrange_wide_client : redisClient :=
  set_argv (createClient 5 lrange_example_server)
    (StringObject <$> [sdsnew "lrange"; sdsnew "l"; sdsnew "0";
                       sdsnew "4294967296"]).


(** ** SINTER *)

(** A set as the server builds it: every member is stored under the
    string it holds. *)
Definition set_indexed (d : gmap sds robj) : Prop :=
  ∀ k e, d !! k = Some e → e = StringObject k.

(** The naive intersection of the specification: the member strings of
    the first set, intersected with those of each further set in turn. *)
Definition naive_sinter (dv : list (gmap sds robj)) : gset sds :=
  match dv with
  | [] => ∅
  | d :: dv' => foldl (λ acc d', acc ∩ dom d') (dom d) dv'
  end.

(** Database 0 holds the sets {a, b, c} under "s" and {b, c, d, e}
    under "t"; the client is about to run [SINTER t s]. *)
Definition sinter_example_set (members : list string) : gmap sds robj :=
  list_to_map ((λ m, (sdsnew m, StringObject (sdsnew m))) <$> members).

Definition sinter_example_server : redisServer :=
  set_s_dict empty_line_server
    (<[0%nat := {[sdsnew "s" := SetObject (sinter_example_set ["a"; "b"; "c"]);
                  sdsnew "t" := SetObject (sinter_example_set ["b"; "c"; "d"; "e"])]}]>
       (s_dict empty_line_server)).

Definition sinter_example_client : redisClient :=
  set_argv (createClient 5 sinter_example_server)
    (StringObject <$> [sdsnew "sinter"; sdsnew "t"; sdsnew "s"]).


(** ** The keyspace invariant *)

(** An object of type string, and one that holds a non-empty string (what
    the parser makes of a token of an inline line). *)
Definition is_string (o : robj) : Prop := obj_type o = REDIS_STRING.

Definition is_token (o : robj) : Prop :=
  match o with
  | StringObject s => s ≠ []
  | _ => False
  end.

(** A list holds string objects only; a set holds string objects only,
    each stored under the string it holds. *)
Definition value_ok (v : robj) : Prop :=
  match v with
  | StringObject _ => True
  | ListObject l => Forall is_string l
  | SetObject set => set_indexed set
  end.

Definition dict_ok (d : gmap sds robj) : Prop :=
  ∀ k v, d !! k = Some v → k ≠ [] ∧ value_ok v.

Definition keyspace_ok (s : redisServer) : Prop := Forall dict_ok (s_dict s).

(** What a command procedure is run with, and what it has to keep: the
    first [tokens] argv entries are tokens and the rest are strings, the
    client points to a database; then the keyspace stays well formed, the
    number of databases stays and the client keeps pointing to one. *)
Definition args_ok (tokens : nat) (c : redisClient) : Prop :=
  Forall is_string (c_argv c)
  ∧ ∀ i, (i < tokens)%nat → key_at c i ≠ [].

Definition preserves (tokens : nat)
    (f : redisClient → redisServer → redisClient * redisServer) : Prop :=
  ∀ c s,
    args_ok tokens c →
    (c_dict c < length (s_dict s))%nat →
    keyspace_ok s →
    keyspace_ok (f c s).2
    ∧ length (s_dict (f c s).2) = length (s_dict s)
    ∧ (c_dict (f c s).1 < length (s_dict s))%nat.

(** The tokens a table entry is run with: all of argv for an inline
    command, all but the bulk argument for a bulk command. *)
Definition cmd_tokens (cmd : redisCommand) : nat :=
  Z.to_nat (Z.abs (cmd_arity cmd) - (if cmd_type cmd =? REDIS_CMD_BULK then 1 else 0)).

(** A client between two events: it points to a database; in inline mode
    its argv is empty; while it waits for bulk data its argv holds the
    tokens of the header line of a bulk command, the count taken off. *)
Definition waiting_ok (c : redisClient) : Prop :=
  Forall is_token (c_argv c)
  ∧ ∃ cmd, lookupCommand (sdstolower (sds_ptr (argv_at c 0))) = Found cmd
           ∧ cmd_type cmd = REDIS_CMD_BULK
           ∧ cmd_arity cmd = argc c + 1.

Definition client_ok (s : redisServer) (c : redisClient) : Prop :=
  (c_dict c < length (s_dict s))%nat
  ∧ if c_bulklen c =? -1 then c_argv c = [] else waiting_ok c.

Definition world_ok (w : world) : Prop :=
  keyspace_ok (w_server w) ∧ Forall (client_ok (w_server w)) (w_clients w).

(** The statement of container purity for one value. *)
Definition container_pure (v : robj) : Prop :=
  match v with
  | StringObject _ => True
  | ListObject l => ∀ e, e ∈ l → obj_type e = REDIS_STRING
  | SetObject set => ∀ k e, set !! k = Some e → obj_type e = REDIS_STRING
  end.


(** What a handler has to leave behind: a well-formed keyspace with as
    many databases as before, and a well-formed client if it is alive. *)
Definition outcome_ok (s : redisServer) (o : outcome) : Prop :=
  match o with
  | Alive c' s' =>
      keyspace_ok s' ∧ length (s_dict s') = length (s_dict s) ∧ client_ok s' c'
  | Freed s' => keyspace_ok s' ∧ length (s_dict s') = length (s_dict s)
  | Exited | Undefined => True
  end.

(** What [processCommand] is called with: the tokens of a line, or the
    tokens a waiting client kept followed by the bulk argument. *)
Definition command_ready (c : redisClient) : Prop :=
  (c_bulklen c = -1 ∧ Forall is_token (c_argv c))
  ∨ (c_bulklen c ≠ -1
     ∧ ∃ pre bulk, c_argv c = pre ++ [StringObject bulk]
                   ∧ waiting_ok (set_argv c pre)).

(** A list of events run in turn. *)
Fixpoint run_events (es : list event) (w : world) : option world :=
  match es with
  | [] => Some w
  | e :: es' =>
      match handle_event e w with
      | Some w' => run_events es' w'
      | None => None
      end
  end.

(** A client connects, pushes "a" on the list "l" and adds "a" to the set
    "s". *)
Definition purity_events : list event :=
  [Accept 5;
   Readable 0 (ReadData (wire ["RPUSH l 1"; "a"; "SADD s 1"; "a"]))].

Definition purity_example : world :=
  default (mkWorld empty_line_server [])
    (run_events purity_events (mkWorld empty_line_server [])).


(** ** The snapshot format *)

(** The layout of the specification: a string is its length as a
    big-endian 32-bit word followed by its bytes; a list or a set is its
    element count followed by its elements; a record is the type byte, the
    key, the value; a database with keys is the opcode 254, its index and
    its records; the file is the magic, the databases and the opcode 255. *)
Definition rdb_string (s : sds) : sds := htonl_bytes (sdslen s) ++ s.

Definition rdb_elements (l : list robj) : sds :=
  concat ((λ e, rdb_string (sds_ptr e)) <$> l).

Definition rdb_value (o : robj) : sds :=
  match o with
  | StringObject s => rdb_string s
  | ListObject l => htonl_bytes (Z.of_nat (length l)) ++ rdb_elements l
  | SetObject set =>
      htonl_bytes (dictGetHashTableUsed set) ++ rdb_elements ((dictEntries set).*2)
  end.

Definition rdb_record (entry : sds * robj) : sds :=
  [char_of (obj_type entry.2)] ++ htonl_bytes (sdslen entry.1) ++ entry.1
  ++ rdb_value entry.2.

Definition rdb_records (entries : list (sds * robj)) : sds :=
  concat (rdb_record <$> entries).

Definition rdb_section (j : Z) (d : gmap sds robj) : sds :=
  if dictGetHashTableUsed d =? 0 then []
  else [char_of REDIS_SELECTDB] ++ htonl_bytes j ++ rdb_records (dictEntries d).

Fixpoint rdb_sections (j : Z) (dbs : list (gmap sds robj)) : sds :=
  match dbs with
  | [] => []
  | d :: dbs' => rdb_section j d ++ rdb_sections (j + 1) dbs'
  end.

Definition rdb_layout (dbs : list (gmap sds robj)) : sds :=
  sdsnew "REDIS0000" ++ rdb_sections 0 dbs ++ [char_of REDIS_EOF].

(** What the 32-bit length fields of the format can hold. *)
Definition value_fits (v : robj) : Prop :=
  match v with
  | StringObject s => sdslen s < 2 ^ 32
  | ListObject l =>
      Z.of_nat (length l) < 2 ^ 32 ∧ Forall (λ e, sdslen (sds_ptr e) < 2 ^ 32) l
  | SetObject set =>
      dictGetHashTableUsed set < 2 ^ 32
      ∧ ∀ k e, set !! k = Some e → sdslen k < 2 ^ 32
  end.

Definition dict_fits (d : gmap sds robj) : Prop :=
  ∀ k v, d !! k = Some v → sdslen k < 2 ^ 32 ∧ value_fits v.

Definition snapshot_fits (dbs : list (gmap sds robj)) : Prop :=
  Z.of_nat (length dbs) < 2 ^ 32 ∧ Forall dict_fits dbs.

(** Three databases: a string and a list in the first, none in the
    second, a set in the third. *)
Definition round_trip_set : gmap sds robj :=
  <[sdsnew "x" := StringObject (sdsnew "x")]>
    (<[sdsnew "y" := StringObject (sdsnew "y")]> ∅).

Definition round_trip_example : redisServer :=
  set_s_dict empty_line_server
    [<[sdsnew "foo" := StringObject (sdsnew "bar")]>
       (<[sdsnew "l" := ListObject [StringObject (sdsnew "a"); StringObject []]]> ∅);
     ∅;
     <[sdsnew "s" := SetObject round_trip_set]> ∅].

(** ** Lists and sets as the commands see them *)

(** The list a list command works on: the one stored under the key, the
    empty one a push creates when the key is missing; [None] when the key
    holds another type. *)
Definition stored_list (d : gmap sds robj) (k : sds) : option (list robj) :=
  match d !! k with
  | None => Some []
  | Some (ListObject l) => Some l
  | Some _ => None
  end.

(** The same for the set commands. *)
Definition stored_set (d : gmap sds robj) (k : sds) : option (gmap sds robj) :=
  match d !! k with
  | None => Some ∅
  | Some (SetObject set) => Some set
  | Some _ => None
  end.

(** A database with the list a, b under "l", for the examples. *)
Definition list_example_server : redisServer :=
  set_s_dict empty_line_server
    (<[0%nat := {[sdsnew "l" := ListObject [StringObject (sdsnew "a");
                                            StringObject (sdsnew "b")]]}]>
       (s_dict empty_line_server)).

Definition list_example_client : redisClient :=
  createClient 5 list_example_server.

(** The elements LTRIM keeps and LRANGE replies: the window between the
    two indices once a negative index [i] is read as [len+i], what is
    still negative as 0, and the end is cut to the last element. *)
Definition list_window (l : list robj) (start end_ : Z) : list robj :=
  let len := Z.of_nat (length l) in
  let start := Z.max 0 (if start <? 0 then len + start else start) in
  let end_ := Z.max 0 (if end_ <? 0 then len + end_ else end_) in
  if (start >? end_) || (start >=? len) then []
  else take (Z.to_nat (Z.min end_ (len - 1) - start + 1)) (drop (Z.to_nat start) l).

(** A database with the set {a, b} under "s", for the examples. *)
Definition set_example_server : redisServer :=
  set_s_dict empty_line_server
    (<[0%nat := {[sdsnew "s" := SetObject (sinter_example_set ["a"; "b"])]}]>
       (s_dict empty_line_server)).

Definition set_example_client : redisClient :=
  createClient 5 set_example_server.

(** The database with index [j], empty past the last one. *)
Definition db_at (s : redisServer) (j : nat) : gmap sds robj :=
  default ∅ (s_dict s !! j).

(** What GET replies for what the key holds. *)
Definition get_reply (found : option robj) : list robj :=
  match found with
  | None => [shared.nil]
  | Some o =>
      if obj_type o =? REDIS_STRING then bulk_items o
      else [shared.wrongtypeerrbulk]
  end.

(** ** What a command may do to the server *)

(** The procedures of the command table that always return: all but
    SHUTDOWN, which may leave the process, and SELECT and KEYS, which may
    leave what the C language defines. *)
Definition table_procs
    : list (sds * (redisClient → redisServer → redisClient * redisServer)) :=
  [(sdsnew "get", getCommand); (sdsnew "set", setCommand);
   (sdsnew "setnx", setnxCommand); (sdsnew "del", delCommand);
   (sdsnew "exists", existsCommand); (sdsnew "incr", incrCommand);
   (sdsnew "decr", decrCommand); (sdsnew "rpush", rpushCommand);
   (sdsnew "lpush", lpushCommand); (sdsnew "rpop", rpopCommand);
   (sdsnew "lpop", lpopCommand); (sdsnew "llen", llenCommand);
   (sdsnew "lindex", lindexCommand); (sdsnew "lset", lsetCommand);
   (sdsnew "lrange", lrangeCommand); (sdsnew "ltrim", ltrimCommand);
   (sdsnew "sadd", saddCommand); (sdsnew "srem", sremCommand);
   (sdsnew "sismember", sismemberCommand); (sdsnew "scard", scardCommand);
   (sdsnew "sinter", sinterCommand); (sdsnew "smembers", sinterCommand);
   (sdsnew "incrby", incrbyCommand); (sdsnew "decrby", decrbyCommand);
   (sdsnew "randomkey", randomkeyCommand);
   (sdsnew "move", moveCommand); (sdsnew "rename", renameCommand);
   (sdsnew "renamenx", renamenxCommand);
   (sdsnew "dbsize", dbsizeCommand); (sdsnew "ping", pingCommand);
   (sdsnew "echo", echoCommand); (sdsnew "save", saveCommand);
   (sdsnew "bgsave", bgsaveCommand); (sdsnew "lastsave", lastsaveCommand);
   (sdsnew "type", typeCommand)].

(** The commands that only read. *)
Definition read_commands : list sds :=
  sdsnew <$> ["get"; "exists"; "llen"; "lindex"; "lrange"; "sismember";
              "scard"; "sinter"; "smembers"; "randomkey"; "select"; "keys";
              "dbsize"; "ping"; "echo"; "lastsave"; "type"]%string.

(** A command either leaves the databases as they are, or stores one
    database through the pointer of the client and counts a change. *)
Definition touches (c : redisClient) (s s' : redisServer) : Prop :=
  s_dict s' = s_dict s
  ∨ ∃ d, s_dict s' = <[c_dict c := d]> (s_dict s)
         ∧ s_dirty s' = to_longlong (s_dirty s + 1).

Definition get_entry : redisCommand :=
  mkCommand (sdsnew "get") (returns getCommand) 2 REDIS_CMD_INLINE.

(** A client of a server just started, about to run [SET k v]. *)
Definition set_example_args : redisClient :=
  set_argv (createClient 5 empty_line_server)
    (StringObject <$> [sdsnew "set"; sdsnew "k"; sdsnew "v"]).


(** ** Sending replies *)

(** What one call of [write(fd,buf,n)] returns: -1, with [errno] being
    EAGAIN or not, or the number of bytes the socket took, which is [n] or
    the room the socket had, whichever is less. *)
Inductive write_result : Type :=
| WriteError (eagain : bool)
| Accepted (room : nat).

(** How the loop of [sendReplyToClient] ends: the reply list and the
    offset into its head, the bytes written in total, whether the last
    [write] returned -1 (and whether [errno] was EAGAIN), and the bytes
    that went to the socket. *)
Record send_state := mkSend {
  snd_reply : list robj;
  snd_sentlen : Z;
  snd_totwritten : Z;
  snd_error : option bool;
  snd_bytes : sds
}.

(** The rounds of the loop that delete a head object of length 0. *)
Fixpoint skip_empty (reply : list robj) : list robj :=
  match reply with
  | o :: rest =>
      if to_int (sdslen (sds_ptr o)) =? 0 then skip_empty rest else reply
  | [] => []
  end.

(** The [while(listLength(c->reply))] loop.  [writes] holds what the calls
    of [write] return, in order; past its end the socket would block.  A
    head object of length 0 is deleted without a call.  The count passed to
    [write] is positive as long as [sentlen] is below the length of the
    head object, which the handlers keep. *)
Fixpoint send_loop (writes : list write_result) (reply : list robj)
    (sentlen totwritten : Z) (sent : sds) : send_state :=
  match skip_empty reply with
  | [] => mkSend [] sentlen totwritten None sent
  | o :: rest =>
      let objlen := to_int (sdslen (sds_ptr o)) in
      match writes with
      | [] => mkSend (o :: rest) sentlen totwritten (Some true) sent
      | WriteError eagain :: _ =>
          mkSend (o :: rest) sentlen totwritten (Some eagain) sent
      | Accepted room :: writes' =>
          let nwritten := Z.min (Z.of_nat room) (objlen - sentlen) in
          if nwritten <=? 0 then mkSend (o :: rest) sentlen totwritten None sent
          else
            let sent := sent ++ take (Z.to_nat nwritten)
                                  (drop (Z.to_nat sentlen) (sds_ptr o)) in
            let sentlen := to_int (sentlen + nwritten) in
            let totwritten := to_int (totwritten + nwritten) in
            (* if the object on head is fully sent go to the next one *)
            if sentlen =? objlen then send_loop writes' rest 0 totwritten sent
            else send_loop writes' (o :: rest) sentlen totwritten sent
      end
  end.

(** [sendReplyToClient]: the outcome for the client and the bytes that
    went to the socket. *)
Definition sendReplyToClient (writes : list write_result) (c : redisClient)
    (s : redisServer) : outcome * sds :=
  let st := send_loop writes (c_reply c) (c_sentlen c) 0 [] in
  let c := set_sentlen (set_reply c (snd_reply st)) (snd_sentlen st) in
  match snd_error st with
  | Some false => (Freed s, snd_bytes st)
  | _ =>
      let c := if snd_totwritten st >? 0 then set_lastinteraction c (s_time s)
               else c in
      let c := if listLength (c_reply c) =? 0 then set_sentlen c 0 else c in
      (Alive c s, snd_bytes st)
  end.

(** The bytes a client still has to receive. *)
Definition pending (c : redisClient) : sds :=
  drop (Z.to_nat (c_sentlen c)) (reply_bytes (c_reply c)).

(** What the handlers keep of the reply list: the offset is 0, or it
    points inside the head object; every object fits an [int]. *)
Definition reply_ok (c : redisClient) : Prop :=
  Forall (λ o, sdslen (sds_ptr o) <= INT_MAX) (c_reply c)
  ∧ (c_sentlen c = 0
     ∨ ∃ o rest, c_reply c = o :: rest ∧ 0 < c_sentlen c < sdslen (sds_ptr o)).

(** A client with the replies of PING and of a GET queued, two bytes of
    the first already sent. *)
Definition send_example : redisClient :=
  set_sentlen
    (set_reply (createClient 5 empty_line_server)
       ([shared.pong] ++ bulk_reply (sdsnew "bar")))
    2.

(** ** The configuration file *)

Definition REDIS_SERVERPORT : Z := 6379.
Definition REDIS_CONFIGLINE_MAX : nat := 1024.
Definition REDIS_DEBUG : Z := 0.
Definition REDIS_NOTICE : Z := 1.
Definition REDIS_WARNING : Z := 2.

(** The fields of [server] the configuration sets. *)
Record serverConfig := mkConfig {
  cfg_dbnum : Z;
  cfg_port : Z;
  cfg_verbosity : Z;
  cfg_maxidletime : Z;
  cfg_saveparams : list saveparam;
  cfg_logfile : option sds;
  cfg_bindaddr : option sds
}.

Definition appendServerSaveParams (cfg : serverConfig) (seconds changes : Z)
    : serverConfig :=
  mkConfig (cfg_dbnum cfg) (cfg_port cfg) (cfg_verbosity cfg)
    (cfg_maxidletime cfg) (cfg_saveparams cfg ++ [mkSaveparam seconds changes])
    (cfg_logfile cfg) (cfg_bindaddr cfg).

Definition ResetServerSaveParams (cfg : serverConfig) : serverConfig :=
  mkConfig (cfg_dbnum cfg) (cfg_port cfg) (cfg_verbosity cfg)
    (cfg_maxidletime cfg) [] (cfg_logfile cfg) (cfg_bindaddr cfg).

Definition initServerConfig : serverConfig :=
  let cfg := mkConfig (Z.of_nat REDIS_DEFAULT_DBNUM) REDIS_SERVERPORT REDIS_DEBUG
               REDIS_MAXIDLETIME [] None None in
  let cfg := ResetServerSaveParams cfg in
  let cfg := appendServerSaveParams cfg (60 * 60) 1 in
  let cfg := appendServerSaveParams cfg 300 100 in
  appendServerSaveParams cfg 60 10000.

(** [fgets(buf,size,fp)]: at most [size-1] bytes, up to and with the
    first newline; NULL, here [None], at the end of the file.  The result
    is the buffer and the rest of the file. *)
Fixpoint fgets_line (n : nat) (fp : sds) : sds * sds :=
  match n, fp with
  | S n', ch :: fp' =>
      if Ascii.eqb ch LF then ([ch], fp')
      else let '(buf, rest) := fgets_line n' fp' in (ch :: buf, rest)
  | _, _ => ([], fp)
  end.

Definition fgets (size : nat) (fp : sds) : option (sds * sds) :=
  match fp with
  | [] => None
  | _ => Some (fgets_line (size - 1) fp)
  end.

(** Modelled from the spec: [sdstrim(s,cset)] from sds.c (not part of the
    sources) removes from both ends of [s] the bytes that are in [cset]. *)
Fixpoint sdstrim_left (cset s : sds) : sds :=
  match s with
  | ch :: s' => if existsb (Ascii.eqb ch) cset then sdstrim_left cset s' else s
  | [] => []
  end.

Definition sdstrim (s cset : sds) : sds :=
  rev (sdstrim_left cset (rev (sdstrim_left cset s))).

(** How [loadServerConfig] leaves through [loaderr], by the message it
    prints. *)
Inductive config_error : Type :=
| InvalidTimeout
| InvalidPort
| InvalidSave
| InvalidLogLevel
| CantOpenLog
| InvalidDatabases
| BadDirective.

Definition set_cfg_maxidletime (cfg : serverConfig) (n : Z) : serverConfig :=
  mkConfig (cfg_dbnum cfg) (cfg_port cfg) (cfg_verbosity cfg) n
    (cfg_saveparams cfg) (cfg_logfile cfg) (cfg_bindaddr cfg).
Definition set_cfg_port (cfg : serverConfig) (n : Z) : serverConfig :=
  mkConfig (cfg_dbnum cfg) n (cfg_verbosity cfg) (cfg_maxidletime cfg)
    (cfg_saveparams cfg) (cfg_logfile cfg) (cfg_bindaddr cfg).
Definition set_cfg_bindaddr (cfg : serverConfig) (a : option sds) : serverConfig :=
  mkConfig (cfg_dbnum cfg) (cfg_port cfg) (cfg_verbosity cfg)
    (cfg_maxidletime cfg) (cfg_saveparams cfg) (cfg_logfile cfg) a.
Definition set_cfg_verbosity (cfg : serverConfig) (n : Z) : serverConfig :=
  mkConfig (cfg_dbnum cfg) (cfg_port cfg) n (cfg_maxidletime cfg)
    (cfg_saveparams cfg) (cfg_logfile cfg) (cfg_bindaddr cfg).
Definition set_cfg_logfile (cfg : serverConfig) (f : option sds) : serverConfig :=
  mkConfig (cfg_dbnum cfg) (cfg_port cfg) (cfg_verbosity cfg)
    (cfg_maxidletime cfg) (cfg_saveparams cfg) f (cfg_bindaddr cfg).
Definition set_cfg_dbnum (cfg : serverConfig) (n : Z) : serverConfig :=
  mkConfig n (cfg_port cfg) (cfg_verbosity cfg) (cfg_maxidletime cfg)
    (cfg_saveparams cfg) (cfg_logfile cfg) (cfg_bindaddr cfg).

(** How [loadServerConfig] ends. *)
Inductive config_result (dir : Type) : Type :=
| ConfigLoaded (cfg : serverConfig) (cwd : dir)
| ConfigExit (linenum : Z) (line : sds) (err : config_error) (* loaderr: exit(1) *)
| ConfigChdirFailed (linenum : Z)                            (* exit(1) *)
| ConfigNoFile                                               (* exit(1) *)
| ConfigOutOfFuel.
Arguments ConfigLoaded {dir} cfg cwd.
Arguments ConfigExit {dir} linenum line err.
Arguments ConfigChdirFailed {dir} linenum.
Arguments ConfigNoFile {dir}.
Arguments ConfigOutOfFuel {dir}.

Section Config.
(** The file system: the working directories, what [chdir] makes of one,
    and whether [fopen(name,"a")] succeeds in one. *)
Context {dir : Type}.
Variable chdir : dir → sds → option dir.
Variable fopen_append : dir → sds → bool.

(** One directive: the [if] chain over [argv[0]] and [argc].  The outer
    [None] is the exit after a failed [chdir]. *)
Definition config_directive (argv : list sds) (cfg : serverConfig) (cwd : dir)
    : option (config_error + serverConfig * dir) :=
  let argc := Z.of_nat (length argv) in
  let arg (i : nat) := nth i argv [] in
  if strcmp0 (arg 0%nat) (sdsnew "timeout") && (argc =? 2) then
    let cfg := set_cfg_maxidletime cfg (atoi (arg 1%nat)) in
    if cfg_maxidletime cfg <? 1 then Some (inl InvalidTimeout)
    else Some (inr (cfg, cwd))
  else if strcmp0 (arg 0%nat) (sdsnew "port") && (argc =? 2) then
    let cfg := set_cfg_port cfg (atoi (arg 1%nat)) in
    if (cfg_port cfg <? 1) || (cfg_port cfg >? 65535) then Some (inl InvalidPort)
    else Some (inr (cfg, cwd))
  else if strcmp0 (arg 0%nat) (sdsnew "bind") && (argc =? 2) then
    Some (inr (set_cfg_bindaddr cfg (Some (cstr (arg 1%nat))), cwd))
  else if strcmp0 (arg 0%nat) (sdsnew "save") && (argc =? 3) then
    let seconds := atoi (arg 1%nat) in
    let changes := atoi (arg 2%nat) in
    if (seconds <? 1) || (changes <? 0) then Some (inl InvalidSave)
    else Some (inr (appendServerSaveParams cfg seconds changes, cwd))
  else if strcmp0 (arg 0%nat) (sdsnew "dir") && (argc =? 2) then
    match chdir cwd (cstr (arg 1%nat)) with
    | None => None
    | Some cwd => Some (inr (cfg, cwd))
    end
  else if strcmp0 (arg 0%nat) (sdsnew "loglevel") && (argc =? 2) then
    if strcmp0 (arg 1%nat) (sdsnew "debug")
    then Some (inr (set_cfg_verbosity cfg REDIS_DEBUG, cwd))
    else if strcmp0 (arg 1%nat) (sdsnew "notice")
    then Some (inr (set_cfg_verbosity cfg REDIS_NOTICE, cwd))
    else if strcmp0 (arg 1%nat) (sdsnew "warning")
    then Some (inr (set_cfg_verbosity cfg REDIS_WARNING, cwd))
    else Some (inl InvalidLogLevel)
  else if strcmp0 (arg 0%nat) (sdsnew "logfile") && (argc =? 2) then
    let logfile :=
      if strcmp0 (arg 1%nat) (sdsnew "stdout") then None else Some (cstr (arg 1%nat)) in
    match logfile with
    | Some name =>
        if fopen_append cwd name
        then Some (inr (set_cfg_logfile cfg logfile, cwd))
        else Some (inl CantOpenLog)
    | None => Some (inr (set_cfg_logfile cfg logfile, cwd))
    end
  else if strcmp0 (arg 0%nat) (sdsnew "databases") && (argc =? 2) then
    let cfg := set_cfg_dbnum cfg (atoi (arg 1%nat)) in
    if cfg_dbnum cfg <? 1 then Some (inl InvalidDatabases)
    else Some (inr (cfg, cwd))
  else Some (inl BadDirective).

(** The [while(fgets(...))] loop.  Every round takes at least one byte of
    the file, so the length of the file bounds the rounds. *)
Fixpoint config_lines (fuel : nat) (fp : sds) (linenum : Z)
    (cfg : serverConfig) (cwd : dir) : config_result dir :=
  match fgets (S REDIS_CONFIGLINE_MAX) fp with
  | None => ConfigLoaded cfg cwd
  | Some (buf, fp) =>
      match fuel with
      | O => ConfigOutOfFuel
      | S fuel' =>
          let linenum := to_int (linenum + 1) in
          let line := sdstrim (cstr buf) [SP; "009"%char; CR; LF] in
          (* skip comments and blank lines *)
          if Ascii.eqb (hd NUL line) "#"%char || Ascii.eqb (hd NUL line) NUL
          then config_lines fuel' fp linenum cfg cwd
          else
            match config_directive (sdssplitlen line) cfg cwd with
            | None => ConfigChdirFailed linenum
            | Some (inl err) => ConfigExit linenum line err
            | Some (inr (cfg, cwd)) => config_lines fuel' fp linenum cfg cwd
            end
      end
  end.

(** [loadServerConfig(filename)]; [file] is the content of the file,
    [None] when it cannot be opened. *)
Definition loadServerConfig (file : option sds) (cfg : serverConfig) (cwd : dir)
    : config_result dir :=
  match file with
  | None => ConfigNoFile
  | Some fp => config_lines (length fp) fp 0 cfg cwd
  end.

(** The configuration [main] starts the server with: the defaults, or,
    with a configuration file as the only argument, what the file makes of
    the defaults without their save rules. *)
Definition main_config (file : option (option sds)) (cwd : dir)
    : config_result dir :=
  match file with
  | None => ConfigLoaded initServerConfig cwd
  | Some file => loadServerConfig file (ResetServerSaveParams initServerConfig) cwd
  end.
End Config.

(** What a configuration the server starts with satisfies. *)
Definition config_ok (cfg : serverConfig) : Prop :=
  1 <= cfg_dbnum cfg <= INT_MAX
  ∧ 1 <= cfg_port cfg <= 65535
  ∧ 1 <= cfg_maxidletime cfg <= INT_MAX
  ∧ cfg_verbosity cfg ∈ [REDIS_DEBUG; REDIS_NOTICE; REDIS_WARNING]
  ∧ Forall (λ sp, 1 <= seconds sp <= INT_MAX ∧ 0 <= changes sp <= INT_MAX)
      (cfg_saveparams cfg)
  ∧ cfg_logfile cfg ≠ Some (sdsnew "stdout").

(** A file system with one directory in which every file can be opened,
    and a configuration file, for the examples. *)
Definition config_example : sds :=
  sdsnew ("# example" ++ String LF ("port 7000" ++ String LF
          (String LF ("save 900 1" ++ String LF ("databases 4" ++ String LF ""))))).

(** ** Lines of the inline protocol *)

(** The tokens of a line, one space between two of them. *)
Definition join_tokens (tokens : list sds) : sds :=
  match tokens with
  | [] => []
  | t :: ts => t ++ concat ((λ t', SP :: t') <$> ts)
  end.

(** A token as a client sends it: not empty, and free of the bytes that
    end a token, a line or a C string. *)
Definition clean_token (t : sds) : Prop :=
  t ≠ [] ∧ Forall (λ ch, ch ≠ SP ∧ ch ≠ LF ∧ ch ≠ CR ∧ ch ≠ NUL) t.

(** An outcome with the query buffer of the client replaced. *)
Definition outcome_with_querybuf (o : outcome) (q : sds) : outcome :=
  match o with
  | Alive c s => Alive (set_querybuf c q) s
  | o => o
  end.


(** ** Commands sent in one write *)

(** A command line as a client sends it: the tokens, then CR LF. *)
Definition wire_line (tokens : list sds) : sds :=
  join_tokens tokens ++ crlf_bytes.

(** A line whose command takes no bulk argument: its name is not that of
    a bulk command of the table (it may be [quit], or unknown). *)
Definition inline_command (tokens : list sds) : Prop :=
  ∀ cmd, lookupCommand (sdstolower (hd [] tokens)) = Found cmd →
         cmd_type cmd = REDIS_CMD_INLINE.

(** ** Bulk commands *)

(** The client once the header line of a bulk command is read and the
    payload is in argv: [bulklen] holds the length of the payload and of
    the two bytes that follow it. *)
Definition bulk_ready (c : redisClient) (now : Z) (tokens : list sds)
    (payload : sds) : redisClient :=
  set_bulklen
    (set_argv (set_lastinteraction c now) (StringObject <$> tokens ++ [payload]))
    (sdslen payload + 2).

(** ** Patterns of KEYS *)

(** A pattern byte that stands for itself or, for [?], for any one byte:
    not a star, not the start of a class, not an escape, not NUL. *)
Definition plain_char (ch : ascii) : Prop :=
  ch ≠ "*"%char ∧ ch ≠ "["%char ∧ ch ≠ "\"%char ∧ ch ≠ NUL.

(** A string byte under a plain pattern byte. *)
Definition char_matches (pc sc : ascii) : Prop := pc = "?"%char ∨ pc = sc.

(** A string under a pattern of plain bytes: as long, and matching byte
    by byte. *)
Definition plain_matches (pattern string : sds) : Prop :=
  Forall2 char_matches pattern string.

(** The keys KEYS lists for a pattern, in the order of the table. *)
Definition keys_listed (pattern : sds) (d : gmap sds robj) : list sds :=
  filter (λ key, cstr pattern = sdsnew "*"
                 ∨ stringmatchlen pattern key false = Some true)
    (dictEntries d).*1.


(** * Properties *)

(** ** Machine integers *)

Lemma to_int_range z : INT_MIN <= to_int z <= INT_MAX.
Proof.
  unfold to_int, to_signed, INT_MIN, INT_MAX.
  pose proof (Z.mod_pos_bound (z + 2 ^ (32 - 1)) (2 ^ 32)). lia.
Qed.

Lemma to_int_id z : INT_MIN <= z <= INT_MAX → to_int z = z.
Proof.
  unfold to_int, to_signed, INT_MIN, INT_MAX. intros H.
  rewrite Z.mod_small; lia.
Qed.

Lemma to_longlong_id z : LLONG_MIN <= z <= LLONG_MAX → to_longlong z = z.
Proof.
  unfold to_longlong, to_signed, LLONG_MIN, LLONG_MAX. intros H.
  rewrite Z.mod_small; lia.
Qed.

Lemma to_longlong_range z : LLONG_MIN <= to_longlong z <= LLONG_MAX.
Proof.
  unfold to_longlong, to_signed, LLONG_MIN, LLONG_MAX.
  pose proof (Z.mod_pos_bound (z + 2 ^ (64 - 1)) (2 ^ 64)). lia.
Qed.

Lemma atoi_range s : INT_MIN <= atoi s <= INT_MAX.
Proof. apply to_int_range. Qed.

Lemma strtoll_range s : LLONG_MIN <= strtoll s <= LLONG_MAX.
Proof. unfold strtoll, clamp, LLONG_MIN, LLONG_MAX. lia. Qed.

(** ** The cron save trigger *)

Lemma cron_save_rules_spec params s :
  s_bgsaveinprogress s = false →
  s_bgsaveinprogress (cron_save_rules params s) = true
  ↔ ∃ sp, sp ∈ params ∧ rule_holds s sp.
Proof.
  intros Hbg. induction params as [|sp params IH]; simpl.
  - rewrite Hbg. split; [done|]. intros (sp & Hin & _). by apply elem_of_nil in Hin.
  - destruct ((s_dirty s >=? changes sp) && (s_time s - s_lastsave s >? seconds sp))
      eqn:Hrule.
    + unfold saveDbBackground. rewrite Hbg. simpl. split; [|done].
      intros _. exists sp. split; [left|].
      apply andb_true_iff in Hrule as [H1 H2]. split; lia.
    + rewrite IH. split.
      * intros (sp' & Hin & Hh). exists sp'. split; [by right|done].
      * intros (sp' & Hin & Hh). apply elem_of_cons in Hin as [->|Hin].
        -- destruct Hh as [H1 H2].
           apply andb_false_iff in Hrule as [Hr|Hr]; lia.
        -- by exists sp'.
Qed.

Lemma closeTimedoutClients_server w :
  w_server (closeTimedoutClients w) = w_server w.
Proof. done. Qed.

(** C8 (as amended): on a cron tick with no background save in progress,
    a background save is started if and only if some configured rule has
    its changes threshold met by the dirty counter and strictly more than
    its number of seconds elapsed since the last save. *)
Theorem cron_save_trigger pid exitcode w :
  s_bgsaveinprogress (w_server w) = false →
  s_bgsaveinprogress (w_server (serverCron pid exitcode w)) = true
  ↔ ∃ sp, sp ∈ s_saveparams (w_server w) ∧ rule_holds (w_server w) sp.
Proof.
  intros Hbg. unfold serverCron. cbv zeta.
  destruct (Z.rem (s_cronloops (w_server w)) 10 =? 0);
    cbn [w_server closeTimedoutClients s_bgsaveinprogress set_cronloops
         s_saveparams];
    rewrite Hbg; by rewrite cron_save_rules_spec.
Qed.

Lemma cron_save_trigger_witness :
  s_bgsaveinprogress (w_server cron_example) = false
  ∧ (s_bgsaveinprogress (w_server (serverCron 0 0 cron_example)) = true
     ↔ ∃ sp, sp ∈ s_saveparams (w_server cron_example)
             ∧ rule_holds (w_server cron_example) sp).
Proof. split; [reflexivity|]. apply cron_save_trigger. reflexivity. Defined.

(** C8 as stated fails when exactly the rule's number of seconds has
    elapsed: the rule (60 seconds, 1 change) with one change and 60
    seconds since the last save starts no background save. *)
Lemma cron_save_at_least_counterexample :
  let s := mkServer [∅] 1 0 REDIS_MAXIDLETIME false 0 [mkSaveparam 60 1] 60 None 0 in
  s_bgsaveinprogress s = false
  ∧ (∃ sp, sp ∈ s_saveparams s
           ∧ s_dirty s >= changes sp ∧ s_time s - s_lastsave s >= seconds sp)
  ∧ s_bgsaveinprogress (w_server (serverCron 0 0 (mkWorld s []))) = false.
Proof.
  simpl. split; [done|]. split; [|done].
  exists (mkSaveparam 60 1). split; [left|]. simpl. lia.
Qed.

(** ** The protocol parser *)

Lemma sdslen_nonempty (buf : sds) : buf ≠ [] → (sdslen buf =? 0) = false.
Proof.
  destruct buf; [done|]. intros _. apply Z.eqb_neq.
  unfold sdslen. simpl length. lia.
Qed.

(** C10: a query line that is empty once the terminating LF and the
    optional CR are stripped is ignored.  Whenever the buffer of a client
    in inline mode, with the bytes just read appended, starts with "\n" or
    "\r\n", the handler returns with the client alive; only the query
    buffer (the bytes after the line) and the time of the last interaction
    change: no command ran, the reply list, argv and the inline mode are
    as before, and so is the server. *)
Theorem empty_query_ignored c s buf rest :
  c_bulklen c = -1 →
  buf ≠ [] →
  c_querybuf c ++ buf = LF :: rest ∨ c_querybuf c ++ buf = CR :: LF :: rest →
  readQueryFromClient (ReadData buf) c s
  = Alive (set_lastinteraction (set_querybuf c rest) (s_time s)) s.
Proof.
  intros Hbulk Hbuf Hline. unfold readQueryFromClient.
  rewrite sdslen_nonempty by done. unfold sdscatlen. cbv zeta.
  cbn [readQuery_again c_bulklen set_lastinteraction set_querybuf c_querybuf].
  rewrite Hbulk. change (-1 =? -1) with true. cbv iota.
  destruct Hline as [-> | ->]; reflexivity.
Qed.

Lemma empty_query_ignored_witness :
  let c := createClient 5 empty_line_server in
  c_bulklen c = -1
  ∧ readQueryFromClient (ReadData [CR; LF]) c empty_line_server
    = Alive (set_lastinteraction (set_querybuf c []) (s_time empty_line_server))
        empty_line_server.
Proof.
  split; [reflexivity|].
  apply (empty_query_ignored (createClient 5 empty_line_server)
           empty_line_server [CR; LF] []);
    [reflexivity | discriminate | right; reflexivity].
Defined.

Lemma removelast_snoc {A} (x : A) (l : list A) (y : A) :
  removelast (x :: l ++ [y]) = x :: l.
Proof. by rewrite app_comm_cons, removelast_last. Qed.

Lemma nth_snoc {A} (x : A) (l : list A) (y d : A) :
  nth (length (x :: l ++ [y]) - 1) (x :: l ++ [y]) d = y.
Proof.
  rewrite app_comm_cons.
  replace (length ((x :: l) ++ [y]) - 1)%nat with (length (x :: l))
    by (rewrite length_app; simpl; lia).
  apply nth_middle.
Qed.

(** C6 (as amended): the length [N] of a bulk command, the [int] that
    [atoi] reads from the last token of the header line, is accepted
    exactly when [0 <= N <= 1073741824].  Outside the range the reply is
    the error line and the client is reset (alive, argv empty, inline
    mode).  Inside it the byte count leaves argv and the client asks for
    [N+2] bytes: taken at once from the buffer when they are there ([N]
    bytes become the last argument, [N+2] leave the buffer, the command
    runs), awaited otherwise; and a client that waits for [N+2] bytes takes
    them the same way as soon as its buffer holds them. *)
Theorem bulk_length_bounds c s argv0 args count cmd :
  c_argv c = argv0 :: args ++ [count] →
  strcmp0 (sdstolower (sds_ptr argv0)) (sdsnew "quit") = false →
  lookupCommand (sdstolower (sds_ptr argv0)) = Found cmd →
  cmd_type cmd = REDIS_CMD_BULK →
  cmd_arity cmd = argc c →
  c_bulklen c = -1 →
  sdslen (c_querybuf c) <= INT_MAX →
  let N := atoi (sds_ptr count) in
  let c1 := set_argv c (StringObject (sdstolower (sds_ptr argv0)) :: args) in
  (N < 0 ∨ 1073741824 < N →
     processCommand c s
     = Alive (resetClient
                (addReplySds c1 (sdsnew "-ERR invalid bulk write count" ++ crlf_bytes)))
         s)
  ∧ (0 <= N <= 1073741824 →
     processCommand c s
     = if N + 2 <=? sdslen (c_querybuf c) then
         execCommand cmd (take_bulk (set_bulklen c1 (N + 2)) N) s
       else Alive (set_bulklen c1 (N + 2)) s)
  ∧ (0 <= N <= 1073741824 →
     ∀ c2 fuel,
       c_bulklen c2 = N + 2 →
       N + 2 <= sdslen (c_querybuf c2) <= INT_MAX →
       readQuery_again (S fuel) c2 s = processCommand (take_bulk c2 N) s).
Proof.
  intros Hargv Hquit Hcmd Htype Harity Hbulk Hqb N c1.
  assert (processCommand c s
          = if (N <? 0) || (N >? 1024 * 1024 * 1024) then
              Alive (resetClient
                (addReplySds c1 (sdsnew "-ERR invalid bulk write count" ++ crlf_bytes))) s
            else if to_int (sdslen (c_querybuf c)) >=? to_int (N + 2) then
              execCommand cmd (take_bulk (set_bulklen c1 (to_int (N + 2))) (to_int (N + 2) - 2)) s
            else Alive (set_bulklen c1 (to_int (N + 2))) s) as Hproc.
  { unfold processCommand. rewrite Hargv.
    unfold argv_at. cbn [set_argv c_argv].
    change (nth 0 (?a :: ?l) ?d) with a. cbn [sds_ptr]. rewrite Hquit, Hcmd.
    assert (argc (set_argv c (StringObject (sdstolower (sds_ptr argv0)) :: args ++ [count]))
            = argc c) as ->.
    { unfold argc. simpl. by rewrite Hargv. }
    rewrite Harity, Z.eqb_refl, andb_false_r. cbn [orb negb].
    assert ((argc c <? - argc c) = false) as ->.
    { apply Z.ltb_ge. unfold argc. lia. }
    rewrite Htype. cbn [c_bulklen set_argv]. rewrite Hbulk.
    change ((REDIS_CMD_BULK =? REDIS_CMD_BULK) && (-1 =? -1)) with true.
    cbv iota. rewrite nth_snoc, removelast_snoc. fold N.
    reflexivity. }
  pose proof (atoi_range (sds_ptr count)) as HN. fold N in HN.
  unfold INT_MIN, INT_MAX in *.
  split; [|split].
  - intros Hout. rewrite Hproc.
    destruct ((N <? 0) || (N >? 1024 * 1024 * 1024)) eqn:E; [done|].
    apply orb_false_iff in E as [E1 E2]. lia.
  - intros Hin. rewrite Hproc.
    destruct ((N <? 0) || (N >? 1024 * 1024 * 1024)) eqn:E.
    { apply orb_true_iff in E as [E|E]; lia. }
    rewrite !to_int_id by (unfold INT_MIN, INT_MAX; unfold sdslen in *; lia).
    replace (N + 2 - 2) with N by lia.
    rewrite Z.geb_leb. done.
  - intros Hin c2 fuel Hb2 Hq2.
    cbn [readQuery_again]. rewrite Hb2.
    assert ((N + 2 =? -1) = false) as -> by (apply Z.eqb_neq; lia).
    rewrite to_int_id by (unfold INT_MIN, INT_MAX; unfold sdslen in *; lia).
    assert ((N + 2 <=? sdslen (c_querybuf c2)) = true) as -> by (apply Z.leb_le; lia).
    unfold take_bulk. cbn [set_argv c_querybuf c_bulklen]. rewrite Hb2.
    by replace (N + 2 - 2) with N by lia.
Qed.

Lemma bulk_length_bounds_witness :
  let c := bulk_example "5" (sdsnew "hello" ++ crlf_bytes) in
  processCommand c empty_line_server
  = execCommand set_entry
      (take_bulk
         (set_bulklen
            (set_argv c [StringObject (sdsnew "set"); StringObject (sdsnew "foo")])
            7)
         5)
      empty_line_server.
Proof.
  pose proof (bulk_length_bounds (bulk_example "5" (sdsnew "hello" ++ crlf_bytes))
                empty_line_server (StringObject (sdsnew "SET"))
                [StringObject (sdsnew "foo")] (StringObject (sdsnew "5"))
                set_entry eq_refl eq_refl eq_refl eq_refl eq_refl eq_refl) as H.
  destruct H as (_ & H & _); [vm_compute; discriminate|].
  apply H. vm_compute. split; discriminate.
Defined.

(** C6 as stated fails for a declared length outside the [int] range:
    the header [SET foo 4294967296] declares more than 1 GiB, is read as
    the length 0 and accepted, and the client waits for 2 bytes, as after
    [SET foo 0]. *)
Lemma bulk_wide_count_counterexample :
  decimal_prefix (sdsnew "4294967296") = 4294967296
  ∧ 1073741824 < 4294967296
  ∧ atoi (sdsnew "4294967296") = 0
  ∧ observe (processCommand (bulk_example "4294967296" []) empty_line_server)
    = Some ([], 2, 2)
  ∧ processCommand (bulk_example "4294967296" []) empty_line_server
    = processCommand (bulk_example "0" []) empty_line_server.
Proof. repeat split; vm_compute; reflexivity. Qed.

(** The four boundary values of C6: 0 and 1 GiB are accepted (the client
    waits for N+2 bytes), -1 and 1 GiB + 1 draw the error reply and leave
    the client reset. *)
Example bulk_length_zero :
  observe (processCommand (bulk_example "0" []) empty_line_server)
  = Some ([], 2, 2).
Proof. vm_compute. reflexivity. Qed.

Example bulk_length_one_gib :
  observe (processCommand (bulk_example "1073741824" []) empty_line_server)
  = Some ([], 2, 1073741826).
Proof. vm_compute. reflexivity. Qed.

Example bulk_length_minus_one :
  observe (processCommand (bulk_example "-1" []) empty_line_server)
  = Some (sdsnew "-ERR invalid bulk write count" ++ crlf_bytes, 0, -1).
Proof. vm_compute. reflexivity. Qed.

Example bulk_length_one_gib_plus_one :
  observe (processCommand (bulk_example "1073741825" []) empty_line_server)
  = Some (sdsnew "-ERR invalid bulk write count" ++ crlf_bytes, 0, -1).
Proof. vm_compute. reflexivity. Qed.

(** ** Strings: SET, SETNX, GET *)

Lemma client_dict_set c s d :
  (c_dict c < length (s_dict s))%nat →
  client_dict c (set_client_dict c s d) = d.
Proof.
  intros Hlt. unfold client_dict, set_client_dict. cbn [s_dict set_s_dict].
  by rewrite list_lookup_insert_eq.
Qed.

Lemma client_dict_set_other c c' s d :
  c_dict c' = c_dict c →
  (c_dict c < length (s_dict s))%nat →
  client_dict c' (incr_dirty (set_client_dict c s d)) = d.
Proof.
  intros Heq Hlt. unfold client_dict, set_client_dict.
  cbn [s_dict set_s_dict incr_dirty set_dirty]. rewrite Heq.
  by rewrite list_lookup_insert_eq.
Qed.

Lemma set_client_dict_length c s d :
  length (s_dict (set_client_dict c s d)) = length (s_dict s).
Proof. unfold set_client_dict. cbn. apply length_insert. Qed.

Lemma setGenericCommand_installs nx c s :
  nx = false ∨ client_dict c s !! key_at c 1 = None →
  setGenericCommand nx c s
  = (addReply c (if nx then shared.one else shared.ok),
     incr_dirty (set_client_dict c s (<[key_at c 1 := argv_at c 2]> (client_dict c s)))).
Proof.
  intros H. unfold setGenericCommand, dictAdd, dictReplace.
  destruct (client_dict c s !! key_at c 1) eqn:E.
  - destruct H as [-> | H]; [|done]. reflexivity.
  - reflexivity.
Qed.

Lemma setnxCommand_present c s :
  is_Some (client_dict c s !! key_at c 1) →
  setnxCommand c s = (addReply c shared.zero, s).
Proof.
  intros [o E]. unfold setnxCommand, setGenericCommand, dictAdd.
  rewrite E. reflexivity.
Qed.

Lemma getCommand_string c s v :
  client_dict c s !! key_at c 1 = Some (StringObject v) →
  getCommand c s = (set_reply c (c_reply c ++ bulk_reply v), s).
Proof.
  intros E. unfold getCommand, dictFind. rewrite E. cbn.
  unfold addReply, addReplySds, addReply, bulk_reply. cbn.
  by rewrite <- !app_assoc.
Qed.

(** C3: SET installs the value under the key whatever was there and
    replies +OK; SETNX installs it only when the key is absent and replies
    1, and replies 0 leaving everything as it was when the key exists.  So
    SET k v followed by GET k replies v, and SETNX k v1, SETNX k v2, GET k,
    started on a key that is absent (on a key that exists SETNX leaves the
    value, as just said), replies 1, 0 and v1. *)
Theorem set_setnx_get c s :
  (c_dict c < length (s_dict s))%nat →
  (setCommand c s
   = (addReply c shared.ok,
      incr_dirty (set_client_dict c s
                    (<[key_at c 1 := argv_at c 2]> (client_dict c s)))))
  ∧ (client_dict c s !! key_at c 1 = None →
     setnxCommand c s
     = (addReply c shared.one,
        incr_dirty (set_client_dict c s
                      (<[key_at c 1 := argv_at c 2]> (client_dict c s)))))
  ∧ (is_Some (client_dict c s !! key_at c 1) →
     setnxCommand c s = (addReply c shared.zero, s))
  ∧ (∀ set get k v,
       c_reply (fst (call getCommand [get; k]
                       (call setCommand [set; k; v] (c, s))))
       = c_reply c ++ [shared.ok] ++ bulk_reply v)
  ∧ (∀ setnx get k v1 v2,
       client_dict c s !! k = None →
       c_reply (fst (call getCommand [get; k]
                       (call setnxCommand [setnx; k; v2]
                          (call setnxCommand [setnx; k; v1] (c, s)))))
       = c_reply c ++ [shared.one; shared.zero] ++ bulk_reply v1).
Proof.
  intros Hdb. split; [|split; [|split; [|split]]].
  - by apply (setGenericCommand_installs false); left.
  - intros E. by apply (setGenericCommand_installs true); right.
  - apply setnxCommand_present.
  - intros set get k v. unfold call at 2. cbn [fst snd].
    unfold setCommand. rewrite setGenericCommand_installs by by left.
    unfold call. cbn [fst snd].
    erewrite getCommand_string.
    2:{ rewrite client_dict_set_other by done. cbn. apply lookup_insert_eq. }
    cbn. by rewrite <- app_assoc.
  - intros setnx get k v1 v2 E. unfold call at 3. cbn [fst snd].
    unfold setnxCommand at 2. rewrite setGenericCommand_installs by by right.
    unfold call at 2. cbn [fst snd].
    rewrite setnxCommand_present.
    2:{ rewrite client_dict_set_other by done. cbn.
        rewrite lookup_insert_eq. eauto. }
    unfold call. cbn [fst snd].
    erewrite getCommand_string.
    2:{ rewrite client_dict_set_other by done. cbn. apply lookup_insert_eq. }
    cbn. by rewrite <- !app_assoc.
Qed.

Lemma set_setnx_get_witness :
  let c := createClient 5 empty_line_server in
  (c_dict c < length (s_dict empty_line_server))%nat
  ∧ c_reply (fst (call getCommand [sdsnew "get"; sdsnew "k"]
                    (call setnxCommand [sdsnew "setnx"; sdsnew "k"; sdsnew "v2"]
                       (call setnxCommand [sdsnew "setnx"; sdsnew "k"; sdsnew "v1"]
                          (c, empty_line_server)))))
    = [shared.one; shared.zero] ++ bulk_reply (sdsnew "v1").
Proof.
  assert (c_dict (createClient 5 empty_line_server)
          < length (s_dict empty_line_server))%nat as Hdb by (simpl; lia).
  split; [exact Hdb|].
  destruct (set_setnx_get (createClient 5 empty_line_server) empty_line_server Hdb)
    as (_ & _ & _ & _ & H).
  apply (H (sdsnew "setnx") (sdsnew "get") (sdsnew "k") (sdsnew "v1") (sdsnew "v2")).
  reflexivity.
Defined.

(** On a key that exists SETNX leaves the value: with "old" stored under
    k, SETNX k v1, SETNX k v2, GET k replies 0, 0 and "old". *)
Example setnx_existing_key :
  let c := createClient 5 setnx_example in
  c_reply (fst (call getCommand [sdsnew "get"; sdsnew "k"]
                  (call setnxCommand [sdsnew "setnx"; sdsnew "k"; sdsnew "v2"]
                     (call setnxCommand [sdsnew "setnx"; sdsnew "k"; sdsnew "v1"]
                        (c, setnx_example)))))
  = [shared.zero; shared.zero] ++ bulk_reply (sdsnew "old")
  ∧ bulk_reply (sdsnew "old") ≠ bulk_reply (sdsnew "v1").
Proof. split; [vm_compute; reflexivity | discriminate]. Qed.

(** ** INCR, DECR, INCRBY, DECRBY *)

Lemma incrDecrCommand_result incr c s :
  incrDecrCommand incr c s
  = incr_result c s (to_longlong (incr_current (client_dict c s) (key_at c 1) + incr)).
Proof.
  unfold incrDecrCommand, incr_result, dictAdd, dictReplace.
  destruct (client_dict c s !! key_at c 1); reflexivity.
Qed.

Lemma incr_proc_delta cmd c s :
  incr_proc cmd c s = incrDecrCommand (incr_delta cmd c) c s.
Proof. by destruct cmd. Qed.


Lemma digits_value_not_digit s acc :
  match s with c :: _ => isdigit c = false | [] => True end →
  digits_value s acc = acc.
Proof. destruct s as [|c s]; [done|]. simpl. by intros ->. Qed.

Lemma strtoll_no_number v : no_number v → strtoll v = 0.
Proof.
  unfold no_number, strtoll, decimal_prefix.
  destruct (skip_spaces v) as [|c r]; [done|].
  destruct (Ascii.eqb c "-") eqn:Em; simpl.
  { intros H. by rewrite digits_value_not_digit. }
  destruct (Ascii.eqb c "+") eqn:Ep; simpl.
  { intros H. by rewrite digits_value_not_digit. }
  by intros ->.
Qed.

(** *** The decimal form reads back as the number *)

Lemma digit_char_facts d :
  0 <= d <= 9 →
  isdigit (digit_char d) = true
  ∧ char_code (digit_char d) - 48 = d
  ∧ isspace (digit_char d) = false
  ∧ Ascii.eqb (digit_char d) "-" = false
  ∧ Ascii.eqb (digit_char d) "+" = false.
Proof.
  intros H.
  assert (d = 0 ∨ d = 1 ∨ d = 2 ∨ d = 3 ∨ d = 4 ∨ d = 5 ∨ d = 6 ∨ d = 7
          ∨ d = 8 ∨ d = 9) as Hd by lia.
  repeat (destruct Hd as [-> | Hd]; [by vm_compute|]).
  subst d. by vm_compute.
Qed.

Lemma digits_value_app s1 s2 k :
  Forall (λ c, isdigit c = true) s1 →
  digits_value (s1 ++ s2) k = digits_value s2 (digits_value s1 k).
Proof.
  intros H. revert k. induction H as [|c s1 Hc _ IH]; intros k; [done|].
  simpl. rewrite Hc. apply IH.
Qed.

Lemma utoa_digits fuel n acc :
  0 <= n < 2 ^ Z.of_nat fuel → (1 <= fuel)%nat →
  ∃ ds, utoa fuel n acc = ds ++ acc
        ∧ ds ≠ []
        ∧ Forall (λ c, isdigit c = true) ds
        ∧ ∀ k, digits_value ds k = k * 10 ^ Z.of_nat (length ds) + n.
Proof.
  revert n acc. induction fuel as [|fuel IH]; intros n acc Hn Hf; [lia|].
  pose proof (Z.mod_pos_bound n 10 ltac:(lia)) as Hmod.
  destruct (digit_char_facts (n mod 10) ltac:(lia)) as (Hd & Hv & _).
  pose proof (Z.div_mod n 10 ltac:(lia)) as Hdm.
  simpl. destruct (n / 10 =? 0) eqn:E.
  - apply Z.eqb_eq in E. exists [digit_char (n mod 10)].
    split; [done|]. split; [done|]. split; [by constructor|].
    intros k. simpl. rewrite Hd, Hv. lia.
  - apply Z.eqb_neq in E.
    assert (0 < n / 10) as Hq by (pose proof (Z.div_pos n 10); lia).
    destruct fuel as [|fuel'].
    { simpl in Hn. lia. }
    destruct (IH (n / 10) (digit_char (n mod 10) :: acc)) as (ds & Hds & Hne & Hall & Hval).
    { split; [lia|].
      rewrite Nat2Z.inj_succ, Z.pow_succ_r in Hn by lia.
      apply Z.div_lt_upper_bound; lia. }
    { lia. }
    exists (ds ++ [digit_char (n mod 10)]).
    split; [by rewrite Hds, <- app_assoc|].
    split; [by destruct ds|].
    split; [apply Forall_app; split; [done|by constructor]|].
    intros k. rewrite digits_value_app by done. simpl.
    rewrite Hd, Hv, Hval, length_app. simpl length.
    rewrite Nat2Z.inj_add, Z.pow_add_r by lia.
    change (Z.of_nat 1) with 1. lia.
Qed.

Lemma fmt_unsigned_digits n :
  0 <= n →
  ∃ c r, fmt_unsigned n = c :: r
         ∧ isdigit c = true ∧ isspace c = false
         ∧ Ascii.eqb c "-" = false ∧ Ascii.eqb c "+" = false
         ∧ digits_value (c :: r) 0 = n.
Proof.
  intros Hn. unfold fmt_unsigned.
  destruct (utoa_digits (S (Z.to_nat (Z.log2 n))) n []) as (ds & Hds & Hne & Hall & Hval).
  { split; [done|].
    rewrite Nat2Z.inj_succ, Z2Nat.id by apply Z.log2_nonneg.
    destruct (decide (n = 0)) as [->|]; [done|].
    apply Z.log2_spec. lia. }
  { lia. }
  rewrite Hds, app_nil_r. destruct ds as [|c r]; [done|].
  exists c, r. split; [done|].
  apply Forall_cons in Hall as [Hc _].
  assert (isspace c = false ∧ Ascii.eqb c "-" = false ∧ Ascii.eqb c "+" = false)
    as (? & ? & ?).
  { clear -Hc. unfold isdigit, isspace, char_code in *.
    destruct c as [[] [] [] [] [] [] [] []]; vm_compute in Hc; try discriminate;
      by vm_compute. }
  repeat split; try done.
Qed.

Lemma strtoll_fmt_lld v :
  LLONG_MIN <= v <= LLONG_MAX → strtoll (fmt_lld v) = v.
Proof.
  intros Hv. unfold strtoll, decimal_prefix, fmt_lld, clamp.
  unfold LLONG_MIN, LLONG_MAX in *.
  destruct (v <? 0) eqn:E.
  - apply Z.ltb_lt in E.
    destruct (fmt_unsigned_digits (- v)) as (c & r & -> & _ & _ & _ & _ & Hval); [lia|].
    change (skip_spaces ("-"%char :: c :: r)) with ("-"%char :: c :: r).
    cbv beta iota. rewrite Ascii.eqb_refl, Hval. lia.
  - apply Z.ltb_ge in E.
    destruct (fmt_unsigned_digits v) as (c & r & -> & _ & Hsp & Hm & Hp & Hval); [lia|].
    cbn [skip_spaces]. rewrite Hsp, Hm, Hp, Hval. lia.
Qed.

(** C4 (as amended): each of the four commands reads the current value
    with [strtoll] (0 for a missing key, 0 for a value with no number),
    adds its delta in 64-bit two's complement, where the delta is 1, -1,
    the [int] that [atoi] reads from the argument, or its [int] negation,
    stores the decimal form of the sum under the key as a new string
    object and replies that object followed by CRLF; a sum inside the
    [long long] range is the exact sum, and the stored string reads back
    as the sum. *)
Theorem incr_decr_commands cmd c s :
  let d := client_dict c s in
  let key := key_at c 1 in
  let cur := incr_current d key in
  incr_proc cmd c s = incr_result c s (to_longlong (cur + incr_delta cmd c))
  ∧ (d !! key = None → cur = 0)
  ∧ (∀ v, d !! key = Some (StringObject v) → cur = strtoll v)
  ∧ (∀ v, d !! key = Some (StringObject v) → no_number v → cur = 0)
  ∧ (LLONG_MIN <= cur + incr_delta cmd c <= LLONG_MAX →
     to_longlong (cur + incr_delta cmd c) = cur + incr_delta cmd c)
  ∧ strtoll (fmt_lld (to_longlong (cur + incr_delta cmd c)))
    = to_longlong (cur + incr_delta cmd c).
Proof.
  intros d key cur. split; [|split; [|split; [|split; [|split]]]];
    [| | | | |apply strtoll_fmt_lld, to_longlong_range].
  - rewrite incr_proc_delta. apply incrDecrCommand_result.
  - intros E. unfold cur, incr_current, dictFind. by rewrite E.
  - intros v E. unfold cur, incr_current, dictFind. by rewrite E.
  - intros v E Hv. unfold cur, incr_current, dictFind. rewrite E. simpl.
    by apply strtoll_no_number.
  - apply to_longlong_id.
Qed.

Lemma incr_decr_commands_witness :
  client_dict incrby_example empty_line_server !! key_at incrby_example 1 = None
  ∧ incr_current (client_dict incrby_example empty_line_server)
      (key_at incrby_example 1) = 0.
Proof.
  split; [reflexivity|].
  destruct (incr_decr_commands INCRBY incrby_example empty_line_server)
    as (_ & H & _).
  apply H. reflexivity.
Defined.

(** C4 as stated fails for an argument outside the [int] range:
    [INCRBY k 3000000000] on a missing key stores and replies -1294967296,
    not the sum of 0 and the decimal argument. *)
Lemma incrby_wide_argument_counterexample :
  client_dict incrby_example empty_line_server !! sdsnew "k" = None
  ∧ decimal_prefix (sds_ptr (argv_at incrby_example 2)) = 3000000000
  ∧ incrbyCommand incrby_example empty_line_server
    = incr_result incrby_example empty_line_server (-1294967296)
  ∧ fmt_lld (-1294967296) ≠ fmt_lld (0 + 3000000000).
Proof.
  split; [reflexivity|]. split; [reflexivity|]. split.
  - change incrbyCommand with (incr_proc INCRBY).
    rewrite incr_proc_delta, incrDecrCommand_result. reflexivity.
  - vm_compute. discriminate.
Qed.



(** ** LRANGE *)

Lemma addReplyBulk_items c ele :
  addReplyBulk c ele = set_reply c (c_reply c ++ bulk_items ele).
Proof.
  unfold addReplyBulk, addReplySds, addReply, bulk_items. cbn.
  by rewrite <- !app_assoc.
Qed.

Lemma lrange_loop_items n ln c :
  lrange_loop n ln c
  = set_reply c (c_reply c ++ concat (bulk_items <$> take n ln)).
Proof.
  revert ln c. induction n as [|n IH]; intros ln c.
  - destruct c, ln; cbn; by rewrite app_nil_r.
  - destruct ln as [|ele next].
    + destruct c; cbn; by rewrite app_nil_r.
    + cbn [lrange_loop]. rewrite IH, addReplyBulk_items. cbn.
      by rewrite <- app_assoc.
Qed.

(** The index conversion of the code is the one of the specification. *)
Lemma normalize_index llen i :
  0 <= llen <= INT_MAX → INT_MIN <= i <= INT_MAX →
  (if (if i <? 0 then to_int (llen + i) else i) <? 0 then 0
   else if i <? 0 then to_int (llen + i) else i)
  = Z.max 0 (if i <? 0 then llen + i else i).
Proof.
  intros Hl Hi. unfold INT_MIN, INT_MAX in *.
  destruct (Z.ltb_spec i 0).
  - rewrite to_int_id by (unfold INT_MIN, INT_MAX; lia).
    destruct (Z.ltb_spec (llen + i) 0); lia.
  - destruct (Z.ltb_spec i 0); lia.
Qed.

(** C5 (as amended): LRANGE on a key that holds a list replies what the
    specification says of the list and of the two [int] indices that [atoi]
    reads from the arguments, for every list whose length fits an [int],
    and leaves the server as it is. *)
Theorem lrange_reply_spec c s l :
  client_dict c s !! key_at c 1 = Some (ListObject l) →
  Z.of_nat (length l) <= INT_MAX →
  lrangeCommand c s
  = (set_reply c
       (c_reply c ++ lrange_reply l (atoi (sds_ptr (argv_at c 2)))
                       (atoi (sds_ptr (argv_at c 3)))),
     s).
Proof.
  intros E Hlen. unfold lrangeCommand, dictFind. rewrite E. cbv zeta.
  pose proof (atoi_range (sds_ptr (argv_at c 2))) as Hs.
  pose proof (atoi_range (sds_ptr (argv_at c 3))) as He.
  set (start := atoi (sds_ptr (argv_at c 2))) in *.
  set (end_ := atoi (sds_ptr (argv_at c 3))) in *.
  unfold listLength.
  rewrite (to_int_id (Z.of_nat (length l))) by (unfold INT_MIN, INT_MAX in *; lia).
  set (len := Z.of_nat (length l)) in *.
  rewrite !normalize_index by (done || lia).
  unfold lrange_reply. cbv zeta. fold len.
  set (start' := Z.max 0 (if start <? 0 then len + start else start)).
  set (end' := Z.max 0 (if end_ <? 0 then len + end_ else end_)).
  assert (0 <= start' <= INT_MAX ∧ 0 <= end' <= INT_MAX) as [Hs' He'].
  { unfold start', end', INT_MIN, INT_MAX in *.
    destruct (Z.ltb_spec start 0), (Z.ltb_spec end_ 0); lia. }
  destruct ((start' >? end') || (start' >=? len)) eqn:Hout.
  { by destruct c. }
  apply orb_false_iff in Hout as [H1 H2].
  assert (start' <= end') by lia. assert (start' < len) by lia.
  assert ((if end' >=? len then to_int (len - 1) else end') = Z.min end' (len - 1))
    as ->.
  { unfold INT_MIN, INT_MAX in *. destruct (Z.geb_spec end' len).
    - rewrite to_int_id by (unfold INT_MIN, INT_MAX; lia). lia.
    - lia. }
  set (end'' := Z.min end' (len - 1)).
  assert (start' <= end'' < len) by (unfold end''; lia).
  unfold INT_MIN, INT_MAX in *.
  rewrite !to_int_id by (unfold INT_MIN, INT_MAX; try rewrite to_int_id;
                         unfold INT_MIN, INT_MAX; lia).
  assert (listIndex l start' = Some (Z.to_nat start')) as ->.
  { unfold listIndex. fold len.
    assert ((start' <? 0) = false) as -> by (apply Z.ltb_ge; lia).
    assert ((0 <=? start') && (start' <? len) = true) as ->; [|done].
    apply andb_true_iff. split; [apply Z.leb_le|apply Z.ltb_lt]; lia. }
  rewrite lrange_loop_items. unfold addReplySds, addReply. cbn.
  rewrite <- app_assoc. reflexivity.
Qed.

Lemma lrange_reply_spec_witness :
  lrangeCommand lrange_example_client lrange_example_server
  = (set_reply lrange_example_client
       ([StringObject (sdsnew "2" ++ crlf_bytes)]
        ++ bulk_items (StringObject (sdsnew "b"))
        ++ bulk_items (StringObject (sdsnew "c"))),
     lrange_example_server).
Proof.
  apply (lrange_reply_spec lrange_example_client lrange_example_server
           lrange_example_list); [reflexivity | vm_compute; discriminate].
Defined.

(** C5 as stated fails for an index outside the [int] range:
    [LRANGE l 0 4294967296] on the list a, b, c reads the end as 0 and
    replies the one element a, where the specification's reply for the
    indices 0 and 4294967296 is the whole list. *)
Lemma lrange_wide_index_counterexample :
  client_dict lrange_wide_client lrange_example_server !! key_at lrange_wide_client 1
  = Some (ListObject lrange_example_list)
  ∧ decimal_prefix (sds_ptr (argv_at lrange_wide_client 2)) = 0
  ∧ decimal_prefix (sds_ptr (argv_at lrange_wide_client 3)) = 4294967296
  ∧ lrangeCommand lrange_wide_client lrange_example_server
    = (set_reply lrange_wide_client
         ([StringObject (sdsnew "1" ++ crlf_bytes)]
          ++ bulk_items (StringObject (sdsnew "a"))),
       lrange_example_server)
  ∧ lrange_reply lrange_example_list 0 4294967296
    = [StringObject (sdsnew "3" ++ crlf_bytes)]
      ++ bulk_items (StringObject (sdsnew "a"))
      ++ bulk_items (StringObject (sdsnew "b"))
      ++ bulk_items (StringObject (sdsnew "c")).
Proof. repeat split; vm_compute; reflexivity. Qed.

(** ** SINTER *)

Lemma sinter_gather_sets d keys dv :
  Forall2 (λ key set, d !! sds_ptr key = Some (SetObject set)) keys dv →
  sinter_gather d keys = inr dv.
Proof.
  induction 1 as [|key set keys dv Hkey _ IH]; [done|].
  simpl. unfold dictFind. by rewrite Hkey, IH.
Qed.

Lemma naive_sinter_elem dv k :
  dv ≠ [] → k ∈ naive_sinter dv ↔ ∀ d, d ∈ dv → k ∈ dom d.
Proof.
  destruct dv as [|d dv]; [done|]. intros _. simpl.
  assert (∀ acc : gset sds,
            k ∈ foldl (λ acc d', acc ∩ dom d') acc dv
            ↔ k ∈ acc ∧ ∀ d', d' ∈ dv → k ∈ dom d') as Hfold.
  { induction dv as [|d' dv IH]; intros acc; simpl.
    - split; [intros ?; split; [done|]|by intros [? _]].
      intros ? Hin. by apply elem_of_nil in Hin.
    - rewrite IH, elem_of_intersection. split.
      + intros [[? ?] Hall]. split; [done|].
        intros d'' [->|?]%elem_of_cons; auto.
      + intros [? Hall]. split; [split; [done|]|].
        * apply Hall. by left.
        * intros d'' ?. apply Hall. by right. }
  rewrite Hfold. split.
  - intros [? Hall] d' [->|?]%elem_of_cons; auto.
  - intros Hall. split; [apply Hall; by left|].
    intros d' ?. apply Hall. by right.
Qed.

Lemma forallb_is_some (others : list (gmap sds robj)) k :
  forallb (λ dvj, bool_decide (is_Some (dictFind dvj k))) others = true
  ↔ Forall (λ d : gmap sds robj, is_Some (d !! k)) others.
Proof.
  rewrite forallb_forall, Forall_forall. unfold dictFind.
  split; intros H d Hd.
  - apply list_elem_of_In in Hd. by apply (bool_decide_eq_true_1 _), H.
  - apply list_elem_of_In in Hd. by apply bool_decide_eq_true_2, H.
Qed.

(** The loop replies the members of the first set that every other set
    holds, in the order of the iteration, and counts them. *)
Lemma sinter_loop_filter others entries c n :
  Forall (λ ke, ke.2 = StringObject ke.1) entries →
  0 <= n → n + Z.of_nat (length entries) <= INT_MAX →
  let ks := filter (λ k, Forall (λ d : gmap sds robj, is_Some (d !! k)) others)
              (entries.*1) in
  sinter_loop others entries c n
  = (set_reply c (c_reply c ++ concat (bulk_items <$> (StringObject <$> ks))),
     n + Z.of_nat (length ks)).
Proof.
  intros Hidx. revert c n.
  induction Hidx as [|[k e] entries Hke _ IH]; intros c n Hn Hmax ks.
  - subst ks. destruct c; cbn. by rewrite app_nil_r, Z.add_0_r.
  - simpl in Hke. subst e. cbn [sinter_loop sds_ptr].
    simpl length in Hmax. unfold ks. cbn [fmap list_fmap fst].
    destruct (forallb _ others) eqn:Hall.
    + apply forallb_is_some in Hall. rewrite filter_cons_True by done.
      rewrite to_int_id by (unfold INT_MIN, INT_MAX in *; lia).
      rewrite IH by lia. rewrite addReplyBulk_items. cbn.
      rewrite <- app_assoc. f_equal. lia.
    + rewrite filter_cons_False.
      2:{ intros HF. apply forallb_is_some in HF. congruence. }
      rewrite IH by lia. done.
Qed.

(** C2: SINTER on n >= 1 keys that all hold sets replies the count line
    followed by the items of the members [ks], where [ks] lists without
    repetition exactly the strings that belong to every one of the n sets;
    the count is the cardinality of their intersection, and the members
    replied are, as a set, the naive pairwise intersection. *)
Theorem sinter_is_intersection c s dv :
  Forall2 (λ key set, client_dict c s !! sds_ptr key = Some (SetObject set))
    (tail (c_argv c)) dv →
  dv ≠ [] →
  Forall set_indexed dv →
  Forall (λ d, dictGetHashTableUsed d <= INT_MAX) dv →
  ∃ ks : list sds,
    sinterCommand c s
    = (set_reply c
         (c_reply c ++
          StringObject (bulk_header (Z.of_nat (length ks)))
          :: concat (bulk_items <$> (StringObject <$> ks))),
       s)
    ∧ NoDup ks
    ∧ (∀ k, k ∈ ks ↔ ∀ d, d ∈ dv → k ∈ dom d)
    ∧ list_to_set ks = naive_sinter dv
    ∧ length ks = size (naive_sinter dv).
Proof.
  intros Hkeys Hne Hidx Hsize.
  unfold sinterCommand. rewrite (sinter_gather_sets _ _ _ Hkeys).
  pose proof (merge_sort_Permutation sets_by_cardinality dv) as Hperm.
  fold (qsort dv) in Hperm.
  destruct (qsort dv) as [|d0 others] eqn:Hsorted.
  { apply Permutation_nil_l in Hperm. done. }
  cbn [head tail default].
  assert (set_indexed d0 ∧ dictGetHashTableUsed d0 <= INT_MAX) as [Hd0 Hs0].
  { rewrite Forall_forall in Hidx, Hsize.
    assert (d0 ∈ dv) by (rewrite <- Hperm; by left). auto. }
  set (ks := filter (λ k, Forall (λ d : gmap sds robj, is_Some (d !! k)) others)
               ((dictEntries d0).*1)).
  assert (NoDup ks) as Hnodup.
  { apply NoDup_filter, NoDup_fst_map_to_list. }
  assert (∀ k, k ∈ ks ↔ ∀ d, d ∈ dv → k ∈ dom d) as Hmem.
  { intros k. unfold ks. rewrite list_elem_of_filter, Forall_forall.
    unfold dictEntries. rewrite list_elem_of_fmap.
    setoid_rewrite <- Hperm. setoid_rewrite elem_of_cons.
    setoid_rewrite elem_of_dom. split.
    - intros [Hothers ([k' e] & -> & Hin)] d [->|Hd]; [|by apply Hothers].
      apply elem_of_map_to_list in Hin. by exists e.
    - intros Hall. split; [by eauto|].
      destruct (Hall d0 (or_introl eq_refl)) as [e He].
      exists (k, e). split; [done|]. by apply elem_of_map_to_list. }
  assert (list_to_set ks = naive_sinter dv) as Hset.
  { apply set_eq. intros k.
    by rewrite elem_of_list_to_set, Hmem, naive_sinter_elem. }
  exists ks. split; [|split; [done|split; [done|split; [done|]]]].
  - rewrite (sinter_loop_filter others (dictEntries d0)).
    + fold ks. cbn [addReply set_reply c_reply].
      rewrite <- app_assoc.
      rewrite (insert_app_r_alt (c_reply c) _ (length (c_reply c))) by lia.
      rewrite Nat.sub_diag. cbn. by destruct c.
    + apply Forall_forall. intros [k e] Hin. simpl.
      apply elem_of_map_to_list in Hin. by apply Hd0.
    + lia.
    + unfold dictEntries. rewrite length_map_to_list.
      unfold dictGetHashTableUsed in Hs0. lia.
  - rewrite <- Hset. by rewrite size_list_to_set.
Qed.

Lemma sinter_is_intersection_witness :
  ∃ ks : list sds,
    sinterCommand sinter_example_client sinter_example_server
    = (set_reply sinter_example_client
         (StringObject (bulk_header (Z.of_nat (length ks)))
          :: concat (bulk_items <$> (StringObject <$> ks))),
       sinter_example_server)
    ∧ list_to_set ks = ({[sdsnew "b"; sdsnew "c"]} : gset sds).
Proof.
  destruct (sinter_is_intersection sinter_example_client sinter_example_server
              [sinter_example_set ["b"; "c"; "d"; "e"];
               sinter_example_set ["a"; "b"; "c"]])
    as (ks & Hreply & _ & _ & Hset & _).
  - repeat constructor.
  - discriminate.
  - repeat constructor; intros k e; unfold sinter_example_set; simpl;
      intros H;
      repeat (apply lookup_insert_Some in H as [[<- <-]|[_ H]]; [done|]);
      by rewrite lookup_empty in H.
  - repeat constructor; vm_compute; discriminate.
  - exists ks. split; [exact Hreply|].
    rewrite Hset. vm_compute. reflexivity.
Defined.

(** ** The keyspace invariant *)

Lemma is_string_inv o : is_string o → ∃ s, o = StringObject s.
Proof. destruct o; try discriminate. eauto. Qed.

Lemma is_token_string o : is_token o → is_string o.
Proof. by destruct o. Qed.

Lemma argv_at_is_string c i : Forall is_string (c_argv c) → is_string (argv_at c i).
Proof.
  intros H. unfold argv_at. revert i.
  induction H as [|o l Ho _ IH]; intros [|i]; simpl; auto; done.
Qed.

Lemma argv_at_string c i :
  Forall is_string (c_argv c) → argv_at c i = StringObject (key_at c i).
Proof.
  intros H. unfold key_at.
  destruct (is_string_inv _ (argv_at_is_string c i H)) as [x ->]. done.
Qed.

Lemma dict_ok_empty : dict_ok ∅.
Proof. intros k v H. by rewrite lookup_empty in H. Qed.

Lemma dict_ok_insert d k v :
  dict_ok d → k ≠ [] → value_ok v → dict_ok (<[k := v]> d).
Proof.
  intros Hd Hk Hv k' v' [[<- <-]|[_ H]]%lookup_insert_Some; [done|]. by apply Hd.
Qed.

Lemma dict_ok_delete d k : dict_ok d → dict_ok (delete k d).
Proof. intros Hd k' v' [_ H]%lookup_delete_Some. by apply Hd. Qed.

Lemma dict_ok_lookup d k v : dict_ok d → d !! k = Some v → k ≠ [] ∧ value_ok v.
Proof. intros Hd. apply Hd. Qed.

Lemma client_dict_ok c s : keyspace_ok s → dict_ok (client_dict c s).
Proof.
  intros Hs. unfold client_dict.
  destruct (s_dict s !! c_dict c) as [d|] eqn:E; simpl.
  - eapply Forall_lookup_1; eauto.
  - apply dict_ok_empty.
Qed.

Lemma keyspace_ok_insert s i d :
  keyspace_ok s → dict_ok d → keyspace_ok (set_s_dict s (<[i := d]> (s_dict s))).
Proof.
  intros Hs Hd. unfold keyspace_ok. cbn [s_dict set_s_dict].
  apply Forall_insert; done.
Qed.

(** Storing a well-formed database through [c->dict] and counting the
    change keep the invariant. *)
Lemma store_ok c s d :
  keyspace_ok s → dict_ok d →
  keyspace_ok (incr_dirty (set_client_dict c s d))
  ∧ length (s_dict (incr_dirty (set_client_dict c s d))) = length (s_dict s).
Proof.
  intros Hs Hd. split.
  - by apply (keyspace_ok_insert s (c_dict c) d).
  - cbn. apply length_insert.
Qed.

Lemma reply_keeps_dict c o : c_dict (addReply c o) = c_dict c.
Proof. done. Qed.

(** A procedure that leaves the server alone and the client on its
    database preserves the invariant. *)
Lemma preserves_readonly tokens f :
  (∀ c s, (f c s).2 = s ∧ c_dict (f c s).1 = c_dict c) → preserves tokens f.
Proof.
  intros H c s _ Hdb Hs. destruct (H c s) as [-> ->]. done.
Qed.

Lemma preserves_mono n m f : (n <= m)%nat → preserves n f → preserves m f.
Proof.
  intros Hnm H c s [Hstr Htok] Hdb Hs. apply H; [|done..].
  split; [done|]. intros i Hi. apply Htok. lia.
Qed.

Ltac readonly :=
  apply preserves_readonly; intros c s;
  repeat (match goal with
          | |- context [match ?x with _ => _ end] => destruct x
          end; cbn -[addReply]);
  done.

Lemma pingCommand_preserves : preserves 0 pingCommand.
Proof. unfold pingCommand. readonly. Qed.

Lemma echoCommand_preserves : preserves 0 echoCommand.
Proof. unfold echoCommand. readonly. Qed.

Lemma getCommand_preserves : preserves 0 getCommand.
Proof. unfold getCommand. readonly. Qed.

Lemma existsCommand_preserves : preserves 0 existsCommand.
Proof. unfold existsCommand. readonly. Qed.

Lemma randomkeyCommand_preserves : preserves 0 randomkeyCommand.
Proof. unfold randomkeyCommand. readonly. Qed.

Lemma dbsizeCommand_preserves : preserves 0 dbsizeCommand.
Proof. unfold dbsizeCommand. readonly. Qed.

Lemma lastsaveCommand_preserves : preserves 0 lastsaveCommand.
Proof. unfold lastsaveCommand. readonly. Qed.

Lemma typeCommand_preserves : preserves 0 typeCommand.
Proof. unfold typeCommand. readonly. Qed.

Lemma llenCommand_preserves : preserves 0 llenCommand.
Proof. unfold llenCommand. readonly. Qed.

Lemma lindexCommand_preserves : preserves 0 lindexCommand.
Proof. unfold lindexCommand. readonly. Qed.

Lemma sismemberCommand_preserves : preserves 0 sismemberCommand.
Proof. unfold sismemberCommand. readonly. Qed.

Lemma scardCommand_preserves : preserves 0 scardCommand.
Proof. unfold scardCommand. readonly. Qed.

Lemma keys_loop_dict pattern entries c numkeys keyslen c' n k :
  keys_loop pattern entries c numkeys keyslen = Some (c', n, k) →
  c_dict c' = c_dict c.
Proof.
  revert c numkeys keyslen.
  induction entries as [|[key o] entries IH]; intros c numkeys keyslen.
  { by intros [= <- _ _]. }
  cbn [keys_loop]. destruct (if sds_eqb _ _ then _ else _) as [[]|]; [| |done].
  - intros H. rewrite (IH _ _ _ H). by destruct (negb _).
  - apply IH.
Qed.

(** KEYS, when it returns, has left the server alone and the client on
    its database. *)
Lemma keysCommand_returns c s c' s' :
  keysCommand c s = Alive c' s' → s' = s ∧ c_dict c' = c_dict c.
Proof.
  unfold keysCommand.
  destruct (keys_loop _ _ _ _ _) as [[[c1 n] k]|] eqn:E; [|done].
  intros [= <- <-]. split; [done|].
  apply keys_loop_dict in E. cbn. by rewrite E.
Qed.

Lemma lrangeCommand_preserves : preserves 0 lrangeCommand.
Proof.
  apply preserves_readonly. intros c s. unfold lrangeCommand.
  destruct (dictFind _ _) as [[]|]; try done.
  cbv zeta. destruct (_ || _); [done|].
  by rewrite lrange_loop_items.
Qed.

Lemma sinter_loop_dict others entries c cardinality :
  c_dict (sinter_loop others entries c cardinality).1 = c_dict c.
Proof.
  revert c cardinality.
  induction entries as [|[key ele] entries IH]; intros c cardinality; [done|].
  simpl. destruct (forallb _ _); by rewrite IH.
Qed.

Lemma sinterCommand_preserves : preserves 0 sinterCommand.
Proof.
  apply preserves_readonly. intros c s. unfold sinterCommand.
  destruct (sinter_gather _ _); [done|].
  destruct (sinter_loop _ _ _ _) as [c' n] eqn:E.
  split; [done|]. cbn.
  change c' with (c', n).1. rewrite <- E. by rewrite sinter_loop_dict.
Qed.

(** SELECT, when it returns, has left the server alone and the client on
    a database of the server. *)
Lemma selectCommand_returns c s c' s' :
  selectCommand c s = Alive c' s' →
  s' = s ∧ (c_dict c' < length (s_dict s))%nat.
Proof.
  unfold selectCommand, selectDb.
  destruct ((_ <? 0) || (_ >=? dbnum s)) eqn:E; [done|].
  change (REDIS_OK =? REDIS_ERR) with false. cbv iota.
  intros [= <- <-]. split; [done|]. cbn.
  apply orb_false_iff in E as [E1 E2]. unfold dbnum in E2. lia.
Qed.

Lemma saveDb_dict s : s_dict (saveDb s).2 = s_dict s.
Proof. unfold saveDb. by destruct (rdb_image _). Qed.

Lemma saveCommand_preserves : preserves 0 saveCommand.
Proof.
  intros c s _ Hdb Hs. unfold saveCommand.
  pose proof (saveDb_dict s) as Hd.
  destruct (saveDb s) as [retval s']. simpl in Hd.
  unfold keyspace_ok. destruct (retval =? REDIS_OK); cbn; by rewrite Hd.
Qed.

Lemma bgsaveCommand_preserves : preserves 0 bgsaveCommand.
Proof.
  intros c s _ Hdb Hs. unfold bgsaveCommand, saveDbBackground.
  by destruct (s_bgsaveinprogress s).
Qed.

Lemma setGenericCommand_preserves nx : preserves 2 (setGenericCommand nx).
Proof.
  intros c s [Hstr Htok] Hdb Hs.
  pose proof (client_dict_ok c s Hs) as Hd.
  assert (dict_ok (<[key_at c 1 := argv_at c 2]> (client_dict c s))) as Hd'.
  { apply dict_ok_insert; [done|apply Htok; lia|].
    by rewrite (argv_at_string c 2). }
  unfold setGenericCommand, dictAdd, dictReplace.
  destruct (client_dict c s !! key_at c 1); cbn -[incr_dirty set_client_dict].
  - destruct nx; cbn -[incr_dirty set_client_dict]; [done|].
    destruct (store_ok c s _ Hs Hd'). done.
  - destruct (store_ok c s _ Hs Hd'). done.
Qed.

Lemma incrDecrCommand_preserves incr : preserves 2 (incrDecrCommand incr).
Proof.
  intros c s [Hstr Htok] Hdb Hs. rewrite incrDecrCommand_result.
  unfold incr_result. cbn -[incr_dirty set_client_dict].
  edestruct (store_ok c s) as [H1 H2]; [done| |split; [exact H1|split; [exact H2|done]]].
  apply dict_ok_insert; [by apply client_dict_ok|apply Htok; lia|done].
Qed.

Lemma incrbyCommand_preserves : preserves 2 incrbyCommand.
Proof. intros c s. apply incrDecrCommand_preserves. Qed.

Lemma decrbyCommand_preserves : preserves 2 decrbyCommand.
Proof. intros c s. apply incrDecrCommand_preserves. Qed.

Lemma delCommand_preserves : preserves 0 delCommand.
Proof.
  intros c s _ Hdb Hs. unfold delCommand, dictDelete.
  destruct (client_dict c s !! key_at c 1); cbn -[incr_dirty set_client_dict]; [|done].
  edestruct (store_ok c s) as [H1 H2]; [done| |split; [exact H1|split; [exact H2|done]]].
  by apply dict_ok_delete, client_dict_ok.
Qed.

Lemma dictDelete_ok d k : dict_ok d → dict_ok (dictDelete d k).2.
Proof.
  intros Hd. unfold dictDelete. destruct (d !! k); [|done].
  by apply dict_ok_delete.
Qed.

Lemma renameGenericCommand_preserves nx : preserves 3 (renameGenericCommand nx).
Proof.
  intros c s [Hstr Htok] Hdb Hs.
  pose proof (client_dict_ok c s Hs) as Hd.
  unfold renameGenericCommand.
  destruct (sds_eqb _ _); [by destruct nx|].
  unfold dictFind, dictAdd, dictReplace.
  destruct (client_dict c s !! key_at c 1) as [o|] eqn:E; [|by destruct nx].
  assert (dict_ok (<[key_at c 2 := o]> (client_dict c s))) as Hd'.
  { apply dict_ok_insert; [done|apply Htok; lia|]. by apply (Hd _ _ E). }
  pose proof (dictDelete_ok _ (key_at c 1) Hd') as Hdel.
  destruct (dictDelete _ (key_at c 1)) as [r d'] eqn:Edel. simpl in Hdel.
  assert (keyspace_ok (incr_dirty (set_client_dict c s d'))
          ∧ length (s_dict (incr_dirty (set_client_dict c s d'))) = length (s_dict s)
          ∧ (c_dict c < length (s_dict s))%nat) as Hstore.
  { destruct (store_ok c s d' Hs Hdel). done. }
  destruct (client_dict c s !! key_at c 2) eqn:E2;
    cbn -[incr_dirty set_client_dict dictDelete].
  - destruct nx; cbn -[incr_dirty set_client_dict dictDelete]; [done|].
    by rewrite Edel.
  - rewrite Edel. by destruct nx.
Qed.

Lemma moveCommand_preserves : preserves 0 moveCommand.
Proof.
  intros c s _ Hdb Hs. unfold moveCommand, selectDb.
  destruct ((_ <? 0) || (_ >=? dbnum s)) eqn:Hsel; [done|].
  cbn -[incr_dirty set_client_dict client_dict dictDelete].
  destruct (bool_decide _); [done|].
  unfold dictFind, dictAdd.
  destruct (client_dict c s !! key_at c 1) as [o|] eqn:E; [|done].
  set (c' := set_c_dict c _).
  destruct (client_dict c' s !! key_at c 1) eqn:E2;
    cbn -[incr_dirty set_client_dict client_dict dictDelete]; [done|].
  destruct (dict_ok_lookup _ _ _ (client_dict_ok c s Hs) E) as [Hk Hv].
  assert (keyspace_ok (set_client_dict c' s (<[key_at c 1 := o]> (client_dict c' s))))
    as Hs1.
  { apply keyspace_ok_insert; [done|].
    apply dict_ok_insert; [by apply client_dict_ok|done..]. }
  set (s1 := set_client_dict c' s _) in *.
  assert (length (s_dict s1) = length (s_dict s)) as Hlen1
    by (unfold s1; cbn; apply length_insert).
  pose proof (dictDelete_ok _ (key_at c 1) (client_dict_ok c s1 Hs1)) as Hdel.
  destruct (dictDelete _ (key_at c 1)) as [r d'].
  cbn -[incr_dirty set_client_dict client_dict]. simpl in Hdel.
  destruct (store_ok c s1 d' Hs1 Hdel) as [H1 H2].
  split; [exact H1|split; [by rewrite H2|done]].
Qed.

(** Writing a value back under a key that is there. *)
Lemma store_value_ok c s k o v :
  keyspace_ok s →
  client_dict c s !! k = Some o →
  value_ok v →
  keyspace_ok (incr_dirty (set_client_dict c s (<[k := v]> (client_dict c s))))
  ∧ length (s_dict (incr_dirty (set_client_dict c s (<[k := v]> (client_dict c s)))))
    = length (s_dict s).
Proof.
  intros Hs E Hv. apply store_ok; [done|].
  apply dict_ok_insert; [by apply client_dict_ok| |done].
  by apply (dict_ok_lookup _ _ _ (client_dict_ok c s Hs) E).
Qed.

Lemma pushGenericCommand_preserves where_ : preserves 2 (pushGenericCommand where_).
Proof.
  intros c s [Hstr Htok] Hdb Hs. unfold pushGenericCommand, dictFind, dictAdd.
  pose proof (argv_at_is_string c 2 Hstr) as H2.
  destruct (client_dict c s !! key_at c 1) as [o|] eqn:E.
  - destruct o as [|l|]; try done.
    cbn -[incr_dirty set_client_dict].
    edestruct (store_value_ok c s) as [H1 H3];
      [done|exact E| |split; [exact H1|split; [exact H3|done]]].
    simpl. destruct (where_ =? REDIS_HEAD).
    + constructor; [done|]. by apply (dict_ok_lookup _ _ _ (client_dict_ok c s Hs) E).
    + apply Forall_app. split; [|by constructor].
      by apply (dict_ok_lookup _ _ _ (client_dict_ok c s Hs) E).
  - cbn -[incr_dirty set_client_dict].
    edestruct (store_ok c s) as [H1 H3];
      [done| |split; [exact H1|split; [exact H3|done]]].
    apply dict_ok_insert; [by apply client_dict_ok|apply Htok; lia|].
    simpl. destruct (where_ =? REDIS_HEAD); by repeat constructor.
Qed.

Lemma Forall_tail {A} (P : A → Prop) l : Forall P l → Forall P (tail l).
Proof. destruct 1; [constructor|done]. Qed.

Lemma Forall_removelast {A} (P : A → Prop) l : Forall P l → Forall P (removelast l).
Proof.
  induction 1 as [|x l Hx Hl IH]; [constructor|].
  simpl. destruct l; [constructor|]. by constructor.
Qed.

Lemma Forall_iter {A} (P : A → Prop) (f : list A → list A) n l :
  (∀ l, Forall P l → Forall P (f l)) → Forall P l → Forall P (Nat.iter n f l).
Proof. intros Hf Hl. induction n; simpl; auto. Qed.

Lemma popGenericCommand_preserves where_ : preserves 0 (popGenericCommand where_).
Proof.
  intros c s _ Hdb Hs. unfold popGenericCommand, dictFind.
  destruct (client_dict c s !! key_at c 1) as [o|] eqn:E; [|done].
  destruct o as [|l|]; try done.
  pose proof (proj2 (dict_ok_lookup _ _ _ (client_dict_ok c s Hs) E)) as Hl.
  simpl in Hl.
  destruct (if where_ =? REDIS_HEAD then head l else last l); [|done].
  rewrite addReplyBulk_items. cbn -[incr_dirty set_client_dict].
  edestruct (store_value_ok c s) as [H1 H3];
    [done|exact E| |split; [exact H1|split; [exact H3|done]]].
  simpl. destruct (where_ =? REDIS_HEAD).
  - by apply Forall_tail.
  - by apply Forall_removelast.
Qed.

Lemma lsetCommand_preserves : preserves 0 lsetCommand.
Proof.
  intros c s [Hstr _] Hdb Hs. unfold lsetCommand, dictFind.
  destruct (client_dict c s !! key_at c 1) as [o|] eqn:E; [|done].
  destruct o as [|l|]; try done.
  pose proof (proj2 (dict_ok_lookup _ _ _ (client_dict_ok c s Hs) E)) as Hl.
  simpl in Hl.
  destruct (listIndex l _); [|done].
  cbn -[incr_dirty set_client_dict].
  edestruct (store_value_ok c s) as [H1 H3];
    [done|exact E| |split; [exact H1|split; [exact H3|done]]].
  simpl. apply Forall_insert; [done|]. by apply argv_at_is_string.
Qed.

Lemma ltrimCommand_preserves : preserves 0 ltrimCommand.
Proof.
  intros c s _ Hdb Hs. unfold ltrimCommand, dictFind.
  destruct (client_dict c s !! key_at c 1) as [o|] eqn:E; [|done].
  destruct o as [|l|]; try done.
  pose proof (proj2 (dict_ok_lookup _ _ _ (client_dict_ok c s Hs) E)) as Hl.
  simpl in Hl. cbv zeta.
  destruct (if (_ : bool) then (_, _) else (_, _)) as [ltrim rtrim].
  cbn -[incr_dirty set_client_dict Nat.iter].
  edestruct (store_value_ok c s) as [H1 H3];
    [done|exact E| |split; [exact H1|split; [exact H3|done]]].
  simpl. apply Forall_iter; [apply Forall_removelast|].
  apply Forall_iter; [apply Forall_tail|done].
Qed.

Lemma set_indexed_insert set x :
  set_indexed set → set_indexed (<[x := StringObject x]> set).
Proof.
  intros Hset k e [[<- <-]|[_ H]]%lookup_insert_Some; [done|]. by apply Hset.
Qed.

Lemma set_indexed_delete set x : set_indexed set → set_indexed (delete x set).
Proof. intros Hset k e [_ H]%lookup_delete_Some. by apply Hset. Qed.

Lemma saddCommand_preserves : preserves 2 saddCommand.
Proof.
  intros c s [Hstr Htok] Hdb Hs. unfold saddCommand, dictFind, dictAdd.
  rewrite (argv_at_string c 2 Hstr). cbn [sds_ptr].
  pose proof (client_dict_ok c s Hs) as Hd.
  assert (∀ set d, set_indexed set → dict_ok d →
            let s' := set_client_dict c s (<[key_at c 1 := SetObject set]> d) in
            keyspace_ok s' ∧ keyspace_ok (incr_dirty s')
            ∧ length (s_dict s') = length (s_dict s)) as Hstore.
  { intros set d Hset Hdd s'.
    assert (keyspace_ok s') as Hs'.
    { apply keyspace_ok_insert; [done|].
      apply dict_ok_insert; [done|apply Htok; lia|done]. }
    split; [done|]. split; [done|]. cbn. apply length_insert. }
  destruct (client_dict c s !! key_at c 1) as [o|] eqn:E.
  - destruct o as [| |set]; try done.
    pose proof (proj2 (dict_ok_lookup _ _ _ Hd E)) as Hset. simpl in Hset.
    destruct (set !! key_at c 2) eqn:E2; cbn -[incr_dirty set_client_dict].
    + destruct (Hstore set (client_dict c s) Hset Hd) as (H1 & H2 & H3). done.
    + destruct (Hstore (<[key_at c 2 := StringObject (key_at c 2)]> set)
                  (client_dict c s) (set_indexed_insert _ _ Hset) Hd)
        as (H1 & H2 & H3). done.
  - rewrite lookup_empty. cbn -[incr_dirty set_client_dict].
    destruct (Hstore (<[key_at c 2 := StringObject (key_at c 2)]> ∅)
                (<[key_at c 1 := createSetObject]> (client_dict c s)))
      as (H1 & H2 & H3); [| |done].
    + apply set_indexed_insert. intros k e H. by rewrite lookup_empty in H.
    + apply dict_ok_insert; [done|apply Htok; lia|].
      intros k e H. by rewrite lookup_empty in H.
Qed.

Lemma sremCommand_preserves : preserves 0 sremCommand.
Proof.
  intros c s _ Hdb Hs. unfold sremCommand, dictFind, dictDelete.
  destruct (client_dict c s !! key_at c 1) as [o|] eqn:E; [|done].
  destruct o as [| |set]; try done.
  pose proof (proj2 (dict_ok_lookup _ _ _ (client_dict_ok c s Hs) E)) as Hset.
  simpl in Hset.
  destruct (set !! _); [|done]. cbn -[incr_dirty set_client_dict].
  edestruct (store_value_ok c s) as [H1 H3];
    [done|exact E| |split; [exact H1|split; [exact H3|done]]].
  by apply set_indexed_delete.
Qed.

Lemma shutdownCommand_dict c s c' s' :
  shutdownCommand c s = Alive c' s' → s_dict s' = s_dict s ∧ c_dict c' = c_dict c.
Proof.
  unfold shutdownCommand. pose proof (saveDb_dict s) as Hd.
  destruct (saveDb s) as [retval s1]. simpl in Hd.
  destruct (retval =? REDIS_OK); [done|]. intros [= <- <-]. done.
Qed.

Create HintDb redis_cmds.

#[local] Hint Resolve pingCommand_preserves echoCommand_preserves
  getCommand_preserves existsCommand_preserves randomkeyCommand_preserves
  dbsizeCommand_preserves lastsaveCommand_preserves typeCommand_preserves
  llenCommand_preserves lindexCommand_preserves sismemberCommand_preserves
  scardCommand_preserves lrangeCommand_preserves
  sinterCommand_preserves saveCommand_preserves
  bgsaveCommand_preserves setGenericCommand_preserves
  incrDecrCommand_preserves incrbyCommand_preserves decrbyCommand_preserves
  delCommand_preserves renameGenericCommand_preserves moveCommand_preserves
  pushGenericCommand_preserves popGenericCommand_preserves
  lsetCommand_preserves ltrimCommand_preserves saddCommand_preserves
  sremCommand_preserves : redis_cmds.

Lemma returns_preserves n f tokens c s c' s' :
  preserves n f → (n <= tokens)%nat →
  args_ok tokens c → (c_dict c < length (s_dict s))%nat → keyspace_ok s →
  returns f c s = Alive c' s' →
  keyspace_ok s' ∧ length (s_dict s') = length (s_dict s)
  ∧ (c_dict c' < length (s_dict s))%nat.
Proof.
  intros Hf Hn Hargs Hdb Hs [= <- <-].
  exact (preserves_mono _ _ _ Hn Hf c s Hargs Hdb Hs).
Qed.

(** Every procedure of the command table keeps the invariant. *)
Lemma cmdTable_preserves cmd c s c' s' :
  cmd ∈ cmdTable →
  args_ok (cmd_tokens cmd) c → (c_dict c < length (s_dict s))%nat →
  keyspace_ok s →
  cmd_proc cmd c s = Alive c' s' →
  keyspace_ok s' ∧ length (s_dict s') = length (s_dict s)
  ∧ (c_dict c' < length (s_dict s))%nat.
Proof.
  intros Hin. unfold cmdTable in Hin.
  repeat (apply elem_of_cons in Hin as [-> | Hin]);
    [..|by apply elem_of_nil in Hin];
    cbn [cmd_proc]; intros Hargs Hdb Hs Hproc;
    try (eapply (λ Hf Hn, returns_preserves _ _ _ _ _ _ _ Hf Hn Hargs Hdb Hs Hproc);
         [unfold setCommand, setnxCommand, incrCommand, decrCommand,
            rpushCommand, lpushCommand, rpopCommand, lpopCommand,
            renameCommand, renamenxCommand;
          eauto with redis_cmds
         |vm_compute; lia]).
  - by destruct (selectCommand_returns _ _ _ _ Hproc) as [-> Hc].
  - destruct (keysCommand_returns _ _ _ _ Hproc) as [-> Hc]. by rewrite Hc.
  - destruct (shutdownCommand_dict _ _ _ _ Hproc) as [Hd Hc].
    unfold keyspace_ok. rewrite Hd, Hc. done.
  - done.
Qed.

(** No procedure of the table frees the client. *)
Lemma cmdTable_not_freed cmd c s s' :
  cmd ∈ cmdTable → cmd_proc cmd c s ≠ Freed s'.
Proof.
  intros Hin. unfold cmdTable in Hin.
  repeat (apply elem_of_cons in Hin as [-> | Hin]);
    [..|by apply elem_of_nil in Hin]; cbn [cmd_proc]; try done.
  - unfold selectCommand. destruct (selectDb _ _ _) as [r c0]. by destruct (_ =? _).
  - unfold keysCommand. by destruct (keys_loop _ _ _ _ _) as [[[]]|].
  - unfold shutdownCommand. destruct (saveDb s). by destruct (_ =? _).
Qed.

Lemma bulk_arity cmd :
  cmd ∈ cmdTable → cmd_type cmd = REDIS_CMD_BULK → 2 <= cmd_arity cmd.
Proof.
  intros Hin. unfold cmdTable in Hin.
  repeat (apply elem_of_cons in Hin as [-> | Hin]);
    [..|by apply elem_of_nil in Hin];
    cbn [cmd_type cmd_arity]; intros; (done || lia).
Qed.

Lemma lookupCommand_from_elem table name cmd :
  lookupCommand_from table name = Found cmd → cmd ∈ table.
Proof.
  induction table as [|cmd' table IH]; [done|]. simpl.
  destruct (strcmp0 _ _).
  - intros [= ->]. by left.
  - intros H. right. auto.
Qed.

Lemma lookupCommand_elem name cmd : lookupCommand name = Found cmd → cmd ∈ cmdTable.
Proof. apply lookupCommand_from_elem. Qed.

Lemma tolower_idem c : tolower (tolower c) = tolower c.
Proof. destruct c as [[] [] [] [] [] [] [] []]; reflexivity. Qed.

Lemma sdstolower_idem s : sdstolower (sdstolower s) = sdstolower s.
Proof.
  unfold sdstolower. induction s as [|c s IH]; [done|].
  simpl. by rewrite tolower_idem, IH.
Qed.

Lemma sdstolower_nonempty s : s ≠ [] → sdstolower s ≠ [].
Proof. by destruct s. Qed.

(** *** The parser keeps the invariant *)

Lemma is_token_lower o : is_token o → is_token (StringObject (sdstolower (sds_ptr o))).
Proof. destruct o; try done. simpl. apply sdstolower_nonempty. Qed.

Lemma args_ok_tokens c n pre post :
  c_argv c = pre ++ post → Forall is_token pre → Forall is_string post →
  (n <= length pre)%nat → args_ok n c.
Proof.
  intros Hargv Hpre Hpost Hn. split.
  - rewrite Hargv. apply Forall_app. split; [|done].
    eapply Forall_impl; [exact Hpre|]. apply is_token_string.
  - intros i Hi. unfold key_at, argv_at. rewrite Hargv.
    rewrite app_nth1 by lia.
    assert (is_token (nth i pre (StringObject []))) as Ht.
    { rewrite Forall_forall in Hpre. apply Hpre, list_elem_of_In, nth_In. lia. }
    by destruct (nth i pre _).
Qed.

Lemma reset_client_ok c s :
  (c_dict c < length (s_dict s))%nat → client_ok s (resetClient c).
Proof. intros H. split; [exact H|done]. Qed.

Lemma execCommand_ok cmd c s :
  cmd ∈ cmdTable → args_ok (cmd_tokens cmd) c →
  (c_dict c < length (s_dict s))%nat → keyspace_ok s →
  outcome_ok s (execCommand cmd c s).
Proof.
  intros Hin Hargs Hdb Hs. unfold execCommand.
  destruct (cmd_proc cmd c s) as [c' s'|s'| |] eqn:E; try done.
  2:{ by apply cmdTable_not_freed in E. }
  destruct (cmdTable_preserves _ _ _ _ _ Hin Hargs Hdb Hs E) as (H1 & H2 & H3).
  split; [done|]. split; [done|]. apply reset_client_ok. by rewrite H2.
Qed.

Lemma cmd_tokens_bulk cmd :
  cmd_type cmd = REDIS_CMD_BULK → 2 <= cmd_arity cmd →
  cmd_tokens cmd = Z.to_nat (cmd_arity cmd - 1).
Proof.
  intros Ht Ha. unfold cmd_tokens. rewrite Ht. simpl. f_equal. lia.
Qed.

Lemma cmd_tokens_le cmd : (cmd_tokens cmd <= Z.to_nat (Z.abs (cmd_arity cmd)))%nat.
Proof. unfold cmd_tokens. destruct (_ =? _); lia. Qed.

Lemma processCommand_ok c s :
  keyspace_ok s → (c_dict c < length (s_dict s))%nat → command_ready c →
  outcome_ok s (processCommand c s).
Proof.
  intros Hs Hdb Hready. unfold processCommand.
  destruct (c_argv c) as [|argv0 args] eqn:Hargv; [done|].
  set (c1 := set_argv c (StringObject (sdstolower (sds_ptr argv0)) :: args)).
  assert (c_dict c1 = c_dict c) as Hc1 by done.
  assert (sds_ptr (argv_at c1 0) = sdstolower (sds_ptr argv0)) as -> by done.
  destruct (strcmp0 _ (sdsnew "quit")); [done|].
  destruct (lookupCommand _) as [cmd| |] eqn:Hcmd; [| |done].
  2:{ split; [done|]. split; [done|]. by apply reset_client_ok. }
  pose proof (lookupCommand_elem _ _ Hcmd) as Hin.
  destruct (_ || _) eqn:Harity.
  { split; [done|]. split; [done|]. by apply reset_client_ok. }
  apply orb_false_iff in Harity as [Har1 Har2].
  assert (argc c1 = argc c) as Hargc.
  { unfold argc. cbn. rewrite Hargv. done. }
  assert (1 <= argc c) as Hargc1 by (unfold argc; rewrite Hargv; simpl; lia).
  destruct Hready as [[Hbulk Htok] | [Hbulk (pre & bulk & Hpre & Htok & cmd' & Hcmd' & Htype' & Harity')]].
  - (* the tokens of a line *)
    rewrite Hargv in Htok.
    assert (Forall is_token (c_argv c1)) as Htok1.
    { cbn. apply Forall_cons in Htok as [H0 Hrest].
      constructor; [by apply is_token_lower|done]. }
    destruct ((cmd_type cmd =? REDIS_CMD_BULK) && (c_bulklen c1 =? -1)) eqn:Hisbulk.
    + apply andb_true_iff in Hisbulk as [Htype _]. apply Z.eqb_eq in Htype.
      pose proof (bulk_arity cmd Hin Htype) as Hge.
      assert (cmd_arity cmd = argc c) as Har.
      { rewrite Hargc in Har1. apply andb_false_iff in Har1 as [H|H]; [lia|].
        apply negb_false_iff, Z.eqb_eq in H. done. }
      destruct args as [|arg1 args'].
      { unfold argc in Har. rewrite Hargv in Har. simpl in Har. lia. }
      set (c2 := set_argv c1 (removelast (c_argv c1))).
      assert (c_argv c2 = StringObject (sdstolower (sds_ptr argv0))
                          :: removelast (arg1 :: args')) as Hargv2 by done.
      assert (Forall is_token (c_argv c2)) as Htok2.
      { unfold c2. cbn [c_argv set_argv]. by apply Forall_removelast. }
      assert (Z.of_nat (length (c_argv c2)) = cmd_arity cmd - 1) as Hlen2.
      { rewrite Hargv2.
        destruct (exists_last (l := arg1 :: args')) as (l' & a & Hl'); [done|].
        rewrite Hl', removelast_last.
        rewrite Har. unfold argc. rewrite Hargv, Hl'. simpl length.
        rewrite length_app. simpl. lia. }
      destruct (_ || _) eqn:Hrange;
        [split; [done|]; split; [done|]; by apply reset_client_ok|].
      destruct (_ >=? _).
      * apply execCommand_ok; [done| |done..].
        eapply (args_ok_tokens _ _ (c_argv c2) [_]); [done|done|by repeat constructor|].
        rewrite cmd_tokens_bulk by done. lia.
      * split; [done|]. split; [done|]. split; [done|].
        apply orb_false_iff in Hrange as [Hr1 Hr2].
        set (N := atoi _) in *.
        cbn [c_bulklen set_bulklen].
        rewrite to_int_id by (unfold INT_MIN, INT_MAX; lia).
        assert ((N + 2 =? -1) = false) as -> by (apply Z.eqb_neq; lia).
        split; [done|]. exists cmd.
        split; [|split; [done|unfold argc; cbn [c_argv set_bulklen]; lia]].
        unfold argv_at. cbn [c_argv set_bulklen]. rewrite Hargv2. simpl.
        by rewrite sdstolower_idem.
    + (* an inline command, run on the tokens *)
      apply execCommand_ok; [done| |done..].
      eapply (args_ok_tokens _ _ (c_argv c1) []);
        [by rewrite app_nil_r|done|constructor|].
      pose proof (cmd_tokens_le cmd). rewrite Hargc in *.
      unfold argc in *. cbn in *. rewrite Hargv in *. simpl in *.
      apply andb_false_iff in Har1 as [H'|H'].
      * rewrite Z.gtb_ltb in H'. apply Z.ltb_ge in H'. apply Z.ltb_ge in Har2. lia.
      * apply negb_false_iff, Z.eqb_eq in H'. lia.
  - (* a waiting client with its bulk argument *)
    pose proof (lookupCommand_elem _ _ Hcmd') as Hin'.
    pose proof (bulk_arity cmd' Hin' Htype') as Hge.
    destruct pre as [|p0 pre'].
    { unfold argc in Harity'. simpl in Harity'. lia. }
    rewrite Hargv in Hpre. simpl in Hpre. injection Hpre as Hp0 Hargs.
    subst p0 args.
    change (sds_ptr (argv_at (set_argv c (argv0 :: pre')) 0)) with (sds_ptr argv0)
      in Hcmd'.
    rewrite Hcmd in Hcmd'. injection Hcmd' as <-.
    assert ((cmd_type cmd =? REDIS_CMD_BULK) && (c_bulklen c1 =? -1) = false) as ->.
    { apply andb_false_iff. right. apply Z.eqb_neq. done. }
    apply execCommand_ok; [done| |done..].
    eapply (args_ok_tokens _ _ (StringObject (sdstolower (sds_ptr argv0)) :: pre')
              [StringObject bulk]); [done| |by repeat constructor|].
    + cbn in Htok. apply Forall_cons in Htok as [H0 Hrest].
      constructor; [by apply is_token_lower|done].
    + rewrite cmd_tokens_bulk by done. unfold argc in Harity'. cbn in *. lia.
Qed.

Lemma query_args_tokens tokens : Forall is_token (query_args tokens).
Proof.
  unfold query_args. apply Forall_fmap, Forall_forall.
  intros t [Ht _]%list_elem_of_filter. simpl. by destruct t.
Qed.

Lemma outcome_ok_trans s s' o :
  length (s_dict s') = length (s_dict s) → outcome_ok s' o → outcome_ok s o.
Proof. intros Hlen. destruct o; simpl; rewrite ?Hlen; done. Qed.

Lemma readQuery_again_ok fuel c s :
  keyspace_ok s → client_ok s c → outcome_ok s (readQuery_again fuel c s).
Proof.
  revert c s. induction fuel as [|fuel IH]; intros c s Hs Hc; [done|].
  destruct Hc as [Hdb Hmode]. cbn [readQuery_again].
  destruct (c_bulklen c =? -1) eqn:Hbulk.
  - apply Z.eqb_eq in Hbulk.
    destruct (strchr (c_querybuf c) LF) as [p|].
    + cbv zeta. destruct (sdslen (query_line _ _) =? 0).
      { split; [done|]. split; [done|]. split; [done|].
        cbn. apply Z.eqb_eq in Hbulk. by rewrite Hbulk. }
      set (c' := set_argv _ _).
      pose proof (processCommand_ok c' s Hs Hdb) as Hp.
      destruct (processCommand c' s) as [c2 s2| | |].
      * destruct Hp as (Hs2 & Hlen2 & Hc2).
        { left. split; [done|]. unfold c'. cbn. rewrite Hmode. simpl.
          apply query_args_tokens. }
        destruct (negb _); [|done].
        eapply outcome_ok_trans; [exact Hlen2|]. by apply IH.
      * apply Hp. left. split; [done|]. unfold c'. cbn. rewrite Hmode. simpl.
        apply query_args_tokens.
      * done.
      * done.
    + destruct (_ >=? _); [done|]. split; [done|]. split; [done|].
      split; [done|]. apply Z.eqb_eq in Hbulk. by rewrite Hbulk.
  - cbv zeta. destruct (_ <=? _).
    + apply processCommand_ok; [done|done|].
      right. split; [cbn; by apply Z.eqb_neq|].
      exists (c_argv c), (sdsnewlen (c_querybuf c) (c_bulklen c - 2)).
      split; [done|]. exact Hmode.
    + split; [done|]. split; [done|]. split; [done|]. by rewrite Hbulk.
Qed.

Lemma readQueryFromClient_ok r c s :
  keyspace_ok s → client_ok s c → outcome_ok s (readQueryFromClient r c s).
Proof.
  intros Hs Hc. unfold readQueryFromClient. destruct r as [[]|buf]; try done.
  destruct (sdslen buf =? 0); [done|]. cbv zeta.
  apply readQuery_again_ok; [done|]. exact Hc.
Qed.

Lemma client_ok_length s s' c :
  length (s_dict s') = length (s_dict s) → client_ok s c → client_ok s' c.
Proof. intros Hlen [H1 H2]. split; [by rewrite Hlen|done]. Qed.

Lemma createClient_ok fd s : (0 < length (s_dict s))%nat → client_ok s (createClient fd s).
Proof. intros H. split; [exact H|done]. Qed.

(** Every event keeps the invariant and the number of databases. *)
Lemma handle_event_ok e w w' :
  (0 < length (s_dict (w_server w)))%nat →
  world_ok w → handle_event e w = Some w' →
  world_ok w' ∧ length (s_dict (w_server w')) = length (s_dict (w_server w)).
Proof.
  intros Hpos [Hs Hcs]. destruct w as [s cs]. cbn [w_server w_clients] in *.
  destruct e as [fd|i r|i reply sentlen|i|pid exitcode|now random dumpfile];
    cbn [handle_event w_server w_clients].
  - intros [= <-]. split; [|done]. split; [done|].
    apply Forall_app. split; [done|]. repeat constructor; done.
  - destruct (cs !! i) as [c|] eqn:Ei; [|done]. cbn.
    pose proof (readQueryFromClient_ok r c s Hs (Forall_lookup_1 _ _ _ _ Hcs Ei)) as Hr.
    destruct (readQueryFromClient r c s) as [c' s'|s'| |]; [| |done|done].
    + destruct Hr as (Hs' & Hlen & Hc'). intros [= <-]. split; [|done].
      split; [done|]. cbn. apply Forall_insert; [|done].
      eapply Forall_impl; [exact Hcs|]. intros c0. by apply client_ok_length.
    + destruct Hr as (Hs' & Hlen). intros [= <-]. split; [|done].
      split; [done|]. cbn. apply Forall_delete.
      eapply Forall_impl; [exact Hcs|]. intros c0. by apply client_ok_length.
  - destruct (cs !! i) as [c|] eqn:Ei; [|done]. cbn. intros [= <-].
    split; [|done]. split; [done|]. cbn. apply Forall_insert; [done|].
    exact (Forall_lookup_1 _ _ _ _ Hcs Ei).
  - destruct (cs !! i) as [c|] eqn:Ei; [|done]. cbn. intros [= <-].
    split; [|done]. split; [done|]. by apply Forall_delete.
  - intros [= <-]. unfold serverCron. cbv zeta.
    cbn [w_server w_clients].
    set (s1 := set_cronloops s _).
    set (w1 := if _ =? 0 then _ else _).
    assert (w_server w1 = s1 ∧ Forall (client_ok s) (w_clients w1)) as [Hw1 Hc1].
    { unfold w1. destruct (_ =? 0); [|done]. split; [done|].
      cbn. apply Forall_forall. intros c0 [_ Hin]%list_elem_of_filter.
      rewrite Forall_forall in Hcs. by apply Hcs. }
    rewrite Hw1.
    set (s2 := if s_bgsaveinprogress s1 then _ else _).
    assert (s_dict s2 = s_dict s) as Hd2.
    { unfold s2. destruct (s_bgsaveinprogress s1).
      - destruct (negb _); [|done]. by destruct (exitcode =? 0).
      - clear. generalize (s_saveparams s1). intros params.
        induction params as [|sp params IH]; [done|]. simpl.
        destruct (_ && _); [|done].
        unfold saveDbBackground. by destruct (s_bgsaveinprogress s1). }
    split; [|by cbn; rewrite Hd2].
    split; [unfold keyspace_ok; cbn; by rewrite Hd2|].
    cbn. eapply Forall_impl; [exact Hc1|]. intros c0.
    apply client_ok_length. by rewrite Hd2.
  - intros [= <-]. split; [|done]. split; [done|]. done.
Qed.

(** *** Loading keeps the invariant *)

Lemma char_code_nonneg c : 0 <= char_code c.
Proof. unfold char_code. apply N2Z.is_nonneg. Qed.

Lemma ntohl_bytes_nonneg b : 0 <= ntohl_bytes b.
Proof.
  unfold ntohl_bytes. destruct b as [|b0 [|b1 [|b2 [|b3 [|]]]]]; try lia.
  pose proof (char_code_nonneg b0). pose proof (char_code_nonneg b1).
  pose proof (char_code_nonneg b2). pose proof (char_code_nonneg b3). lia.
Qed.

Lemma fread_Got size fp x fp' :
  fread size fp = Got (x, fp') →
  size ≠ 0 ∧ size <= sdslen fp
  ∧ x = take (Z.to_nat size) fp ∧ fp' = drop (Z.to_nat size) fp.
Proof.
  unfold fread. destruct (_ || _) eqn:E; [done|]. intros [= <- <-].
  apply orb_false_iff in E as [E1 E2]. split; [lia|]. split; [lia|done].
Qed.

Lemma fread_nonempty size fp x fp' :
  0 <= size → fread size fp = Got (x, fp') → x ≠ [].
Proof.
  intros Hsize (Hne & Hle & -> & _)%fread_Got. unfold sdslen in Hle.
  destruct fp as [|a fp]; [simpl in Hle; lia|].
  destruct (Z.to_nat size) eqn:E; [lia|done].
Qed.

Lemma load_u32_Got fp n fp' :
  load_u32 fp = Got (n, fp') →
  0 <= n ∧ fread 4 fp = Got (take 4 fp, fp') ∧ n = ntohl_bytes (take 4 fp).
Proof.
  unfold load_u32. destruct (fread 4 fp) as [[b fp1]|] eqn:E; [|done].
  cbn. intros [= <- <-].
  destruct (fread_Got _ _ _ _ E) as (_ & _ & -> & ->).
  split; [apply ntohl_bytes_nonneg|]. done.
Qed.

Lemma load_elements_inv {A : Type} (P : A → Prop) add fuel listlen acc fp acc' fp' :
  (∀ a val a', P a → add a (StringObject val) = Got a' → P a') →
  P acc →
  load_elements add fuel listlen acc fp = Got (acc', fp') → P acc'.
Proof.
  intros Hadd. revert listlen acc fp.
  induction fuel as [|fuel IH]; intros listlen acc fp Hacc; simpl;
    destruct (listlen =? 0); try by intros [= <- <-].
  destruct (load_string fp) as [[val fp1]|]; [|done]. cbn.
  destruct (add acc (StringObject val)) as [acc1|] eqn:E; [|done]. cbn.
  apply IH. eauto.
Qed.

Lemma load_value_ok type fp o fp' : load_value type fp = Got (o, fp') → value_ok o.
Proof.
  unfold load_value. destruct (type =? REDIS_STRING).
  { destruct (load_string fp) as [[val fp1]|]; [|done]. by intros [= <- <-]. }
  destruct (type =? REDIS_LIST).
  { destruct (load_u32 fp) as [[listlen fp1]|]; [|done]. cbn.
    destruct (load_elements _ _ _ _ _) as [[l fp2]|] eqn:E; [|done]. cbn.
    intros [= <- <-]. simpl.
    eapply (load_elements_inv (Forall is_string)); [| |exact E]; [|constructor].
    intros a val a' Ha [= <-]. apply Forall_app. split; [done|].
    by repeat constructor. }
  destruct (type =? REDIS_SET); [|done].
  destruct (load_u32 fp) as [[listlen fp1]|]; [|done]. cbn.
  destruct (load_elements _ _ _ _ _) as [[set fp2]|] eqn:E; [|done]. cbn.
  intros [= <- <-]. simpl.
  eapply (load_elements_inv set_indexed); [| |exact E].
  - intros a val a' Ha. unfold load_set_add, dictAdd. cbn [sds_ptr].
    destruct (a !! val); [done|]. cbn. intros [= <-].
    by apply set_indexed_insert.
  - intros k e H. by rewrite lookup_empty in H.
Qed.

Lemma load_records_ok fuel dbs d fp dbs' :
  Forall dict_ok dbs →
  load_records fuel dbs d fp = Got dbs' →
  Forall dict_ok dbs' ∧ length dbs' = length dbs.
Proof.
  revert dbs d fp. induction fuel as [|fuel IH]; intros dbs d fp Hdbs; [done|].
  simpl. destruct (fread 1 fp) as [[t fp1]|]; [|done]. cbn.
  destruct (_ =? REDIS_EOF); [by intros [= <-]|].
  destruct (_ =? REDIS_SELECTDB).
  { destruct (load_u32 fp1) as [[dbid fp2]|]; [|done]. cbn.
    destruct (dbid >=? _); [done|]. by apply IH. }
  destruct (load_u32 fp1) as [[klen fp2]|] eqn:Eklen; [|done]. cbn.
  destruct (fread klen fp2) as [[key fp3]|] eqn:Ekey; [|done]. cbn.
  destruct (load_value _ fp3) as [[o fp4]|] eqn:Eval; [|done]. cbn.
  unfold dictAdd. destruct (default ∅ (dbs !! d) !! key) eqn:Efind; [done|]. cbn.
  intros H. apply IH in H as [H1 H2].
  - split; [done|]. by rewrite H2, length_insert.
  - apply Forall_insert; [done|].
    apply dict_ok_insert.
    + destruct (dbs !! d) as [d0|] eqn:Ed; simpl; [|apply dict_ok_empty].
      eapply Forall_lookup_1; eauto.
    + eapply fread_nonempty; [|exact Ekey].
      by apply load_u32_Got in Eklen as [? _].
    + by eapply load_value_ok.
Qed.

Lemma loadDb_ok s s' :
  keyspace_ok s → loadDb s = Got s' →
  keyspace_ok s' ∧ length (s_dict s') = length (s_dict s).
Proof.
  intros Hs. unfold loadDb. destruct (s_dumpfile s) as [fp|]; [|done].
  destruct (fread 9 fp) as [[buf fp1]|]; [|done]. cbn -[load_records].
  destruct (negb _); [done|].
  destruct (load_records _ _ _ _) as [dbs|] eqn:E; [|done]. cbn.
  intros [= <-]. by apply load_records_ok in E.
Qed.

(** *** Every reachable world is well formed *)

Lemma reachable_ok w :
  reachable w → world_ok w ∧ (0 < length (s_dict (w_server w)))%nat.
Proof.
  induction 1 as [dbnum params now dumpfile Hpos
                 |dbnum params now dumpfile s Hpos Hload
                 |e w w' _ [IH Hpos] Hev].
  - split; [|by cbn; rewrite length_replicate].
    split; [|constructor]. unfold keyspace_ok. cbn.
    apply Forall_replicate, dict_ok_empty.
  - apply loadDb_ok in Hload as [Hs Hlen].
    + split; [by split|]. cbn [w_server]. rewrite Hlen. simpl.
      by rewrite length_replicate.
    + unfold keyspace_ok. cbn. apply Forall_replicate, dict_ok_empty.
  - destruct (handle_event_ok e w w' Hpos IH Hev) as [Hw' Hlen].
    split; [done|]. by rewrite Hlen.
Qed.

Lemma reachable_run es w w' :
  reachable w → run_events es w = Some w' → reachable w'.
Proof.
  revert w. induction es as [|e es IH]; intros w Hw; simpl.
  - by intros [= <-].
  - destruct (handle_event e w) as [w1|] eqn:E; [|done].
    apply IH. by eapply reachable_event.
Qed.

(** C7: in every world the server can reach, from empty databases or from
    a loaded snapshot and through any sequence of events, every value of
    every database is pure: a list holds objects of type string only, and
    so does a set. *)
Theorem container_purity w :
  reachable w →
  ∀ d k v, d ∈ s_dict (w_server w) → d !! k = Some v → container_pure v.
Proof.
  intros Hw d k v Hd Hk.
  destruct (reachable_ok w Hw) as [[Hs _] _].
  unfold keyspace_ok in Hs. rewrite Forall_forall in Hs.
  destruct (Hs d Hd k v Hk) as [_ Hv].
  destruct v as [|l|set]; simpl in *; [done| |].
  - by rewrite Forall_forall in Hv.
  - intros k' e He. by rewrite (Hv k' e He).
Qed.

Lemma container_purity_witness :
  reachable purity_example
  ∧ ∀ d k v, d ∈ s_dict (w_server purity_example) → d !! k = Some v →
             container_pure v.
Proof.
  assert (reachable purity_example) as H.
  { eapply (reachable_run purity_events).
    - apply (reachable_fresh 16 default_saveparams 0 None). lia.
    - vm_compute. reflexivity. }
  split; [exact H|]. apply container_purity, H.
Defined.

(** ** The snapshot round trip *)

(** *** Saving writes the layout *)

Lemma fwrite_nonempty data fp : data ≠ [] → fwrite data fp = Some (fp ++ data).
Proof. intros H. unfold fwrite. by rewrite sdslen_nonempty. Qed.

Lemma fwrite_htonl n fp : fwrite (htonl_bytes n) fp = Some (fp ++ htonl_bytes n).
Proof. by apply fwrite_nonempty. Qed.

Lemma save_string_layout s fp : save_string s fp = Some (fp ++ rdb_string s).
Proof.
  unfold save_string, rdb_string. rewrite fwrite_htonl.
  destruct s as [|c s].
  - reflexivity.
  - cbn [mbind option_bind]. rewrite sdslen_nonempty by done.
    rewrite fwrite_nonempty by done. by rewrite <- app_assoc.
Qed.

Lemma save_elements_layout l fp :
  save_elements l fp = Some (fp ++ rdb_elements l).
Proof.
  revert fp. induction l as [|e l IH]; intros fp; simpl.
  - by rewrite app_nil_r.
  - rewrite save_string_layout. cbn. rewrite IH.
    unfold rdb_elements. cbn. by rewrite <- app_assoc.
Qed.

Lemma save_entry_layout key o fp :
  key ≠ [] → save_entry key o fp = Some (fp ++ rdb_record (key, o)).
Proof.
  intros Hkey. unfold save_entry, rdb_record. cbn [fst snd].
  rewrite fwrite_nonempty by done. cbn.
  rewrite fwrite_htonl. cbn. rewrite fwrite_nonempty by done. cbn.
  assert (char_of (to_uint8 (obj_type o)) = char_of (obj_type o)) as ->
    by by destruct o.
  destruct o as [s|l|set]; cbn [rdb_value].
  - rewrite save_string_layout. by rewrite <- !app_assoc.
  - rewrite fwrite_htonl. cbn. rewrite save_elements_layout.
    by rewrite <- !app_assoc.
  - rewrite fwrite_htonl. cbn. rewrite save_elements_layout.
    by rewrite <- !app_assoc.
Qed.

Lemma save_entries_layout entries fp :
  Forall (λ entry, entry.1 ≠ []) entries →
  save_entries entries fp = Some (fp ++ rdb_records entries).
Proof.
  intros H. revert fp. induction H as [|[key o] entries Hkey _ IH]; intros fp; simpl.
  - by rewrite app_nil_r.
  - rewrite save_entry_layout by done. cbn. rewrite IH.
    unfold rdb_records. cbn. by rewrite <- app_assoc.
Qed.

Lemma dict_ok_entries d : dict_ok d → Forall (λ entry, entry.1 ≠ []) (dictEntries d).
Proof.
  intros Hd. apply Forall_forall. intros [k v] Hin%elem_of_map_to_list.
  by apply (Hd k v).
Qed.

Lemma save_dbs_layout j dbs fp :
  Forall dict_ok dbs → save_dbs j dbs fp = Some (fp ++ rdb_sections j dbs).
Proof.
  intros H. revert j fp.
  induction H as [|d dbs Hd _ IH]; intros j fp; cbn [save_dbs rdb_sections].
  - by rewrite app_nil_r.
  - unfold rdb_section. destruct (dictGetHashTableUsed d =? 0).
    + by rewrite IH.
    + rewrite fwrite_nonempty by done. cbn [mbind option_bind].
      rewrite fwrite_htonl. cbn [mbind option_bind].
      rewrite save_entries_layout by by apply dict_ok_entries.
      cbn [mbind option_bind]. rewrite IH. by rewrite <- !app_assoc.
Qed.

Lemma rdb_image_layout dbs :
  Forall dict_ok dbs → rdb_image dbs = Some (rdb_layout dbs).
Proof.
  intros H. unfold rdb_image, rdb_layout.
  rewrite fwrite_nonempty by done. cbn [mbind option_bind].
  rewrite save_dbs_layout by done. cbn [mbind option_bind].
  rewrite fwrite_nonempty by done. by rewrite <- app_assoc.
Qed.

(** *** Loading reads the layout back *)

Lemma char_code_of z : 0 <= z < 256 → char_code (char_of z) = z.
Proof.
  intros H. unfold char_code, char_of.
  rewrite N_ascii_embedding by lia. lia.
Qed.

Lemma ntohl_htonl n : 0 <= n < 2 ^ 32 → ntohl_bytes (htonl_bytes n) = n.
Proof.
  intros H. unfold ntohl_bytes, htonl_bytes, to_uint32.
  rewrite (Z.mod_small n) by lia.
  rewrite !char_code_of; Z.div_mod_to_equations; lia.
Qed.

Lemma fread_app x rest : x ≠ [] → fread (sdslen x) (x ++ rest) = Got (x, rest).
Proof.
  intros Hx. unfold fread. rewrite sdslen_nonempty by done.
  assert ((sdslen (x ++ rest) <? sdslen x) = false) as ->.
  { apply Z.ltb_ge. unfold sdslen. rewrite length_app. lia. }
  unfold sdslen. rewrite Nat2Z.id. simpl.
  by rewrite take_app_length, drop_app_length.
Qed.

Lemma load_u32_htonl n rest :
  0 <= n < 2 ^ 32 → load_u32 (htonl_bytes n ++ rest) = Got (n, rest).
Proof.
  intros H. unfold load_u32.
  change 4 with (sdslen (htonl_bytes n)). rewrite fread_app by done.
  cbn [mbind loading_bind]. by rewrite ntohl_htonl.
Qed.

Lemma sdslen_nonneg (s : sds) : 0 <= sdslen s.
Proof. unfold sdslen. lia. Qed.

Lemma load_string_layout s rest :
  sdslen s < 2 ^ 32 → load_string (rdb_string s ++ rest) = Got (s, rest).
Proof.
  intros H. unfold load_string, rdb_string. rewrite <- app_assoc.
  pose proof (sdslen_nonneg s).
  rewrite load_u32_htonl by lia. cbn [mbind loading_bind].
  destruct s as [|c s]; [done|].
  rewrite sdslen_nonempty by done. by rewrite fread_app.
Qed.

Lemma rdb_elements_cons e l :
  rdb_elements (e :: l) = rdb_string (sds_ptr e) ++ rdb_elements l.
Proof. done. Qed.

Lemma length_rdb_elements l : (length l <= length (rdb_elements l))%nat.
Proof.
  induction l as [|e l IH]; [done|].
  rewrite rdb_elements_cons. unfold rdb_string, htonl_bytes.
  rewrite !length_app. simpl. lia.
Qed.

Lemma load_list_elements l acc fuel rest :
  Forall is_string l →
  Forall (λ e, sdslen (sds_ptr e) < 2 ^ 32) l →
  Z.of_nat (length l) < 2 ^ 32 →
  (length l <= fuel)%nat →
  load_elements load_list_add fuel (Z.of_nat (length l)) acc
    (rdb_elements l ++ rest)
  = Got (acc ++ l, rest).
Proof.
  intros Hstr. revert acc fuel.
  induction Hstr as [|e l He _ IH]; intros acc fuel Hfits Hlen Hfuel.
  - destruct fuel; simpl; by rewrite app_nil_r.
  - apply Forall_cons in Hfits as [Hfit Hfits].
    destruct fuel as [|fuel]; [simpl in Hfuel; lia|].
    simpl length in *. cbn [load_elements].
    assert ((Z.of_nat (S (length l)) =? 0) = false) as -> by (apply Z.eqb_neq; lia).
    rewrite rdb_elements_cons, <- app_assoc.
    rewrite load_string_layout by done. cbn [mbind loading_bind load_list_add].
    destruct (is_string_inv e He) as [x ->]. cbn [sds_ptr].
    replace (to_uint32 (Z.of_nat (S (length l)) - 1)) with (Z.of_nat (length l))
      by (unfold to_uint32; rewrite Z.mod_small; lia).
    rewrite IH by (done || lia). by rewrite <- app_assoc.
Qed.

(** Members added one by one to a set that holds none of them give the
    union. *)
Lemma insert_fresh_union (k : sds) (v : robj) (m acc : gmap sds robj) :
  m !! k = None → m ∪ <[k := v]> acc = <[k := v]> m ∪ acc.
Proof.
  intros Hk. by rewrite <- insert_union_l, insert_union_r.
Qed.

Lemma load_set_add_fresh acc k :
  acc !! k = None →
  load_set_add acc (StringObject k) = Got (<[k := StringObject k]> acc).
Proof. intros H. unfold load_set_add, dictAdd. cbn [sds_ptr]. by rewrite H. Qed.

Lemma load_set_elements entries acc fuel rest :
  Forall (λ entry, entry.2 = StringObject entry.1 ∧ sdslen entry.1 < 2 ^ 32)
    entries →
  NoDup (entries.*1) →
  (∀ k, k ∈ entries.*1 → acc !! k = None) →
  Z.of_nat (length entries) < 2 ^ 32 →
  (length entries <= fuel)%nat →
  load_elements load_set_add fuel (Z.of_nat (length entries)) acc
    (rdb_elements (entries.*2) ++ rest)
  = Got (list_to_map entries ∪ acc, rest).
Proof.
  intros Hent. revert acc fuel.
  induction Hent as [|[k e] entries [He Hfit] _ IH];
    intros acc fuel Hnodup Hfresh Hlen Hfuel.
  - destruct fuel; simpl; by rewrite (left_id ∅ (∪)).
  - simpl in He, Hfit. subst e.
    destruct fuel as [|fuel]; [simpl in Hfuel; lia|].
    simpl length in *. cbn [load_elements].
    assert ((Z.of_nat (S (length entries)) =? 0) = false) as ->
      by (apply Z.eqb_neq; lia).
    cbn [fmap list_fmap snd]. rewrite rdb_elements_cons, <- app_assoc.
    cbn [sds_ptr]. rewrite load_string_layout by done.
    cbn [mbind loading_bind].
    rewrite load_set_add_fresh by (apply Hfresh; simpl; left).
    cbn [mbind loading_bind].
    replace (to_uint32 (Z.of_nat (S (length entries)) - 1))
      with (Z.of_nat (length entries))
      by (unfold to_uint32; rewrite Z.mod_small; lia).
    apply NoDup_cons in Hnodup as [Hk Hnodup].
    rewrite IH; [|done| |lia|lia].
    + cbn [list_to_map foldr fst snd]. f_equal. f_equal.
      apply insert_fresh_union. by apply not_elem_of_list_to_map_1.
    + intros k' Hk'. rewrite lookup_insert_ne; [|by intros ->].
      apply Hfresh. by right.
Qed.

Lemma set_entries_indexed (set : gmap sds robj) :
  set_indexed set →
  (∀ k e, set !! k = Some e → sdslen k < 2 ^ 32) →
  Forall (λ entry, entry.2 = StringObject entry.1 ∧ sdslen entry.1 < 2 ^ 32)
    (dictEntries set).
Proof.
  intros Hidx Hfit. apply Forall_forall.
  intros [k e] Hin%elem_of_map_to_list. simpl. eauto.
Qed.

Lemma load_value_layout o rest :
  value_ok o → value_fits o →
  load_value (obj_type o) (rdb_value o ++ rest) = Got (o, rest).
Proof.
  intros Hok Hfit. unfold load_value.
  destruct o as [s|l|set]; simpl in Hok, Hfit; cbn [obj_type rdb_value].
  - change (REDIS_STRING =? REDIS_STRING) with true. cbv iota.
    by rewrite load_string_layout.
  - change (REDIS_LIST =? REDIS_STRING) with false.
    change (REDIS_LIST =? REDIS_LIST) with true. cbv iota.
    destruct Hfit as [Hlen Hfits]. rewrite <- app_assoc.
    rewrite load_u32_htonl by lia. cbn [mbind loading_bind].
    rewrite load_list_elements; [done|done|done|done|].
    rewrite length_app. pose proof (length_rdb_elements l). lia.
  - change (REDIS_SET =? REDIS_STRING) with false.
    change (REDIS_SET =? REDIS_LIST) with false.
    change (REDIS_SET =? REDIS_SET) with true. cbv iota.
    destruct Hfit as [Hlen Hfits]. rewrite <- app_assoc.
    unfold dictGetHashTableUsed in *.
    rewrite load_u32_htonl by lia. cbn [mbind loading_bind].
    unfold dictEntries. rewrite <- (length_map_to_list set) in *.
    rewrite load_set_elements.
    + cbn [mbind loading_bind].
      by rewrite list_to_map_to_list, (right_id ∅ (∪)).
    + by apply set_entries_indexed.
    + apply NoDup_fst_map_to_list.
    + intros k _. apply lookup_empty.
    + done.
    + rewrite length_app.
      pose proof (length_rdb_elements ((map_to_list set).*2)) as Hl.
      rewrite length_fmap in Hl. lia.
Qed.

Lemma rdb_records_cons entry entries :
  rdb_records (entry :: entries) = rdb_record entry ++ rdb_records entries.
Proof. done. Qed.

Lemma obj_type_byte o :
  char_code (char_of (obj_type o)) = obj_type o
  ∧ (obj_type o =? REDIS_EOF) = false
  ∧ (obj_type o =? REDIS_SELECTDB) = false.
Proof. by destruct o. Qed.

(** The records of one database, read into the database selected. *)
Lemma load_records_entries entries :
  ∀ dbs j acc fuel rest,
    dbs !! j = Some acc →
    Forall (λ entry, entry.1 ≠ [] ∧ sdslen entry.1 < 2 ^ 32
                     ∧ value_ok entry.2 ∧ value_fits entry.2) entries →
    NoDup (entries.*1) →
    (∀ k, k ∈ entries.*1 → acc !! k = None) →
    (length (rdb_records entries ++ rest) < fuel)%nat →
    ∃ fuel',
      (length rest < fuel')%nat
      ∧ load_records fuel dbs j (rdb_records entries ++ rest)
        = load_records fuel' (<[j := list_to_map entries ∪ acc]> dbs) j rest.
Proof.
  induction entries as [|[k o] entries IH];
    intros dbs j acc fuel rest Hj Hent Hnodup Hfresh Hfuel.
  - exists fuel. split; [done|].
    simpl. by rewrite (left_id ∅ (∪)), list_insert_id.
  - apply Forall_cons in Hent as [(Hk & Hkfit & Hok & Hfit) Hent].
    simpl in Hk, Hkfit, Hok, Hfit.
    apply NoDup_cons in Hnodup as [Hknew Hnodup].
    destruct fuel as [|fuel]; [lia|].
    rewrite rdb_records_cons in *. unfold rdb_record in *. cbn [fst snd] in *.
    rewrite <- !app_assoc in *.
    cbn [load_records].
    change 1 with (sdslen [char_of (obj_type o)]).
    rewrite fread_app by done. cbn [mbind loading_bind hd].
    destruct (obj_type_byte o) as (-> & -> & ->).
    pose proof (sdslen_nonneg k).
    rewrite load_u32_htonl by lia. cbn [mbind loading_bind].
    rewrite fread_app by done. cbn [mbind loading_bind].
    rewrite load_value_layout by done. cbn [mbind loading_bind].
    unfold dictAdd. rewrite Hj. cbn [default].
    rewrite Hfresh by (simpl; left).
    change (DICT_OK =? DICT_ERR) with false. cbv iota. unfold id.
    destruct (IH (<[j := <[k := o]> acc]> dbs) j (<[k := o]> acc) fuel rest)
      as (fuel' & Hfuel' & ->).
    + apply list_lookup_insert_eq. by eapply lookup_lt_Some.
    + done.
    + done.
    + intros k' Hk'. rewrite lookup_insert_ne; [|by intros ->].
      apply Hfresh. by right.
    + rewrite !length_app in *. simpl in *. lia.
    + exists fuel'. split; [done|].
      rewrite list_insert_insert_eq. f_equal. f_equal.
      cbn [list_to_map foldr fst snd].
      apply insert_fresh_union. by apply not_elem_of_list_to_map_1.
Qed.

Lemma dict_entries_ok d :
  dict_ok d → dict_fits d →
  Forall (λ entry, entry.1 ≠ [] ∧ sdslen entry.1 < 2 ^ 32
                   ∧ value_ok entry.2 ∧ value_fits entry.2) (dictEntries d).
Proof.
  intros Hok Hfit. apply Forall_forall.
  intros [k v] Hin%elem_of_map_to_list. simpl.
  destruct (Hok k v Hin), (Hfit k v Hin). done.
Qed.

(** The databases from index [length pre] on, read into a server that
    already holds [pre] and has empty databases after them. *)
Lemma load_records_sections post :
  ∀ pre d fuel,
    Forall dict_ok post → Forall dict_fits post →
    Z.of_nat (length (pre ++ post)) < 2 ^ 32 →
    (length (rdb_sections (Z.of_nat (length pre)) post ++ [char_of REDIS_EOF])
     < fuel)%nat →
    load_records fuel (pre ++ replicate (length post) ∅) d
      (rdb_sections (Z.of_nat (length pre)) post ++ [char_of REDIS_EOF])
    = Got (pre ++ post).
Proof.
  induction post as [|d0 post IH]; intros pre d fuel Hok Hfit Hlen Hfuel.
  - destruct fuel as [|fuel]; [simpl in Hfuel; lia|]. by rewrite !app_nil_r.
  - apply Forall_cons in Hok as [Hok0 Hok].
    apply Forall_cons in Hfit as [Hfit0 Hfit].
    assert (pre ++ d0 :: post = (pre ++ [d0]) ++ post) as Hsplit
      by by rewrite <- app_assoc.
    assert (Z.of_nat (length pre) + 1 = Z.of_nat (length (pre ++ [d0]))) as Hnext
      by (rewrite length_app; simpl; lia).
    cbn [rdb_sections] in *. unfold rdb_section in *.
    rewrite Hnext in *.
    destruct (dictGetHashTableUsed d0 =? 0) eqn:Hused.
    + apply Z.eqb_eq in Hused. unfold dictGetHashTableUsed in Hused.
      assert (d0 = ∅) as -> by (apply map_size_empty_inv; lia).
      rewrite Hsplit. rewrite <- (IH (pre ++ [∅]) d fuel); try done.
      * rewrite <- (app_assoc pre [∅]). reflexivity.
      * by rewrite <- Hsplit.
    + destruct fuel as [|fuel]; [lia|].
      rewrite <- !app_assoc in Hfuel |- *. cbn [load_records].
      change 1 with (sdslen [char_of REDIS_SELECTDB]).
      rewrite fread_app by done. cbn [mbind loading_bind hd].
      change (char_code (char_of REDIS_SELECTDB) =? REDIS_EOF) with false.
      change (char_code (char_of REDIS_SELECTDB) =? REDIS_SELECTDB) with true.
      cbv iota.
      rewrite load_u32_htonl by (rewrite length_app in Hlen; lia).
      cbn [mbind loading_bind].
      assert ((Z.of_nat (length pre)
               >=? Z.of_nat (length (pre ++ replicate (length (d0 :: post)) ∅)))
              = false) as ->.
      { rewrite Z.geb_leb. apply Z.leb_gt.
        rewrite length_app, length_replicate. simpl. lia. }
      rewrite Nat2Z.id.
      destruct (load_records_entries (dictEntries d0)
                  (pre ++ replicate (length (d0 :: post)) ∅) (length pre) ∅ fuel
                  (rdb_sections (Z.of_nat (length (pre ++ [d0]))) post
                   ++ [char_of REDIS_EOF]))
        as (fuel' & Hfuel' & ->).
      * rewrite lookup_app_r by lia. by rewrite Nat.sub_diag.
      * by apply dict_entries_ok.
      * apply NoDup_fst_map_to_list.
      * intros k _. apply lookup_empty.
      * rewrite !length_app in *. simpl in *. lia.
      * unfold dictEntries. rewrite list_to_map_to_list, (right_id ∅ (∪)).
        rewrite Hsplit, <- (IH (pre ++ [d0]) (length pre) fuel'); try done.
        -- f_equal. rewrite insert_app_r_alt by lia.
           rewrite Nat.sub_diag. cbn. by rewrite <- app_assoc.
        -- by rewrite <- Hsplit.
Qed.

Lemma saveDb_layout s :
  keyspace_ok s →
  saveDb s
  = (REDIS_OK,
     set_lastsave (set_dirty (set_dumpfile s (Some (rdb_layout (s_dict s)))) 0)
       (s_time s)).
Proof. intros Hok. unfold saveDb. by rewrite rdb_image_layout. Qed.

Lemma loadDb_layout dbs params now :
  Forall dict_ok dbs → snapshot_fits dbs →
  let fresh := initServer (length dbs) params now (Some (rdb_layout dbs)) in
  loadDb fresh = Got (set_s_dict fresh dbs).
Proof.
  intros Hok [Hlen Hfit] fresh. unfold loadDb.
  assert (s_dumpfile fresh = Some (rdb_layout dbs)) as -> by done.
  unfold rdb_layout.
  change 9 with (sdslen (sdsnew "REDIS0000")).
  rewrite fread_app by done. cbn [mbind loading_bind].
  assert (sds_eqb (sdsnew "REDIS0000") (sdsnew "REDIS0000") = true) as -> by done.
  cbn [negb].
  assert (s_dict fresh = [] ++ replicate (length dbs) ∅) as -> by done.
  rewrite (load_records_sections dbs [] 0%nat); try done.
  apply Nat.lt_succ_diag_r.
Qed.

(** C1: a keyspace whose keys are non-empty, whose containers hold their
    strings as the server stores them, and whose lengths fit the 32-bit
    fields of the format, is saved by [saveDb] (as the layout of the
    specification) and loaded back by [loadDb], in a fresh server with as
    many databases, as the same keyspace: every database holds the same
    keys with the same values, lists in the same order. *)
Theorem snapshot_round_trip s :
  keyspace_ok s →
  snapshot_fits (s_dict s) →
  saveDb s
  = (REDIS_OK,
     set_lastsave (set_dirty (set_dumpfile s (Some (rdb_layout (s_dict s)))) 0)
       (s_time s))
  ∧ ∀ params now,
      let fresh := initServer (length (s_dict s)) params now
                     (s_dumpfile (saveDb s).2) in
      loadDb fresh = Got (set_s_dict fresh (s_dict s)).
Proof.
  intros Hok Hfit. split; [by apply saveDb_layout|].
  intros params now. rewrite saveDb_layout by done.
  by apply loadDb_layout.
Qed.

(** The keyspace of every world the server reaches satisfies the first
    hypothesis, so the round trip holds there as soon as the lengths fit. *)
Corollary reachable_round_trip w params now :
  reachable w →
  snapshot_fits (s_dict (w_server w)) →
  let s := w_server w in
  let fresh := initServer (length (s_dict s)) params now
                 (s_dumpfile (saveDb s).2) in
  (saveDb s).1 = REDIS_OK ∧ loadDb fresh = Got (set_s_dict fresh (s_dict s)).
Proof.
  intros Hw Hfit s fresh. destruct (reachable_ok w Hw) as [[Hok _] _].
  unfold fresh. rewrite saveDb_layout by done. split; [done|].
  by apply loadDb_layout.
Qed.

Lemma dict_fits_empty : dict_fits ∅.
Proof. intros k v H. by rewrite lookup_empty in H. Qed.

Lemma dict_fits_insert d k v :
  dict_fits d → sdslen k < 2 ^ 32 → value_fits v → dict_fits (<[k := v]> d).
Proof.
  intros Hd Hk Hv k' v' [[<- <-]|[_ H]]%lookup_insert_Some; [done|]. by apply Hd.
Qed.

Lemma snapshot_round_trip_witness :
  keyspace_ok round_trip_example
  ∧ snapshot_fits (s_dict round_trip_example)
  ∧ loadDb (initServer 3 default_saveparams 0
              (Some (rdb_layout (s_dict round_trip_example))))
    = Got (set_s_dict
             (initServer 3 default_saveparams 0
                (Some (rdb_layout (s_dict round_trip_example))))
             (s_dict round_trip_example)).
Proof.
  assert (set_indexed round_trip_set) as Hset.
  { unfold round_trip_set. repeat apply set_indexed_insert.
    intros k e H. by rewrite lookup_empty in H. }
  assert (keyspace_ok round_trip_example) as Hok.
  { unfold keyspace_ok, round_trip_example. cbn [s_dict set_s_dict].
    apply Forall_cons. split; [|apply Forall_cons; split; [|apply Forall_cons; split]].
    - apply dict_ok_insert; [|done|done].
      apply dict_ok_insert; [apply dict_ok_empty|done|].
      simpl. by repeat constructor.
    - apply dict_ok_empty.
    - apply dict_ok_insert; [apply dict_ok_empty|done|exact Hset].
    - constructor. }
  assert (snapshot_fits (s_dict round_trip_example)) as Hfit.
  { split; [simpl; lia|]. unfold round_trip_example. cbn [s_dict set_s_dict].
    apply Forall_cons. split; [|apply Forall_cons; split; [|apply Forall_cons; split]].
    - apply dict_fits_insert; [|by vm_compute|by vm_compute].
      apply dict_fits_insert; [apply dict_fits_empty|by vm_compute|].
      split; [by vm_compute|]. repeat constructor; by vm_compute.
    - apply dict_fits_empty.
    - apply dict_fits_insert; [apply dict_fits_empty|by vm_compute|].
      split; [by vm_compute|]. unfold round_trip_set. intros k e H.
      repeat (apply lookup_insert_Some in H as [[<- _]|[_ H]]; [by vm_compute|]).
      by rewrite lookup_empty in H.
    - constructor. }
  split; [exact Hok|]. split; [exact Hfit|].
  destruct (snapshot_round_trip round_trip_example Hok Hfit) as [Hsave Hload].
  specialize (Hload default_saveparams 0). rewrite Hsave in Hload.
  exact Hload.
Defined.
(** ** Further properties of the commands *)

Lemma call_unfold proc args c s :
  call proc args (c, s)
  = (resetClient (proc (set_argv c (StringObject <$> args)) s).1,
     (proc (set_argv c (StringObject <$> args)) s).2).
Proof. unfold call. cbn [fst snd]. by destruct (proc _ _). Qed.

(** The database a client points to does not depend on its argv, its
    reply list or its parser state. *)
Ltac same_dict :=
  repeat first
    [ progress change (client_dict (set_argv ?c ?a) ?s) with (client_dict c s)
    | progress change (client_dict (resetClient ?c) ?s) with (client_dict c s)
    | progress change (client_dict (addReply ?c ?o) ?s) with (client_dict c s)
    | progress change (client_dict (addReplySds ?c ?o) ?s) with (client_dict c s)
    | progress change (client_dict (addReplyBulk ?c ?o) ?s) with (client_dict c s)
    | progress change (c_dict (set_argv ?c ?a)) with (c_dict c)
    | progress change (c_dict (resetClient ?c)) with (c_dict c)
    | progress change (c_dict (addReply ?c ?o)) with (c_dict c)
    | progress change (c_dict (addReplySds ?c ?o)) with (c_dict c)
    | progress change (c_dict (addReplyBulk ?c ?o)) with (c_dict c) ].

(** The argv entries of a command run through [call]. *)
Ltac call_args :=
  unfold key_at, argv_at;
  cbn [c_argv set_argv fmap list_fmap nth sds_ptr resetClient set_bulklen
       addReply addReplySds addReplyBulk set_reply];
  same_dict.

(** The reply list after a sequence of appends. *)
Ltac replies :=
  cbn [c_reply resetClient set_bulklen set_argv addReplyBulk addReply
       addReplySds set_reply set_c_dict sds_ptr].

Lemma client_dict_stored c c' s d :
  c_dict c' = c_dict c →
  (c_dict c < length (s_dict s))%nat →
  client_dict c' (set_client_dict c s d) = d.
Proof.
  intros Heq Hlt. unfold client_dict, set_client_dict.
  cbn [s_dict set_s_dict]. rewrite Heq.
  by rewrite list_lookup_insert_eq.
Qed.

Lemma store_length c s d :
  length (s_dict (incr_dirty (set_client_dict c s d))) = length (s_dict s).
Proof. unfold incr_dirty, set_dirty, set_client_dict. cbn. apply length_insert. Qed.

(** X1: DEL removes the key and nothing else.  DEL k replies 1 and counts
    one change when the key exists, replies 0 and counts none when it does
    not; afterwards the database is the old one without [k], and EXISTS k
    replies 0. *)
Theorem del_removes_key c s del exists_ k :
  (c_dict c < length (s_dict s))%nat →
  let r := call delCommand [del; k] (c, s) in
  client_dict r.1 r.2 = delete k (client_dict c s)
  ∧ c_reply r.1
    = c_reply c ++ [if bool_decide (is_Some (client_dict c s !! k))
                    then shared.one else shared.zero]
  ∧ s_dirty r.2
    = (if bool_decide (is_Some (client_dict c s !! k))
       then to_longlong (s_dirty s + 1) else s_dirty s)
  ∧ c_reply (call existsCommand [exists_; k] r).1 = c_reply r.1 ++ [shared.zero].
Proof.
  intros Hdb r. subst r. rewrite call_unfold. cbn [fst snd].
  unfold delCommand, dictDelete. call_args.
  destruct (client_dict c s !! k) as [o|] eqn:E.
  - rewrite bool_decide_eq_true_2 by eauto.
    change (DICT_OK =? DICT_OK) with true. cbv iota. cbn [fst snd]. same_dict.
    rewrite client_dict_set_other by done.
    repeat split; try done.
    rewrite call_unfold. cbn [fst snd].
    unfold existsCommand, dictFind. call_args.
    rewrite client_dict_set_other by done.
    by rewrite lookup_delete_eq.
  - rewrite bool_decide_eq_false_2 by (intros [? ?]; done).
    change (DICT_ERR =? DICT_OK) with false. cbv iota. cbn [fst snd]. same_dict.
    repeat split; try done.
    + by rewrite delete_id.
    + rewrite call_unfold. cbn [fst snd].
      unfold existsCommand, dictFind. call_args.
      by rewrite E.
Qed.

Lemma del_removes_key_witness :
  let c := createClient 5 setnx_example in
  let s := setnx_example in
  let k := sdsnew "k" in
  let r := call delCommand [sdsnew "del"; k] (c, s) in
  client_dict r.1 r.2 = delete k (client_dict c s)
  ∧ c_reply r.1
    = c_reply c ++ [if bool_decide (is_Some (client_dict c s !! k))
                    then shared.one else shared.zero]
  ∧ s_dirty r.2
    = (if bool_decide (is_Some (client_dict c s !! k))
       then to_longlong (s_dirty s + 1) else s_dirty s)
  ∧ c_reply (call existsCommand [sdsnew "exists"; k] r).1
    = c_reply r.1 ++ [shared.zero].
Proof.
  apply (del_removes_key (createClient 5 setnx_example) setnx_example).
  vm_compute. lia.
Defined.
Lemma pushGenericCommand_stored where_ c s l :
  stored_list (client_dict c s) (key_at c 1) = Some l →
  pushGenericCommand where_ c s
  = (addReply c shared.ok,
     incr_dirty
       (set_client_dict c s
          (<[key_at c 1 := ListObject (if where_ =? REDIS_HEAD
                                        then argv_at c 2 :: l
                                        else l ++ [argv_at c 2])]>
             (client_dict c s)))).
Proof.
  unfold stored_list, pushGenericCommand, dictFind, dictAdd.
  destruct (client_dict c s !! key_at c 1) as [[?|l'|?]|] eqn:E; try done.
  - by intros [= ->].
  - by intros [= <-].
Qed.

Lemma popGenericCommand_stored where_ c s l ele :
  client_dict c s !! key_at c 1 = Some (ListObject l) →
  (if where_ =? REDIS_HEAD then head l else last l) = Some ele →
  popGenericCommand where_ c s
  = (addReplyBulk c ele,
     incr_dirty
       (set_client_dict c s
          (<[key_at c 1 := ListObject (if where_ =? REDIS_HEAD
                                        then tail l else removelast l)]>
             (client_dict c s)))).
Proof.
  intros E H. unfold popGenericCommand, dictFind. rewrite E, H. done.
Qed.

Lemma removelast_app_one {A} (l : list A) (x : A) : removelast (l ++ [x]) = l.
Proof. apply removelast_last. Qed.

Lemma push_pop_generic c s l push pop k v :
  (c_dict c < length (s_dict s))%nat →
  stored_list (client_dict c s) k = Some l →
  ∀ where_,
    let r1 := call (pushGenericCommand where_) [push; k; v] (c, s) in
    let r2 := call (popGenericCommand where_) [pop; k] r1 in
    c_reply r1.1 = c_reply c ++ [shared.ok]
    ∧ client_dict r1.1 r1.2
      = <[k := ListObject (if where_ =? REDIS_HEAD then StringObject v :: l
                           else l ++ [StringObject v])]> (client_dict c s)
    ∧ c_reply r2.1 = c_reply r1.1 ++ bulk_reply v
    ∧ client_dict r2.1 r2.2 = <[k := ListObject l]> (client_dict c s).
Proof.
  intros Hdb Hl where_ r1 r2. subst r2 r1.
  rewrite (call_unfold (pushGenericCommand where_)).
  rewrite (pushGenericCommand_stored _ _ _ l) by (call_args; done).
  cbn [fst snd]. call_args.
  rewrite client_dict_set_other by done.
  split; [done|]. split; [done|].
  rewrite call_unfold.
  erewrite popGenericCommand_stored.
  2:{ call_args. rewrite client_dict_set_other by done. apply lookup_insert_eq. }
  2:{ destruct (where_ =? REDIS_HEAD); [done|]. apply last_snoc. }
  cbn [fst snd]. call_args.
  split.
  - unfold bulk_reply. replies. by rewrite <- !app_assoc.
  - rewrite client_dict_set_other by (by rewrite ?store_length).
    rewrite client_dict_set_other by done.
    rewrite insert_insert_eq.
    destruct (where_ =? REDIS_HEAD); [done|]. by rewrite removelast_app_one.
Qed.

(** X2: a push followed by the pop at the same end gives the value back.
    On a key that holds the list [l], or on a missing key ([l] empty),
    LPUSH k v replies +OK and stores [v :: l], RPUSH k v stores
    [l ++ [v]]; the LPOP, respectively RPOP, that follows replies [v] as a
    bulk item and leaves the list [l] under the key: the empty list when
    the key was missing, so that the key then exists. *)
Theorem push_pop_round_trip c s l lpush lpop rpush rpop k v :
  (c_dict c < length (s_dict s))%nat →
  stored_list (client_dict c s) k = Some l →
  (let r1 := call lpushCommand [lpush; k; v] (c, s) in
   let r2 := call lpopCommand [lpop; k] r1 in
   c_reply r1.1 = c_reply c ++ [shared.ok]
   ∧ client_dict r1.1 r1.2
     = <[k := ListObject (StringObject v :: l)]> (client_dict c s)
   ∧ c_reply r2.1 = c_reply r1.1 ++ bulk_reply v
   ∧ client_dict r2.1 r2.2 = <[k := ListObject l]> (client_dict c s))
  ∧ (let r1 := call rpushCommand [rpush; k; v] (c, s) in
     let r2 := call rpopCommand [rpop; k] r1 in
     c_reply r1.1 = c_reply c ++ [shared.ok]
     ∧ client_dict r1.1 r1.2
       = <[k := ListObject (l ++ [StringObject v])]> (client_dict c s)
     ∧ c_reply r2.1 = c_reply r1.1 ++ bulk_reply v
     ∧ client_dict r2.1 r2.2 = <[k := ListObject l]> (client_dict c s)).
Proof.
  intros Hdb Hl. split.
  - apply (push_pop_generic c s l lpush lpop k v Hdb Hl REDIS_HEAD).
  - apply (push_pop_generic c s l rpush rpop k v Hdb Hl REDIS_TAIL).
Qed.

Lemma push_pop_round_trip_witness :
  let c := list_example_client in
  let s := list_example_server in
  let k := sdsnew "l" in
  let v := sdsnew "x" in
  let l := [StringObject (sdsnew "a"); StringObject (sdsnew "b")] in
  (let r1 := call lpushCommand [sdsnew "lpush"; k; v] (c, s) in
   let r2 := call lpopCommand [sdsnew "lpop"; k] r1 in
   c_reply r1.1 = c_reply c ++ [shared.ok]
   ∧ client_dict r1.1 r1.2
     = <[k := ListObject (StringObject v :: l)]> (client_dict c s)
   ∧ c_reply r2.1 = c_reply r1.1 ++ bulk_reply v
   ∧ client_dict r2.1 r2.2 = <[k := ListObject l]> (client_dict c s))
  ∧ (let r1 := call rpushCommand [sdsnew "rpush"; k; v] (c, s) in
     let r2 := call rpopCommand [sdsnew "rpop"; k] r1 in
     c_reply r1.1 = c_reply c ++ [shared.ok]
     ∧ client_dict r1.1 r1.2
       = <[k := ListObject (l ++ [StringObject v])]> (client_dict c s)
     ∧ c_reply r2.1 = c_reply r1.1 ++ bulk_reply v
     ∧ client_dict r2.1 r2.2 = <[k := ListObject l]> (client_dict c s)).
Proof.
  apply (push_pop_round_trip list_example_client list_example_server
           [StringObject (sdsnew "a"); StringObject (sdsnew "b")]).
  - vm_compute. lia.
  - vm_compute. reflexivity.
Defined.

(** X3: a list filled with RPUSH is emptied in the same order by LPOP.
    With the list [x :: l] under the key, RPUSH k v followed by LPOP k
    replies [x] and leaves [l ++ [v]]. *)
Theorem rpush_lpop_fifo c s x l push pop k v :
  (c_dict c < length (s_dict s))%nat →
  client_dict c s !! k = Some (ListObject (x :: l)) →
  let r1 := call rpushCommand [push; k; v] (c, s) in
  let r2 := call lpopCommand [pop; k] r1 in
  c_reply r2.1 = c_reply c ++ [shared.ok] ++ bulk_items x
  ∧ client_dict r2.1 r2.2
    = <[k := ListObject (l ++ [StringObject v])]> (client_dict c s).
Proof.
  intros Hdb Hl r1 r2. subst r2 r1.
  rewrite (call_unfold rpushCommand). unfold rpushCommand.
  rewrite (pushGenericCommand_stored _ _ _ (x :: l))
    by (call_args; unfold stored_list; by rewrite Hl).
  cbn [fst snd]. call_args.
  rewrite call_unfold. unfold lpopCommand.
  erewrite popGenericCommand_stored.
  2:{ call_args. rewrite client_dict_set_other by done. apply lookup_insert_eq. }
  2:{ reflexivity. }
  cbn [fst snd]. call_args. split.
  - unfold bulk_items. replies. by rewrite <- !app_assoc.
  - rewrite client_dict_set_other by (by rewrite ?store_length).
    rewrite client_dict_set_other by done.
    by rewrite insert_insert_eq.
Qed.

Lemma rpush_lpop_fifo_witness :
  let c := list_example_client in
  let s := list_example_server in
  let k := sdsnew "l" in
  let v := sdsnew "x" in
  let r1 := call rpushCommand [sdsnew "rpush"; k; v] (c, s) in
  let r2 := call lpopCommand [sdsnew "lpop"; k] r1 in
  c_reply r2.1 = c_reply c ++ [shared.ok] ++ bulk_items (StringObject (sdsnew "a"))
  ∧ client_dict r2.1 r2.2
    = <[k := ListObject ([StringObject (sdsnew "b")] ++ [StringObject v])]>
        (client_dict c s).
Proof.
  apply (rpush_lpop_fifo list_example_client list_example_server
           (StringObject (sdsnew "a")) [StringObject (sdsnew "b")]).
  - vm_compute. lia.
  - vm_compute. reflexivity.
Defined.
(** ** LSET, LINDEX, LTRIM *)

Lemma iter_listDelFirst {A} n (l : list A) : Nat.iter n listDelFirst l = drop n l.
Proof.
  revert l. induction n as [|n IH]; intros l; [done|].
  rewrite Nat.iter_succ_r, IH. destruct l; [|done].
  unfold listDelFirst. cbn. by rewrite drop_nil.
Qed.

Lemma removelast_take {A} (l : list A) : removelast l = take (length l - 1) l.
Proof.
  induction l as [|x l IH] using rev_ind; [done|].
  rewrite removelast_last, length_app. simpl.
  replace (length l + 1 - 1)%nat with (length l) by lia.
  by rewrite take_app_length.
Qed.

Lemma iter_listDelLast {A} n (l : list A) :
  Nat.iter n listDelLast l = take (length l - n) l.
Proof.
  induction n as [|n IH]; simpl.
  - by rewrite Nat.sub_0_r, firstn_all.
  - rewrite IH. unfold listDelLast. rewrite removelast_take, take_take.
    rewrite length_take. f_equal. lia.
Qed.

Lemma ltrimCommand_window c s l :
  client_dict c s !! key_at c 1 = Some (ListObject l) →
  Z.of_nat (length l) <= INT_MAX →
  ltrimCommand c s
  = (addReply c shared.ok,
     incr_dirty
       (set_client_dict c s
          (<[key_at c 1 :=
               ListObject (list_window l (atoi (sds_ptr (argv_at c 2)))
                             (atoi (sds_ptr (argv_at c 3))))]>
             (client_dict c s)))).
Proof.
  intros E Hlen. unfold ltrimCommand, dictFind. rewrite E. cbv zeta.
  pose proof (atoi_range (sds_ptr (argv_at c 2))) as Hs.
  pose proof (atoi_range (sds_ptr (argv_at c 3))) as He.
  set (start := atoi (sds_ptr (argv_at c 2))) in *.
  set (end_ := atoi (sds_ptr (argv_at c 3))) in *.
  unfold listLength.
  rewrite (to_int_id (Z.of_nat (length l))) by (unfold INT_MIN, INT_MAX in *; lia).
  set (len := Z.of_nat (length l)) in *.
  rewrite !normalize_index by (done || lia).
  unfold list_window. cbv zeta. fold len.
  set (start' := Z.max 0 (if start <? 0 then len + start else start)).
  set (end' := Z.max 0 (if end_ <? 0 then len + end_ else end_)).
  assert (0 <= start' <= INT_MAX ∧ 0 <= end' <= INT_MAX) as [Hs' He'].
  { unfold start', end', INT_MIN, INT_MAX in *.
    destruct (Z.ltb_spec start 0), (Z.ltb_spec end_ 0); lia. }
  destruct ((start' >? end') || (start' >=? len)) eqn:Hout.
  { rewrite iter_listDelFirst. cbn [Nat.iter].
    rewrite drop_ge by lia. done. }
  apply orb_false_iff in Hout as [H1 H2].
  assert (start' <= end') by lia. assert (start' < len) by lia.
  assert ((if end' >=? len then to_int (len - 1) else end') = Z.min end' (len - 1))
    as ->.
  { unfold INT_MIN, INT_MAX in *. destruct (Z.geb_spec end' len).
    - rewrite to_int_id by (unfold INT_MIN, INT_MAX; lia). lia.
    - lia. }
  set (end'' := Z.min end' (len - 1)).
  assert (start' <= end'' < len) by (unfold end''; lia).
  unfold INT_MIN, INT_MAX in *.
  rewrite !to_int_id by (unfold INT_MIN, INT_MAX; try rewrite to_int_id;
                         unfold INT_MIN, INT_MAX; lia).
  rewrite iter_listDelFirst, iter_listDelLast, length_drop.
  replace (length l - Z.to_nat start' - Z.to_nat (len - end'' - 1))%nat
    with (Z.to_nat (end'' - start' + 1)) by (unfold len in *; lia).
  done.
Qed.

Lemma lrangeCommand_all c s l :
  client_dict c s !! key_at c 1 = Some (ListObject l) →
  Z.of_nat (length l) <= INT_MAX →
  atoi (sds_ptr (argv_at c 2)) = 0 →
  atoi (sds_ptr (argv_at c 3)) = -1 →
  lrangeCommand c s
  = (set_reply c
       (c_reply c ++ StringObject (bulk_header (Z.of_nat (length l)))
                     :: concat (bulk_items <$> l)),
     s).
Proof.
  intros E Hlen Hs He. unfold lrangeCommand, dictFind. rewrite E, Hs, He.
  cbv zeta. unfold listLength.
  rewrite (to_int_id (Z.of_nat (length l))) by (unfold INT_MIN, INT_MAX in *; lia).
  set (len := Z.of_nat (length l)) in *.
  change (0 <? 0) with false. change (-1 <? 0) with true. cbv iota.
  unfold INT_MAX in *.
  rewrite (to_int_id (len + -1)) by (unfold INT_MIN, INT_MAX; lia).
  destruct (decide (l = [])) as [->|Hne].
  { by destruct c. }
  assert (1 <= len) by (unfold len; destruct l; [done|simpl length; lia]).
  assert ((len + -1 <? 0) = false) as -> by (apply Z.ltb_ge; lia).
  change (if 0 <? 0 then 0 else 0) with 0.
  assert ((0 >? len + -1) = false) as -> by lia.
  assert ((0 >=? len) = false) as -> by lia.
  assert ((len + -1 >=? len) = false) as -> by lia.
  cbn [orb].
  rewrite !to_int_id by (unfold INT_MIN, INT_MAX; try rewrite to_int_id;
                         unfold INT_MIN, INT_MAX; lia).
  replace (len + -1 - 0 + 1) with len by lia.
  assert (listIndex l 0 = Some 0%nat) as ->.
  { unfold listIndex. fold len. change (0 <? 0) with false. cbv iota.
    assert ((0 <=? 0) && (0 <? len) = true) as ->; [|done].
    apply andb_true_iff. split; [done|apply Z.ltb_lt; lia]. }
  rewrite lrange_loop_items. unfold addReplySds, addReply. cbn [set_reply c_reply].
  rewrite <- app_assoc. unfold len. rewrite Nat2Z.id, drop_0, firstn_all.
  by destruct c.
Qed.

Lemma list_window_length l start end_ :
  (length (list_window l start end_) <= length l)%nat.
Proof.
  unfold list_window. cbv zeta.
  destruct (_ || _); [simpl; lia|].
  rewrite length_take, length_drop. lia.
Qed.

(** X4: LTRIM keeps the window LRANGE shows.  On a key that holds the list
    [l], LTRIM k start end replies +OK, counts one change and leaves under
    the key the window of [l] between the two indices (negative indices
    count from the end, an empty window when start is past end or past the
    list); the LRANGE k 0 -1 that follows replies exactly these elements,
    in order, after their count, and changes nothing. *)
Theorem ltrim_keeps_window c s l ltrim lrange k start end_ :
  (c_dict c < length (s_dict s))%nat →
  client_dict c s !! k = Some (ListObject l) →
  Z.of_nat (length l) <= INT_MAX →
  let w := list_window l (atoi start) (atoi end_) in
  let r1 := call ltrimCommand [ltrim; k; start; end_] (c, s) in
  let r2 := call lrangeCommand [lrange; k; sdsnew "0"; sdsnew "-1"] r1 in
  c_reply r1.1 = c_reply c ++ [shared.ok]
  ∧ client_dict r1.1 r1.2 = <[k := ListObject w]> (client_dict c s)
  ∧ s_dirty r1.2 = to_longlong (s_dirty s + 1)
  ∧ c_reply r2.1
    = c_reply r1.1 ++ StringObject (bulk_header (Z.of_nat (length w)))
                      :: concat (bulk_items <$> w)
  ∧ r2.2 = r1.2.
Proof.
  intros Hdb Hl Hlen w r1 r2. subst r2 r1.
  rewrite (call_unfold ltrimCommand).
  rewrite (ltrimCommand_window _ _ l) by (call_args; done).
  cbn [fst snd]. call_args. fold w.
  rewrite client_dict_set_other by done.
  split; [done|]. split; [done|]. split; [done|].
  rewrite call_unfold.
  rewrite (lrangeCommand_all _ _ w).
  - cbn [fst snd]. replies. done.
  - call_args. rewrite client_dict_set_other by done. apply lookup_insert_eq.
  - pose proof (list_window_length l (atoi start) (atoi end_)). fold w in H. lia.
  - reflexivity.
  - reflexivity.
Qed.

Lemma ltrim_keeps_window_witness :
  let c := list_example_client in
  let s := list_example_server in
  let k := sdsnew "l" in
  let w := list_window [StringObject (sdsnew "a"); StringObject (sdsnew "b")]
             (atoi (sdsnew "1")) (atoi (sdsnew "5")) in
  let r1 := call ltrimCommand [sdsnew "ltrim"; k; sdsnew "1"; sdsnew "5"] (c, s) in
  let r2 := call lrangeCommand [sdsnew "lrange"; k; sdsnew "0"; sdsnew "-1"] r1 in
  w = [StringObject (sdsnew "b")]
  ∧ c_reply r1.1 = c_reply c ++ [shared.ok]
  ∧ client_dict r1.1 r1.2 = <[k := ListObject w]> (client_dict c s)
  ∧ s_dirty r1.2 = to_longlong (s_dirty s + 1)
  ∧ c_reply r2.1
    = c_reply r1.1 ++ StringObject (bulk_header (Z.of_nat (length w)))
                      :: concat (bulk_items <$> w)
  ∧ r2.2 = r1.2.
Proof.
  split; [reflexivity|].
  apply (ltrim_keeps_window list_example_client list_example_server
           [StringObject (sdsnew "a"); StringObject (sdsnew "b")]).
  - vm_compute. lia.
  - vm_compute. reflexivity.
  - vm_compute. discriminate.
Defined.

Lemma lsetCommand_in_range c s l n :
  client_dict c s !! key_at c 1 = Some (ListObject l) →
  listIndex l (atoi (sds_ptr (argv_at c 2))) = Some n →
  lsetCommand c s
  = (addReply c shared.ok,
     incr_dirty
       (set_client_dict c s
          (<[key_at c 1 := ListObject (<[n := argv_at c 3]> l)]> (client_dict c s)))).
Proof. intros E H. unfold lsetCommand, dictFind. by rewrite E, H. Qed.

Lemma listIndex_spec {A} (l : list A) (index : Z) :
  let len := Z.of_nat (length l) in
  listIndex l index
  = if (- len <=? index) && (index <? len)
    then Some (Z.to_nat (if index <? 0 then len + index else index))
    else None.
Proof.
  unfold listIndex. cbv zeta.
  destruct (Z.ltb_spec index 0).
  - destruct (Z.leb_spec 0 (Z.of_nat (length l) + index)),
      (Z.leb_spec (- Z.of_nat (length l)) index); try lia; cbn [andb].
    + assert ((Z.of_nat (length l) + index <? Z.of_nat (length l)) = true) as ->
        by (apply Z.ltb_lt; lia).
      assert ((index <? Z.of_nat (length l)) = true) as -> by (apply Z.ltb_lt; lia).
      done.
    + done.
  - destruct (Z.leb_spec 0 index), (Z.leb_spec (- Z.of_nat (length l)) index);
      try lia; cbn [andb]. done.
Qed.

(** X5: LSET writes the element LINDEX reads.  On a key that holds the
    list [l] of length [len], with [i] the [int] the index argument reads
    as: when [-len <= i < len], LSET k i v replies +OK, replaces the
    element at that position ([len+i] for a negative [i]) and keeps the
    length, and LINDEX k i then replies [v]; otherwise LSET replies
    -ERR index out of range and changes nothing, and LINDEX k i replies
    nil. *)
Theorem lset_then_lindex c s l lset lindex k i v :
  (c_dict c < length (s_dict s))%nat →
  client_dict c s !! k = Some (ListObject l) →
  let len := Z.of_nat (length l) in
  let n := Z.to_nat (if atoi i <? 0 then len + atoi i else atoi i) in
  let r1 := call lsetCommand [lset; k; i; v] (c, s) in
  let r2 := call lindexCommand [lindex; k; i] r1 in
  if (- len <=? atoi i) && (atoi i <? len) then
    c_reply r1.1 = c_reply c ++ [shared.ok]
    ∧ client_dict r1.1 r1.2
      = <[k := ListObject (<[n := StringObject v]> l)]> (client_dict c s)
    ∧ c_reply r2.1 = c_reply r1.1 ++ bulk_reply v
    ∧ r2.2 = r1.2
  else
    c_reply r1.1
    = c_reply c ++ [StringObject (sdsnew "-ERR index out of range" ++ crlf_bytes)]
    ∧ r1.2 = s
    ∧ c_reply r2.1 = c_reply r1.1 ++ [shared.nil]
    ∧ r2.2 = s.
Proof.
  intros Hdb Hl len n r1 r2. subst r2 r1.
  pose proof (listIndex_spec l (atoi i)) as Hidx. cbv zeta in Hidx.
  fold len in Hidx. fold n in Hidx.
  destruct ((- len <=? atoi i) && (atoi i <? len)) eqn:Hin.
  - rewrite (call_unfold lsetCommand).
    rewrite (lsetCommand_in_range _ _ l n) by (call_args; done).
    cbn [fst snd]. call_args.
    rewrite client_dict_set_other by done.
    split; [done|]. split; [done|].
    rewrite call_unfold. unfold lindexCommand, dictFind. call_args.
    rewrite client_dict_set_other by done.
    rewrite lookup_insert_eq.
    assert (length (<[n := StringObject v]> l) = length l) as Hlen'
      by apply length_insert.
    pose proof (listIndex_spec (<[n := StringObject v]> l) (atoi i)) as Hidx'.
    cbv zeta in Hidx'. rewrite Hlen' in Hidx'. fold len in Hidx'. fold n in Hidx'.
    rewrite Hin in Hidx'. rewrite Hidx'. cbn [mbind option_bind].
    rewrite list_lookup_insert_eq.
    2:{ apply andb_true_iff in Hin as [H1 H2]. subst n len.
        destruct (Z.ltb_spec (atoi i) 0); lia. }
    cbn [fst snd]. replies. unfold bulk_reply.
    by rewrite <- !app_assoc.
  - rewrite (call_unfold lsetCommand). unfold lsetCommand, dictFind. call_args.
    rewrite Hl, Hidx. cbn [fst snd]. replies.
    split; [done|]. split; [done|].
    rewrite call_unfold. unfold lindexCommand, dictFind. call_args.
    rewrite Hl, Hidx. cbn [mbind option_bind fst snd]. replies. done.
Qed.

Lemma lset_then_lindex_witness :
  let c := list_example_client in
  let s := list_example_server in
  let k := sdsnew "l" in
  let v := sdsnew "x" in
  let r1 := call lsetCommand [sdsnew "lset"; k; sdsnew "-1"; v] (c, s) in
  let r2 := call lindexCommand [sdsnew "lindex"; k; sdsnew "-1"] r1 in
  c_reply r1.1 = c_reply c ++ [shared.ok]
  ∧ client_dict r1.1 r1.2
    = <[k := ListObject [StringObject (sdsnew "a"); StringObject v]]>
        (client_dict c s)
  ∧ c_reply r2.1 = c_reply r1.1 ++ bulk_reply v
  ∧ r2.2 = r1.2.
Proof.
  apply (lset_then_lindex list_example_client list_example_server
           [StringObject (sdsnew "a"); StringObject (sdsnew "b")]
           (sdsnew "lset") (sdsnew "lindex") (sdsnew "l") (sdsnew "-1")
           (sdsnew "x")).
  - vm_compute. lia.
  - vm_compute. reflexivity.
Defined.
(** ** SADD, SREM, SISMEMBER, SCARD *)

Lemma set_client_dict_id c c' s :
  c_dict c' = c_dict c →
  (c_dict c < length (s_dict s))%nat →
  set_client_dict c' s (client_dict c s) = s.
Proof.
  intros Heq Hlt. unfold set_client_dict, client_dict, set_s_dict. rewrite Heq.
  destruct (lookup_lt_is_Some_2 (s_dict s) (c_dict c) Hlt) as [d Hd].
  rewrite Hd. cbn [default]. rewrite list_insert_id by done. by destruct s.
Qed.

Lemma saddCommand_stored c s set :
  (c_dict c < length (s_dict s))%nat →
  stored_set (client_dict c s) (key_at c 1) = Some set →
  saddCommand c s
  = match set !! key_at c 2 with
    | Some _ => (addReply c shared.zero,
                 set_client_dict c s (<[key_at c 1 := SetObject set]> (client_dict c s)))
    | None =>
        (addReply c shared.one,
         incr_dirty
           (set_client_dict c s
              (<[key_at c 1 := SetObject (<[key_at c 2 := argv_at c 2]> set)]>
                 (client_dict c s))))
    end.
Proof.
  intros Hdb. unfold stored_set, saddCommand, dictFind, dictAdd.
  fold (key_at c 2).
  destruct (client_dict c s !! key_at c 1) as [[?|?|set']|] eqn:E; try done.
  - intros [= ->]. destruct (set !! key_at c 2); done.
  - intros [= <-]. rewrite lookup_empty.
    change (DICT_OK =? DICT_OK) with true. cbv iota.
    by rewrite insert_insert_eq.
Qed.

(** X6: SADD adds a member once.  On a key that holds the set [set], or
    on a missing key ([set] empty): SADD k m replies 1 and counts one
    change when [m] is new, replies 0 and counts none when [m] is a member
    already; afterwards the key holds [set] with [m], SISMEMBER k m replies
    1, SCARD k replies the size (one more when [m] was new), and a second
    SADD k m replies 0 and leaves the server exactly as it is. *)
Theorem sadd_adds_once c s set sadd sismember scard k m :
  (c_dict c < length (s_dict s))%nat →
  stored_set (client_dict c s) k = Some set →
  let new := bool_decide (set !! m = None) in
  let set' := if new then <[m := StringObject m]> set else set in
  let r1 := call saddCommand [sadd; k; m] (c, s) in
  c_reply r1.1 = c_reply c ++ [if new then shared.one else shared.zero]
  ∧ s_dirty r1.2 = (if new then to_longlong (s_dirty s + 1) else s_dirty s)
  ∧ client_dict r1.1 r1.2 = <[k := SetObject set']> (client_dict c s)
  ∧ size set' = (if new then S (size set) else size set)
  ∧ call sismemberCommand [sismember; k; m] r1
    = (set_reply r1.1 (c_reply r1.1 ++ [shared.one]), r1.2)
  ∧ call scardCommand [scard; k] r1
    = (set_reply r1.1
         (c_reply r1.1 ++ [StringObject (bulk_header (Z.of_nat (size set')))]),
       r1.2)
  ∧ call saddCommand [sadd; k; m] r1
    = (set_reply r1.1 (c_reply r1.1 ++ [shared.zero]), r1.2).
Proof.
  intros Hdb Hset new set' r1.
  assert (r1 = (resetClient
                  (addReply (set_argv c (StringObject <$> [sadd; k; m]))
                     (if new then shared.one else shared.zero)),
                (if new then incr_dirty else id)
                  (set_client_dict c s (<[k := SetObject set']> (client_dict c s)))))
    as Hr1.
  { subst r1. rewrite call_unfold.
    rewrite (saddCommand_stored _ _ set) by (call_args; done).
    call_args. subst new set'.
    destruct (set !! m) eqn:Em.
    - by rewrite bool_decide_eq_false_2 by done.
    - by rewrite bool_decide_eq_true_2 by done. }
  assert (length (s_dict r1.2) = length (s_dict s)) as Hlen.
  { rewrite Hr1. cbn [snd]. destruct new; [apply store_length|].
    apply set_client_dict_length. }
  assert (client_dict r1.1 r1.2 = <[k := SetObject set']> (client_dict c s)) as Hd.
  { rewrite Hr1. cbn [fst snd]. same_dict. destruct new.
    - by rewrite client_dict_set_other.
    - unfold id. by rewrite client_dict_stored. }
  assert (set' !! m = Some (StringObject m)
          ∨ (new = false ∧ is_Some (set' !! m))) as Hm.
  { subst set' new. destruct (set !! m) eqn:Em.
    - right. rewrite bool_decide_eq_false_2 by done. eauto.
    - left. rewrite bool_decide_eq_true_2 by done. apply lookup_insert_eq. }
  assert (is_Some (set' !! m)) as [e He] by (destruct Hm as [?|[_ ?]]; eauto).
  split; [by rewrite Hr1; destruct new|].
  split; [by rewrite Hr1; destruct new|].
  split; [done|].
  split.
  { subst set' new. destruct (set !! m) eqn:Em.
    - by rewrite bool_decide_eq_false_2 by done.
    - rewrite bool_decide_eq_true_2 by done. by apply map_size_insert_None. }
  destruct r1 as [c1 s1]. cbn [fst snd] in *.
  assert (c_dict c1 < length (s_dict s1))%nat as Hdb1.
  { rewrite Hlen. injection Hr1 as -> _. by same_dict. }
  split; [|split].
  - rewrite call_unfold. unfold sismemberCommand, dictFind. call_args.
    rewrite Hd, lookup_insert_eq, He. cbn [fst snd].
    injection Hr1 as -> _. done.
  - rewrite call_unfold. unfold scardCommand, dictFind. call_args.
    rewrite Hd, lookup_insert_eq. cbn [fst snd].
    injection Hr1 as -> _. done.
  - rewrite call_unfold.
    rewrite (saddCommand_stored _ _ set').
    2:{ by same_dict. }
    2:{ call_args. unfold stored_set. by rewrite Hd, lookup_insert_eq. }
    call_args. rewrite He. cbn [fst snd].
    rewrite Hd, insert_insert_eq, <- Hd.
    rewrite (set_client_dict_id c1) by done.
    injection Hr1 as -> _. done.
Qed.

Lemma sadd_adds_once_witness :
  let c := set_example_client in
  let s := set_example_server in
  let set := sinter_example_set ["a"; "b"] in
  let k := sdsnew "s" in
  let m := sdsnew "c" in
  let set' := <[m := StringObject m]> set in
  let r1 := call saddCommand [sdsnew "sadd"; k; m] (c, s) in
  c_reply r1.1 = c_reply c ++ [shared.one]
  ∧ s_dirty r1.2 = to_longlong (s_dirty s + 1)
  ∧ client_dict r1.1 r1.2 = <[k := SetObject set']> (client_dict c s)
  ∧ size set' = S (size set)
  ∧ call sismemberCommand [sdsnew "sismember"; k; m] r1
    = (set_reply r1.1 (c_reply r1.1 ++ [shared.one]), r1.2)
  ∧ call scardCommand [sdsnew "scard"; k] r1
    = (set_reply r1.1
         (c_reply r1.1 ++ [StringObject (bulk_header (Z.of_nat (size set')))]),
       r1.2)
  ∧ call saddCommand [sdsnew "sadd"; k; m] r1
    = (set_reply r1.1 (c_reply r1.1 ++ [shared.zero]), r1.2).
Proof.
  apply (sadd_adds_once set_example_client set_example_server
           (sinter_example_set ["a"; "b"]) (sdsnew "sadd") (sdsnew "sismember")
           (sdsnew "scard") (sdsnew "s") (sdsnew "c")).
  - vm_compute. lia.
  - vm_compute. reflexivity.
Defined.

(** X7: SREM removes a member and keeps the key.  On a key that holds the
    set [set]: SREM k m replies 1 and counts one change when [m] is a
    member, replies 0 and counts none when it is not; afterwards the key
    holds [set] without [m], also when that is the empty set (EXISTS k
    replies 1), and SISMEMBER k m replies 0. *)
Theorem srem_removes_member c s set srem sismember exists_ k m :
  (c_dict c < length (s_dict s))%nat →
  client_dict c s !! k = Some (SetObject set) →
  let was := bool_decide (is_Some (set !! m)) in
  let r1 := call sremCommand [srem; k; m] (c, s) in
  c_reply r1.1 = c_reply c ++ [if was then shared.one else shared.zero]
  ∧ s_dirty r1.2 = (if was then to_longlong (s_dirty s + 1) else s_dirty s)
  ∧ client_dict r1.1 r1.2 = <[k := SetObject (delete m set)]> (client_dict c s)
  ∧ call sismemberCommand [sismember; k; m] r1
    = (set_reply r1.1 (c_reply r1.1 ++ [shared.zero]), r1.2)
  ∧ call existsCommand [exists_; k] r1
    = (set_reply r1.1 (c_reply r1.1 ++ [shared.one]), r1.2).
Proof.
  intros Hdb Hset was r1.
  assert (r1 = (resetClient
                  (addReply (set_argv c (StringObject <$> [srem; k; m]))
                     (if was then shared.one else shared.zero)),
                if was
                then incr_dirty
                       (set_client_dict c s
                          (<[k := SetObject (delete m set)]> (client_dict c s)))
                else s)) as Hr1.
  { subst r1. rewrite call_unfold. unfold sremCommand, dictFind, dictDelete.
    call_args. rewrite Hset. subst was.
    destruct (set !! m) eqn:Em.
    - by rewrite bool_decide_eq_true_2 by eauto.
    - rewrite bool_decide_eq_false_2 by (by intros [? ?]). done. }
  assert (client_dict r1.1 r1.2
          = <[k := SetObject (delete m set)]> (client_dict c s)) as Hd.
  { rewrite Hr1. cbn [fst snd]. same_dict. subst was.
    destruct (set !! m) eqn:Em.
    - rewrite bool_decide_eq_true_2 by eauto. by rewrite client_dict_set_other.
    - rewrite bool_decide_eq_false_2 by (by intros [? ?]).
      by rewrite delete_id, insert_id. }
  split; [by rewrite Hr1; destruct was|].
  split; [by rewrite Hr1; destruct was|].
  split; [done|].
  destruct r1 as [c1 s1]. cbn [fst snd] in *.
  split.
  - rewrite call_unfold. unfold sismemberCommand, dictFind. call_args.
    rewrite Hd, lookup_insert_eq, lookup_delete_eq. cbn [fst snd].
    injection Hr1 as -> _. done.
  - rewrite call_unfold. unfold existsCommand, dictFind. call_args.
    rewrite Hd, lookup_insert_eq. cbn [fst snd].
    injection Hr1 as -> _. done.
Qed.

Lemma srem_removes_member_witness :
  let c := set_example_client in
  let s := set_example_server in
  let set := sinter_example_set ["a"; "b"] in
  let k := sdsnew "s" in
  let m := sdsnew "a" in
  let r1 := call sremCommand [sdsnew "srem"; k; m] (c, s) in
  c_reply r1.1 = c_reply c ++ [shared.one]
  ∧ s_dirty r1.2 = to_longlong (s_dirty s + 1)
  ∧ client_dict r1.1 r1.2 = <[k := SetObject (delete m set)]> (client_dict c s)
  ∧ call sismemberCommand [sdsnew "sismember"; k; m] r1
    = (set_reply r1.1 (c_reply r1.1 ++ [shared.zero]), r1.2)
  ∧ call existsCommand [sdsnew "exists"; k] r1
    = (set_reply r1.1 (c_reply r1.1 ++ [shared.one]), r1.2).
Proof.
  apply (srem_removes_member set_example_client set_example_server
           (sinter_example_set ["a"; "b"]) (sdsnew "srem") (sdsnew "sismember")
           (sdsnew "exists") (sdsnew "s") (sdsnew "a")).
  - vm_compute. lia.
  - vm_compute. reflexivity.
Defined.
(** ** Keys of another type, keys that are missing *)

(** X8: a command for one type never touches a value of another type.
    When the key holds a value that is not a list, every list command
    replies its error and leaves the server as it is: LPUSH, RPUSH, LSET
    and LTRIM the wrong type error line, LLEN -2, LINDEX, LPOP, RPOP and
    LRANGE the wrong type error as a bulk.  When it is not a set, SADD,
    SREM, SISMEMBER and SCARD reply -2 and SINTER the bulk error.  When it
    is not a string, GET replies the bulk error. *)
Theorem wrong_type_is_refused c s o :
  client_dict c s !! key_at c 1 = Some o →
  (obj_type o ≠ REDIS_LIST →
     lpushCommand c s = (addReply c shared.wrongtypeerr, s)
     ∧ rpushCommand c s = (addReply c shared.wrongtypeerr, s)
     ∧ lsetCommand c s = (addReply c shared.wrongtypeerr, s)
     ∧ ltrimCommand c s = (addReply c shared.wrongtypeerr, s)
     ∧ llenCommand c s = (addReply c shared.minus2, s)
     ∧ lindexCommand c s = (addReply c shared.wrongtypeerrbulk, s)
     ∧ lpopCommand c s = (addReply c shared.wrongtypeerrbulk, s)
     ∧ rpopCommand c s = (addReply c shared.wrongtypeerrbulk, s)
     ∧ lrangeCommand c s = (addReply c shared.wrongtypeerrbulk, s))
  ∧ (obj_type o ≠ REDIS_SET →
       saddCommand c s = (addReply c shared.minus2, s)
       ∧ sremCommand c s = (addReply c shared.minus2, s)
       ∧ sismemberCommand c s = (addReply c shared.minus2, s)
       ∧ scardCommand c s = (addReply c shared.minus2, s)
       ∧ ((1 < length (c_argv c))%nat →
          sinterCommand c s = (addReply c shared.wrongtypeerrbulk, s)))
  ∧ (obj_type o ≠ REDIS_STRING →
       getCommand c s = (addReply c shared.wrongtypeerrbulk, s)).
Proof.
  intros E. split; [|split].
  - intros Ht.
    unfold lpushCommand, rpushCommand, pushGenericCommand, lsetCommand,
      ltrimCommand, llenCommand, lindexCommand, lpopCommand, rpopCommand,
      popGenericCommand, lrangeCommand, dictFind.
    rewrite E. by destruct o.
  - intros Ht.
    unfold saddCommand, sremCommand, sismemberCommand, scardCommand,
      sinterCommand, dictFind.
    rewrite E. destruct o as [v|l|set]; try done.
    + repeat split; try done. intros Hargc.
      destruct (c_argv c) as [|a0 [|a1 args]] eqn:Ea; simpl in Hargc; try lia.
      unfold key_at, argv_at in E. rewrite Ea in E. cbn in E.
      cbn [tail sinter_gather]. unfold dictFind. by rewrite E.
    + repeat split; try done. intros Hargc.
      destruct (c_argv c) as [|a0 [|a1 args]] eqn:Ea; simpl in Hargc; try lia.
      unfold key_at, argv_at in E. rewrite Ea in E. cbn in E.
      cbn [tail sinter_gather]. unfold dictFind. by rewrite E.
  - intros Ht. unfold getCommand, dictFind. rewrite E. by destruct o.
Qed.

Lemma wrong_type_is_refused_witness :
  let s := setnx_example in
  let c := set_argv (createClient 5 s) (StringObject <$> [sdsnew "llen"; sdsnew "k"]) in
  llenCommand c s = (addReply c shared.minus2, s)
  ∧ scardCommand c s = (addReply c shared.minus2, s).
Proof.
  assert (client_dict
            (set_argv (createClient 5 setnx_example)
               (StringObject <$> [sdsnew "llen"; sdsnew "k"]))
            setnx_example
          !! key_at (set_argv (createClient 5 setnx_example)
                       (StringObject <$> [sdsnew "llen"; sdsnew "k"])) 1
          = Some (StringObject (sdsnew "old"))) as E
    by (vm_compute; reflexivity).
  destruct (wrong_type_is_refused
              (set_argv (createClient 5 setnx_example)
                 (StringObject <$> [sdsnew "llen"; sdsnew "k"]))
              setnx_example (StringObject (sdsnew "old")) E)
    as (Hlist & Hset & _).
  split.
  - apply Hlist. discriminate.
  - apply Hset. discriminate.
Defined.

(** X9: a command that reads, pops, trims, removes from or renames a key
    never creates it.  On a missing key each of them leaves the server as
    it is and replies its answer for no key: GET, LINDEX, LPOP, RPOP,
    LRANGE and SINTER reply nil; EXISTS, DEL, LLEN, SREM, SISMEMBER and
    SCARD reply 0; TYPE replies none; LSET, LTRIM and RENAME reply the no
    such key error, RENAMENX -1. *)
Theorem missing_key_is_not_created c s :
  client_dict c s !! key_at c 1 = None →
  getCommand c s = (addReply c shared.nil, s)
  ∧ lindexCommand c s = (addReply c shared.nil, s)
  ∧ lpopCommand c s = (addReply c shared.nil, s)
  ∧ rpopCommand c s = (addReply c shared.nil, s)
  ∧ lrangeCommand c s = (addReply c shared.nil, s)
  ∧ ((1 < length (c_argv c))%nat →
     sinterCommand c s = (addReply c shared.nil, s))
  ∧ existsCommand c s = (addReply c shared.zero, s)
  ∧ delCommand c s = (addReply c shared.zero, s)
  ∧ llenCommand c s = (addReply c shared.zero, s)
  ∧ sremCommand c s = (addReply c shared.zero, s)
  ∧ sismemberCommand c s = (addReply c shared.zero, s)
  ∧ scardCommand c s = (addReply c shared.zero, s)
  ∧ typeCommand c s = (addReply (addReplySds c (sdsnew "none")) shared.crlf, s)
  ∧ lsetCommand c s = (addReply c shared.nokeyerr, s)
  ∧ ltrimCommand c s = (addReply c shared.nokeyerr, s)
  ∧ (key_at c 1 ≠ key_at c 2 →
     renameCommand c s = (addReply c shared.nokeyerr, s)
     ∧ renamenxCommand c s = (addReply c shared.minus1, s)).
Proof.
  intros E.
  unfold getCommand, lindexCommand, lpopCommand, rpopCommand, popGenericCommand,
    lrangeCommand, existsCommand, delCommand, llenCommand, sremCommand,
    sismemberCommand, scardCommand, typeCommand, lsetCommand, ltrimCommand,
    renameCommand, renamenxCommand, renameGenericCommand, dictFind, dictDelete.
  rewrite E. repeat split; try done.
  - intros Hargc. unfold sinterCommand.
    destruct (c_argv c) as [|a0 [|a1 args]] eqn:Ea; simpl in Hargc; try lia.
    unfold key_at, argv_at in E. rewrite Ea in E. cbn in E.
    cbn [tail sinter_gather]. unfold dictFind. by rewrite E.
  - unfold sds_eqb. by rewrite bool_decide_eq_false_2.
  - unfold sds_eqb. by rewrite bool_decide_eq_false_2.
Qed.

Lemma missing_key_is_not_created_witness :
  let s := setnx_example in
  let c := set_argv (createClient 5 s)
             (StringObject <$> [sdsnew "rename"; sdsnew "a"; sdsnew "b"]) in
  getCommand c s = (addReply c shared.nil, s)
  ∧ renameCommand c s = (addReply c shared.nokeyerr, s).
Proof.
  assert (client_dict
            (set_argv (createClient 5 setnx_example)
               (StringObject <$> [sdsnew "rename"; sdsnew "a"; sdsnew "b"]))
            setnx_example
          !! key_at (set_argv (createClient 5 setnx_example)
                       (StringObject <$> [sdsnew "rename"; sdsnew "a"; sdsnew "b"])) 1
          = None) as E
    by (vm_compute; reflexivity).
  destruct (missing_key_is_not_created
              (set_argv (createClient 5 setnx_example)
                 (StringObject <$> [sdsnew "rename"; sdsnew "a"; sdsnew "b"]))
              setnx_example E)
    as (Hget & _ & _ & _ & _ & _ & _ & _ & _ & _ & _ & _ & _ & _ & _ & Hren).
  split; [exact Hget|]. apply Hren. discriminate.
Defined.
(** ** RENAME, RENAMENX, MOVE, SELECT *)

Lemma renameGenericCommand_moves nx c s o :
  key_at c 1 ≠ key_at c 2 →
  client_dict c s !! key_at c 1 = Some o →
  nx = false ∨ client_dict c s !! key_at c 2 = None →
  renameGenericCommand nx c s
  = (addReply c (if nx then shared.one else shared.ok),
     incr_dirty
       (set_client_dict c s
          (delete (key_at c 1) (<[key_at c 2 := o]> (client_dict c s))))).
Proof.
  intros Hne E Hnx. unfold renameGenericCommand, dictFind, dictAdd, dictReplace,
    dictDelete, sds_eqb.
  rewrite bool_decide_eq_false_2 by done. rewrite E.
  destruct (client_dict c s !! key_at c 2) eqn:E2.
  - destruct Hnx as [->|?]; [|done].
    change (DICT_ERR =? DICT_ERR) with true. cbn [andb]. cbv iota.
    rewrite lookup_insert_ne by done. by rewrite E.
  - change (DICT_OK =? DICT_ERR) with false. cbn [andb]. cbv iota.
    rewrite lookup_insert_ne by done. by rewrite E.
Qed.

(** X10: RENAME moves the value to the new key.  With [o] under [src] and
    [dst] another key: RENAME src dst replies +OK, counts one change, and
    afterwards [dst] holds [o] (whatever it held before), [src] is gone and
    every other key is as before.  RENAMENX src dst does the same and
    replies 1 when [dst] is missing; when [dst] exists it replies 0 and
    changes nothing.  With the same key twice RENAME replies an error line
    and RENAMENX -3, and nothing changes. *)
Theorem rename_moves_value c s o rename renamenx src dst :
  (c_dict c < length (s_dict s))%nat →
  client_dict c s !! src = Some o →
  src ≠ dst →
  let moved := delete src (<[dst := o]> (client_dict c s)) in
  let r := call renameCommand [rename; src; dst] (c, s) in
  let rnx := call renamenxCommand [renamenx; src; dst] (c, s) in
  (c_reply r.1 = c_reply c ++ [shared.ok]
   ∧ client_dict r.1 r.2 = moved
   ∧ s_dirty r.2 = to_longlong (s_dirty s + 1))
  ∧ (if bool_decide (is_Some (client_dict c s !! dst))
     then c_reply rnx.1 = c_reply c ++ [shared.zero] ∧ rnx.2 = s
     else c_reply rnx.1 = c_reply c ++ [shared.one]
          ∧ client_dict rnx.1 rnx.2 = moved
          ∧ s_dirty rnx.2 = to_longlong (s_dirty s + 1))
  ∧ moved !! dst = Some o
  ∧ moved !! src = None
  ∧ (∀ k, k ≠ src → k ≠ dst → moved !! k = client_dict c s !! k)
  ∧ (call renameCommand [rename; src; src] (c, s)).2 = s
  ∧ c_reply (call renameCommand [rename; src; src] (c, s)).1
    = c_reply c ++ [StringObject (sdsnew "-ERR src and dest key are the same"
                                  ++ crlf_bytes)]
  ∧ (call renamenxCommand [renamenx; src; src] (c, s)).2 = s
  ∧ c_reply (call renamenxCommand [renamenx; src; src] (c, s)).1
    = c_reply c ++ [shared.minus3].
Proof.
  intros Hdb E Hne moved r rnx. subst r rnx.
  split; [|split].
  - rewrite call_unfold. unfold renameCommand.
    rewrite (renameGenericCommand_moves false _ _ o)
      by (call_args; done || by left).
    cbn [fst snd]. call_args. by rewrite client_dict_set_other.
  - rewrite call_unfold. unfold renamenxCommand.
    destruct (client_dict c s !! dst) as [o'|] eqn:E2.
    + rewrite bool_decide_eq_true_2 by eauto.
      unfold renameGenericCommand, dictFind, dictAdd, sds_eqb. call_args.
      rewrite bool_decide_eq_false_2 by done. rewrite E, E2. done.
    + rewrite bool_decide_eq_false_2 by (by intros [? ?]).
      rewrite (renameGenericCommand_moves true _ _ o)
        by (call_args; done || by right).
      cbn [fst snd]. call_args. by rewrite client_dict_set_other.
  - subst moved. split; [|split; [|split]].
    + rewrite lookup_delete_ne by done. apply lookup_insert_eq.
    + apply lookup_delete_eq.
    + intros k H1 H2. rewrite lookup_delete_ne by done.
      by rewrite lookup_insert_ne.
    + rewrite !call_unfold.
      unfold renameCommand, renamenxCommand, renameGenericCommand, sds_eqb.
      call_args. rewrite bool_decide_eq_true_2 by done. done.
Qed.

Lemma rename_moves_value_witness :
  let s := setnx_example in
  let c := createClient 5 s in
  let src := sdsnew "k" in
  let dst := sdsnew "n" in
  let o := StringObject (sdsnew "old") in
  let moved := delete src (<[dst := o]> (client_dict c s)) in
  let r := call renameCommand [sdsnew "rename"; src; dst] (c, s) in
  c_reply r.1 = c_reply c ++ [shared.ok]
  ∧ client_dict r.1 r.2 = moved
  ∧ s_dirty r.2 = to_longlong (s_dirty s + 1).
Proof.
  assert (client_dict (createClient 5 setnx_example) setnx_example !! sdsnew "k"
          = Some (StringObject (sdsnew "old"))) as E
    by (vm_compute; reflexivity).
  assert (c_dict (createClient 5 setnx_example) < length (s_dict setnx_example))%nat
    as Hdb by (vm_compute; lia).
  assert (sdsnew "k" ≠ sdsnew "n") as Hne by discriminate.
  exact (proj1 (rename_moves_value (createClient 5 setnx_example) setnx_example
                  (StringObject (sdsnew "old")) (sdsnew "rename")
                  (sdsnew "renamenx") (sdsnew "k") (sdsnew "n") Hdb E Hne)).
Defined.

(** X11: MOVE takes a key to another database.  With [target] the [int]
    the database argument reads as: an index outside [0, dbnum) draws -4,
    the database the client has selected -3, a key that is missing in the
    selected database or present in the target one 0, and in all these
    cases nothing changes.  Otherwise MOVE replies 1 and counts one change;
    the key leaves the selected database and enters the target one with its
    value, and every other database is as before.  The client keeps the
    database it had selected. *)
Theorem move_key c s move k db :
  (c_dict c < length (s_dict s))%nat →
  let target := atoi db in
  let r := call moveCommand [move; k; db] (c, s) in
  c_dict r.1 = c_dict c
  ∧ if (target <? 0) || (target >=? dbnum s) then
      c_reply r.1 = c_reply c ++ [shared.minus4] ∧ r.2 = s
    else if bool_decide (c_dict c = Z.to_nat target) then
      c_reply r.1 = c_reply c ++ [shared.minus3] ∧ r.2 = s
    else
      match client_dict c s !! k, db_at s (Z.to_nat target) !! k with
      | Some o, None =>
          c_reply r.1 = c_reply c ++ [shared.one]
          ∧ s_dirty r.2 = to_longlong (s_dirty s + 1)
          ∧ db_at r.2 (c_dict c) = delete k (client_dict c s)
          ∧ db_at r.2 (Z.to_nat target) = <[k := o]> (db_at s (Z.to_nat target))
          ∧ ∀ j, j ≠ c_dict c → j ≠ Z.to_nat target →
                 s_dict r.2 !! j = s_dict s !! j
      | _, _ => c_reply r.1 = c_reply c ++ [shared.zero] ∧ r.2 = s
      end.
Proof.
  intros Hdb target r. subst r. rewrite call_unfold.
  unfold moveCommand, selectDb. call_args. fold target.
  destruct ((target <? 0) || (target >=? dbnum s)) eqn:Hrange.
  { done. }
  change (REDIS_OK =? REDIS_ERR) with false. cbv iota.
  cbn [c_dict set_c_dict].
  destruct (bool_decide (c_dict c = Z.to_nat target)) eqn:Hsame.
  { done. }
  apply bool_decide_eq_false_1 in Hsame.
  apply orb_false_iff in Hrange as [H1 H2]. unfold dbnum in H2.
  assert (Z.to_nat target < length (s_dict s))%nat as Hdst by lia.
  unfold dictFind, dictAdd, dictDelete.
  change (client_dict (set_c_dict ?c ?j) ?s) with (db_at s j).
  destruct (client_dict c s !! k) as [o|] eqn:E; [|done].
  destruct (db_at s (Z.to_nat target) !! k) eqn:E2; [done|].
  change (DICT_OK =? DICT_ERR) with false. cbv iota.
  assert (client_dict c
            (set_client_dict
               (set_c_dict (set_argv c [StringObject move; StringObject k; StringObject db])
                  (Z.to_nat target))
               s (<[k := o]> (db_at s (Z.to_nat target))))
          = client_dict c s) as Hsrc.
  { unfold client_dict, set_client_dict. cbn [s_dict set_s_dict c_dict set_c_dict].
    by rewrite list_lookup_insert_ne. }
  rewrite Hsrc, E. cbn [fst snd]. replies.
  split; [done|]. split; [done|]. split; [done|].
  unfold db_at, incr_dirty, set_dirty, set_client_dict.
  cbn [s_dict set_s_dict c_dict set_c_dict set_argv].
  split; [|split].
  - rewrite list_lookup_insert_eq by (by rewrite length_insert). done.
  - rewrite list_lookup_insert_ne by done.
    rewrite list_lookup_insert_eq by done. done.
  - intros j Hj1 Hj2. by rewrite !list_lookup_insert_ne.
Qed.

Lemma move_key_witness :
  let s := round_trip_example in
  let c := createClient 5 s in
  let r := call moveCommand [sdsnew "move"; sdsnew "foo"; sdsnew "1"] (c, s) in
  (c_dict c < length (s_dict s))%nat
  ∧ c_reply r.1 = c_reply c ++ [shared.one]
  ∧ db_at r.2 1 = {[sdsnew "foo" := StringObject (sdsnew "bar")]}.
Proof.
  assert (c_dict (createClient 5 round_trip_example)
          < length (s_dict round_trip_example))%nat as Hdb by (vm_compute; lia).
  pose proof (move_key (createClient 5 round_trip_example) round_trip_example
                (sdsnew "move") (sdsnew "foo") (sdsnew "1") Hdb) as [_ W].
  cbv zeta in W.
  change (atoi (sdsnew "1")) with 1 in W.
  change ((1 <? 0) || (1 >=? dbnum round_trip_example)) with false in W.
  cbv iota in W.
  rewrite bool_decide_eq_false_2 in W by (vm_compute; lia).
  assert (client_dict (createClient 5 round_trip_example) round_trip_example
          !! sdsnew "foo" = Some (StringObject (sdsnew "bar"))) as E
    by (vm_compute; reflexivity).
  assert (db_at round_trip_example (Z.to_nat 1) !! sdsnew "foo" = None) as E2
    by (vm_compute; reflexivity).
  rewrite E, E2 in W. destruct W as (W1 & _ & _ & W2 & _).
  split; [exact Hdb|]. split; [exact W1|].
  cbv zeta. change 1%nat with (Z.to_nat 1). rewrite W2.
  vm_compute. reflexivity.
Defined.

Lemma getCommand_reply c s :
  getCommand c s
  = (set_reply c (c_reply c ++ get_reply (client_dict c s !! key_at c 1)), s).
Proof.
  unfold getCommand, dictFind, get_reply.
  destruct (client_dict c s !! key_at c 1) as [o|]; [|done].
  destruct (obj_type o =? REDIS_STRING); [|done].
  cbn [negb]. exact (f_equal (λ x, (x, s)) (addReplyBulk_items c o)).
Qed.

Lemma selectCommand_valid c s :
  let id := atoi (sds_ptr (argv_at c 1)) in
  0 <= id < dbnum s →
  selectCommand c s = Alive (addReply (set_c_dict c (Z.to_nat id)) shared.ok) s.
Proof.
  intros id Hid. unfold selectCommand, selectDb. fold id.
  assert ((id <? 0) || (id >=? dbnum s) = false) as ->.
  { apply orb_false_iff. split; lia. }
  done.
Qed.

Lemma call_proc_select cs args :
  let c0 := set_argv cs.1 (StringObject <$> args) in
  0 <= atoi (key_at c0 1) < dbnum cs.2 →
  call_proc selectCommand args cs
  = Alive (resetClient
             (addReply (set_c_dict c0 (Z.to_nat (atoi (key_at c0 1)))) shared.ok))
      cs.2.
Proof.
  intros c0 Hid. unfold call_proc. fold c0.
  by rewrite selectCommand_valid.
Qed.

(** X12: the databases are separate key spaces.  With [i] and [j] two
    different valid indices: SELECT i, SET k v and SELECT j all return
    and reply +OK, and GET k then replies what database [j] holds under
    [k], not [v]; database [i] holds [v] under [k] and every other
    database is as before.  For an index outside [0, dbnum) the command
    selects nothing and hands its error line to [addReplySds] as a C
    string literal: from there on no behaviour is given. *)
Theorem select_separates_databases c s select set get i j k v :
  let ni := atoi i in
  let nj := atoi j in
  0 <= ni < dbnum s →
  0 <= nj < dbnum s →
  ni ≠ nj →
  (∃ c1 c3,
     call_proc selectCommand [select; i] (c, s) = Alive c1 s
     ∧ let r2 := call setCommand [set; k; v] (c1, s) in
       call_proc selectCommand [select; j] r2 = Alive c3 r2.2
       ∧ let r4 := call getCommand [get; k] (c3, r2.2) in
         c_reply r4.1
         = c_reply c ++ [shared.ok; shared.ok; shared.ok]
           ++ get_reply (db_at s (Z.to_nat nj) !! k)
         ∧ db_at r4.2 (Z.to_nat ni)
           = <[k := StringObject v]> (db_at s (Z.to_nat ni))
         ∧ (∀ m, m ≠ Z.to_nat ni → s_dict r4.2 !! m = s_dict s !! m)
         ∧ c_dict r4.1 = Z.to_nat nj)
  ∧ ∀ bad, atoi bad < 0 ∨ dbnum s <= atoi bad →
      call_proc selectCommand [select; bad] (c, s) = Undefined.
Proof.
  intros ni nj Hi Hj Hne. split.
  2:{ intros bad Hbad. unfold call_proc, selectCommand, selectDb.
      cbn [fst snd]. call_args.
      assert ((atoi bad <? 0) || (atoi bad >=? dbnum s) = true) as ->.
      { apply orb_true_iff. destruct Hbad; [left|right]; lia. }
      done. }
  set (c1 := resetClient
               (addReply (set_c_dict (set_argv c (StringObject <$> [select; i]))
                            (Z.to_nat ni)) shared.ok)).
  set (r2 := call setCommand [set; k; v] (c1, s)).
  set (c3 := resetClient
               (addReply (set_c_dict (set_argv r2.1 (StringObject <$> [select; j]))
                            (Z.to_nat nj)) shared.ok)).
  exists c1, c3.
  assert (Z.to_nat ni < length (s_dict s))%nat as Hli by (unfold dbnum in *; lia).
  assert (Z.to_nat nj < length (s_dict s))%nat as Hlj by (unfold dbnum in *; lia).
  set (s2 := incr_dirty
               (set_s_dict s (<[Z.to_nat ni := <[k := StringObject v]>
                                                 (db_at s (Z.to_nat ni))]> (s_dict s)))).
  assert (r2.2 = s2 ∧ c_dict r2.1 = Z.to_nat ni
          ∧ c_reply r2.1 = c_reply c ++ [shared.ok; shared.ok]) as (Hs2 & Hc2 & Hp2).
  { unfold r2. rewrite call_unfold. unfold setCommand.
    rewrite setGenericCommand_installs by by left.
    cbn [fst snd]. call_args. split; [done|]. split; [done|].
    replies. unfold c1. replies. by rewrite <- app_assoc. }
  assert (dbnum r2.2 = dbnum s) as Hnum.
  { rewrite Hs2. unfold s2, dbnum. cbn. by rewrite length_insert. }
  split.
  { rewrite call_proc_select by (call_args; cbn [fst snd]; fold ni; lia).
    cbn [fst snd]. call_args. reflexivity. }
  cbv zeta. fold r2. split.
  { rewrite call_proc_select by (call_args; fold nj; rewrite Hnum; lia).
    call_args. reflexivity. }
  assert (c_dict c3 = Z.to_nat nj
          ∧ c_reply c3 = c_reply c ++ [shared.ok; shared.ok; shared.ok])
    as (Hc3 & Hp3).
  { split; [done|]. unfold c3. replies. rewrite Hp2. by rewrite <- app_assoc. }
  assert (s_dict s2 !! Z.to_nat nj = s_dict s !! Z.to_nat nj) as Hother.
  { unfold s2. cbn. rewrite list_lookup_insert_ne; [done|]. lia. }
  rewrite call_unfold, getCommand_reply. cbn [fst snd]. rewrite Hs2.
  split; [|split; [|split]].
  - call_args. replies.
    rewrite Hp3, <- app_assoc. do 2 f_equal.
    unfold client_dict, db_at. by rewrite Hc3, Hother.
  - unfold db_at at 1, s2. cbn. by rewrite list_lookup_insert_eq.
  - intros m Hm. unfold s2. cbn. by rewrite list_lookup_insert_ne.
  - by same_dict.
Qed.

Lemma select_separates_databases_witness :
  let s := round_trip_example in
  let c := createClient 5 s in
  0 <= atoi (sdsnew "2") < dbnum s
  ∧ 0 <= atoi (sdsnew "0") < dbnum s
  ∧ ∃ c1 c3,
      call_proc selectCommand [sdsnew "select"; sdsnew "2"] (c, s) = Alive c1 s
      ∧ let r2 := call setCommand [sdsnew "set"; sdsnew "foo"; sdsnew "x"] (c1, s) in
        call_proc selectCommand [sdsnew "select"; sdsnew "0"] r2 = Alive c3 r2.2
        ∧ let r4 := call getCommand [sdsnew "get"; sdsnew "foo"] (c3, r2.2) in
          c_reply r4.1
          = c_reply c ++ [shared.ok; shared.ok; shared.ok]
            ++ get_reply (db_at s (Z.to_nat (atoi (sdsnew "0"))) !! sdsnew "foo")
          ∧ c_dict r4.1 = Z.to_nat (atoi (sdsnew "0")).
Proof.
  assert (0 <= atoi (sdsnew "2") < dbnum round_trip_example) as Hi
    by (vm_compute; split; [discriminate|reflexivity]).
  assert (0 <= atoi (sdsnew "0") < dbnum round_trip_example) as Hj
    by (vm_compute; split; [discriminate|reflexivity]).
  assert (atoi (sdsnew "2") ≠ atoi (sdsnew "0")) as Hne by (vm_compute; discriminate).
  destruct (select_separates_databases (createClient 5 round_trip_example)
              round_trip_example (sdsnew "select") (sdsnew "set") (sdsnew "get")
              (sdsnew "2") (sdsnew "0") (sdsnew "foo") (sdsnew "x") Hi Hj Hne)
    as [(c1 & c3 & W1 & W2 & W3 & _ & _ & W4) _].
  split; [exact Hi|]. split; [exact Hj|].
  exists c1, c3. split; [exact W1|]. split; [exact W2|]. split; [exact W3|exact W4].
Defined.
(** ** What a command may do to the server *)

Lemma touches_same c s : touches c s s.
Proof. by left. Qed.

Lemma touches_store c s d : touches c s (incr_dirty (set_client_dict c s d)).
Proof. right. by exists d. Qed.

Ltac touch_cases :=
  cbv zeta;
  repeat match goal with
         | |- context [match ?x with _ => _ end] => destruct x
         | |- context [if ?x then _ else _] => destruct x
         end;
  cbn [snd]; first [left; reflexivity | right; eexists; split; reflexivity].

Lemma saddCommand_touches c s : touches c s (saddCommand c s).2.
Proof.
  unfold saddCommand, dictFind, dictAdd.
  destruct (client_dict c s !! key_at c 1) as [[?|?|set]|] eqn:E;
    cbn [snd]; try apply touches_same.
  - destruct (set !! sds_ptr (argv_at c 2)).
    + change (DICT_ERR =? DICT_OK) with false. cbv iota. cbn [snd]. left.
      unfold set_client_dict, client_dict in *. cbn [s_dict set_s_dict].
      rewrite insert_id by done.
      destruct (s_dict s !! c_dict c) as [d|] eqn:Ed.
      * by rewrite list_insert_id.
      * apply list_insert_ge. by apply lookup_ge_None.
    + apply touches_store.
  - rewrite lookup_empty. apply touches_store.
Qed.

Lemma table_procs_touch :
  Forall (λ p, p.1 ≠ sdsnew "move" → ∀ c s, touches c s (p.2 c s).2) table_procs.
Proof.
  unfold table_procs.
  repeat (apply Forall_cons_2; [cbn [fst snd]; intros Hname c s|]);
    [..|apply Forall_nil_2]; try done.
  all: try apply saddCommand_touches.
  all: try (unfold getCommand, setCommand, setnxCommand, setGenericCommand,
      delCommand, existsCommand, incrCommand, decrCommand, incrbyCommand,
      decrbyCommand, incrDecrCommand, rpushCommand, lpushCommand,
      pushGenericCommand, rpopCommand, lpopCommand, popGenericCommand,
      llenCommand, lindexCommand, lsetCommand, lrangeCommand, ltrimCommand,
      sremCommand, sismemberCommand, scardCommand, sinterCommand,
      randomkeyCommand, renameCommand, renamenxCommand,
      renameGenericCommand, dbsizeCommand, pingCommand,
      echoCommand, lastsaveCommand, typeCommand,
      bgsaveCommand, saveDbBackground, dictFind, dictAdd,
      dictReplace, dictDelete; touch_cases).
  unfold saveCommand. pose proof (saveDb_dict s) as Hsave.
  destruct (saveDb s) as [retval s']. cbn [snd] in Hsave.
  destruct (retval =? REDIS_OK); by left.
Qed.

Lemma table_procs_elem name f :
  (name, f) ∈ table_procs → name ≠ sdsnew "move" →
  ∀ c s, touches c s (f c s).2.
Proof.
  intros Hin. exact (proj1 (Forall_forall _ _) table_procs_touch (name, f) Hin).
Qed.

(** Every entry of the command table is SHUTDOWN, SELECT, KEYS, the entry
    that ends the table, or one of the procedures above, under its name. *)
Lemma cmdTable_procs :
  Forall (λ cmd, (cmd_name cmd = sdsnew "shutdown" ∧ cmd_proc cmd = shutdownCommand)
                 ∨ (cmd_name cmd = sdsnew "select" ∧ cmd_proc cmd = selectCommand)
                 ∨ (cmd_name cmd = sdsnew "keys" ∧ cmd_proc cmd = keysCommand)
                 ∨ cmd_proc cmd = null_proc
                 ∨ ∃ f, cmd_proc cmd = returns f
                        ∧ (cmd_name cmd, f) ∈ table_procs) cmdTable.
Proof.
  unfold cmdTable.
  repeat (apply Forall_cons_2;
          [first [left; split; reflexivity
                 |right; left; split; reflexivity
                 |right; right; left; split; reflexivity
                 |right; right; right; left; reflexivity
                 |right; right; right; right; eexists; split; [reflexivity|];
                  unfold table_procs; cbn [cmd_name];
                  repeat first [apply list_elem_of_here
                               |apply list_elem_of_further]]|]).
  apply Forall_nil_2.
Qed.

(** A procedure of the table that returns is SHUTDOWN after a save that
    failed, SELECT or KEYS, which leave the server alone, or one of the
    procedures above. *)
Lemma cmdTable_proc_cases cmd c s c' s' :
  cmd ∈ cmdTable →
  cmd_proc cmd c s = Alive c' s' →
  (cmd_name cmd = sdsnew "shutdown" ∧ s_dict s' = s_dict s)
  ∨ (cmd_name cmd ≠ sdsnew "shutdown" ∧ s' = s)
  ∨ ∃ f, (cmd_name cmd, f) ∈ table_procs ∧ (c', s') = f c s.
Proof.
  intros Hin Hrun.
  destruct (proj1 (Forall_forall _ _) cmdTable_procs cmd Hin)
    as [[Hname Hproc]|[[Hname Hproc]|[[Hname Hproc]|[Hproc|(f & Hproc & Hf)]]]].
  - left. split; [done|]. rewrite Hproc in Hrun.
    unfold shutdownCommand in Hrun.
    pose proof (saveDb_dict s) as Hsave.
    destruct (saveDb s) as [retval s1]. cbn [snd] in Hsave.
    destruct (retval =? REDIS_OK); [done|].
    injection Hrun as _ <-. done.
  - right. left. split; [by rewrite Hname|]. rewrite Hproc in Hrun.
    by destruct (selectCommand_returns _ _ _ _ Hrun).
  - right. left. split; [by rewrite Hname|]. rewrite Hproc in Hrun.
    by destruct (keysCommand_returns _ _ _ _ Hrun).
  - by rewrite Hproc in Hrun.
  - right. right. exists f. split; [done|]. rewrite Hproc in Hrun.
    unfold returns in Hrun. injection Hrun as <- <-. by destruct (f c s).
Qed.

Lemma moveCommand_counted c s :
  s_dict (moveCommand c s).2 = s_dict s
  ∨ s_dirty (moveCommand c s).2 = to_longlong (s_dirty s + 1).
Proof.
  unfold moveCommand, selectDb, dictFind, dictAdd, dictDelete. cbv zeta.
  repeat match goal with
         | |- context [match ?x with _ => _ end] => destruct x
         | |- context [if ?x then _ else _] => destruct x
         end;
    cbn [snd]; first [left; reflexivity | right; reflexivity].
Qed.

Lemma read_procs_keep :
  Forall (λ p, p.1 ∈ read_commands → ∀ c s, (p.2 c s).2 = s) table_procs.
Proof.
  unfold table_procs.
  repeat (apply Forall_cons_2; [cbn [fst snd]; intros Hname c s|]);
    [..|apply Forall_nil_2].
  all: try (exfalso; revert Hname;
            match goal with
            | |- ?P → False => apply (bool_decide_eq_false_1 P)
            end; vm_compute; reflexivity).
  all: unfold getCommand, existsCommand, llenCommand, lindexCommand,
      lrangeCommand, sismemberCommand, scardCommand, sinterCommand,
      randomkeyCommand, dbsizeCommand,
      pingCommand, echoCommand, lastsaveCommand, typeCommand, dictFind;
    cbv zeta;
    repeat match goal with
           | |- context [match ?x with _ => _ end] => destruct x
           | |- context [if ?x then _ else _] => destruct x
           end;
    reflexivity.
Qed.

(** X13: a command that reads changes nothing.  GET, EXISTS, LLEN, LINDEX,
    LRANGE, SISMEMBER, SCARD, SINTER, SMEMBERS, RANDOMKEY, SELECT, KEYS,
    DBSIZE, PING, ECHO, LASTSAVE and TYPE, when they return, leave the
    server exactly as it is, whatever their arguments and whatever the
    keys hold: databases, change counter, save state. *)
Theorem read_commands_change_nothing cmd c s c' s' :
  cmd ∈ cmdTable →
  cmd_name cmd ∈ read_commands →
  cmd_proc cmd c s = Alive c' s' →
  s' = s.
Proof.
  intros Hin Hread Hrun.
  destruct (cmdTable_proc_cases cmd c s c' s' Hin Hrun)
    as [[Hname _]|[[_ Hsame]|(f & Hf & Heq)]].
  - exfalso. rewrite Hname in Hread. revert Hread.
    apply (bool_decide_eq_false_1 (sdsnew "shutdown" ∈ read_commands)).
    vm_compute. reflexivity.
  - exact Hsame.
  - pose proof (proj1 (Forall_forall _ _) read_procs_keep _ Hf Hread c s) as Hs.
    cbn [snd] in Hs. by rewrite <- Heq in Hs.
Qed.

(** X14: no change goes uncounted.  Whatever command of the table runs
    and returns, with whatever arguments: if the databases are not the
    same afterwards, the change counter [dirty], which the cron compares
    with the save rules, went up by one ([long long] arithmetic). *)
Theorem changes_are_counted cmd c s c' s' :
  cmd ∈ cmdTable →
  cmd_proc cmd c s = Alive c' s' →
  s_dict s' ≠ s_dict s →
  s_dirty s' = to_longlong (s_dirty s + 1).
Proof.
  intros Hin Hrun Hchanged.
  destruct (cmdTable_proc_cases cmd c s c' s' Hin Hrun)
    as [[_ Hsame]|[[_ Hsame]|(f & Hf & Heq)]]; [done|by subst|].
  destruct (decide (cmd_name cmd = sdsnew "move")) as [Hmove|Hother].
  - assert (f = moveCommand) as ->.
    { rewrite Hmove in Hf. unfold table_procs in Hf.
      repeat match goal with
             | H : _ ∈ _ :: _ |- _ => apply elem_of_cons in H as [H|H]
             | H : _ ∈ [] |- _ => by apply elem_of_nil in H
             | H : (_, _) = (_, _) |- _ => by injection H
             end. }
    destruct (moveCommand_counted c s) as [H|H];
      rewrite <- Heq in H; cbn [snd] in H; done.
  - destruct (table_procs_elem _ f Hf Hother c s) as [H|(d & _ & H)];
      rewrite <- Heq in H; cbn [snd] in H; done.
Qed.

(** X15: a command works on the selected database only.  Whatever command
    of the table other than MOVE runs and returns, every database but the
    one the client has selected is the same afterwards, and the number of
    databases never changes. *)
Theorem commands_stay_in_selected_database cmd c s c' s' :
  cmd ∈ cmdTable →
  cmd_name cmd ≠ sdsnew "move" →
  cmd_proc cmd c s = Alive c' s' →
  length (s_dict s') = length (s_dict s)
  ∧ ∀ j, j ≠ c_dict c → s_dict s' !! j = s_dict s !! j.
Proof.
  intros Hin Hother Hrun.
  destruct (cmdTable_proc_cases cmd c s c' s' Hin Hrun)
    as [[_ Hsame]|[[_ Hsame]|(f & Hf & Heq)]].
  - by rewrite Hsame.
  - by rewrite Hsame.
  - destruct (table_procs_elem _ f Hf Hother c s) as [H|(d & H & _)];
      rewrite <- Heq in H; cbn [snd] in H; rewrite H; [done|].
    split; [apply length_insert|].
    intros j Hj. by rewrite list_lookup_insert_ne.
Qed.

Lemma read_commands_change_nothing_witness :
  let s := setnx_example in
  let c := set_argv (createClient 5 s) (StringObject <$> [sdsnew "get"; sdsnew "k"]) in
  get_entry ∈ cmdTable
  ∧ cmd_name get_entry ∈ read_commands
  ∧ (getCommand c s).2 = s.
Proof.
  assert (get_entry ∈ cmdTable) as Hin by apply list_elem_of_here.
  assert (cmd_name get_entry ∈ read_commands) as Hread by apply list_elem_of_here.
  split; [exact Hin|]. split; [exact Hread|].
  apply (read_commands_change_nothing get_entry
           (set_argv (createClient 5 setnx_example)
              (StringObject <$> [sdsnew "get"; sdsnew "k"]))
           setnx_example
           (getCommand (set_argv (createClient 5 setnx_example)
                          (StringObject <$> [sdsnew "get"; sdsnew "k"]))
              setnx_example).1 _ Hin Hread).
  unfold get_entry, returns. cbn [cmd_proc]. reflexivity.
Defined.

Lemma changes_are_counted_witness :
  let s := empty_line_server in
  let c := set_example_args in
  set_entry ∈ cmdTable
  ∧ s_dict (setCommand c s).2 ≠ s_dict s
  ∧ s_dirty (setCommand c s).2 = to_longlong (s_dirty s + 1).
Proof.
  assert (set_entry ∈ cmdTable) as Hin
    by apply list_elem_of_further, list_elem_of_here.
  assert (s_dict (setCommand set_example_args empty_line_server).2
          ≠ s_dict empty_line_server) as Hchanged.
  { intros H. apply (f_equal (λ l, default ∅ (l !! 0%nat) !! sdsnew "k")) in H.
    vm_compute in H. discriminate. }
  split; [exact Hin|]. split; [exact Hchanged|].
  apply (changes_are_counted set_entry set_example_args empty_line_server
           (setCommand set_example_args empty_line_server).1 _ Hin);
    [|exact Hchanged].
  unfold set_entry, returns. cbn [cmd_proc]. reflexivity.
Defined.

Lemma commands_stay_in_selected_database_witness :
  let s := empty_line_server in
  let c := set_example_args in
  set_entry ∈ cmdTable
  ∧ cmd_name set_entry ≠ sdsnew "move"
  ∧ length (s_dict (setCommand c s).2) = length (s_dict s)
  ∧ ∀ j, j ≠ c_dict c → s_dict (setCommand c s).2 !! j = s_dict s !! j.
Proof.
  assert (set_entry ∈ cmdTable) as Hin
    by apply list_elem_of_further, list_elem_of_here.
  assert (cmd_name set_entry ≠ sdsnew "move") as Hname by discriminate.
  split; [exact Hin|]. split; [exact Hname|].
  apply (commands_stay_in_selected_database set_entry set_example_args
           empty_line_server
           (setCommand set_example_args empty_line_server).1 _ Hin Hname).
  unfold set_entry, returns. cbn [cmd_proc]. reflexivity.
Defined.
(** ** Counters *)

Lemma to_longlong_add x y : to_longlong (to_longlong x + y) = to_longlong (x + y).
Proof.
  unfold to_longlong, to_signed.
  replace ((x + 2 ^ (64 - 1)) mod 2 ^ 64 - 2 ^ (64 - 1) + y + 2 ^ (64 - 1))
    with ((x + 2 ^ (64 - 1)) mod 2 ^ 64 + y) by lia.
  rewrite Zplus_mod_idemp_l. f_equal. f_equal. lia.
Qed.

Lemma incr_current_stored d k v :
  LLONG_MIN <= v <= LLONG_MAX →
  incr_current (<[k := StringObject (fmt_lld v)]> d) k = v.
Proof.
  intros Hv. unfold incr_current, dictFind. rewrite lookup_insert_eq.
  cbn. by apply strtoll_fmt_lld.
Qed.

Lemma incrDecrCommand_call incr c s args :
  (c_dict c < length (s_dict s))%nat →
  let c0 := set_argv c args in
  let v := to_longlong (incr_current (client_dict c s) (key_at c0 1) + incr) in
  let r := (resetClient (incrDecrCommand incr c0 s).1, (incrDecrCommand incr c0 s).2) in
  c_reply r.1 = c_reply c ++ [StringObject (fmt_lld v); shared.crlf]
  ∧ client_dict r.1 r.2 = <[key_at c0 1 := StringObject (fmt_lld v)]> (client_dict c s)
  ∧ (c_dict r.1 < length (s_dict r.2))%nat
  ∧ s_dirty r.2 = to_longlong (s_dirty s + 1).
Proof.
  intros Hdb c0 v r. subst r. rewrite incrDecrCommand_result.
  unfold incr_result. cbn [fst snd]. subst c0. same_dict. fold v.
  split; [|split; [|split]].
  - replies. by rewrite <- app_assoc.
  - by rewrite client_dict_set_other.
  - by rewrite store_length.
  - done.
Qed.

(** X16: the counter commands add up.  Whatever the key holds, with [cur]
    the number it reads as: INCRBY k a followed by INCRBY k b stores and
    replies the decimal form of [cur + a + b] in 64-bit two's complement
    ([a], [b] the [int] values of the arguments), and GET k then replies
    that string; INCRBY k a followed by DECRBY k a gives back [cur], unless
    [a] is the least [int], whose negation is itself. *)
Theorem counters_add_up c s incrby decrby get k a b :
  (c_dict c < length (s_dict s))%nat →
  let cur := incr_current (client_dict c s) k in
  let v1 := to_longlong (cur + atoi a) in
  let v2 := to_longlong (cur + atoi a + atoi b) in
  let r1 := call incrbyCommand [incrby; k; a] (c, s) in
  let r2 := call incrbyCommand [incrby; k; b] r1 in
  let r3 := call getCommand [get; k] r2 in
  let u2 := call decrbyCommand [decrby; k; a] r1 in
  c_reply r2.1
  = c_reply c ++ [StringObject (fmt_lld v1); shared.crlf;
                  StringObject (fmt_lld v2); shared.crlf]
  ∧ client_dict r2.1 r2.2 = <[k := StringObject (fmt_lld v2)]> (client_dict c s)
  ∧ c_reply r3.1 = c_reply r2.1 ++ bulk_reply (fmt_lld v2)
  ∧ (atoi a ≠ INT_MIN →
     client_dict u2.1 u2.2 = <[k := StringObject (fmt_lld cur)]> (client_dict c s)
     ∧ c_reply u2.1
       = c_reply c ++ [StringObject (fmt_lld v1); shared.crlf;
                       StringObject (fmt_lld cur); shared.crlf]).
Proof.
  intros Hdb cur v1 v2 r1 r2 r3 u2.
  assert (LLONG_MIN <= cur <= LLONG_MAX) as Hcur.
  { unfold cur, incr_current, dictFind.
    destruct (client_dict c s !! k) as [o|];
      [destruct (negb _)|]; try apply strtoll_range;
      unfold LLONG_MIN, LLONG_MAX; lia. }
  destruct (incrDecrCommand_call (atoi a) c s (StringObject <$> [incrby; k; a]) Hdb)
    as (Hp1 & Hd1 & Hl1 & _).
  change (key_at (set_argv c (StringObject <$> [incrby; k; a])) 1) with k in *.
  fold cur in Hp1, Hd1. fold v1 in Hp1, Hd1.
  assert (r1 = (resetClient (incrDecrCommand (atoi a)
                               (set_argv c (StringObject <$> [incrby; k; a])) s).1,
                (incrDecrCommand (atoi a)
                   (set_argv c (StringObject <$> [incrby; k; a])) s).2)) as Hr1.
  { subst r1. by rewrite call_unfold. }
  rewrite <- Hr1 in Hp1, Hd1, Hl1.
  destruct r1 as [c1 s1]. cbn [fst snd] in *.
  assert (incr_current (client_dict c1 s1) k = v1) as Hcur1.
  { rewrite Hd1. apply incr_current_stored, to_longlong_range. }
  destruct (incrDecrCommand_call (atoi b) c1 s1 (StringObject <$> [incrby; k; b]) Hl1)
    as (Hp2 & Hd2 & Hl2 & _).
  change (key_at (set_argv c1 (StringObject <$> [incrby; k; b])) 1) with k in *.
  rewrite Hcur1 in Hp2, Hd2. unfold v1 in Hp2, Hd2 at 1.
  rewrite to_longlong_add in Hp2, Hd2. fold v2 in Hp2, Hd2.
  assert (r2 = (resetClient (incrDecrCommand (atoi b)
                               (set_argv c1 (StringObject <$> [incrby; k; b])) s1).1,
                (incrDecrCommand (atoi b)
                   (set_argv c1 (StringObject <$> [incrby; k; b])) s1).2)) as Hr2.
  { subst r2. by rewrite call_unfold. }
  rewrite <- Hr2 in Hp2, Hd2, Hl2.
  split; [|split; [|split]].
  - rewrite Hp2, Hp1, <- app_assoc. done.
  - by rewrite Hd2, Hd1, insert_insert_eq.
  - subst r3. destruct r2 as [c2 s2]. cbn [fst snd] in *.
    rewrite call_unfold. erewrite getCommand_string.
    2:{ call_args. rewrite Hd2. apply lookup_insert_eq. }
    cbn [fst snd]. replies. done.
  - intros Hmin.
    destruct (incrDecrCommand_call (to_int (- atoi a)) c1 s1
                (StringObject <$> [decrby; k; a]) Hl1)
      as (Hp3 & Hd3 & _ & _).
    change (key_at (set_argv c1 (StringObject <$> [decrby; k; a])) 1) with k in *.
    assert (u2 = (resetClient (incrDecrCommand (to_int (- atoi a))
                                 (set_argv c1 (StringObject <$> [decrby; k; a])) s1).1,
                  (incrDecrCommand (to_int (- atoi a))
                     (set_argv c1 (StringObject <$> [decrby; k; a])) s1).2)) as Hu2.
    { subst u2. by rewrite call_unfold. }
    rewrite <- Hu2 in Hp3, Hd3.
    rewrite Hcur1 in Hp3, Hd3. unfold v1 in Hp3, Hd3 at 1.
    rewrite to_longlong_add in Hp3, Hd3.
    pose proof (atoi_range a) as Ha.
    rewrite (to_int_id (- atoi a)) in Hp3, Hd3
      by (unfold INT_MIN, INT_MAX in *; lia).
    replace (cur + atoi a + - atoi a) with cur in Hp3, Hd3 by lia.
    rewrite (to_longlong_id cur) in Hp3, Hd3 by done.
    split.
    + by rewrite Hd3, Hd1, insert_insert_eq.
    + rewrite Hp3, Hp1, <- app_assoc. done.
Qed.

Lemma counters_add_up_witness :
  let s := empty_line_server in
  let c := createClient 5 s in
  let k := sdsnew "n" in
  let r1 := call incrbyCommand [sdsnew "incrby"; k; sdsnew "5"] (c, s) in
  let r2 := call incrbyCommand [sdsnew "incrby"; k; sdsnew "-2"] r1 in
  (c_dict c < length (s_dict s))%nat
  ∧ c_reply r2.1
    = [StringObject (sdsnew "5"); shared.crlf; StringObject (sdsnew "3"); shared.crlf]
  ∧ client_dict r2.1 r2.2 = <[k := StringObject (sdsnew "3")]> (client_dict c s).
Proof.
  assert (c_dict (createClient 5 empty_line_server)
          < length (s_dict empty_line_server))%nat as Hdb by (vm_compute; lia).
  pose proof (counters_add_up (createClient 5 empty_line_server) empty_line_server
                (sdsnew "incrby") (sdsnew "decrby") (sdsnew "get") (sdsnew "n")
                (sdsnew "5") (sdsnew "-2") Hdb) as (W1 & W2 & _).
  exact (conj Hdb (conj W1 W2)).
Defined.
(** ** Sending replies *)

Lemma reply_bytes_cons o r : reply_bytes (o :: r) = sds_ptr o ++ reply_bytes r.
Proof. done. Qed.

Lemma skip_empty_bytes reply :
  Forall (λ o, sdslen (sds_ptr o) <= INT_MAX) reply →
  reply_bytes (skip_empty reply) = reply_bytes reply.
Proof.
  induction 1 as [|o r Ho Hr IH]; [done|].
  cbn [skip_empty].
  rewrite to_int_id by (unfold INT_MIN, INT_MAX, sdslen in *; lia).
  destruct (Z.eqb_spec (sdslen (sds_ptr o)) 0) as [E|E]; [|done].
  rewrite IH, reply_bytes_cons.
  destruct (sds_ptr o); [done|]. unfold sdslen in E. simpl in E. lia.
Qed.

Lemma skip_empty_Forall (P : robj → Prop) reply :
  Forall P reply → Forall P (skip_empty reply).
Proof.
  induction 1 as [|o r Ho Hr IH]; [done|].
  cbn [skip_empty]. destruct (_ =? 0); [done|]. by constructor.
Qed.

Lemma skip_empty_head reply o rest :
  skip_empty reply = o :: rest → to_int (sdslen (sds_ptr o)) ≠ 0.
Proof.
  induction reply as [|o' r IH]; [done|].
  cbn [skip_empty]. destruct (Z.eqb_spec (to_int (sdslen (sds_ptr o'))) 0); [done|].
  by intros [= <- _].
Qed.

Lemma skip_empty_nonempty o rest :
  to_int (sdslen (sds_ptr o)) ≠ 0 → skip_empty (o :: rest) = o :: rest.
Proof.
  intros H. cbn [skip_empty].
  by destruct (Z.eqb_spec (to_int (sdslen (sds_ptr o))) 0).
Qed.

(** The loop invariant: what was sent followed by what is pending stays
    the same, and the offset stays inside the head object. *)
Lemma send_loop_conserves writes : ∀ reply sentlen tot sent,
  Forall (λ o, sdslen (sds_ptr o) <= INT_MAX) reply →
  (sentlen = 0
   ∨ ∃ o rest, reply = o :: rest ∧ 0 < sentlen < sdslen (sds_ptr o)) →
  let st := send_loop writes reply sentlen tot sent in
  snd_bytes st ++ drop (Z.to_nat (snd_sentlen st)) (reply_bytes (snd_reply st))
  = sent ++ drop (Z.to_nat sentlen) (reply_bytes reply)
  ∧ Forall (λ o, sdslen (sds_ptr o) <= INT_MAX) (snd_reply st)
  ∧ (snd_sentlen st = 0
     ∨ ∃ o rest, snd_reply st = o :: rest
                 ∧ 0 < snd_sentlen st < sdslen (sds_ptr o)).
Proof.
  induction writes as [|w writes IH]; intros reply sentlen tot sent Hfit Hinv st.
  all: subst st; cbn [send_loop].
  all: pose proof (skip_empty_bytes reply Hfit) as Hbytes.
  all: pose proof (skip_empty_Forall _ reply Hfit) as Hfit'.
  all: assert (sentlen = 0
               ∨ ∃ o rest, skip_empty reply = o :: rest
                           ∧ 0 < sentlen < sdslen (sds_ptr o)) as Hinv'.
  1,3: destruct Hinv as [?|(o & rest & -> & Hlt)]; [by left|right];
    exists o, rest; split; [|done]; apply skip_empty_nonempty;
    apply Forall_cons_1 in Hfit as [Ho _];
    rewrite to_int_id by (unfold INT_MIN, INT_MAX, sdslen in *; lia); lia.
  all: destruct (skip_empty reply) as [|o rest] eqn:Hskip.
  1,3: cbn [snd_bytes snd_sentlen snd_reply]; rewrite <- Hbytes;
    split; [|split; [done|]];
    [done
    |destruct Hinv' as [?|(? & ? & ? & ?)]; [by left|done]].
  - cbn [snd_bytes snd_sentlen snd_reply]. by rewrite <- Hbytes.
  - apply Forall_cons_1 in Hfit' as [Ho Hrest].
    assert (to_int (sdslen (sds_ptr o)) = sdslen (sds_ptr o)) as Hlen
      by (apply to_int_id; unfold INT_MIN, INT_MAX, sdslen in *; lia).
    assert (0 <= sentlen < sdslen (sds_ptr o)) as Hsent.
    { destruct Hinv' as [->|(o' & rest' & [= <- <-] & ?)]; [|lia].
      pose proof (skip_empty_head _ _ _ Hskip). unfold sdslen in *. lia. }
    destruct w as [eagain|room].
    { cbn [snd_bytes snd_sentlen snd_reply]. rewrite <- Hbytes.
      split; [done|]. split; [by constructor|].
      destruct Hinv' as [?|(o' & rest' & [= <- <-] & ?)]; [by left|right].
      by exists o, rest. }
    cbv zeta. rewrite Hlen.
    set (n := Z.min (Z.of_nat room) (sdslen (sds_ptr o) - sentlen)).
    destruct (Z.leb_spec n 0) as [Hn|Hn].
    { cbn [snd_bytes snd_sentlen snd_reply]. rewrite <- Hbytes.
      split; [done|]. split; [by constructor|].
      destruct Hinv' as [?|(o' & rest' & [= <- <-] & ?)]; [by left|right].
      by exists o, rest. }
    assert (n <= sdslen (sds_ptr o) - sentlen) as Hn' by (unfold n; lia).
    rewrite (to_int_id (sentlen + n)) by (unfold INT_MIN, INT_MAX in *; lia).
    rewrite <- Hbytes, reply_bytes_cons.
    destruct (Z.eqb_spec (sentlen + n) (sdslen (sds_ptr o))) as [Hfull|Hpart].
    + destruct (IH rest 0 (to_int (tot + n))
                  (sent ++ take (Z.to_nat n) (drop (Z.to_nat sentlen) (sds_ptr o)))
                  Hrest (or_introl eq_refl)) as (H1 & H2 & H3).
      split; [|done]. rewrite H1. cbn [Z.to_nat drop]. rewrite <- app_assoc.
      f_equal. rewrite drop_app_le by (unfold sdslen in *; lia).
      f_equal. apply take_ge. rewrite length_drop. unfold sdslen in *. lia.
    + destruct (IH (o :: rest) (sentlen + n) (to_int (tot + n))
                  (sent ++ take (Z.to_nat n) (drop (Z.to_nat sentlen) (sds_ptr o))))
        as (H1 & H2 & H3).
      { by constructor. }
      { right. exists o, rest. split; [done|]. lia. }
      split; [|done]. rewrite H1, reply_bytes_cons, <- app_assoc. f_equal.
      rewrite !drop_app_le by (unfold sdslen in *; lia).
      rewrite app_assoc. f_equal.
      replace (Z.to_nat (sentlen + n)) with (Z.to_nat sentlen + Z.to_nat n)%nat by lia.
      rewrite <- drop_drop. apply take_drop.
Qed.

Lemma pending_addReply c obj :
  reply_ok c →
  sdslen (sds_ptr obj) <= INT_MAX →
  reply_ok (addReply c obj) ∧ pending (addReply c obj) = pending c ++ sds_ptr obj.
Proof.
  intros [Hfit Hinv] Hobj. unfold reply_ok, pending, addReply.
  cbn [c_reply c_sentlen set_reply]. split; [split|].
  - apply Forall_app. split; [done|]. by constructor.
  - destruct Hinv as [?|(o & rest & -> & ?)]; [by left|right].
    by exists o, (rest ++ [obj]).
  - unfold reply_bytes. rewrite map_app, concat_app. cbn [map concat].
    rewrite app_nil_r.
    destruct Hinv as [->|(o & rest & -> & ?)]; [done|].
    cbn [map concat]. rewrite <- app_assoc.
    rewrite !(drop_app_le (sds_ptr o)) by (unfold sdslen in *; lia).
    by rewrite <- app_assoc.
Qed.

(** X17: the reply queue is a byte stream that loses and repeats nothing.
    A reply object appended with [addReply] goes behind what is pending.
    Whatever the calls of [write] return (short writes, 0, EAGAIN or an
    error at any point), [sendReplyToClient] sends a prefix of what is
    pending: when the client stays, the bytes written followed by what is
    pending afterwards are what was pending before, the offset [sentlen]
    stays inside the head object, and the server is untouched; the client
    is freed only on a write error other than EAGAIN. *)
Theorem replies_are_sent_in_order writes c s :
  reply_ok c →
  (∀ obj, sdslen (sds_ptr obj) <= INT_MAX →
          reply_ok (addReply c obj)
          ∧ pending (addReply c obj) = pending c ++ sds_ptr obj)
  ∧ match sendReplyToClient writes c s with
    | (Alive c' s', sent) =>
        sent ++ pending c' = pending c ∧ reply_ok c' ∧ s' = s
    | (Freed s', sent) =>
        (∃ rest, sent ++ rest = pending c) ∧ s' = s
        ∧ ∃ n, writes !! n = Some (WriteError false)
    | _ => False
    end.
Proof.
  intros Hok. split; [intros obj; by apply pending_addReply|].
  destruct Hok as [Hfit Hinv].
  destruct (send_loop_conserves writes (c_reply c) (c_sentlen c) 0 [] Hfit Hinv)
    as (Hbytes & Hfit' & Hinv').
  unfold sendReplyToClient. cbv zeta.
  set (st := send_loop writes (c_reply c) (c_sentlen c) 0 []) in *.
  cbn [app] in Hbytes. fold (pending c) in Hbytes.
  assert (snd_error st = Some false → ∃ n, writes !! n = Some (WriteError false))
    as Herr.
  { subst st. clear. generalize (c_reply c) (c_sentlen c) 0 (@nil ascii).
    induction writes as [|w writes IH]; intros reply sentlen tot sent;
      cbn [send_loop]; destruct (skip_empty reply) as [|o rest]; try done.
    destruct w as [eagain|room].
    - cbn [snd_error]. intros [= ->]. by exists 0%nat.
    - cbv zeta. repeat match goal with
                       | |- context [if ?x then _ else _] => destruct x
                       end; try done.
      all: intros H; destruct (IH _ _ _ _ H) as [n Hn]; by exists (S n). }
  destruct (snd_error st) as [[|]|] eqn:E.
  - split; [|split; [|done]].
    + destruct (listLength _ =? 0) eqn:El;
        destruct (snd_totwritten st >? 0); unfold pending at 1;
        cbn [c_reply c_sentlen set_reply set_sentlen set_lastinteraction];
        try done.
      all: unfold listLength in El;
        cbn [c_reply set_reply set_sentlen set_lastinteraction] in El;
        destruct (snd_reply st); [|simpl in El; lia];
        rewrite <- Hbytes; unfold reply_bytes; cbn [map concat];
        by rewrite !drop_nil.
    + unfold reply_ok.
      destruct (listLength _ =? 0) eqn:El;
        destruct (snd_totwritten st >? 0);
        cbn [c_reply c_sentlen set_reply set_sentlen set_lastinteraction];
        split; try done; by left.
  - split; [by eexists|]. split; [done|]. by apply Herr.
  - split; [|split; [|done]].
    + destruct (listLength _ =? 0) eqn:El;
        destruct (snd_totwritten st >? 0); unfold pending at 1;
        cbn [c_reply c_sentlen set_reply set_sentlen set_lastinteraction];
        try done.
      all: unfold listLength in El;
        cbn [c_reply set_reply set_sentlen set_lastinteraction] in El;
        destruct (snd_reply st); [|simpl in El; lia];
        rewrite <- Hbytes; unfold reply_bytes; cbn [map concat];
        by rewrite !drop_nil.
    + unfold reply_ok.
      destruct (listLength _ =? 0) eqn:El;
        destruct (snd_totwritten st >? 0);
        cbn [c_reply c_sentlen set_reply set_sentlen set_lastinteraction];
        split; try done; by left.
Qed.

Lemma replies_are_sent_in_order_witness :
  let c := send_example in
  let s := empty_line_server in
  let writes := [Accepted 3; WriteError true] in
  reply_ok c
  ∧ match sendReplyToClient writes c s with
    | (Alive c' s', sent) =>
        sent ++ pending c' = pending c ∧ reply_ok c' ∧ s' = s
    | (Freed s', sent) =>
        (∃ rest, sent ++ rest = pending c) ∧ s' = s
        ∧ ∃ n, writes !! n = Some (WriteError false)
    | _ => False
    end.
Proof.
  assert (reply_ok send_example) as Hok.
  { split.
    - repeat constructor; vm_compute; discriminate.
    - right. eexists _, _. split; [reflexivity|]. vm_compute. done. }
  split; [exact Hok|].
  exact (proj2 (replies_are_sent_in_order [Accepted 3; WriteError true]
                  send_example empty_line_server Hok)).
Defined.

Lemma send_loop_skip writes o rest sentlen tot sent :
  to_int (sdslen (sds_ptr o)) = 0 →
  send_loop writes (o :: rest) sentlen tot sent
  = send_loop writes rest sentlen tot sent.
Proof.
  intros H. destruct writes; cbn [send_loop skip_empty]; by rewrite H.
Qed.

Lemma send_loop_flushes room reply : ∀ writes sentlen tot sent,
  Forall (λ o, sdslen (sds_ptr o) <= INT_MAX ∧ sdslen (sds_ptr o) <= Z.of_nat room)
    reply →
  (sentlen = 0
   ∨ ∃ o rest, reply = o :: rest ∧ 0 < sentlen < sdslen (sds_ptr o)) →
  (length reply <= length writes)%nat →
  Forall (λ w, ∃ r, w = Accepted r ∧ (room <= r)%nat) writes →
  let st := send_loop writes reply sentlen tot sent in
  snd_reply st = [] ∧ snd_error st = None.
Proof.
  induction reply as [|o reply IH]; intros writes sentlen tot sent Hfit Hinv Hlen Hw.
  { by destruct writes. }
  apply Forall_cons_1 in Hfit as [[Ho Hroom] Hfit].
  assert (to_int (sdslen (sds_ptr o)) = sdslen (sds_ptr o)) as Hlo
    by (apply to_int_id; unfold INT_MIN, INT_MAX, sdslen in *; lia).
  destruct (Z.eq_dec (sdslen (sds_ptr o)) 0) as [Hz|Hnz].
  { rewrite send_loop_skip by lia. apply IH; try done.
    - destruct Hinv as [?|(? & ? & [= <- <-] & ?)]; [by left|lia].
    - simpl in Hlen. lia. }
  destruct writes as [|w writes]; [simpl in Hlen; lia|].
  apply Forall_cons_1 in Hw as [(r & -> & Hr) Hw].
  cbn [send_loop]. rewrite skip_empty_nonempty by lia. cbv zeta. rewrite Hlo.
  assert (0 <= sentlen < sdslen (sds_ptr o)) as Hsent.
  { destruct Hinv as [->|(? & ? & [= <- <-] & ?)]; [|lia].
    unfold sdslen in *. lia. }
  assert (Z.min (Z.of_nat r) (sdslen (sds_ptr o) - sentlen)
          = sdslen (sds_ptr o) - sentlen) as -> by lia.
  assert ((sdslen (sds_ptr o) - sentlen <=? 0) = false) as -> by lia.
  replace (sentlen + (sdslen (sds_ptr o) - sentlen)) with (sdslen (sds_ptr o)) by lia.
  rewrite Hlo, Z.eqb_refl.
  apply IH; try done; [by left|simpl in Hlen; lia].
Qed.

(** X18: a socket with room takes the whole queue.  When every call of
    [write] takes what it is given (one call per queued object is enough),
    [sendReplyToClient] writes everything that is pending, empties the
    reply list and sets [sentlen] to 0; the client stays and the server is
    untouched. *)
Theorem reply_queue_is_flushed room writes c s :
  reply_ok c →
  Forall (λ o, sdslen (sds_ptr o) <= Z.of_nat room) (c_reply c) →
  (length (c_reply c) <= length writes)%nat →
  Forall (λ w, ∃ r, w = Accepted r ∧ (room <= r)%nat) writes →
  ∃ c', sendReplyToClient writes c s = (Alive c' s, pending c)
        ∧ c_reply c' = [] ∧ c_sentlen c' = 0 ∧ pending c' = [].
Proof.
  intros [Hfit Hinv] Hroom Hlen Hw.
  destruct (send_loop_conserves writes (c_reply c) (c_sentlen c) 0 [] Hfit Hinv)
    as (Hbytes & _ & _).
  destruct (send_loop_flushes room (c_reply c) writes (c_sentlen c) 0 [])
    as (Hempty & Hnoerr); try done.
  { apply Forall_forall. intros o Ho. split.
    - by apply (proj1 (Forall_forall _ _) Hfit).
    - by apply (proj1 (Forall_forall _ _) Hroom). }
  unfold sendReplyToClient. cbv zeta.
  set (st := send_loop writes (c_reply c) (c_sentlen c) 0 []) in *.
  rewrite Hnoerr, Hempty in *. cbn [app] in Hbytes.
  unfold reply_bytes in Hbytes at 1. cbn [map concat] in Hbytes.
  rewrite drop_nil, app_nil_r in Hbytes. fold (pending c) in Hbytes.
  rewrite Hbytes.
  eexists. split; [reflexivity|].
  destruct (snd_totwritten st >? 0);
    cbn [c_reply c_sentlen set_reply set_sentlen set_lastinteraction listLength
         length Z.of_nat Z.eqb]; done.
Qed.

Lemma reply_queue_is_flushed_witness :
  let c := send_example in
  let s := empty_line_server in
  let writes := replicate 4 (Accepted 1024) in
  reply_ok c
  ∧ ∃ c', sendReplyToClient writes c s = (Alive c' s, pending c)
          ∧ c_reply c' = [] ∧ c_sentlen c' = 0 ∧ pending c' = [].
Proof.
  assert (reply_ok send_example) as Hok.
  { split.
    - repeat constructor; vm_compute; discriminate.
    - right. eexists _, _. split; [reflexivity|]. vm_compute. done. }
  split; [exact Hok|].
  apply (reply_queue_is_flushed 1024 (replicate 4 (Accepted 1024))
           send_example empty_line_server Hok).
  - repeat constructor; vm_compute; discriminate.
  - vm_compute. lia.
  - repeat constructor; eexists; (split; [reflexivity|lia]).
Defined.
(** ** The configuration file *)

Lemma fgets_line_shrinks n fp :
  (0 < n)%nat → fp ≠ [] → (length (fgets_line n fp).2 < length fp)%nat.
Proof.
  revert fp. induction n as [|n IH]; intros fp Hn Hfp; [lia|].
  destruct fp as [|ch fp]; [done|]. cbn [fgets_line].
  destruct (Ascii.eqb ch LF); [simpl; lia|].
  destruct n as [|n'].
  - simpl. lia.
  - destruct fp as [|ch' fp'].
    + simpl. lia.
    + specialize (IH (ch' :: fp') ltac:(lia) ltac:(done)).
      destruct (fgets_line (S n') (ch' :: fp')) as [buf rest].
      simpl in *. lia.
Qed.

Lemma config_ok_init : config_ok initServerConfig.
Proof.
  unfold config_ok, initServerConfig. cbn.
  unfold INT_MAX, REDIS_DEFAULT_DBNUM, REDIS_SERVERPORT, REDIS_MAXIDLETIME.
  repeat split; try lia.
  - apply list_elem_of_here.
  - repeat constructor; cbn; lia.
  - discriminate.
Qed.

Lemma config_ok_reset cfg : config_ok cfg → config_ok (ResetServerSaveParams cfg).
Proof.
  intros (H1 & H2 & H3 & H4 & H5 & H6). unfold config_ok. cbn.
  repeat split; try done; try lia.
Qed.

Section ConfigProperties.
Context {dir : Type}.
Variable chdir : dir → sds → option dir.
Variable fopen_append : dir → sds → bool.

Lemma config_directive_ok argv cfg cwd cfg' cwd' :
  config_ok cfg →
  config_directive chdir fopen_append argv cfg cwd = Some (inr (cfg', cwd')) →
  config_ok cfg'.
Proof.
  intros (H1 & H2 & H3 & H4 & H5 & H6). unfold config_directive. cbv zeta.
  repeat match goal with
         | |- context [if ?x then _ else _] => destruct x eqn:?
         | |- context [match ?x with _ => _ end] => destruct x eqn:?
         end;
    try done; intros [= <- <-]; unfold config_ok;
    cbn [cfg_dbnum cfg_port cfg_verbosity cfg_maxidletime cfg_saveparams
         cfg_logfile cfg_bindaddr set_cfg_maxidletime set_cfg_port
         set_cfg_bindaddr set_cfg_verbosity set_cfg_logfile set_cfg_dbnum
         appendServerSaveParams] in *;
    repeat match goal with
           | |- _ ∧ _ => split
           end; try done; try lia.
  all: repeat match goal with
              | H : (_ <? _) = false |- _ => apply Z.ltb_ge in H
              | H : (_ || _) = false |- _ => apply orb_false_iff in H as [? ?]
              | H : (_ >? _) = false |- _ => rewrite Z.gtb_ltb in H
              end.
  all: try (pose proof (atoi_range (nth 1 argv [])); unfold INT_MAX in *; lia).
  all: try (apply Forall_app; split; [done|]; repeat constructor; cbn;
            pose proof (atoi_range (nth 1 argv []));
            pose proof (atoi_range (nth 2 argv []));
            unfold INT_MAX in *; lia).
  all: try (unfold REDIS_DEBUG, REDIS_NOTICE, REDIS_WARNING;
            repeat first [apply list_elem_of_here | apply list_elem_of_further]).
  all: try discriminate.
  intros [= Hname]. unfold strcmp0, sds_eqb in *.
  apply bool_decide_eq_false_1 in Heqb6. apply Heqb6. by rewrite Hname.
Qed.

Lemma config_lines_ok fuel : ∀ fp linenum cfg cwd,
  (length fp <= fuel)%nat →
  config_ok cfg →
  match config_lines chdir fopen_append fuel fp linenum cfg cwd with
  | ConfigLoaded cfg' _ => config_ok cfg'
  | ConfigOutOfFuel | ConfigNoFile => False
  | _ => True
  end.
Proof.
  induction fuel as [|fuel IH]; intros fp linenum cfg cwd Hlen Hok.
  - destruct fp; [done|simpl in Hlen; lia].
  - cbn [config_lines]. unfold fgets.
    destruct fp as [|ch fp']; [done|].
    pose proof (fgets_line_shrinks (S REDIS_CONFIGLINE_MAX - 1) (ch :: fp')
                  ltac:(unfold REDIS_CONFIGLINE_MAX; lia) ltac:(done)) as Hshrink.
    destruct (fgets_line (S REDIS_CONFIGLINE_MAX - 1) (ch :: fp')) as [buf rest].
    cbn [snd] in Hshrink. cbv zeta.
    destruct (_ || _).
    + apply IH; [simpl in *; lia|done].
    + destruct (config_directive _ _ _ _ _) as [[err|[cfg' cwd']]|] eqn:Hdir;
        try done.
      apply IH; [simpl in *; lia|].
      by eapply config_directive_ok.
Qed.

(** X19: the server never starts on an invalid configuration.  Whatever
    the configuration file holds and whatever the file system answers,
    [loadServerConfig] ends (it loads the file or exits), and a
    configuration [main] goes on with has at least one database, a port in
    1..65535, a client timeout of at least one second, a log level that is
    debug, notice or warning, and save rules with at least one second and no
    negative number of changes; without a configuration file these are the
    defaults with their three save rules, with one the defaults lose
    their save rules. *)
Theorem startup_config_is_valid file cwd :
  match main_config chdir fopen_append file cwd with
  | ConfigLoaded cfg _ =>
      config_ok cfg
      ∧ (file = None →
         cfg = initServerConfig ∧ cfg_saveparams cfg = default_saveparams)
  | ConfigOutOfFuel => False
  | ConfigNoFile => file = Some None
  | ConfigExit _ _ _ | ConfigChdirFailed _ => ∃ fp, file = Some (Some fp)
  end.
Proof.
  destruct file as [[fp|]|]; cbn [main_config loadServerConfig].
  - pose proof (config_lines_ok (length fp) fp 0
                  (ResetServerSaveParams initServerConfig) cwd
                  ltac:(lia) (config_ok_reset _ config_ok_init)) as H.
    destruct (config_lines _ _ _ _ _ _ _); try done; eauto.
  - done.
  - split; [apply config_ok_init|]. done.
Qed.
End ConfigProperties.

(** A file with a comment, a port, a blank line, a save rule and a number
    of databases. *)
Example config_example_loads :
  main_config (λ _ _, Some tt) (λ _ _, true) (Some (Some config_example)) tt
  = ConfigLoaded
      (mkConfig 4 7000 REDIS_DEBUG REDIS_MAXIDLETIME [mkSaveparam 900 1] None None)
      tt.
Proof. vm_compute. reflexivity. Qed.

(** The same file with the two spaces of a doubled separator is refused at
    its line. *)
Example config_doubled_space_is_refused :
  main_config (λ _ _, Some tt) (λ _ _, true)
    (Some (Some (sdsnew ("port  7000" ++ String LF "")))) tt
  = ConfigExit 1 (sdsnew "port  7000") BadDirective.
Proof. vm_compute. reflexivity. Qed.
(** ** Dump files that are not snapshots *)





(** ** The cron *)

(** X21: the cron collects a background save.  While a background save
    is in progress the cron starts no other and leaves the databases
    alone.  As long as no child has ended ([wait4] returns 0) nothing but
    the tick counter changes.  When the child has ended the save is no
    longer in progress; on exit code 0 the change counter is set to 0,
    whatever was changed since the save began, and the time of the last
    save is now; on another exit code both stay. *)
Theorem cron_collects_background_save pid exitcode w :
  s_bgsaveinprogress (w_server w) = true →
  let s := w_server w in
  let s' := w_server (serverCron pid exitcode w) in
  s_dict s' = s_dict s
  ∧ s_cronloops s' = to_int (s_cronloops s + 1)
  ∧ s_saveparams s' = s_saveparams s
  ∧ (pid = 0 →
     s_bgsaveinprogress s' = true
     ∧ s_dirty s' = s_dirty s ∧ s_lastsave s' = s_lastsave s)
  ∧ (pid ≠ 0 →
     s_bgsaveinprogress s' = false
     ∧ (exitcode = 0 → s_dirty s' = 0 ∧ s_lastsave s' = s_time s)
     ∧ (exitcode ≠ 0 → s_dirty s' = s_dirty s ∧ s_lastsave s' = s_lastsave s)).
Proof.
  intros Hbg s s'. subst s s'. unfold serverCron. cbv zeta.
  destruct (Z.rem (s_cronloops (w_server w)) 10 =? 0);
    cbn [w_server closeTimedoutClients s_bgsaveinprogress set_cronloops];
    rewrite Hbg.
  all: destruct (Z.eqb_spec pid 0) as [Hpid|Hpid]; cbn [negb];
    [by repeat split|].
  all: destruct (Z.eqb_spec exitcode 0) as [Hex|Hex]; by repeat split.
Qed.

Lemma cron_collects_background_save_witness :
  let w := mkWorld (set_dirty (set_bgsaveinprogress empty_line_server true) 7) [] in
  s_bgsaveinprogress (w_server w) = true
  ∧ s_bgsaveinprogress (w_server (serverCron 1234 0 w)) = false
  ∧ s_dirty (w_server (serverCron 1234 0 w)) = 0.
Proof.
  split; [reflexivity|].
  destruct (cron_collects_background_save 1234 0
              (mkWorld (set_dirty (set_bgsaveinprogress empty_line_server true) 7) [])
              eq_refl) as (_ & _ & _ & _ & H).
  destruct (H ltac:(discriminate)) as (H1 & H2 & _).
  split; [exact H1|]. exact (proj1 (H2 eq_refl)).
Defined.

(** X22: the cron closes idle clients only.  A cron tick never changes a
    client and never changes the order of the clients; a client that
    interacted within the last [maxidletime] seconds stays; clients go only
    on a tick whose number is a multiple of ten, and then exactly those go
    whose last interaction is more than [maxidletime] seconds ago. *)
Theorem cron_closes_idle_clients_only pid exitcode w :
  let s := w_server w in
  let idle c := s_time s - c_lastinteraction c > s_maxidletime s in
  let w' := serverCron pid exitcode w in
  w_clients w' `sublist_of` w_clients w
  ∧ (∀ c, c ∈ w_clients w → ¬ idle c → c ∈ w_clients w')
  ∧ (Z.rem (s_cronloops s) 10 ≠ 0 → w_clients w' = w_clients w)
  ∧ (Z.rem (s_cronloops s) 10 = 0 →
     ∀ c, c ∈ w_clients w' ↔ c ∈ w_clients w ∧ ¬ idle c).
Proof.
  intros s idle w'. subst s w'. unfold serverCron. cbv zeta.
  destruct (Z.eqb_spec (Z.rem (s_cronloops (w_server w)) 10) 0) as [Hten|Hten];
    cbn [w_clients w_server closeTimedoutClients set_cronloops s_time
         s_maxidletime].
  - split; [apply sublist_filter|]. split; [|split; [done|]].
    + intros c Hc Hidle. apply list_elem_of_filter. by split.
    + intros _ c. rewrite list_elem_of_filter. tauto.
  - split; [done|]. split; [done|]. split; [done|]. done.
Qed.
(** ** Commands and the query buffer *)

Lemma keys_loop_querybuf pattern entries : ∀ c numkeys keyslen q,
  keys_loop pattern entries (set_querybuf c q) numkeys keyslen
  = (λ '(c', n, l), (set_querybuf c' q, n, l))
      <$> keys_loop pattern entries c numkeys keyslen.
Proof.
  induction entries as [|[key o] entries IH]; intros c numkeys keyslen q; [done|].
  cbn [keys_loop].
  destruct (if sds_eqb _ _ then _ else _) as [[|]|]; [|apply IH|done].
  destruct (negb _); rewrite <- IH; done.
Qed.

Lemma sinter_loop_querybuf others entries : ∀ c cardinality q,
  sinter_loop others entries (set_querybuf c q) cardinality
  = let '(c', n) := sinter_loop others entries c cardinality in
    (set_querybuf c' q, n).
Proof.
  induction entries as [|[key o] entries IH]; intros c cardinality q; [done|].
  cbn [sinter_loop]. destruct (forallb _ _); [|apply IH].
  rewrite <- IH. done.
Qed.

Lemma lrange_loop_querybuf n : ∀ ln c q,
  lrange_loop n ln (set_querybuf c q) = set_querybuf (lrange_loop n ln c) q.
Proof.
  induction n as [|n IH]; intros ln c q; [by destruct ln|].
  destruct ln as [|ele next]; [done|]. cbn [lrange_loop]. by rewrite <- IH.
Qed.

Ltac frame_cases :=
  cbv zeta;
  repeat match goal with
         | |- context [match ?x with _ => _ end] => destruct x
         | |- context [if ?x then _ else _] => destruct x
         end;
  reflexivity.

(** A command procedure neither reads nor writes the query buffer. *)
Lemma table_procs_querybuf :
  Forall (λ p, ∀ c s q,
            p.2 (set_querybuf c q) s = (set_querybuf (p.2 c s).1 q, (p.2 c s).2))
    table_procs.
Proof.
  unfold table_procs.
  repeat (apply Forall_cons_2; [cbn [fst snd]; intros c s q|]);
    [..|apply Forall_nil_2].
  all: try (unfold getCommand, setCommand, setnxCommand, setGenericCommand,
      delCommand, existsCommand, incrCommand, decrCommand, incrbyCommand,
      decrbyCommand, incrDecrCommand, rpushCommand, lpushCommand,
      pushGenericCommand, rpopCommand, lpopCommand, popGenericCommand,
      llenCommand, lindexCommand, lsetCommand, ltrimCommand,
      saddCommand, sremCommand, sismemberCommand, scardCommand,
      randomkeyCommand, renameCommand, renamenxCommand,
      renameGenericCommand, moveCommand, dbsizeCommand, pingCommand,
      echoCommand, lastsaveCommand, typeCommand, saveCommand,
      bgsaveCommand, dictFind, dictAdd, dictReplace, dictDelete,
      key_at, argv_at;
      change (client_dict (set_querybuf c q) s) with (client_dict c s);
      change (c_argv (set_querybuf c q)) with (c_argv c);
      change (c_dict (set_querybuf c q)) with (c_dict c);
      frame_cases).
  - unfold lrangeCommand, dictFind, key_at, argv_at.
    change (client_dict (set_querybuf c q) s) with (client_dict c s).
    change (c_argv (set_querybuf c q)) with (c_argv c).
    destruct (client_dict c s !! _) as [[?|l|?]|]; try done.
    cbv zeta. destruct (_ || _); [done|].
    cbn [fst snd]. f_equal.
    change (addReplySds (set_querybuf c q) ?x) with (set_querybuf (addReplySds c x) q).
    apply lrange_loop_querybuf.
  - unfold sinterCommand.
    change (client_dict (set_querybuf c q) s) with (client_dict c s).
    change (c_argv (set_querybuf c q)) with (c_argv c).
    destruct (sinter_gather _ _) as [e|dv]; [done|]. cbv zeta.
    change (addReply (set_querybuf c q) ?x) with (set_querybuf (addReply c x) q).
    rewrite sinter_loop_querybuf.
    change (c_reply (set_querybuf c q)) with (c_reply c).
    by destruct (sinter_loop _ _ _ _).
  - unfold sinterCommand.
    change (client_dict (set_querybuf c q) s) with (client_dict c s).
    change (c_argv (set_querybuf c q)) with (c_argv c).
    destruct (sinter_gather _ _) as [e|dv]; [done|]. cbv zeta.
    change (addReply (set_querybuf c q) ?x) with (set_querybuf (addReply c x) q).
    rewrite sinter_loop_querybuf.
    change (c_reply (set_querybuf c q)) with (c_reply c).
    by destruct (sinter_loop _ _ _ _).
  - unfold moveCommand, selectDb, dictFind, dictAdd, dictDelete, key_at, argv_at.
    change (c_argv (set_querybuf c q)) with (c_argv c).
    change (c_dict (set_querybuf c q)) with (c_dict c).
    change (client_dict (set_querybuf c q) s) with (client_dict c s).
    destruct (_ || _); [done|].
    change (REDIS_OK =? REDIS_ERR) with false. cbv iota.
    cbn [c_dict set_c_dict set_querybuf].
    destruct (bool_decide _); [done|].
    destruct (client_dict c s !! _); [|done].
    change (client_dict (set_c_dict (set_querybuf c q) ?j) s)
      with (client_dict (set_c_dict c j) s).
    destruct (client_dict (set_c_dict c _) s !! _); [done|].
    change (DICT_OK =? DICT_ERR) with false. cbv iota.
    change (client_dict (set_querybuf c q) ?s) with (client_dict c s).
    by destruct (client_dict c _ !! _).
Qed.

Lemma selectCommand_querybuf c s q :
  selectCommand (set_querybuf c q) s
  = outcome_with_querybuf (selectCommand c s) q.
Proof.
  unfold selectCommand, selectDb, argv_at.
  change (c_argv (set_querybuf c q)) with (c_argv c).
  by destruct (_ || _).
Qed.

Lemma keysCommand_querybuf c s q :
  keysCommand (set_querybuf c q) s
  = outcome_with_querybuf (keysCommand c s) q.
Proof.
  unfold keysCommand, argv_at.
  change (client_dict (set_querybuf c q) s) with (client_dict c s).
  change (c_argv (set_querybuf c q)) with (c_argv c).
  change (c_reply (set_querybuf c q)) with (c_reply c).
  cbv zeta.
  change (addReply (set_querybuf c q) ?x) with (set_querybuf (addReply c x) q).
  change (client_dict (addReply (set_querybuf c q) ?x) s) with (client_dict c s).
  rewrite keys_loop_querybuf.
  by destruct (keys_loop _ _ _ _ _) as [[[c' n] l]|].
Qed.

(** ** Lines of the inline protocol *)

Lemma strchr_line line rest :
  Forall (λ ch, ch ≠ LF ∧ ch ≠ NUL) line →
  strchr (line ++ LF :: rest) LF = Some (length line).
Proof.
  induction 1 as [|ch line [H1 H2] _ IH]; cbn [app strchr length].
  - by rewrite Ascii.eqb_refl.
  - rewrite (proj2 (Ascii.eqb_neq _ _) H1), (proj2 (Ascii.eqb_neq _ _) H2).
    by rewrite IH.
Qed.

Lemma cstr_line line rest :
  Forall (λ ch, ch ≠ NUL) line → cstr (line ++ NUL :: rest) = line.
Proof.
  induction 1 as [|ch line H _ IH]; cbn [app cstr].
  - by rewrite Ascii.eqb_refl.
  - rewrite (proj2 (Ascii.eqb_neq _ _) H). by rewrite IH.
Qed.

Lemma insert_middle {A} (l : list A) (x y : A) (rest : list A) :
  <[length l := y]> (l ++ x :: rest) = l ++ y :: rest.
Proof. rewrite insert_app_r_alt by lia. by rewrite Nat.sub_diag. Qed.

Lemma query_line_lf line rest :
  Forall (λ ch, ch ≠ NUL ∧ ch ≠ CR) line →
  query_line (line ++ LF :: rest) (length line) = line.
Proof.
  intros Hline. unfold query_line. cbv zeta. rewrite insert_middle.
  assert (Forall (λ ch, ch ≠ NUL) line) as Hnul
    by (eapply Forall_impl; [done|]; by intros ? [? ?]).
  destruct (length line) as [|p'] eqn:Hlen; [by apply cstr_line|].
  rewrite bool_decide_eq_false_2; [by apply cstr_line|].
  rewrite lookup_app_l by lia. intros Hcr.
  apply list_elem_of_lookup_2 in Hcr.
  apply (proj1 (Forall_forall _ _) Hline) in Hcr. by destruct Hcr.
Qed.

Lemma query_line_crlf line rest :
  Forall (λ ch, ch ≠ NUL) line →
  query_line (line ++ CR :: LF :: rest) (S (length line)) = line.
Proof.
  intros Hline. unfold query_line. cbv zeta.
  replace (line ++ CR :: LF :: rest) with ((line ++ [CR]) ++ LF :: rest)
    by (by rewrite <- app_assoc).
  replace (S (length line)) with (length (line ++ [CR]))
    by (rewrite length_app; simpl; lia).
  rewrite insert_middle, <- app_assoc. cbn [app].
  rewrite bool_decide_eq_true_2 by (by rewrite list_lookup_middle).
  rewrite insert_middle. by apply cstr_line.
Qed.

Lemma sdssplit_go_token t : ∀ cur,
  Forall (λ ch, ch ≠ SP) t →
  sdssplit_go t cur = [rev cur ++ t].
Proof.
  induction t as [|ch t IH]; intros cur Ht; cbn [sdssplit_go].
  - by rewrite app_nil_r.
  - apply Forall_cons_1 in Ht as [Hch Ht].
    rewrite (proj2 (Ascii.eqb_neq _ _) Hch), IH by done.
    cbn [rev]. by rewrite <- app_assoc.
Qed.

Lemma sdssplit_go_space t s : ∀ cur,
  Forall (λ ch, ch ≠ SP) t →
  sdssplit_go (t ++ SP :: s) cur = (rev cur ++ t) :: sdssplit_go s [].
Proof.
  induction t as [|ch t IH]; intros cur Ht; cbn [app sdssplit_go].
  - rewrite Ascii.eqb_refl. by rewrite app_nil_r.
  - apply Forall_cons_1 in Ht as [Hch Ht].
    rewrite (proj2 (Ascii.eqb_neq _ _) Hch), IH by done.
    cbn [rev]. by rewrite <- app_assoc.
Qed.

Lemma sdssplitlen_join tokens :
  tokens ≠ [] →
  Forall (Forall (λ ch, ch ≠ SP)) tokens →
  sdssplitlen (join_tokens tokens) = tokens.
Proof.
  intros Hne Htok. unfold sdssplitlen.
  destruct tokens as [|t ts]; [done|]. clear Hne.
  revert t Htok. induction ts as [|t' ts IH]; intros t Htok.
  - apply Forall_cons_1 in Htok as [Ht _]. cbn. rewrite app_nil_r.
    by rewrite sdssplit_go_token.
  - apply Forall_cons_1 in Htok as [Ht Hts].
    cbn [join_tokens fmap list_fmap concat]. cbn [app].
    rewrite sdssplit_go_space by done. cbn [rev app]. f_equal.
    apply (IH t' Hts).
Qed.

Lemma set_querybuf_id c : set_querybuf c (c_querybuf c) = c.
Proof. by destruct c. Qed.

Lemma execCommand_querybuf cmd c s q :
  cmd ∈ cmdTable →
  execCommand cmd (set_querybuf c q) s
  = outcome_with_querybuf (execCommand cmd c s) q.
Proof.
  intros Hin. unfold execCommand.
  destruct (proj1 (Forall_forall _ _) cmdTable_procs cmd Hin)
    as [[_ Hproc]|[[_ Hproc]|[[_ Hproc]|[Hproc|(f & Hproc & Hf)]]]];
    rewrite Hproc.
  - unfold shutdownCommand. destruct (saveDb s) as [retval s'].
    by destruct (retval =? REDIS_OK).
  - rewrite selectCommand_querybuf. by destruct (selectCommand c s).
  - rewrite keysCommand_querybuf. by destruct (keysCommand c s).
  - done.
  - unfold returns.
    pose proof (proj1 (Forall_forall _ _) table_procs_querybuf _ Hf c s q) as Hq.
    cbn [fst snd] in Hq. rewrite Hq. by destruct (f c s).
Qed.

Lemma execCommand_keeps_querybuf cmd c s c' s' :
  cmd ∈ cmdTable →
  execCommand cmd c s = Alive c' s' →
  c_querybuf c' = c_querybuf c.
Proof.
  intros Hin Hrun.
  pose proof (execCommand_querybuf cmd c s (c_querybuf c) Hin) as H.
  rewrite set_querybuf_id, Hrun in H. cbn in H. injection H as ->. done.
Qed.

(** Outside the header line of a bulk command [processCommand] does not
    look at the query buffer. *)
Lemma processCommand_querybuf c s q :
  (∀ cmd, lookupCommand (sdstolower (sds_ptr (argv_at c 0))) = Found cmd →
          cmd_type cmd = REDIS_CMD_BULK → c_bulklen c ≠ -1) →
  processCommand (set_querybuf c q) s
  = outcome_with_querybuf (processCommand c s) q.
Proof.
  intros Hbulk. unfold processCommand.
  change (c_argv (set_querybuf c q)) with (c_argv c).
  destruct (c_argv c) as [|argv0 args] eqn:Hargv; [done|].
  unfold argv_at in *. rewrite Hargv in Hbulk. cbn [nth] in Hbulk.
  cbn [set_argv c_argv set_querybuf nth sds_ptr].
  destruct (strcmp0 _ _); [done|].
  destruct (lookupCommand (sdstolower (sds_ptr argv0))) as [cmd| |] eqn:Hcmd;
    [|done|done].
  specialize (Hbulk cmd eq_refl).
  unfold argc. cbn [c_argv].
  destruct (_ || _); [done|].
  change (c_bulklen (set_argv (set_querybuf c q) ?a)) with (c_bulklen c).
  change (c_bulklen (set_argv c ?a)) with (c_bulklen c).
  destruct ((cmd_type cmd =? REDIS_CMD_BULK) && (c_bulklen c =? -1)) eqn:Hb.
  { apply andb_true_iff in Hb as [H1 H2]. exfalso. apply Hbulk; lia. }
  apply (execCommand_querybuf cmd
           (set_argv c (StringObject (sdstolower (sds_ptr argv0)) :: args)) s q).
  by eapply lookupCommand_elem.
Qed.

Lemma processCommand_keeps_empty c s c' s' :
  c_querybuf c = [] →
  processCommand c s = Alive c' s' →
  c_querybuf c' = [].
Proof.
  intros Hq. unfold processCommand.
  destruct (c_argv c) as [|argv0 args] eqn:Hargv; [done|].
  unfold argv_at. cbn [set_argv c_argv nth sds_ptr].
  destruct (strcmp0 _ _); [done|].
  destruct (lookupCommand (sdstolower (sds_ptr argv0))) as [cmd| |] eqn:Hcmd;
    [|by intros [= <- _]|done].
  apply lookupCommand_elem in Hcmd.
  destruct (_ || _); [by intros [= <- _]|].
  destruct (_ && _).
  - destruct (_ || _); [by intros [= <- _]|].
    cbv zeta. destruct (_ >=? _).
    + intros Hrun. apply execCommand_keeps_querybuf in Hrun; [|done].
      rewrite Hrun. cbn [c_querybuf set_querybuf set_argv set_bulklen].
      rewrite Hq. unfold sdsrange_from. apply drop_nil.
    + by intros [= <- _].
  - intros Hrun. apply execCommand_keeps_querybuf in Hrun; [|done].
    by rewrite Hrun.
Qed.

Lemma join_tokens_chars (P : ascii → Prop) tokens :
  P SP → Forall (Forall P) tokens → Forall P (join_tokens tokens).
Proof.
  intros Hsp Htok. destruct tokens as [|t ts]; [done|].
  apply Forall_cons_1 in Htok as [Ht Hts]. cbn [join_tokens].
  apply Forall_app. split; [done|].
  induction Hts as [|t' ts Ht' _ IH]; [done|].
  cbn [fmap list_fmap concat]. apply Forall_app. split; [by constructor|done].
Qed.

Lemma join_tokens_nonempty tokens :
  tokens ≠ [] → Forall clean_token tokens → join_tokens tokens ≠ [].
Proof.
  destruct tokens as [|t ts]; [done|]. intros _ Htok.
  apply Forall_cons_1 in Htok as [[Ht _] _]. cbn [join_tokens].
  by destruct t.
Qed.

Lemma query_args_clean tokens :
  Forall clean_token tokens →
  query_args tokens = StringObject <$> take REDIS_MAX_ARGS tokens.
Proof.
  intros Htok. unfold query_args. f_equal.
  assert (Forall clean_token (take REDIS_MAX_ARGS tokens)) as H
    by by apply Forall_take.
  induction H as [|t ts [Ht _] _ IH]; [done|].
  rewrite filter_cons_True; [by rewrite IH|].
  destruct t; [done|]. unfold sdslen. simpl. lia.
Qed.

(** X23: the parser hands a well-formed line to [processCommand] as its
    tokens.  A client in inline mode with an empty buffer that reads one
    line (tokens free of space, CR, LF and NUL, one space between them,
    ended by LF or CRLF) runs [processCommand] once, with the tokens, at
    most [REDIS_MAX_ARGS] of them, behind what argv held, and with the time
    of the interaction noted; nothing is left in the buffer and what
    [processCommand] returns is what the handler leaves. *)
Theorem inline_line_is_parsed c s tokens eol :
  c_bulklen c = -1 →
  c_querybuf c = [] →
  tokens ≠ [] →
  Forall clean_token tokens →
  eol = [LF] ∨ eol = [CR; LF] →
  readQueryFromClient (ReadData (join_tokens tokens ++ eol)) c s
  = processCommand
      (set_argv (set_lastinteraction c (s_time s))
         (c_argv c ++ (StringObject <$> take REDIS_MAX_ARGS tokens)))
      s.
Proof.
  intros Hbulk Hq Hne Htok Heol.
  set (line := join_tokens tokens).
  assert (Forall (λ ch, ch ≠ LF ∧ ch ≠ CR ∧ ch ≠ NUL) line) as Hline.
  { apply join_tokens_chars; [by repeat split|].
    eapply Forall_impl; [exact Htok|]. intros t [_ Ht].
    eapply Forall_impl; [exact Ht|]. by intros ch (_ & ? & ? & ?). }
  assert (line ≠ []) as Hline_ne by by apply join_tokens_nonempty.
  assert (sdssplitlen line = tokens) as Hsplit.
  { apply sdssplitlen_join; [done|].
    eapply Forall_impl; [exact Htok|]. intros t [_ Ht].
    eapply Forall_impl; [exact Ht|]. by intros ch (? & _). }
  unfold readQueryFromClient.
  rewrite sdslen_nonempty by (destruct Heol as [->| ->]; by destruct line).
  cbv zeta. unfold sdscatlen. rewrite Hq. cbn [app].
  cbn [readQuery_again c_bulklen set_lastinteraction set_querybuf c_querybuf].
  rewrite Hbulk. change (-1 =? -1) with true. cbv iota.
  assert (∃ p, strchr (line ++ eol) LF = Some p
               ∧ drop (S p) (line ++ eol) = []
               ∧ query_line (line ++ eol) p = line) as (p & Hp & Hrest & Hql).
  { destruct Heol as [->| ->].
    - exists (length line). split; [|split].
      + apply strchr_line. eapply Forall_impl; [exact Hline|]. by intros ? (? & _ & ?).
      + apply drop_ge. rewrite length_app. simpl. lia.
      + apply query_line_lf. eapply Forall_impl; [exact Hline|]. by intros ? (_ & ? & ?).
    - exists (S (length line)). split; [|split].
      + replace (line ++ [CR; LF]) with ((line ++ [CR]) ++ LF :: [])
          by (by rewrite <- app_assoc).
        rewrite strchr_line.
        * rewrite length_app. simpl. f_equal. lia.
        * apply Forall_app. split.
          -- eapply Forall_impl; [exact Hline|]. by intros ? (? & _ & ?).
          -- by repeat constructor.
      + apply drop_ge. rewrite length_app. simpl. lia.
      + apply query_line_crlf. eapply Forall_impl; [exact Hline|]. by intros ? (_ & _ & ?). }
  rewrite Hp, Hrest, Hql.
  rewrite sdslen_nonempty by done.
  rewrite Hsplit, query_args_clean by done.
  cbn [c_argv].
  set (c1 := set_argv _ _).
  assert (c1 = set_argv (set_lastinteraction c (s_time s))
                 (c_argv c ++ (StringObject <$> take REDIS_MAX_ARGS tokens))) as ->.
  { subst c1. destruct c as [fd dict qb argv bl reply sl last].
    cbn in Hq. cbn. by rewrite Hq. }
  destruct (processCommand _ s) as [c' s'| | |] eqn:Hrun; try done.
  apply processCommand_keeps_empty in Hrun; [|by destruct c].
  by rewrite Hrun.
Qed.

Lemma inline_line_is_parsed_witness :
  let s := empty_line_server in
  let c := createClient 5 s in
  let tokens := [sdsnew "EXISTS"; sdsnew "k"] in
  c_bulklen c = -1
  ∧ Forall clean_token tokens
  ∧ readQueryFromClient (ReadData (join_tokens tokens ++ [CR; LF])) c s
    = processCommand
        (set_argv (set_lastinteraction c (s_time s))
           (c_argv c ++ (StringObject <$> take REDIS_MAX_ARGS tokens)))
        s
  ∧ reply_of (readQueryFromClient (ReadData (join_tokens tokens ++ [CR; LF])) c s)
    = sdsnew "0" ++ crlf_bytes.
Proof.
  assert (Forall clean_token [sdsnew "EXISTS"; sdsnew "k"]) as Htok.
  { repeat constructor; try discriminate. }
  split; [reflexivity|]. split; [exact Htok|].
  split; [|vm_compute; reflexivity].
  apply (inline_line_is_parsed (createClient 5 empty_line_server)
           empty_line_server [sdsnew "EXISTS"; sdsnew "k"] [CR; LF]);
    [reflexivity | reflexivity | discriminate | exact Htok | by right].
Defined.

Lemma strchr_none s ch :
  ch ≠ NUL → ch ∉ cstr s → strchr s ch = None.
Proof.
  intros Hch. induction s as [|x s IH]; [done|]. cbn [cstr strchr].
  destruct (Ascii.eqb_spec x ch) as [->|Hx].
  - rewrite (proj2 (Ascii.eqb_neq _ _) Hch).
    intros H. exfalso. apply H. left.
  - destruct (Ascii.eqb_spec x NUL) as [->|Hn]; [done|].
    intros H. rewrite IH; [done|]. intros Hin. apply H. by right.
Qed.

(** X24: an unfinished line waits, up to a bound.  While the buffer of a
    client in inline mode holds no LF (none before its first NUL byte, where
    the search of the C library ends), reading more bytes runs no command
    and queues no reply: the bytes are kept and the time of the interaction
    is noted, as long as the buffer stays below 1024 bytes; once it holds
    1024 bytes or more the client is closed. *)
Theorem unfinished_line_waits c s buf :
  c_bulklen c = -1 →
  buf ≠ [] →
  LF ∉ cstr (c_querybuf c ++ buf) →
  readQueryFromClient (ReadData buf) c s
  = if sdslen (c_querybuf c ++ buf) >=? 1024 then Freed s
    else Alive (set_lastinteraction (set_querybuf c (c_querybuf c ++ buf)) (s_time s)) s.
Proof.
  intros Hbulk Hbuf Hlf. unfold readQueryFromClient.
  rewrite sdslen_nonempty by done. cbv zeta. unfold sdscatlen.
  cbn [readQuery_again c_bulklen set_lastinteraction set_querybuf c_querybuf].
  rewrite Hbulk. change (-1 =? -1) with true. cbv iota.
  by rewrite strchr_none.
Qed.

Lemma unfinished_line_waits_witness :
  let s := empty_line_server in
  let c := createClient 5 s in
  let buf := sdsnew "GET fo" in
  c_bulklen c = -1
  ∧ (LF ∉ cstr (c_querybuf c ++ buf))
  ∧ readQueryFromClient (ReadData buf) c s
    = Alive (set_lastinteraction (set_querybuf c (c_querybuf c ++ buf)) (s_time s)) s.
Proof.
  assert (LF ∉ cstr (c_querybuf (createClient 5 empty_line_server) ++ sdsnew "GET fo"))
    as Hlf.
  { apply (bool_decide_eq_false_1
             (LF ∈ cstr (c_querybuf (createClient 5 empty_line_server)
                         ++ sdsnew "GET fo"))).
    vm_compute. reflexivity. }
  split; [reflexivity|]. split; [exact Hlf|].
  apply (unfinished_line_waits (createClient 5 empty_line_server)
           empty_line_server (sdsnew "GET fo"));
    [reflexivity | discriminate | exact Hlf].
Defined.
(** ** Finding a command *)

(** Every entry of the table is found under its name: no entry hides
    another. *)
Lemma cmdTable_names :
  Forall (λ cmd, ∀ name, cstr name = cmd_name cmd → lookupCommand name = Found cmd)
    cmdTable.
Proof.
  unfold cmdTable.
  repeat (apply Forall_cons_2; [cbn [cmd_name]; intros name Hname|]);
    [..|apply Forall_nil_2].
  all: unfold lookupCommand, cmdTable; cbn [lookupCommand_from cmd_name];
    unfold strcmp0; rewrite Hname;
    repeat match goal with
           | |- context [sds_eqb ?a ?b] =>
               let v := eval vm_compute in (sds_eqb a b) in
               change (sds_eqb a b) with v
           end;
    reflexivity.
Qed.

Lemma lookupCommand_from_name table name cmd :
  lookupCommand_from table name = Found cmd →
  cmd ∈ table ∧ cstr name = cstr (cmd_name cmd).
Proof.
  induction table as [|cmd' table IH]; [done|]. cbn [lookupCommand_from].
  unfold strcmp0, sds_eqb. destruct (bool_decide_reflect (cstr name = cstr (cmd_name cmd'))) as [E|E].
  - intros [= <-]. split; [left|done].
  - intros H. destruct (IH H) as [? ?]. split; [by right|done].
Qed.

Lemma cmdTable_names_cstr :
  Forall (λ cmd, cstr (cmd_name cmd) = cmd_name cmd
                 ∧ cmd_name cmd ≠ sdsnew "quit") cmdTable.
Proof.
  unfold cmdTable.
  repeat (apply Forall_cons_2; [cbn [cmd_name]; split; [reflexivity|discriminate]|]).
  apply Forall_nil_2.
Qed.

(** X25: a command is found by its name, whatever the case of its
    letters.  With [name] the first argv entry and [lower] its lower-case
    form: when [lower] is quit the client is freed; when it is the name of
    an entry of the command table that entry is the one that runs (no
    entry hides another), after the check of the number of arguments, which
    draws an error line and resets the client; when it is no name of the
    table, whose last entry has the empty name and not a NULL one, the scan
    of [lookupCommand] does not stop at the end of the table and the
    behaviour is undefined: the unknown command reply is not reached.  The
    name is left in argv in lower case. *)
Theorem commands_are_found_by_name c s name args :
  c_argv c = StringObject name :: args →
  let lower := sdstolower name in
  let c' := set_argv c (StringObject lower :: args) in
  (cstr lower = sdsnew "quit" → processCommand c s = Freed s)
  ∧ (∀ cmd, cmd ∈ cmdTable → cstr lower = cmd_name cmd →
       processCommand c s = processCommand c' s
       ∧ lookupCommand lower = Found cmd
       ∧ (cmd_arity cmd > 0 ∧ cmd_arity cmd ≠ argc c ∨ argc c < - cmd_arity cmd →
          processCommand c s
          = Alive (resetClient
                     (addReplySds c' (sdsnew "-ERR wrong number of arguments"
                                      ++ crlf_bytes))) s)
       ∧ (cmd_type cmd = REDIS_CMD_INLINE →
          ¬ (cmd_arity cmd > 0 ∧ cmd_arity cmd ≠ argc c ∨ argc c < - cmd_arity cmd) →
          processCommand c s = execCommand cmd c' s))
  ∧ (cstr lower ≠ sdsnew "quit" →
     (∀ cmd, cmd ∈ cmdTable → cstr lower ≠ cmd_name cmd) →
     lookupCommand lower = PastTable ∧ processCommand c s = Undefined)
  ∧ lookupCommand lower ≠ NotFound.
Proof.
  intros Hargv lower c'.
  assert (argc c' = argc c) as Hargc.
  { unfold argc, c'. cbn [c_argv set_argv]. by rewrite Hargv. }
  assert (processCommand c s
          = if strcmp0 lower (sdsnew "quit") then Freed s
            else match lookupCommand lower with
                 | PastTable => Undefined
                 | NotFound =>
                     Alive (resetClient
                              (addReplySds c' (sdsnew "-ERR unknown command"
                                               ++ crlf_bytes))) s
                 | Found cmd =>
                     if ((cmd_arity cmd >? 0) && negb (cmd_arity cmd =? argc c))
                        || (argc c <? - cmd_arity cmd)
                     then
                       Alive (resetClient
                                (addReplySds c' (sdsnew "-ERR wrong number of arguments"
                                                 ++ crlf_bytes))) s
                     else if negb (cmd_type cmd =? REDIS_CMD_BULK)
                     then execCommand cmd c' s
                     else processCommand c s
                 end) as Hproc.
  { destruct (strcmp0 lower (sdsnew "quit")) eqn:Hq;
      [|destruct (lookupCommand lower) as [cmd| |] eqn:Hcmd;
        [destruct (((cmd_arity cmd >? 0) && negb (cmd_arity cmd =? argc c))
                   || (argc c <? - cmd_arity cmd)) eqn:Har;
         [|destruct (cmd_type cmd =? REDIS_CMD_BULK) eqn:Ht; [done|]]| |]].
    all: unfold processCommand; rewrite Hargv;
      unfold argv_at; cbn [set_argv c_argv nth sds_ptr]; fold lower; rewrite Hq;
      try done; rewrite Hcmd; try done; fold c'; rewrite Hargc, Har; try done.
    by rewrite Ht. }
  assert (strcmp0 lower (sdsnew "quit") = bool_decide (cstr lower = sdsnew "quit"))
    as Hquit by done.
  assert (∀ table, lookupCommand_from table lower ≠ NotFound) as Hfrom.
  { induction table as [|cmd' table IH]; [done|]. cbn [lookupCommand_from].
    destruct (strcmp0 lower (cmd_name cmd')); [discriminate|exact IH]. }
  split; [|split; [|split; [|apply Hfrom]]].
  - intros Hq. rewrite Hproc, Hquit. by rewrite bool_decide_eq_true_2.
  - intros cmd Hin Hname.
    destruct (proj1 (Forall_forall _ _) cmdTable_names_cstr cmd Hin) as [_ Hnq].
    pose proof (proj1 (Forall_forall _ _) cmdTable_names cmd Hin lower Hname) as Hlook.
    assert (strcmp0 lower (sdsnew "quit") = false) as Hq.
    { rewrite Hquit. apply bool_decide_eq_false_2. by rewrite Hname. }
    split; [|split; [done|split]].
    + unfold processCommand. rewrite Hargv. unfold c'. cbn [c_argv set_argv sds_ptr].
      fold lower.
      replace (sdstolower lower) with lower
        by (unfold lower; by rewrite sdstolower_idem).
      reflexivity.
    + intros Har. rewrite Hproc, Hq, Hlook.
      assert (((cmd_arity cmd >? 0) && negb (cmd_arity cmd =? argc c))
              || (argc c <? - cmd_arity cmd) = true) as ->; [|done].
      apply orb_true_iff. destruct Har as [[H1 H2]|H].
      * left. apply andb_true_iff. split; [lia|].
        apply negb_true_iff. lia.
      * right. lia.
    + intros Ht Har. rewrite Hproc, Hq, Hlook, Ht.
      assert (((cmd_arity cmd >? 0) && negb (cmd_arity cmd =? argc c))
              || (argc c <? - cmd_arity cmd) = false) as ->; [|done].
      apply orb_false_iff. split.
      * apply andb_false_iff.
        destruct (Z.gtb_spec (cmd_arity cmd) 0); [|by left].
        destruct (Z.eqb_spec (cmd_arity cmd) (argc c)); [by right|].
        exfalso. apply Har. left. lia.
      * destruct (Z.ltb_spec (argc c) (- cmd_arity cmd)); [|done].
        exfalso. apply Har. by right.
  - intros Hq Hnone. rewrite Hproc, Hquit.
    rewrite bool_decide_eq_false_2 by done.
    destruct (lookupCommand lower) as [cmd| |] eqn:Hcmd; [| |done].
    + apply lookupCommand_from_name in Hcmd as [Hin Hname].
      destruct (proj1 (Forall_forall _ _) cmdTable_names_cstr cmd Hin) as [Hc _].
      exfalso. apply (Hnone cmd Hin). by rewrite Hname.
    + by destruct (Hfrom cmdTable).
Qed.

Lemma commands_are_found_by_name_witness :
  let s := empty_line_server in
  let c := set_argv (createClient 5 s) [StringObject (sdsnew "PiNg")] in
  let ping := mkCommand (sdsnew "ping") (returns pingCommand) 1 REDIS_CMD_INLINE in
  c_argv c = [StringObject (sdsnew "PiNg")]
  ∧ lookupCommand (sdstolower (sdsnew "PiNg")) = Found ping
  ∧ processCommand c s
    = execCommand ping (set_argv c [StringObject (sdstolower (sdsnew "PiNg"))]) s.
Proof.
  split; [reflexivity|].
  destruct (commands_are_found_by_name
              (set_argv (createClient 5 empty_line_server)
                 [StringObject (sdsnew "PiNg")])
              empty_line_server (sdsnew "PiNg") [] eq_refl) as (_ & H & _).
  destruct (H (mkCommand (sdsnew "ping") (returns pingCommand) 1 REDIS_CMD_INLINE))
    as (_ & H1 & _ & H2).
  - unfold cmdTable.
    repeat first [apply list_elem_of_here | apply list_elem_of_further].
  - reflexivity.
  - split; [exact H1|]. apply H2; [reflexivity|].
    vm_compute. intros [[_ Hne]|Hlt]; [by apply Hne|discriminate].
Defined.

(** ** Commands sent in one write *)

Lemma keys_loop_time pattern entries : ∀ c numkeys keyslen c' n l,
  keys_loop pattern entries c numkeys keyslen = Some (c', n, l) →
  c_lastinteraction c' = c_lastinteraction c.
Proof.
  induction entries as [|[key o] entries IH]; intros c numkeys keyslen c' n l.
  { by intros [= <- _ _]. }
  cbn [keys_loop].
  destruct (if sds_eqb _ _ then _ else _) as [[|]|]; [|apply IH|done].
  intros H. apply IH in H. rewrite H. by destruct (negb _).
Qed.

Lemma sinter_loop_time others entries : ∀ c cardinality,
  c_lastinteraction (sinter_loop others entries c cardinality).1
  = c_lastinteraction c.
Proof.
  induction entries as [|[key o] entries IH]; intros c cardinality; [done|].
  cbn [sinter_loop]. destruct (forallb _ _); [|apply IH].
  by rewrite IH.
Qed.

Lemma lrange_loop_time n : ∀ ln c,
  c_lastinteraction (lrange_loop n ln c) = c_lastinteraction c.
Proof.
  induction n as [|n IH]; intros ln c; [by destruct ln|].
  destruct ln as [|ele next]; [done|]. cbn [lrange_loop]. by rewrite IH.
Qed.

Ltac time_cases :=
  cbv zeta;
  repeat match goal with
         | |- context [match ?x with _ => _ end] => destruct x
         | |- context [if ?x then _ else _] => destruct x
         end;
  split; reflexivity.

(** A command procedure leaves the time of the last interaction and the
    clock of the server alone. *)
Lemma table_procs_time :
  Forall (λ p, ∀ c s,
            c_lastinteraction (p.2 c s).1 = c_lastinteraction c
            ∧ s_time (p.2 c s).2 = s_time s)
    table_procs.
Proof.
  unfold table_procs.
  repeat (apply Forall_cons_2; [cbn [fst snd]; intros c s|]);
    [..|apply Forall_nil_2].
  all: try (unfold getCommand, setCommand, setnxCommand, setGenericCommand,
      delCommand, existsCommand, incrCommand, decrCommand, incrbyCommand,
      decrbyCommand, incrDecrCommand, rpushCommand, lpushCommand,
      pushGenericCommand, rpopCommand, lpopCommand, popGenericCommand,
      llenCommand, lindexCommand, lsetCommand, ltrimCommand,
      saddCommand, sremCommand, sismemberCommand, scardCommand,
      randomkeyCommand, selectDb, renameCommand, renamenxCommand,
      renameGenericCommand, moveCommand, dbsizeCommand, pingCommand,
      echoCommand, lastsaveCommand, typeCommand, saveCommand, saveDb,
      bgsaveCommand, saveDbBackground, dictFind, dictAdd, dictReplace,
      dictDelete, key_at, argv_at;
      time_cases).
  - unfold lrangeCommand, dictFind.
    destruct (client_dict c s !! _) as [[?|l|?]|]; try done.
    cbv zeta. destruct (_ || _); [done|].
    cbn [fst snd]. split; [|done]. by rewrite lrange_loop_time.
  - unfold sinterCommand.
    destruct (sinter_gather _ _) as [e|dv]; [done|]. cbv zeta.
    match goal with
    | |- context [sinter_loop ?o ?e ?c0 ?n0] =>
        pose proof (sinter_loop_time o e c0 n0) as H;
        destruct (sinter_loop o e c0 n0) as [c' n]
    end.
    cbn [fst snd] in *. split; [|done]. exact H.
  - unfold sinterCommand.
    destruct (sinter_gather _ _) as [e|dv]; [done|]. cbv zeta.
    match goal with
    | |- context [sinter_loop ?o ?e ?c0 ?n0] =>
        pose proof (sinter_loop_time o e c0 n0) as H;
        destruct (sinter_loop o e c0 n0) as [c' n]
    end.
    cbn [fst snd] in *. split; [|done]. exact H.
  - unfold saveCommand, saveDb. by destruct (rdb_image _).
Qed.

Lemma cmdTable_time cmd c s c' s' :
  cmd ∈ cmdTable →
  cmd_proc cmd c s = Alive c' s' →
  c_lastinteraction c' = c_lastinteraction c ∧ s_time s' = s_time s.
Proof.
  intros Hin Hrun.
  destruct (proj1 (Forall_forall _ _) cmdTable_procs cmd Hin)
    as [[_ Hproc]|[[_ Hproc]|[[_ Hproc]|[Hproc|(f & Hproc & Hf)]]]];
    rewrite Hproc in Hrun.
  - unfold shutdownCommand, saveDb in Hrun.
    destruct (rdb_image _); [done|].
    change (REDIS_ERR =? REDIS_OK) with false in Hrun. cbv iota in Hrun.
    by injection Hrun as <- <-.
  - unfold selectCommand, selectDb in Hrun. cbv zeta in Hrun.
    destruct (_ || _); [done|].
    change (REDIS_OK =? REDIS_ERR) with false in Hrun. cbv iota in Hrun.
    by injection Hrun as <- <-.
  - unfold keysCommand in Hrun. cbv zeta in Hrun.
    destruct (keys_loop _ _ _ _ _) as [[[c1 n] l]|] eqn:Hloop; [|done].
    apply keys_loop_time in Hloop. injection Hrun as <- <-.
    split; [|done]. exact Hloop.
  - done.
  - pose proof (proj1 (Forall_forall _ _) table_procs_time _ Hf c s) as Ht.
    cbn [fst snd] in Ht. unfold returns in Hrun. injection Hrun as <- <-.
    exact Ht.
Qed.

(** After a command that takes no bulk argument the client is ready for
    the next one. *)
Lemma processCommand_inline_alive c s c' s' :
  (∀ cmd, lookupCommand (sdstolower (sds_ptr (argv_at c 0))) = Found cmd →
          cmd_type cmd = REDIS_CMD_INLINE) →
  processCommand c s = Alive c' s' →
  c_argv c' = [] ∧ c_bulklen c' = -1
  ∧ c_lastinteraction c' = c_lastinteraction c ∧ s_time s' = s_time s.
Proof.
  intros Hinline. unfold processCommand.
  destruct (c_argv c) as [|argv0 args] eqn:Hargv; [done|].
  cbv zeta.
  assert (argv_at c 0 = argv0) as Ha0 by (unfold argv_at; by rewrite Hargv).
  rewrite Ha0 in Hinline.
  change (sds_ptr (argv_at (set_argv c (StringObject ?n :: args)) 0)) with n.
  destruct (strcmp0 _ _); [done|].
  destruct (lookupCommand _) as [cmd| |] eqn:Hcmd; [| |done].
  2:{ intros [= <- <-]. by destruct c. }
  destruct (_ || _).
  { intros [= <- <-]. by destruct c. }
  rewrite (Hinline cmd eq_refl).
  change (REDIS_CMD_INLINE =? REDIS_CMD_BULK) with false. cbn [andb].
  unfold execCommand.
  destruct (cmd_proc cmd _ s) as [c1 s1| | |] eqn:Hrun; [|done..].
  intros [= <- <-].
  apply cmdTable_time in Hrun as [Hl Ht].
  2:{ apply lookupCommand_from_name in Hcmd. tauto. }
  by repeat split.
Qed.

Lemma set_lastinteraction_id c :
  set_lastinteraction c (c_lastinteraction c) = c.
Proof. by destruct c. Qed.

(** One round from the label [again]: a complete line at the head of the
    buffer is taken out and run. *)
Lemma readQuery_again_line fuel c s tokens rest :
  c_bulklen c = -1 →
  tokens ≠ [] →
  Forall clean_token tokens →
  c_querybuf c = wire_line tokens ++ rest →
  readQuery_again (S fuel) c s
  = match processCommand
            (set_argv (set_querybuf c rest)
               (c_argv c ++ (StringObject <$> take REDIS_MAX_ARGS tokens))) s with
    | Alive c' s' =>
        if negb (sdslen (c_querybuf c') =? 0) then readQuery_again fuel c' s'
        else Alive c' s'
    | o => o
    end.
Proof.
  intros Hbulk Hne Htok Hq. cbn [readQuery_again]. rewrite Hbulk.
  change (-1 =? -1) with true. cbv iota.
  set (line := join_tokens tokens).
  assert (Forall (λ ch, ch ≠ LF ∧ ch ≠ CR ∧ ch ≠ NUL) line) as Hline.
  { apply join_tokens_chars; [by repeat split|].
    eapply Forall_impl; [exact Htok|]. intros t [_ Ht].
    eapply Forall_impl; [exact Ht|]. by intros ch (_ & ? & ? & ?). }
  assert (c_querybuf c = (line ++ [CR]) ++ LF :: rest) as Hq'.
  { rewrite Hq. unfold wire_line, crlf_bytes. fold line.
    by rewrite <- !app_assoc. }
  rewrite Hq'. rewrite strchr_line.
  2:{ apply Forall_app. split.
      - eapply Forall_impl; [exact Hline|]. by intros ? (? & _ & ?).
      - by repeat constructor. }
  assert (drop (S (length (line ++ [CR]))) ((line ++ [CR]) ++ LF :: rest) = rest)
    as ->.
  { change (LF :: rest) with ([LF] ++ rest). rewrite app_assoc.
    rewrite drop_app_length'; [done|]. rewrite !length_app. simpl. lia. }
  assert (query_line ((line ++ [CR]) ++ LF :: rest) (length (line ++ [CR])) = line)
    as ->.
  { rewrite <- app_assoc. cbn [app].
    replace (length (line ++ [CR])) with (S (length line))
      by (rewrite length_app; simpl; lia).
    apply query_line_crlf. eapply Forall_impl; [exact Hline|]. by intros ? (_ & _ & ?). }
  rewrite sdslen_nonempty by by apply join_tokens_nonempty.
  unfold line. rewrite sdssplitlen_join; [|done|].
  2:{ eapply Forall_impl; [exact Htok|]. intros t [_ Ht].
      eapply Forall_impl; [exact Ht|]. by intros ch (? & _). }
  rewrite query_args_clean by done.
  reflexivity.
Qed.

Lemma wire_line_nonempty tokens : wire_line tokens ≠ [].
Proof. unfold wire_line, crlf_bytes. by destruct (join_tokens tokens). Qed.

Lemma readQueryFromClient_lastinteraction buf c s :
  readQueryFromClient (ReadData buf) (set_lastinteraction c (s_time s)) s
  = readQueryFromClient (ReadData buf) c s.
Proof. by destruct c. Qed.

(** The rounds from the label [again] on a buffer of complete lines do
    what as many reads of one line each do. *)
Lemma readQuery_again_lines lines : ∀ c s fuel,
  c_bulklen c = -1 → c_argv c = [] → c_querybuf c = [] →
  c_lastinteraction c = s_time s →
  Forall (λ t, t ≠ [] ∧ Forall clean_token t ∧ inline_command t) lines →
  lines ≠ [] →
  (length (concat (wire_line <$> lines)) < fuel)%nat →
  readQuery_again fuel (set_querybuf c (concat (wire_line <$> lines))) s
  = feed (wire_line <$> lines) c s.
Proof.
  induction lines as [|tokens lines IH];
    intros c s fuel Hbulk Hargv Hq Hlast Hlines Hnil Hfuel; [done|].
  clear Hnil.
  apply Forall_cons in Hlines as [(Hne & Htok & Hinline) Hlines].
  destruct fuel as [|fuel]; [lia|].
  cbn [fmap list_fmap concat feed] in *.
  set (rest := concat (wire_line <$> lines)) in *.
  set (cA := set_argv c (StringObject <$> take REDIS_MAX_ARGS tokens)).
  assert (∀ cmd, lookupCommand (sdstolower (sds_ptr (argv_at cA 0))) = Found cmd →
                 cmd_type cmd = REDIS_CMD_INLINE) as HinlineA.
  { intros cmd. destruct tokens as [|t0 tokens]; [done|]. apply Hinline. }
  (* one read of the first line *)
  assert (readQueryFromClient (ReadData (wire_line tokens)) c s
          = match processCommand cA s with
            | Alive c' s' => Alive c' s'
            | o => o
            end) as ->.
  { unfold readQueryFromClient.
    rewrite sdslen_nonempty by apply wire_line_nonempty.
    unfold sdscatlen. rewrite Hq. cbn [app].
    rewrite (readQuery_again_line _ _ s tokens []); try done.
    2:{ cbn. by rewrite app_nil_r. }
    assert (set_argv
              (set_querybuf
                 (set_lastinteraction (set_querybuf c (wire_line tokens)) (s_time s))
                 [])
              (c_argv
                 (set_lastinteraction (set_querybuf c (wire_line tokens)) (s_time s))
               ++ (StringObject <$> take REDIS_MAX_ARGS tokens)) = cA) as ->.
    { unfold cA. destruct c. cbn in *. by subst. }
    destruct (processCommand cA s) as [c' s'| | |] eqn:Hrun; try done.
    apply processCommand_keeps_empty in Hrun; [|unfold cA; by destruct c].
    by rewrite Hrun. }
  (* the first round on the whole buffer *)
  rewrite (readQuery_again_line _ _ s tokens rest); try done.
  assert (set_argv
            (set_querybuf (set_querybuf c (wire_line tokens ++ rest)) rest)
            (c_argv (set_querybuf c (wire_line tokens ++ rest))
             ++ (StringObject <$> take REDIS_MAX_ARGS tokens))
          = set_querybuf cA rest) as ->.
  { unfold cA. destruct c. cbn in *. by subst. }
  rewrite processCommand_querybuf.
  2:{ intros cmd Hcmd Hb. rewrite (HinlineA cmd Hcmd) in Hb. done. }
  destruct (processCommand cA s) as [c' s'| | |] eqn:Hrun; try done.
  cbn [outcome_with_querybuf].
  pose proof (processCommand_keeps_empty cA s c' s') as Hempty.
  specialize (Hempty ltac:(unfold cA; by destruct c) Hrun).
  destruct (processCommand_inline_alive cA s c' s' HinlineA Hrun)
    as (Hargv' & Hbulk' & Hlast' & Htime').
  change (c_querybuf (set_querybuf c' rest)) with rest.
  destruct lines as [|tokens' lines].
  - subst rest. cbn [fmap list_fmap concat feed].
    change (sdslen [] =? 0) with true. cbn [negb].
    f_equal. destruct c'. cbn in *. by subst.
  - rewrite sdslen_nonempty.
    2:{ unfold rest. cbn. pose proof (wire_line_nonempty tokens').
        by destruct (wire_line tokens'). }
    cbn [negb]. apply IH; try done.
    + rewrite Hlast', Htime'. unfold cA. by destruct c.
    + rewrite length_app in Hfuel.
      pose proof (wire_line_nonempty tokens).
      destruct (wire_line tokens); [done|]. simpl in Hfuel. lia.
Qed.

(** Whether a line is that of a command without bulk argument is decided
    on the names and types of the table. *)
Lemma inline_command_check tokens :
  forallb (λ cmd, negb (sds_eqb (cstr (sdstolower (hd [] tokens)))
                           (cstr (cmd_name cmd)))
                  || (cmd_type cmd =? REDIS_CMD_INLINE)) cmdTable = true →
  inline_command tokens.
Proof.
  intros H cmd Hcmd. apply lookupCommand_from_name in Hcmd as [Hin Hname].
  rewrite forallb_forall in H. apply list_elem_of_In in Hin.
  specialize (H cmd Hin). apply orb_true_iff in H as [H|H].
  - apply negb_true_iff in H. unfold sds_eqb in H.
    by apply bool_decide_eq_false_1 in H.
  - by apply Z.eqb_eq in H.
Qed.

(** X26: commands sent in one write are run as if sent one by one.  A
    client between two commands that reads, in a single read, several
    complete lines of commands that take no bulk argument (well-formed
    tokens, CR LF after each line) is left, with the server, as by as many
    reads of one line each: every command runs in order on the state the
    one before it left, and a command that closes the connection or ends
    the process stops the run. *)
Theorem pipelined_commands_run_in_order c s lines :
  c_bulklen c = -1 → c_argv c = [] → c_querybuf c = [] →
  lines ≠ [] →
  Forall (λ tokens, tokens ≠ [] ∧ Forall clean_token tokens
                    ∧ inline_command tokens) lines →
  readQueryFromClient (ReadData (concat (wire_line <$> lines))) c s
  = feed (wire_line <$> lines) c s.
Proof.
  intros Hbulk Hargv Hq Hne Hlines.
  transitivity (feed (wire_line <$> lines) (set_lastinteraction c (s_time s)) s).
  2:{ destruct lines as [|tokens lines]; [done|].
      cbn [fmap list_fmap feed]. by rewrite readQueryFromClient_lastinteraction. }
  unfold readQueryFromClient.
  rewrite sdslen_nonempty.
  2:{ destruct lines as [|tokens lines]; [done|]. cbn.
      pose proof (wire_line_nonempty tokens). by destruct (wire_line tokens). }
  unfold sdscatlen. rewrite Hq. cbn [app].
  rewrite <- (readQuery_again_lines lines (set_lastinteraction c (s_time s)) s
                (S (length (concat (wire_line <$> lines))))); try done.
  lia.
Qed.

Lemma pipelined_commands_run_in_order_witness :
  let s := empty_line_server in
  let c := createClient 5 s in
  let lines := [[sdsnew "PING"]; [sdsnew "EXISTS"; sdsnew "k"];
                [sdsnew "GET"]; [sdsnew "DBSIZE"]] in
  Forall (λ tokens, tokens ≠ [] ∧ Forall clean_token tokens
                    ∧ inline_command tokens) lines
  ∧ readQueryFromClient (ReadData (concat (wire_line <$> lines))) c s
    = feed (wire_line <$> lines) c s
  ∧ reply_of (readQueryFromClient (ReadData (concat (wire_line <$> lines))) c s)
    = wire ["+PONG"; "0"; "-ERR wrong number of arguments"; "0"]%string.
Proof.
  intros s c lines.
  assert (Forall (λ tokens, tokens ≠ [] ∧ Forall clean_token tokens
                            ∧ inline_command tokens) lines) as Hlines.
  { repeat (apply Forall_cons_2; [|]); [..|apply Forall_nil_2].
    all: split; [discriminate|split].
    all: try (repeat constructor; discriminate).
    all: apply inline_command_check; vm_compute; reflexivity. }
  split; [exact Hlines|]. split.
  - exact (pipelined_commands_run_in_order c s lines eq_refl eq_refl eq_refl
             ltac:(discriminate) Hlines).
  - vm_compute. reflexivity.
Defined.

(** ** Bulk commands *)

Lemma lookupCommand_not_quit name cmd :
  lookupCommand name = Found cmd →
  cmd ∈ cmdTable ∧ strcmp0 name (sdsnew "quit") = false.
Proof.
  intros Hcmd. apply lookupCommand_from_name in Hcmd as [Hin Hname].
  split; [done|].
  destruct (proj1 (Forall_forall _ _) cmdTable_names_cstr cmd Hin) as [Hc Hq].
  unfold strcmp0, sds_eqb. apply bool_decide_eq_false_2.
  rewrite Hname, Hc. exact Hq.
Qed.

(** The header line of a bulk command in argv: the payload is taken from
    the buffer when it is all there, and waited for otherwise. *)
Lemma processCommand_bulk_header cl s cmd name args count :
  c_argv cl = StringObject <$> name :: args ++ [count] →
  c_bulklen cl = -1 →
  lookupCommand (sdstolower name) = Found cmd →
  cmd_type cmd = REDIS_CMD_BULK →
  cmd_arity cmd = Z.of_nat (length args) + 2 →
  0 <= atoi count <= 1024 * 1024 * 1024 →
  sdslen (c_querybuf cl) <= INT_MAX →
  processCommand cl s
  = let n := atoi count in
    let cw := set_bulklen
                (set_argv cl (StringObject <$> sdstolower name :: args)) (n + 2) in
    if sdslen (c_querybuf cl) >=? n + 2 then
      execCommand cmd
        (set_querybuf
           (set_argv cw
              (c_argv cw ++ [StringObject (take (Z.to_nat n) (c_querybuf cl))]))
           (drop (Z.to_nat (n + 2)) (c_querybuf cl))) s
    else Alive cw s.
Proof.
  intros Hargv Hbulk Hcmd Htype Harity Hn Hlen.
  destruct (lookupCommand_not_quit _ _ Hcmd) as [Hin Hquit].
  unfold processCommand. rewrite Hargv.
  cbn [fmap list_fmap sds_ptr]. cbv zeta.
  change (sds_ptr (argv_at (set_argv cl (StringObject ?n :: ?a)) 0)) with n.
  rewrite Hquit, Hcmd. rewrite fmap_app. cbn [fmap list_fmap].
  set (largs := StringObject <$> args).
  unfold argc, argv_at. cbn [c_argv set_argv c_bulklen c_querybuf].
  rewrite nth_snoc, removelast_snoc. cbn [sds_ptr].
  assert (Z.of_nat (length (StringObject (sdstolower name)
                            :: largs ++ [StringObject count]))
          = cmd_arity cmd) as ->.
  { rewrite Harity. simpl length. unfold largs.
    rewrite length_app, length_fmap. simpl. lia. }
  assert (((cmd_arity cmd >? 0) && negb (cmd_arity cmd =? cmd_arity cmd)
           || (cmd_arity cmd <? - cmd_arity cmd)) = false) as ->.
  { rewrite Z.eqb_refl. cbn [negb]. rewrite andb_false_r. cbn [orb].
    apply Z.ltb_ge. lia. }
  rewrite Htype, Hbulk.
  change ((REDIS_CMD_BULK =? REDIS_CMD_BULK) && (-1 =? -1)) with true. cbv iota.
  assert (((atoi count <? 0) || (atoi count >? 1024 * 1024 * 1024)) = false) as ->.
  { apply orb_false_iff. split; [apply Z.ltb_ge | rewrite Z.gtb_ltb; apply Z.ltb_ge]; lia. }
  rewrite (to_int_id (atoi count + 2)) by (unfold INT_MIN, INT_MAX; lia).
  cbn [c_querybuf c_bulklen c_argv set_bulklen set_argv set_querybuf].
  rewrite (to_int_id (sdslen (c_querybuf cl)))
    by (pose proof (sdslen_nonneg (c_querybuf cl)); unfold INT_MIN, INT_MAX in *; lia).
  unfold createStringObject, sdsnewlen, sdsrange_from.
  replace (atoi count + 2 - 2) with (atoi count) by lia.
  reflexivity.
Qed.

(** The payload of a bulk command in argv: the command runs. *)
Lemma processCommand_bulk_payload cl s cmd name args payload :
  c_argv cl = StringObject <$> sdstolower name :: args ++ [payload] →
  c_bulklen cl ≠ -1 →
  lookupCommand (sdstolower name) = Found cmd →
  cmd_arity cmd = Z.of_nat (length args) + 2 →
  processCommand cl s = execCommand cmd cl s.
Proof.
  intros Hargv Hbulk Hcmd Harity.
  destruct (lookupCommand_not_quit _ _ Hcmd) as [Hin Hquit].
  unfold processCommand. rewrite Hargv.
  cbn [fmap list_fmap sds_ptr]. cbv zeta.
  change (sds_ptr (argv_at (set_argv cl (StringObject ?n :: ?a)) 0)) with n.
  rewrite sdstolower_idem, Hquit, Hcmd.
  assert (set_argv cl (StringObject (sdstolower name)
                       :: (StringObject <$> args ++ [payload])) = cl) as ->.
  { destruct cl. cbn in *. by subst. }
  assert (argc cl = cmd_arity cmd) as ->.
  { unfold argc. rewrite Hargv, Harity. simpl length.
    rewrite length_fmap, length_app. simpl. lia. }
  assert (((cmd_arity cmd >? 0) && negb (cmd_arity cmd =? cmd_arity cmd)
           || (cmd_arity cmd <? - cmd_arity cmd)) = false) as ->.
  { rewrite Z.eqb_refl. cbn [negb]. rewrite andb_false_r. cbn [orb].
    apply Z.ltb_ge. lia. }
  assert ((c_bulklen cl =? -1) = false) as -> by by apply Z.eqb_neq.
  by rewrite andb_false_r.
Qed.

Lemma cmdTable_arity :
  Forall (λ cmd, cmd_arity cmd <= Z.of_nat REDIS_MAX_ARGS) cmdTable.
Proof.
  unfold cmdTable.
  repeat (apply Forall_cons_2; [cbn [cmd_arity]; unfold REDIS_MAX_ARGS; lia|]).
  apply Forall_nil_2.
Qed.

Lemma execCommand_done cmd c s :
  cmd ∈ cmdTable → c_querybuf c = [] →
  match execCommand cmd c s with
  | Alive c' s' =>
      ∀ fuel, (if negb (sdslen (c_querybuf c') =? 0)
               then readQuery_again fuel c' s' else Alive c' s') = Alive c' s'
  | _ => True
  end.
Proof.
  intros Hin Hq. destruct (execCommand cmd c s) as [c' s'| | |] eqn:Hrun; try done.
  apply execCommand_keeps_querybuf in Hrun; [|done].
  intros fuel. by rewrite Hrun, Hq.
Qed.

(** The round that reads the header line of a bulk command whose payload,
    with the two bytes after it, is in the buffer too. *)
Lemma readQuery_again_bulk_whole fuel c0 s cmd name args count payload tail :
  c_bulklen c0 = -1 → c_argv c0 = [] →
  Forall clean_token (name :: args ++ [count]) →
  lookupCommand (sdstolower name) = Found cmd →
  cmd_type cmd = REDIS_CMD_BULK →
  cmd_arity cmd = Z.of_nat (length args) + 2 →
  atoi count = sdslen payload →
  sdslen payload <= 1024 * 1024 * 1024 →
  length tail = 2%nat →
  c_querybuf c0 = wire_line (name :: args ++ [count]) ++ payload ++ tail →
  readQuery_again (S fuel) c0 s
  = execCommand cmd
      (bulk_ready (set_querybuf c0 []) (c_lastinteraction c0)
         (sdstolower name :: args) payload) s.
Proof.
  intros Hbulk Hargv Htok Hcmd Htype Harity Hcount Hmax Htail Hq.
  destruct (lookupCommand_not_quit _ _ Hcmd) as [Hin _].
  pose proof (proj1 (Forall_forall _ _) cmdTable_arity cmd Hin) as Hmaxargs.
  cbv beta in Hmaxargs.
  pose proof (sdslen_nonneg payload) as Hp0.
  rewrite (readQuery_again_line fuel c0 s (name :: args ++ [count]) (payload ++ tail));
    try done.
  rewrite take_ge.
  2:{ simpl length. rewrite length_app. simpl. lia. }
  rewrite Hargv. cbn [app].
  rewrite (processCommand_bulk_header _ s cmd name args count); try done.
  2:{ lia. }
  2:{ cbn [c_querybuf set_argv set_querybuf]. unfold sdslen, INT_MAX in *.
      rewrite length_app, Htail. lia. }
  cbv zeta. cbn [c_querybuf set_argv set_querybuf set_bulklen c_argv].
  rewrite Hcount.
  assert ((sdslen (payload ++ tail) >=? sdslen payload + 2) = true) as ->.
  { rewrite Z.geb_leb. apply Z.leb_le. unfold sdslen.
    rewrite length_app, Htail. lia. }
  assert (take (Z.to_nat (sdslen payload)) (payload ++ tail) = payload) as ->.
  { unfold sdslen. rewrite Nat2Z.id. by rewrite take_app_length. }
  assert (drop (Z.to_nat (sdslen payload + 2)) (payload ++ tail) = []) as ->.
  { apply drop_ge. unfold sdslen. rewrite length_app, Htail. lia. }
  match goal with
  | |- match execCommand cmd ?x s with _ => _ end = execCommand cmd ?y s =>
      assert (x = y) as ->
  end.
  { clear. unfold bulk_ready. rewrite fmap_app.
    by destruct c0. }
  pose proof (execCommand_done cmd
                (bulk_ready (set_querybuf c0 []) (c_lastinteraction c0)
                   (sdstolower name :: args) payload) s Hin eq_refl) as Hdone.
  destruct (execCommand cmd _ s) as [c' s'| | |]; try done.
Qed.

(** The round that reads the header line when the payload is not all
    there: the client waits in bulk mode. *)
Lemma readQuery_again_bulk_wait fuel c0 s cmd name args count q1 :
  c_bulklen c0 = -1 → c_argv c0 = [] →
  Forall clean_token (name :: args ++ [count]) →
  lookupCommand (sdstolower name) = Found cmd →
  cmd_type cmd = REDIS_CMD_BULK →
  cmd_arity cmd = Z.of_nat (length args) + 2 →
  0 <= atoi count <= 1024 * 1024 * 1024 →
  sdslen q1 < atoi count + 2 →
  c_querybuf c0 = wire_line (name :: args ++ [count]) ++ q1 →
  readQuery_again (S (S fuel)) c0 s
  = Alive (set_bulklen
             (set_argv (set_querybuf c0 q1) (StringObject <$> sdstolower name :: args))
             (atoi count + 2)) s.
Proof.
  intros Hbulk Hargv Htok Hcmd Htype Harity Hcount Hshort Hq.
  destruct (lookupCommand_not_quit _ _ Hcmd) as [Hin _].
  pose proof (proj1 (Forall_forall _ _) cmdTable_arity cmd Hin) as Hmaxargs.
  cbv beta in Hmaxargs.
  pose proof (sdslen_nonneg q1) as Hq0.
  rewrite (readQuery_again_line (S fuel) c0 s (name :: args ++ [count]) q1);
    try done.
  rewrite take_ge.
  2:{ simpl length. rewrite length_app. simpl. lia. }
  rewrite Hargv. cbn [app].
  rewrite (processCommand_bulk_header _ s cmd name args count); try done.
  2:{ cbn [c_querybuf set_argv set_querybuf]. unfold INT_MAX. lia. }
  cbv zeta. cbn [c_querybuf set_argv set_querybuf set_bulklen c_argv].
  assert ((sdslen q1 >=? atoi count + 2) = false) as ->.
  { rewrite Z.geb_leb. apply Z.leb_gt. lia. }
  cbn [readQuery_again c_bulklen set_bulklen c_querybuf set_argv set_querybuf].
  assert ((atoi count + 2 =? -1) = false) as -> by (apply Z.eqb_neq; lia).
  rewrite (to_int_id (sdslen q1)) by (unfold INT_MIN, INT_MAX; lia).
  assert ((atoi count + 2 <=? sdslen q1) = false) as -> by (apply Z.leb_gt; lia).
  destruct (negb _); f_equal; clear; by destruct c0.
Qed.

(** The round that finds the payload of a waiting bulk command in the
    buffer. *)
Lemma readQuery_again_bulk_payload fuel c1 s cmd name args payload tail :
  c_argv c1 = StringObject <$> sdstolower name :: args →
  c_bulklen c1 = sdslen payload + 2 →
  c_querybuf c1 = payload ++ tail →
  length tail = 2%nat →
  sdslen payload <= 1024 * 1024 * 1024 →
  lookupCommand (sdstolower name) = Found cmd →
  cmd_arity cmd = Z.of_nat (length args) + 2 →
  readQuery_again (S fuel) c1 s
  = execCommand cmd
      (set_querybuf
         (set_argv c1 (StringObject <$> sdstolower name :: args ++ [payload])) [])
      s.
Proof.
  intros Hargv Hbulk Hq Htail Hmax Hcmd Harity.
  pose proof (sdslen_nonneg payload) as Hp0.
  cbn [readQuery_again]. rewrite Hbulk.
  assert ((sdslen payload + 2 =? -1) = false) as -> by (apply Z.eqb_neq; lia).
  rewrite Hq.
  assert (sdslen (payload ++ tail) = sdslen payload + 2) as Hlen.
  { unfold sdslen. rewrite length_app, Htail. lia. }
  rewrite Hlen. rewrite to_int_id by (unfold INT_MIN, INT_MAX; lia).
  rewrite Z.leb_refl.
  unfold createStringObject, sdsnewlen, sdsrange_from.
  replace (sdslen payload + 2 - 2) with (sdslen payload) by lia.
  assert (take (Z.to_nat (sdslen payload)) (payload ++ tail) = payload) as ->.
  { unfold sdslen. rewrite Nat2Z.id. by rewrite take_app_length. }
  cbn [c_bulklen c_querybuf set_argv]. rewrite Hbulk, Hq.
  assert (drop (Z.to_nat (sdslen payload + 2)) (payload ++ tail) = []) as ->.
  { apply drop_ge. unfold sdslen. rewrite length_app, Htail. lia. }
  rewrite Hargv.
  assert ((StringObject <$> sdstolower name :: args) ++ [StringObject payload]
          = StringObject <$> sdstolower name :: args ++ [payload]) as ->.
  { by rewrite (fmap_app _ (sdstolower name :: args) [payload]). }
  apply (processCommand_bulk_payload _ s cmd name args payload); try done.
  cbn [c_bulklen set_querybuf set_argv]. lia.
Qed.

Lemma cstr_elem_of ch s : ch ∈ cstr s → ch ∈ s.
Proof.
  induction s as [|x s IH]; [done|]. cbn [cstr].
  destruct (Ascii.eqb x NUL); [by intros ?%elem_of_nil|].
  intros [->|H]%elem_of_cons; [left|right; auto].
Qed.

(** X27: a bulk command gets its payload however the bytes arrive.  For a
    client between two commands and a request made of the header line of a
    bulk command (name, arguments, byte count; CR LF), the payload of that
    many bytes, any bytes at all, and two more bytes: read at once, the
    request runs the command once, with the lower-cased name, the
    arguments and the payload as argv, and leaves nothing in the buffer;
    the two bytes after the payload are dropped without being looked at.
    Cut anywhere into two reads, the first read leaves the client alive
    with no reply added and the server as it was, and the second gives the
    very outcome of the single read. *)
Theorem bulk_command_reads_its_payload c s cmd name args count payload tail :
  c_bulklen c = -1 → c_argv c = [] → c_querybuf c = [] →
  Forall clean_token (name :: args ++ [count]) →
  lookupCommand (sdstolower name) = Found cmd →
  cmd_type cmd = REDIS_CMD_BULK →
  cmd_arity cmd = Z.of_nat (length args) + 2 →
  atoi count = sdslen payload →
  sdslen payload <= 1024 * 1024 * 1024 →
  length tail = 2%nat →
  let header := wire_line (name :: args ++ [count]) in
  let run := execCommand cmd
               (bulk_ready c (s_time s) (sdstolower name :: args) payload) s in
  readQueryFromClient (ReadData (header ++ payload ++ tail)) c s = run
  ∧ (sdslen header <= 1024 →
     ∀ d1 d2, d1 ≠ [] → d2 ≠ [] → d1 ++ d2 = header ++ payload ++ tail →
       ∃ c1, readQueryFromClient (ReadData d1) c s = Alive c1 s
             ∧ c_reply c1 = c_reply c
             ∧ readQueryFromClient (ReadData d2) c1 s = run).
Proof.
  intros Hbulk Hargv Hq Htok Hcmd Htype Harity Hcount Hmax Htail header run.
  pose proof (sdslen_nonneg payload) as Hp0.
  pose proof (wire_line_nonempty (name :: args ++ [count])) as Hheader.
  fold header in Hheader.
  assert (∀ c0 fuel,
            c_bulklen c0 = -1 → c_argv c0 = [] →
            c_querybuf c0 = header ++ payload ++ tail →
            set_lastinteraction (set_querybuf c0 []) (s_time s)
            = set_lastinteraction c (s_time s) →
            c_lastinteraction c0 = s_time s →
            readQuery_again (S fuel) c0 s = run) as Hwhole.
  { intros c0 fuel Hb0 Ha0 Hq0 Hsame Hl0.
    rewrite (readQuery_again_bulk_whole fuel c0 s cmd name args count payload tail);
      try done.
    unfold run, bulk_ready. by rewrite Hl0, Hsame. }
  split.
  { unfold readQueryFromClient.
    rewrite sdslen_nonempty by (by destruct header).
    unfold sdscatlen. rewrite Hq. cbn [app].
    apply Hwhole; try done.
    clear -Hq. destruct c. cbn in Hq. by subst. }
  intros Hshort d1 d2 Hd1 Hd2 Hsplit.
  assert (∀ k, d1 = header ++ k → payload ++ tail = k ++ d2 →
               ∃ c1, readQueryFromClient (ReadData d1) c s = Alive c1 s
                     ∧ c_reply c1 = c_reply c
                     ∧ readQueryFromClient (ReadData d2) c1 s = run) as Hafter.
  { intros k -> Hrest.
    assert (sdslen k < sdslen payload + 2) as Hk.
    { assert (sdslen (payload ++ tail) = sdslen k + sdslen d2) as Hl
        by (rewrite Hrest; unfold sdslen; rewrite length_app; lia).
      unfold sdslen in *. rewrite length_app, Htail in Hl.
      destruct d2; [done|]. simpl in Hl. lia. }
    eexists. split; [|split].
    - unfold readQueryFromClient. rewrite sdslen_nonempty by done.
      unfold sdscatlen. rewrite Hq. cbn [app].
      assert (∃ n, length (c_querybuf
                             (set_lastinteraction (set_querybuf c (header ++ k))
                                (s_time s))) = S n) as [n ->].
      { cbn [c_querybuf set_lastinteraction set_querybuf].
        rewrite length_app. destruct header; [done|]. simpl. eauto. }
      apply (readQuery_again_bulk_wait n _ s cmd name args count k); try done.
      all: rewrite Hcount; lia.
    - done.
    - unfold readQueryFromClient. rewrite sdslen_nonempty by done.
      unfold sdscatlen.
      cbn [c_querybuf set_lastinteraction set_querybuf set_argv set_bulklen].
      rewrite <- Hrest.
      rewrite (readQuery_again_bulk_payload _ _ s cmd name args payload tail);
        try done.
      + unfold run, bulk_ready. f_equal. rewrite Hcount.
        clear -Hq. destruct c. cbn in Hq. by subst.
      + cbn [c_bulklen set_lastinteraction set_querybuf set_argv set_bulklen].
        by rewrite Hcount. }
  apply app_eq_inv in Hsplit as [(k & Hk1 & Hk2)|(k & Hk1 & Hk2)].
  { by apply (Hafter k). }
  destruct k as [|x k].
  { rewrite app_nil_r in Hk1. cbn [app] in Hk2. subst d2.
    apply (Hafter []); [by rewrite app_nil_r|done]. }
  (* the first read ends inside the header line *)
  assert (Forall (λ ch, ch ≠ LF ∧ ch ≠ NUL) d1) as Hclean.
  { assert (Forall (λ ch, ch ≠ LF ∧ ch ≠ NUL)
              (join_tokens (name :: args ++ [count]) ++ [CR])) as Hline.
    { apply Forall_app. split; [|by repeat constructor].
      apply join_tokens_chars; [by split|].
      eapply Forall_impl; [exact Htok|]. intros t [_ Ht].
      eapply Forall_impl; [exact Ht|]. by intros ch (_ & ? & _ & ?). }
    destruct (exists_last (l := x :: k) ltac:(done)) as (k' & y & Hlast).
    rewrite Hlast in Hk1. unfold header, wire_line, crlf_bytes in Hk1.
    change [CR; LF] with ([CR] ++ [LF]) in Hk1. rewrite !app_assoc in Hk1.
    apply app_inj_tail in Hk1 as [Hk1 _].
    rewrite Hk1 in Hline. by apply Forall_app in Hline as [? _]. }
  assert (sdslen d1 < 1024) as Hd1len.
  { assert (sdslen header = sdslen d1 + sdslen (x :: k)) as Hl
      by (rewrite Hk1; unfold sdslen; rewrite length_app; lia).
    unfold sdslen in *. simpl length in Hl. lia. }
  exists (set_lastinteraction (set_querybuf c d1) (s_time s)).
  split; [|split].
  - unfold readQueryFromClient. rewrite sdslen_nonempty by done.
    unfold sdscatlen. rewrite Hq. cbn [app readQuery_again].
    cbn [c_bulklen c_querybuf set_lastinteraction set_querybuf].
    rewrite Hbulk. change (-1 =? -1) with true. cbv iota.
    rewrite strchr_none; [|done|].
    2:{ intros Hin%cstr_elem_of.
        rewrite Forall_forall in Hclean. by destruct (Hclean LF Hin). }
    assert ((sdslen d1 >=? 1024) = false) as ->
      by (rewrite Z.geb_leb; apply Z.leb_gt; lia).
    done.
  - done.
  - unfold readQueryFromClient. rewrite sdslen_nonempty by done.
    unfold sdscatlen.
    cbn [c_querybuf set_lastinteraction set_querybuf].
    apply Hwhole; try done.
    + cbn [c_querybuf set_lastinteraction set_querybuf].
      rewrite Hk2, app_assoc, <- Hk1. done.
    + clear -Hq. destruct c. cbn in Hq. by subst.
Qed.

Lemma bulk_command_reads_its_payload_witness :
  let s := empty_line_server in
  let c := createClient 5 s in
  let tokens := [sdsnew "SET"; sdsnew "k"; sdsnew "5"] in
  let payload := ["a"%char; LF; NUL; "b"%char; "c"%char] in
  let run := execCommand set_entry
               (bulk_ready c (s_time s) [sdsnew "set"; sdsnew "k"] payload) s in
  Forall clean_token tokens
  ∧ atoi (sdsnew "5") = sdslen payload
  ∧ readQueryFromClient (ReadData (wire_line tokens ++ payload ++ crlf_bytes)) c s
    = run
  ∧ ∃ c1, readQueryFromClient (ReadData (wire_line tokens ++ ["a"%char; LF])) c s
          = Alive c1 s
          ∧ c_reply c1 = c_reply c
          ∧ readQueryFromClient
              (ReadData ([NUL; "b"%char; "c"%char] ++ crlf_bytes)) c1 s = run.
Proof.
  intros s c tokens payload run.
  assert (Forall clean_token tokens) as Htok.
  { repeat constructor; discriminate. }
  assert (sdslen payload <= 1024 * 1024 * 1024) as Hmax
    by (vm_compute; discriminate).
  destruct (bulk_command_reads_its_payload c s set_entry (sdsnew "SET")
              [sdsnew "k"] (sdsnew "5") payload crlf_bytes
              eq_refl eq_refl eq_refl Htok eq_refl eq_refl eq_refl eq_refl
              Hmax eq_refl) as [Hwhole Hparts].
  split; [exact Htok|]. split; [reflexivity|]. split; [exact Hwhole|].
  apply (Hparts ltac:(vm_compute; discriminate)
           (wire_line tokens ++ ["a"%char; LF])
           ([NUL; "b"%char; "c"%char] ++ crlf_bytes));
    [discriminate | discriminate | reflexivity].
Defined.

(** ** A snapshot cut short *)

(** The bytes of an item cut short are a short read, and so is what
    follows an item when the file ends inside it. *)
Lemma cut_bind {A B : Type} (P : sds → loading (A * sds))
    (K : A * sds → loading B) (x y : sds) (v : A) :
  (∀ rest, P (x ++ rest) = Got (v, rest)) →
  (∀ p t, t ≠ [] → x = p ++ t → P p = Stop ShortRead) →
  (∀ p t, t ≠ [] → y = p ++ t → K (v, p) = Stop ShortRead) →
  ∀ p t, t ≠ [] → x ++ y = p ++ t → P p ≫= K = Stop ShortRead.
Proof.
  intros Hread Hcut Hnext p t Ht Hsplit.
  apply app_eq_inv in Hsplit as [(k & Hk1 & Hk2)|(k & Hk1 & Hk2)].
  - destruct k as [|c k].
    + rewrite app_nil_r in Hk1. subst x. cbn [app] in Hk2. subst y.
      rewrite <- (app_nil_r p) at 1. rewrite Hread. cbn [mbind loading_bind].
      by apply (Hnext [] t).
    + by rewrite (Hcut p (c :: k)).
  - subst p. rewrite Hread. cbn [mbind loading_bind]. by apply (Hnext k t).
Qed.

Lemma fread_cut x p t :
  t ≠ [] → x = p ++ t → fread (sdslen x) p = Stop ShortRead.
Proof.
  intros Ht ->. unfold fread.
  assert ((sdslen p <? sdslen (p ++ t)) = true) as ->.
  { apply Z.ltb_lt. unfold sdslen. rewrite length_app. destruct t; [done|].
    simpl. lia. }
  by rewrite orb_true_r.
Qed.

Lemma load_u32_cut n p t :
  t ≠ [] → htonl_bytes n = p ++ t → load_u32 p = Stop ShortRead.
Proof.
  intros Ht Hsplit. unfold load_u32.
  change 4 with (sdslen (htonl_bytes n)). by rewrite (fread_cut _ p t).
Qed.

Lemma load_string_cut s p t :
  sdslen s < 2 ^ 32 →
  t ≠ [] → rdb_string s = p ++ t → load_string p = Stop ShortRead.
Proof.
  intros Hfit Ht Hsplit. unfold load_string.
  pose proof (sdslen_nonneg s).
  apply (cut_bind load_u32 _ (htonl_bytes (sdslen s)) s (sdslen s)) with t;
    try done.
  - intros rest. apply load_u32_htonl. lia.
  - intros p' t' Ht'. apply load_u32_cut. done.
  - intros p' t' Ht' ->.
    rewrite sdslen_nonempty by (destruct p', t'; done).
    by apply (fread_cut _ p' t').
Qed.

(** Elements cut short: whatever the container, as long as the whole run
    of elements is read without error. *)
Lemma load_elements_cut {A : Type} (add : A → robj → loading A) l :
  ∀ acc fuel fuel' v rest rest' p t,
    Forall is_string l →
    Forall (λ e, sdslen (sds_ptr e) < 2 ^ 32) l →
    Z.of_nat (length l) < 2 ^ 32 →
    load_elements add fuel (Z.of_nat (length l)) acc (rdb_elements l ++ rest)
    = Got (v, rest') →
    t ≠ [] → rdb_elements l = p ++ t →
    load_elements add fuel' (Z.of_nat (length l)) acc p = Stop ShortRead.
Proof.
  induction l as [|e l IH];
    intros acc fuel fuel' v rest rest' p t Hstr Hfits Hlen Hfull Ht Hsplit.
  { destruct p, t; done. }
  apply Forall_cons in Hstr as [He Hstr].
  apply Forall_cons in Hfits as [Hfit Hfits].
  destruct (is_string_inv e He) as [x ->]. cbn [sds_ptr] in *.
  simpl length in *.
  assert ((Z.of_nat (S (length l)) =? 0) = false) as Hnz by (apply Z.eqb_neq; lia).
  assert (to_uint32 (Z.of_nat (S (length l)) - 1) = Z.of_nat (length l)) as Hdec
    by (unfold to_uint32; rewrite Z.mod_small; lia).
  destruct fuel as [|fuel]; cbn [load_elements] in Hfull; rewrite Hnz in Hfull;
    [done|].
  rewrite rdb_elements_cons, <- app_assoc in Hfull. cbn [sds_ptr] in Hfull.
  rewrite load_string_layout in Hfull by done.
  cbn [mbind loading_bind] in Hfull.
  destruct (add acc (StringObject x)) as [acc'|] eqn:Hadd; [|done].
  cbn [mbind loading_bind] in Hfull. rewrite Hdec in Hfull.
  destruct fuel' as [|fuel']; cbn [load_elements]; rewrite Hnz; [done|].
  rewrite rdb_elements_cons in Hsplit. cbn [sds_ptr] in Hsplit.
  apply (cut_bind load_string _ (rdb_string x) (rdb_elements l) x) with t;
    try done.
  - intros rest0. by apply load_string_layout.
  - intros p' t' Ht'. by apply load_string_cut.
  - intros p' t' Ht' Hsplit'. rewrite Hadd. cbn [mbind loading_bind].
    rewrite Hdec. apply (IH acc' fuel fuel' v rest rest' p' t'); try done. lia.
Qed.

Lemma load_value_cut o p t :
  value_ok o → value_fits o →
  t ≠ [] → rdb_value o = p ++ t →
  load_value (obj_type o) p = Stop ShortRead.
Proof.
  intros Hok Hfit Ht Hsplit. unfold load_value.
  destruct o as [s|l|set]; simpl in Hok, Hfit; cbn [obj_type rdb_value] in *.
  - change (REDIS_STRING =? REDIS_STRING) with true. cbv iota.
    by rewrite (load_string_cut s p t).
  - change (REDIS_LIST =? REDIS_STRING) with false.
    change (REDIS_LIST =? REDIS_LIST) with true. cbv iota.
    destruct Hfit as [Hlen Hfits].
    apply (cut_bind load_u32 _ (htonl_bytes (Z.of_nat (length l)))
             (rdb_elements l) (Z.of_nat (length l))) with t; try done.
    + intros rest. apply load_u32_htonl. lia.
    + intros p' t' Ht'. by apply load_u32_cut.
    + intros p' t' Ht' Hsplit'.
      rewrite (load_elements_cut load_list_add l [] (length l) (length p')
                 ([] ++ l) [] [] p' t'); try done.
      by apply load_list_elements.
  - change (REDIS_SET =? REDIS_STRING) with false.
    change (REDIS_SET =? REDIS_LIST) with false.
    change (REDIS_SET =? REDIS_SET) with true. cbv iota.
    destruct Hfit as [Hlen Hfits].
    unfold dictGetHashTableUsed, dictEntries in *.
    pose proof (set_entries_indexed set Hok Hfits) as Hent.
    unfold dictEntries in Hent.
    rewrite <- (length_map_to_list set) in *.
    set (entries := map_to_list set) in *.
    assert (length (entries.*2) = length entries) as Hl2 by apply length_fmap.
    rewrite <- Hl2 in Hsplit.
    apply (cut_bind load_u32 _ (htonl_bytes (Z.of_nat (length (entries.*2))))
             (rdb_elements (entries.*2)) (Z.of_nat (length (entries.*2))))
      with t; try done.
    + intros rest. apply load_u32_htonl. lia.
    + intros p' t' Ht'. by apply load_u32_cut.
    + intros p' t' Ht' Hsplit'.
      rewrite (load_elements_cut load_set_add (entries.*2) ∅ (length entries)
                 (length p') (list_to_map entries ∪ ∅) [] [] p' t'); try done.
      * apply Forall_fmap. eapply Forall_impl; [exact Hent|].
        intros [k e] [He _]. simpl in *. by subst e.
      * apply Forall_fmap. eapply Forall_impl; [exact Hent|].
        intros [k e] [He Hk]. simpl in *. by subst e.
      * lia.
      * rewrite Hl2. apply load_set_elements; try done.
        apply NoDup_fst_map_to_list.
Qed.

Lemma load_record_cut k o dbs j fuel p t :
  k ≠ [] → sdslen k < 2 ^ 32 → value_ok o → value_fits o →
  t ≠ [] → rdb_record (k, o) = p ++ t →
  load_records (S fuel) dbs j p = Stop ShortRead.
Proof.
  intros Hk Hkfit Hok Hfit Ht Hsplit. cbn [load_records].
  unfold rdb_record in Hsplit. cbn [fst snd] in Hsplit.
  pose proof (sdslen_nonneg k).
  apply (cut_bind (fread 1) _ [char_of (obj_type o)]
           (htonl_bytes (sdslen k) ++ k ++ rdb_value o) [char_of (obj_type o)])
    with t; try done.
  - intros rest. change 1 with (sdslen [char_of (obj_type o)]).
    by apply fread_app.
  - intros p' t' Ht'. change 1 with (sdslen [char_of (obj_type o)]).
    by apply fread_cut.
  - intros p1 t1 Ht1 Hsplit1. cbn [hd].
    destruct (obj_type_byte o) as (-> & -> & ->).
    apply (cut_bind load_u32 _ (htonl_bytes (sdslen k)) (k ++ rdb_value o)
             (sdslen k)) with t1; try done.
    + intros rest. apply load_u32_htonl. lia.
    + intros p' t' Ht'. by apply load_u32_cut.
    + intros p2 t2 Ht2 Hsplit2.
      apply (cut_bind (fread (sdslen k)) _ k (rdb_value o) k) with t2; try done.
      * intros rest. by apply fread_app.
      * intros p' t' Ht'. by apply fread_cut.
      * intros p3 t3 Ht3 Hsplit3. by rewrite (load_value_cut o p3 t3).
Qed.

(** The records of one database, cut anywhere, also between two records
    or after the last: the loader still waits for a type byte. *)
Lemma load_records_entries_cut entries :
  ∀ dbs j acc fuel p t,
    dbs !! j = Some acc →
    Forall (λ entry, entry.1 ≠ [] ∧ sdslen entry.1 < 2 ^ 32
                     ∧ value_ok entry.2 ∧ value_fits entry.2) entries →
    NoDup (entries.*1) →
    (∀ k, k ∈ entries.*1 → acc !! k = None) →
    rdb_records entries = p ++ t →
    (length p < fuel)%nat →
    load_records fuel dbs j p = Stop ShortRead.
Proof.
  induction entries as [|[k o] entries IH];
    intros dbs j acc fuel p t Hj Hent Hnodup Hfresh Hsplit Hfuel.
  { destruct p; [|done]. destruct fuel; [lia|]. done. }
  destruct fuel as [|fuel]; [lia|].
  rewrite rdb_records_cons in Hsplit.
  pose proof Hent as Hent0.
  apply Forall_cons in Hent as [(Hk & Hkfit & Hok & Hfit) Hent].
  simpl in Hk, Hkfit, Hok, Hfit.
  pose proof Hnodup as Hnodup0.
  apply NoDup_cons in Hnodup as [Hknew Hnodup].
  assert (∀ q, p = rdb_record (k, o) ++ q → rdb_records entries = q ++ t →
               load_records (S fuel) dbs j p = Stop ShortRead) as Hafter.
  { intros q -> Hrest.
    destruct (load_records_entries [(k, o)] dbs j acc (S fuel) q)
      as (fuel' & Hfuel' & Heq); try done.
    - apply Forall_cons_2; [done|apply Forall_nil_2].
    - cbn. apply NoDup_singleton.
    - intros k' Hk'. apply Hfresh. cbn in *. apply list_elem_of_singleton in Hk'.
      subst. left.
    - rewrite rdb_records_cons. cbn [rdb_records fmap list_fmap concat].
      by rewrite app_nil_r.
    - rewrite rdb_records_cons in Heq. cbn [rdb_records fmap list_fmap concat] in Heq.
      rewrite app_nil_r in Heq. rewrite Heq.
      apply (IH _ j (list_to_map [(k, o)] ∪ acc) fuel' q t); try done.
      + apply list_lookup_insert_eq. by eapply lookup_lt_Some.
      + intros k' Hk'. apply lookup_union_None. split.
        * cbn. rewrite lookup_insert_ne; [done|]. by intros ->.
        * apply Hfresh. by right. }
  apply app_eq_inv in Hsplit as [(q & Hq1 & Hq2)|(q & Hq1 & Hq2)].
  - destruct q as [|c q].
    + rewrite app_nil_r in Hq1. cbn [app] in Hq2.
      apply (Hafter []); [by rewrite app_nil_r|by subst].
    + by apply (load_record_cut k o dbs j fuel p (c :: q)).
  - by apply (Hafter q).
Qed.

Lemma cons_eq_inv {A} (x y : A) (l k : list A) :
  x :: l = y :: k → x = y ∧ l = k.
Proof. by intros [= -> ->]. Qed.

(** The databases from index [length pre] on and the final opcode, cut
    short. *)
Lemma load_records_cut post :
  ∀ pre d fuel p t,
    Forall dict_ok post → Forall dict_fits post →
    Z.of_nat (length (pre ++ post)) < 2 ^ 32 →
    t ≠ [] →
    rdb_sections (Z.of_nat (length pre)) post ++ [char_of REDIS_EOF] = p ++ t →
    (length p < fuel)%nat →
    load_records fuel (pre ++ replicate (length post) ∅) d p = Stop ShortRead.
Proof.
  induction post as [|d0 post IH];
    intros pre d fuel p t Hok Hfit Hlen Ht Hsplit Hfuel.
  { destruct fuel as [|fuel]; [lia|].
    destruct p as [|c p]; [done|].
    cbn in Hsplit. injection Hsplit as _ Hsplit. by destruct p, t. }
  apply Forall_cons in Hok as [Hok0 Hok].
  apply Forall_cons in Hfit as [Hfit0 Hfit].
  assert (pre ++ d0 :: post = (pre ++ [d0]) ++ post) as Hsplit0
    by by rewrite <- app_assoc.
  assert (Z.of_nat (length pre) + 1 = Z.of_nat (length (pre ++ [d0]))) as Hnext
    by (rewrite length_app; simpl; lia).
  cbn [rdb_sections] in Hsplit. unfold rdb_section in Hsplit.
  rewrite Hnext in Hsplit.
  assert (pre ++ replicate (length (d0 :: post)) ∅
          = (pre ++ [∅]) ++ replicate (length post) ∅) as Hdbs
    by by rewrite <- app_assoc.
  destruct (dictGetHashTableUsed d0 =? 0) eqn:Hused.
  { apply Z.eqb_eq in Hused. unfold dictGetHashTableUsed in Hused.
    assert (d0 = ∅) as -> by (apply map_size_empty_inv; lia).
    rewrite Hdbs. apply (IH (pre ++ [∅]) d fuel p t); try done.
    by rewrite <- Hsplit0. }
  destruct fuel as [|fuel]; [lia|].
  rewrite <- !app_assoc in Hsplit.
  destruct p as [|c p1]; [done|].
  change ([char_of REDIS_SELECTDB] ++ ?l) with (char_of REDIS_SELECTDB :: l)
    in Hsplit.
  change ((c :: p1) ++ t) with (c :: (p1 ++ t)) in Hsplit.
  apply cons_eq_inv in Hsplit as [<- Hsplit].
  cbn [load_records].
  change 1 with (sdslen [char_of REDIS_SELECTDB]).
  change (char_of REDIS_SELECTDB :: p1) with ([char_of REDIS_SELECTDB] ++ p1).
  rewrite (fread_app [char_of REDIS_SELECTDB] p1) by done.
  cbn [mbind loading_bind hd].
  change (char_code (char_of REDIS_SELECTDB) =? REDIS_EOF) with false.
  change (char_code (char_of REDIS_SELECTDB) =? REDIS_SELECTDB) with true.
  cbv iota.
  assert (0 <= Z.of_nat (length pre) < 2 ^ 32) as Hpre
    by (rewrite length_app in Hlen; lia).
  assert ((Z.of_nat (length pre)
           >=? Z.of_nat (length (pre ++ replicate (length (d0 :: post)) ∅)))
          = false) as Hidx.
  { rewrite Z.geb_leb. apply Z.leb_gt.
    rewrite length_app, length_replicate. simpl. lia. }
  simpl length in Hfuel.
  apply app_eq_inv in Hsplit as [(q & Hq1 & Hq2)|(q & Hq1 & Hq2)].
  { destruct q as [|c q].
    - rewrite app_nil_r in Hq1. subst p1.
      rewrite <- (app_nil_r (htonl_bytes _)).
      rewrite load_u32_htonl by done. cbn [mbind loading_bind].
      rewrite Hidx. by destruct fuel.
    - by rewrite (load_u32_cut (Z.of_nat (length pre)) p1 (c :: q)). }
  subst p1. rewrite load_u32_htonl by done. cbn [mbind loading_bind].
  rewrite Hidx, Nat2Z.id.
  rewrite length_app in Hfuel. change (length (htonl_bytes _)) with 4%nat in Hfuel.
  assert ((pre ++ replicate (length (d0 :: post)) ∅) !! length pre = Some ∅) as Hj.
  { rewrite lookup_app_r by lia. by rewrite Nat.sub_diag. }
  symmetry in Hq2.
  apply app_eq_inv in Hq2 as [(r & Hr1 & Hr2)|(r & Hr1 & Hr2)].
  - subst q.
    destruct (load_records_entries (dictEntries d0)
                (pre ++ replicate (length (d0 :: post)) ∅) (length pre) ∅ fuel r)
      as (fuel' & Hfuel' & ->); try done.
    + by apply dict_entries_ok.
    + apply NoDup_fst_map_to_list.
    + rewrite length_app in *. lia.
    + unfold dictEntries. rewrite list_to_map_to_list, (right_id ∅ (∪)).
      assert (<[length pre := d0]> (pre ++ replicate (length (d0 :: post)) ∅)
              = (pre ++ [d0]) ++ replicate (length post) ∅) as ->.
      { rewrite insert_app_r_alt by lia.
        rewrite Nat.sub_diag. cbn. by rewrite <- app_assoc. }
      apply (IH (pre ++ [d0]) (length pre) fuel' r t); try done.
      by rewrite <- Hsplit0.
  - apply (load_records_entries_cut (dictEntries d0) _ (length pre) ∅ fuel q r);
      try done.
    + by apply dict_entries_ok.
    + apply NoDup_fst_map_to_list.
    + lia.
Qed.

Lemma round_trip_example_ok :
  keyspace_ok round_trip_example ∧ snapshot_fits (s_dict round_trip_example).
Proof.
  assert (set_indexed round_trip_set) as Hset.
  { unfold round_trip_set. repeat apply set_indexed_insert.
    intros k e H. by rewrite lookup_empty in H. }
  split.
  - unfold keyspace_ok, round_trip_example. cbn [s_dict set_s_dict].
    repeat apply Forall_cons_2; [..|apply Forall_nil_2].
    + apply dict_ok_insert; [|done|done].
      apply dict_ok_insert; [apply dict_ok_empty|done|].
      simpl. by repeat constructor.
    + apply dict_ok_empty.
    + apply dict_ok_insert; [apply dict_ok_empty|done|exact Hset].
  - split; [simpl; lia|]. unfold round_trip_example. cbn [s_dict set_s_dict].
    repeat apply Forall_cons_2; [..|apply Forall_nil_2].
    + apply dict_fits_insert; [|by vm_compute|by vm_compute].
      apply dict_fits_insert; [apply dict_fits_empty|by vm_compute|].
      split; [by vm_compute|]. repeat constructor; by vm_compute.
    + apply dict_fits_empty.
    + apply dict_fits_insert; [apply dict_fits_empty|by vm_compute|].
      split; [by vm_compute|]. unfold round_trip_set. intros k e H.
      repeat (apply lookup_insert_Some in H as [[<- _]|[_ H]]; [by vm_compute|]).
      by rewrite lookup_empty in H.
Qed.

(** X28: a snapshot cut short is never taken for a smaller keyspace.  For
    a keyspace as in the round trip (non-empty keys, containers of strings,
    lengths that fit the 32-bit fields) and the file [saveDb] leaves, every
    proper prefix of that file, whether it ends inside the signature, a
    length word, a key, a value, or between two records or two databases,
    sends [loadDb] in a fresh server to [eoferr], where the process
    exits: no part of the keyspace is served from a truncated file. *)
Theorem truncated_snapshot_is_refused s file p t params now :
  keyspace_ok s →
  snapshot_fits (s_dict s) →
  s_dumpfile (saveDb s).2 = Some file →
  t ≠ [] →
  file = p ++ t →
  loadDb (initServer (length (s_dict s)) params now (Some p)) = Stop ShortRead.
Proof.
  intros Hok [Hlen Hfit] Hfile Ht Hsplit.
  rewrite saveDb_layout in Hfile by done. cbn in Hfile.
  injection Hfile as <-. unfold rdb_layout in Hsplit.
  unfold loadDb.
  change (s_dumpfile (initServer _ params now (Some p))) with (Some p).
  apply (cut_bind (fread 9) _ (sdsnew "REDIS0000")
           (rdb_sections 0 (s_dict s) ++ [char_of REDIS_EOF]) (sdsnew "REDIS0000"))
    with t; try done.
  - intros rest. change 9 with (sdslen (sdsnew "REDIS0000")). by apply fread_app.
  - intros p' t' Ht'. change 9 with (sdslen (sdsnew "REDIS0000")).
    by apply fread_cut.
  - intros q t' Ht' Hsplit'.
    assert (sds_eqb (sdsnew "REDIS0000") (sdsnew "REDIS0000") = true) as ->
      by (vm_compute; reflexivity).
    cbn [negb].
    change (s_dict (initServer (length (s_dict s)) params now (Some p)))
      with ([] ++ replicate (length (s_dict s)) (∅ : gmap sds robj)).
    rewrite (load_records_cut (s_dict s) [] 0%nat (S (length q)) q t'); try done.
    lia.
Qed.

Lemma truncated_snapshot_is_refused_witness :
  let s := round_trip_example in
  let file := rdb_layout (s_dict s) in
  keyspace_ok s
  ∧ snapshot_fits (s_dict s)
  ∧ s_dumpfile (saveDb s).2 = Some file
  ∧ drop 40 file ≠ []
  ∧ loadDb (initServer 3 default_saveparams 0 (Some (take 40 file)))
    = Stop ShortRead.
Proof.
  intros s file.
  destruct round_trip_example_ok as [Hok Hfit].
  assert (s_dumpfile (saveDb s).2 = Some file) as Hfile
    by (vm_compute; reflexivity).
  assert (drop 40 file ≠ []) as Hrest by (vm_compute; discriminate).
  split; [exact Hok|]. split; [exact Hfit|]. split; [exact Hfile|].
  split; [exact Hrest|].
  exact (truncated_snapshot_is_refused s file (take 40 file) (drop 40 file)
           default_saveparams 0 Hok Hfit Hfile Hrest
           (eq_sym (take_drop 40 file))).
Defined.

(** ** Patterns of KEYS *)

Lemma skip_stars_plain p :
  Forall plain_char p → skip_stars p = p.
Proof.
  destruct p as [|c p]; [done|]. intros [(Hc & _) _]%Forall_cons. cbn.
  by rewrite (proj2 (Ascii.eqb_neq _ _) Hc).
Qed.

Lemma skip_stars_replicate k p :
  skip_stars (replicate k "*"%char ++ p) = skip_stars p.
Proof. induction k as [|k IH]; [done|]. cbn. exact IH. Qed.

Lemma skip_stars_Forall (P : ascii → Prop) p :
  Forall P p → Forall P (skip_stars p).
Proof.
  induction 1 as [|c p Hc Hp IH]; [constructor|]. cbn.
  destruct (Ascii.eqb c "*"%char); [exact IH|by constructor].
Qed.

Lemma skip_stars_length p : (length (skip_stars p) <= length p)%nat.
Proof.
  induction p as [|c p IH]; [done|]. cbn.
  destruct (Ascii.eqb c "*"%char); simpl; lia.
Qed.

Lemma stringmatchlen_go_question f rest x s :
  stringmatchlen_go (S f) ("?"%char :: rest) (At (x :: s)) false
  = match s with
    | [] => Some (bool_decide (skip_stars rest = []))
    | _ => stringmatchlen_go f rest (At s) false
    end.
Proof. by destruct s. Qed.

Lemma stringmatchlen_go_literal f c rest x s :
  plain_char c → c ≠ "?"%char →
  stringmatchlen_go (S f) (c :: rest) (At (x :: s)) false
  = if Ascii.eqb c x
    then match s with
         | [] => Some (bool_decide (skip_stars rest = []))
         | _ => stringmatchlen_go f rest (At s) false
         end
    else Some false.
Proof.
  intros (H1 & H2 & H3 & _) H4. cbn [stringmatchlen_go].
  rewrite (proj2 (Ascii.eqb_neq _ _) H1), (proj2 (Ascii.eqb_neq _ _) H4),
    (proj2 (Ascii.eqb_neq _ _) H2), (proj2 (Ascii.eqb_neq _ _) H3).
  destruct rest; cbn [str_byte str_next hd char_eqb];
    destruct (Ascii.eqb c x); by destruct s.
Qed.

(** On the empty string a plain byte other than the question mark is
    compared with the terminator of the string, which it is not. *)
Lemma stringmatchlen_go_literal_nil f c rest :
  plain_char c → c ≠ "?"%char →
  stringmatchlen_go (S f) (c :: rest) (At []) false = Some false.
Proof.
  intros (H1 & H2 & H3 & H5) H4. cbn [stringmatchlen_go].
  rewrite (proj2 (Ascii.eqb_neq _ _) H1), (proj2 (Ascii.eqb_neq _ _) H4),
    (proj2 (Ascii.eqb_neq _ _) H2), (proj2 (Ascii.eqb_neq _ _) H3).
  destruct rest; cbn [str_byte str_next hd char_eqb];
    by rewrite (proj2 (Ascii.eqb_neq _ _) H5).
Qed.

Lemma stringmatchlen_go_star f rest s :
  stringmatchlen_go (S f) ("*"%char :: rest) (At s) false
  = match skip_stars rest with
    | [] => Some true
    | _ =>
        (fix star (str : sds) : option bool :=
           match str with
           | [] => Some false
           | _ :: str' =>
               match stringmatchlen_go f (skip_stars rest) (At str) false with
               | Some true => Some true
               | Some false => star str'
               | None => None
               end
           end) s
    end.
Proof. reflexivity. Qed.

Lemma plain_matches_cons c p x s :
  plain_matches (c :: p) (x :: s) ↔ char_matches c x ∧ plain_matches p s.
Proof. apply Forall2_cons. Qed.

(** A pattern of plain bytes matches the strings of its length that agree
    with it outside the question marks. *)
Lemma stringmatchlen_go_plain p : ∀ f s,
  Forall plain_char p → (length p < f)%nat →
  ∃ r, stringmatchlen_go f p (At s) false = Some r
       ∧ (r = true ↔ plain_matches p s).
Proof.
  induction p as [|c p IH]; intros f s Hp Hf; (destruct f as [|f]; [simpl in Hf; lia|]).
  { destruct s as [|x s].
    - exists true. split; [done|]. split; [intros _; constructor|done].
    - exists false. split; [done|]. split; [done|]. intros H. inversion H. }
  apply Forall_cons in Hp as [Hc Hp]. simpl in Hf.
  assert (∀ s', ∃ r, match s' with
                     | [] => Some (bool_decide (skip_stars p = []))
                     | _ => stringmatchlen_go f p (At s') false
                     end = Some r ∧ (r = true ↔ plain_matches p s')) as Hcont.
  { intros [|y s''].
    - eexists. split; [done|].
      rewrite bool_decide_eq_true, skip_stars_plain by done.
      split; [by intros ->; constructor|].
      intros H. by apply Forall2_nil_inv_r in H.
    - apply IH; [done|lia]. }
  destruct s as [|x s'].
  { exists false. split; [|split; [done|intros H; inversion H]].
    destruct (decide (c = "?"%char)) as [->|Hq]; [done|].
    by apply stringmatchlen_go_literal_nil. }
  destruct (Hcont s') as (r & Hr & Hiff).
  destruct (decide (c = "?"%char)) as [->|Hq].
  - exists r. rewrite stringmatchlen_go_question. split; [exact Hr|].
    rewrite Hiff, plain_matches_cons. unfold char_matches.
    split; [intros; split; [by left|done]|by intros [_ ?]].
  - rewrite stringmatchlen_go_literal by done.
    destruct (Ascii.eqb c x) eqn:E.
    + apply Ascii.eqb_eq in E as ->. exists r. split; [exact Hr|].
      rewrite Hiff, plain_matches_cons. unfold char_matches.
      split; [intros; split; [by right|done]|by intros [_ ?]].
    + apply Ascii.eqb_neq in E. exists false. split; [done|].
      rewrite plain_matches_cons. unfold char_matches.
      split; [done|]. by intros [[?|?] _].
Qed.

(** The loop of the star: some non-empty end of the string matches what
    follows the star. *)
Lemma star_loop (g : sds → option bool) s :
  (∀ b, is_Some (g b)) →
  ∃ r, (fix star (str : sds) : option bool :=
          match str with
          | [] => Some false
          | _ :: str' =>
              match g str with
              | Some true => Some true
              | Some false => star str'
              | None => None
              end
          end) s = Some r
       ∧ (r = true ↔ ∃ mid b, s = mid ++ b ∧ b ≠ [] ∧ g b = Some true).
Proof.
  intros Hg. induction s as [|x s IH].
  { exists false. split; [done|]. split; [done|].
    intros (mid & b & H & Hb & _). by destruct mid, b. }
  destruct (Hg (x :: s)) as [[|] Hx]; rewrite Hx.
  - exists true. split; [done|]. split; [|done]. intros _.
    by exists [], (x :: s).
  - destruct IH as (r & Hr & Hiff). exists r. split; [exact Hr|].
    rewrite Hiff. split.
    + intros (mid & b & -> & Hb & H). by exists (x :: mid), b.
    + intros (mid & b & Hs & Hb & H). destruct mid as [|y mid].
      * simpl in Hs. subst b. by rewrite Hx in H.
      * injection Hs as -> ->. by exists mid, b.
Qed.

(** Stars, then plain bytes: any string that ends with a match of the
    plain bytes. *)
Lemma stringmatchlen_go_stars k suf f s :
  Forall plain_char suf → (length suf + 1 < f)%nat →
  ∃ r, stringmatchlen_go f (replicate (S k) "*"%char ++ suf) (At s) false = Some r
       ∧ (r = true ↔ ∃ mid b, s = mid ++ b ∧ plain_matches suf b).
Proof.
  intros Hsuf Hf. destruct f as [|f]; [lia|].
  cbn [replicate app]. rewrite stringmatchlen_go_star.
  rewrite skip_stars_replicate, skip_stars_plain by done.
  destruct suf as [|c suf].
  { exists true. split; [done|]. split; [|done]. intros _.
    exists s, []. split; [by rewrite app_nil_r|constructor]. }
  assert (∀ b, ∃ r, stringmatchlen_go f (c :: suf) (At b) false = Some r
                    ∧ (r = true ↔ plain_matches (c :: suf) b)) as Hplain.
  { intros b. apply stringmatchlen_go_plain; [done|simpl in *; lia]. }
  destruct (star_loop (λ str, stringmatchlen_go f (c :: suf) (At str) false) s)
    as (r & Hr & Hiff).
  { intros b. destruct (Hplain b) as (r & Hr & _). by exists r. }
  exists r. split; [exact Hr|]. rewrite Hiff. split.
  - intros (mid & b & -> & _ & H). exists mid, b. split; [done|].
    destruct (Hplain b) as (r' & Hr' & Hiff'). apply Hiff'. congruence.
  - intros (mid & b & -> & H). exists mid, b. split; [done|]. split.
    + intros ->. inversion H.
    + destruct (Hplain b) as (r' & Hr' & Hiff'). apply Hiff' in H. congruence.
Qed.

Lemma plain_split_cons c pre suf x s :
  (∃ a mid b, x :: s = a ++ mid ++ b
              ∧ plain_matches (c :: pre) a ∧ plain_matches suf b)
  ↔ char_matches c x
    ∧ ∃ a mid b, s = a ++ mid ++ b ∧ plain_matches pre a ∧ plain_matches suf b.
Proof.
  split.
  - intros (a & mid & b & Hs & Ha & Hb).
    destruct a as [|y a]; [inversion Ha|].
    apply plain_matches_cons in Ha as [Hc Ha].
    injection Hs as -> ->. split; [done|]. by exists a, mid, b.
  - intros (Hc & a & mid & b & -> & Ha & Hb).
    exists (x :: a), mid, b. split; [done|]. split; [|done].
    by apply plain_matches_cons.
Qed.

Lemma plain_split_nil c pre suf :
  ¬ ∃ a mid b : sds, [] = a ++ mid ++ b
                     ∧ plain_matches (c :: pre) a ∧ plain_matches suf b.
Proof.
  intros (a & mid & b & Hs & Ha & _). destruct a; [inversion Ha|done].
Qed.

(** Plain bytes, stars, plain bytes: the strings that begin with a match
    of the first and end with a match of the last, without overlap. *)
Lemma stringmatchlen_go_prefix k suf pre : ∀ f s,
  Forall plain_char pre → Forall plain_char suf →
  (length (pre ++ replicate (S k) "*"%char ++ suf) < f)%nat →
  ∃ r, stringmatchlen_go f (pre ++ replicate (S k) "*"%char ++ suf) (At s) false
       = Some r
       ∧ (r = true
          ↔ ∃ a mid b, s = a ++ mid ++ b ∧ plain_matches pre a ∧ plain_matches suf b).
Proof.
  induction pre as [|c pre IH]; intros f s Hpre Hsuf Hf.
  { cbn [app]. destruct (stringmatchlen_go_stars k suf f s) as (r & Hr & Hiff);
      [done| |].
    { cbn [app] in Hf. rewrite length_app, length_replicate in Hf. lia. }
    exists r. split; [exact Hr|]. rewrite Hiff. split.
    - intros (mid & b & -> & Hb). exists [], mid, b. by repeat split; [constructor|].
    - intros (a & mid & b & -> & Ha & Hb). apply Forall2_nil_inv_l in Ha as ->.
      by exists mid, b. }
  destruct f as [|f]; [simpl in Hf; lia|].
  apply Forall_cons in Hpre as [Hc Hpre].
  assert (length (pre ++ replicate (S k) "*"%char ++ suf) < f)%nat as Hf'
    by (rewrite !length_app in *; simpl in *; lia).
  clear Hf.
  set (rest := pre ++ replicate (S k) "*"%char ++ suf) in *.
  assert (∀ s', ∃ r, match s' with
                     | [] => Some (bool_decide (skip_stars rest = []))
                     | _ => stringmatchlen_go f rest (At s') false
                     end = Some r
                     ∧ (r = true
                        ↔ ∃ a mid b, s' = a ++ mid ++ b
                                     ∧ plain_matches pre a ∧ plain_matches suf b))
    as Hcont.
  { intros [|y s'']; [|by apply IH].
    eexists. split; [done|].
    rewrite bool_decide_eq_true. unfold rest. split.
    - destruct pre as [|c' pre].
      + cbn [app]. rewrite skip_stars_replicate, skip_stars_plain by done.
        intros ->. exists [], [], []. by repeat split; constructor.
      + apply Forall_cons in Hpre as [(Hc' & _) _]. cbn [app skip_stars].
        by rewrite (proj2 (Ascii.eqb_neq _ _) Hc').
    - intros (a & mid & b & Hs & Ha & Hb).
      destruct a; [|done]. destruct mid; [|done]. destruct b; [|done].
      apply Forall2_nil_inv_r in Ha as ->. apply Forall2_nil_inv_r in Hb as ->.
      cbn [app]. by rewrite skip_stars_replicate. }
  change ((c :: pre) ++ replicate (S k) "*"%char ++ suf) with (c :: rest).
  destruct s as [|x s'].
  { exists false. split; [|split; [done|intros H; by apply plain_split_nil in H]].
    destruct (decide (c = "?"%char)) as [->|Hq]; [done|].
    by apply stringmatchlen_go_literal_nil. }
  destruct (Hcont s') as (r & Hr & Hiff).
  destruct (decide (c = "?"%char)) as [->|Hq].
  - exists r. rewrite stringmatchlen_go_question. split; [exact Hr|].
    rewrite Hiff, plain_split_cons. unfold char_matches.
    split; [intros; split; [by left|done]|by intros [_ ?]].
  - rewrite stringmatchlen_go_literal by done.
    destruct (Ascii.eqb c x) eqn:E.
    + apply Ascii.eqb_eq in E as ->. exists r. split; [exact Hr|].
      rewrite Hiff, plain_split_cons. unfold char_matches.
      split; [intros; split; [by right|done]|by intros [_ ?]].
    + apply Ascii.eqb_neq in E. exists false. split; [done|].
      rewrite plain_split_cons. unfold char_matches.
      split; [done|]. by intros [[?|?] _].
Qed.

Lemma plain_matches_literal p s :
  Forall (λ ch, ch ≠ "?"%char) p → plain_matches p s ↔ s = p.
Proof.
  revert s. induction p as [|c p IH]; intros s Hp.
  { split; [by intros ?%Forall2_nil_inv_l|intros ->; constructor]. }
  apply Forall_cons in Hp as [Hc Hp].
  destruct s as [|x s]; [split; [intros H; inversion H|done]|].
  rewrite plain_matches_cons, IH by done. unfold char_matches.
  split.
  - intros [[Hq| ->] ->]; [done|reflexivity].
  - intros [= -> ->]. split; [by right|done].
Qed.

(** What a class leaves of the pattern is no longer than the pattern. *)
Lemma match_class_length nocase n : ∀ pattern c matched r rest,
  (length pattern <= n)%nat →
  match_class nocase pattern c matched = Some (r, rest) →
  (length rest <= length pattern)%nat.
Proof.
  induction n as [|n IH]; intros pattern c matched r rest Hn.
  { destruct pattern; [|simpl in Hn; lia]. by intros [= _ <-]. }
  destruct pattern as [|p0 pattern]; [by intros [= _ <-]|].
  simpl in Hn. cbn [match_class].
  destruct (Ascii.eqb p0 "\"%char).
  { destruct pattern as [|p1 pattern]; [done|]. destruct c as [c0|]; [|done].
    intros H. apply IH in H; simpl in *; lia. }
  destruct (Ascii.eqb p0 "]"%char).
  { intros [= _ <-]. simpl. lia. }
  destruct c as [c0|]; [|done].
  destruct pattern as [|p1 [|p2 pattern]].
  - intros H. apply IH in H; simpl in *; lia.
  - intros H. apply IH in H; simpl in *; lia.
  - destruct (Ascii.eqb p1 "-"%char); intros H; apply IH in H; simpl in *; lia.
Qed.

(** The bound on the rounds of [stringmatchlen] is never reached: every
    round consumes a pattern byte, and any bound above the length of the
    pattern gives the same answer. *)
Lemma stringmatchlen_go_fuel f1 : ∀ f2 pattern string nocase,
  (length pattern < f1)%nat → (length pattern < f2)%nat →
  stringmatchlen_go f1 pattern string nocase
  = stringmatchlen_go f2 pattern string nocase.
Proof.
  induction f1 as [|f1 IH]; intros f2 pattern string nocase H1 H2; [lia|].
  destruct f2 as [|f2]; [lia|].
  destruct pattern as [|p0 rest]; [done|]. simpl in H1, H2.
  assert (∀ pattern' string',
            (length pattern' <= length rest)%nat →
            stringmatchlen_go f1 pattern' string' nocase
            = stringmatchlen_go f2 pattern' string' nocase) as Hrec.
  { intros pattern' string' Hl. apply IH; lia. }
  assert (∀ pattern' string',
            (length pattern' <= length rest)%nat →
            match string' with
            | At [] => Some (bool_decide (skip_stars pattern' = []))
            | _ => stringmatchlen_go f1 pattern' string' nocase
            end
            = match string' with
              | At [] => Some (bool_decide (skip_stars pattern' = []))
              | _ => stringmatchlen_go f2 pattern' string' nocase
              end) as Hcont.
  { intros pattern' [[|x s']|] Hl; [done|by apply Hrec..]. }
  clear IH. cbn [stringmatchlen_go].
  destruct (Ascii.eqb p0 "*"%char).
  { pose proof (skip_stars_length rest) as Hl.
    destruct (skip_stars rest) as [|c rest'] eqn:Hrest; [done|].
    destruct string as [bytes|]; [|by rewrite Hrec].
    induction bytes as [|x bytes IHb]; [done|].
    rewrite Hrec by done.
    destruct (stringmatchlen_go f2 (c :: rest') (At (x :: bytes)) nocase)
      as [[|]|]; [done|exact IHb|done]. }
  destruct (Ascii.eqb p0 "?"%char).
  { destruct string as [[|x s']|]; [done| |done].
    exact (Hcont rest (At s') ltac:(lia)). }
  destruct (Ascii.eqb p0 "["%char).
  { destruct (match_class nocase _ (str_byte string) false) as [[matched rest']|]
      eqn:Hclass; [|done].
    apply (match_class_length _ (length rest)) in Hclass.
    2:{ destruct (Ascii.eqb (hd NUL rest) "^"%char); [|done].
        destruct rest; simpl; lia. }
    destruct (xorb _ matched); [|done].
    destruct (str_next string) as [string'|]; [|done].
    apply Hcont. destruct (Ascii.eqb (hd NUL rest) "^"%char); [|done].
    destruct rest; simpl in *; lia. }
  destruct rest as [|p1 rest'].
  - destruct (str_byte string), (str_next string); try done.
    destruct (char_eqb nocase p0 _); [|done]. by apply Hcont.
  - destruct (Ascii.eqb p0 "\"%char);
      destruct (str_byte string), (str_next string); try done.
    + destruct (char_eqb nocase p1 _); [|done]. apply Hcont. simpl. lia.
    + destruct (char_eqb nocase p0 _); [|done]. by apply Hcont.
Qed.

(** A pattern without class, escape or NUL byte keeps every read inside
    the pattern and the string: the matcher answers. *)
Lemma stringmatchlen_go_defined f : ∀ pattern s,
  Forall (λ ch, ch ≠ "["%char ∧ ch ≠ "\"%char ∧ ch ≠ NUL) pattern →
  (length pattern < f)%nat →
  is_Some (stringmatchlen_go f pattern (At s) false).
Proof.
  induction f as [|f IH]; intros pattern s Hp Hf; [lia|].
  destruct pattern as [|p0 rest]; [by eexists|].
  apply Forall_cons in Hp as [(Hb & He & Hn) Hp]. simpl in Hf.
  assert (∀ s', is_Some (match s' with
                         | [] => Some (bool_decide (skip_stars rest = []))
                         | _ => stringmatchlen_go f rest (At s') false
                         end)) as Hcont.
  { intros [|y s'']; [by eexists|]. apply IH; [done|lia]. }
  destruct (decide (p0 = "*"%char)) as [->|Hstar].
  { rewrite stringmatchlen_go_star.
    pose proof (skip_stars_Forall _ rest Hp) as Hp'.
    pose proof (skip_stars_length rest) as Hl.
    destruct (skip_stars rest) as [|c rest'] eqn:Hrest; [by eexists|].
    destruct (star_loop (λ str, stringmatchlen_go f (c :: rest') (At str) false) s)
      as (r & Hr & _).
    - intros b. apply IH; [done|lia].
    - exists r. exact Hr. }
  destruct s as [|x s'].
  - exists false.
    destruct (decide (p0 = "?"%char)) as [->|Hq]; [done|].
    by apply stringmatchlen_go_literal_nil.
  - destruct (decide (p0 = "?"%char)) as [->|Hq].
    + rewrite stringmatchlen_go_question. apply Hcont.
    + rewrite stringmatchlen_go_literal by done.
      destruct (Ascii.eqb p0 x); [apply Hcont|by eexists].
Qed.

(** X29: what the patterns of KEYS match, compared as bytes.  For runs
    [pre] and [suf] of plain pattern bytes (no star, bracket, backslash or
    NUL; a question mark is plain), [stringmatchlen] answers, and accepts
    for the pattern [pre] exactly the strings of the same length that agree
    with it outside the question marks, so a pattern without question mark
    matches itself only; and for [pre], one or more stars, [suf], exactly
    the strings that begin with a match of [pre] and end, without overlap,
    with a match of [suf]: a lone star matches every string, the empty
    one too. *)
Theorem glob_patterns pre suf k s :
  Forall plain_char pre → Forall plain_char suf →
  (∃ r, stringmatchlen pre s false = Some r ∧ (r = true ↔ plain_matches pre s))
  ∧ (Forall (λ ch, ch ≠ "?"%char) pre →
     ∃ r, stringmatchlen pre s false = Some r ∧ (r = true ↔ s = pre))
  ∧ (∃ r, stringmatchlen (pre ++ replicate (S k) "*"%char ++ suf) s false = Some r
          ∧ (r = true
             ↔ ∃ a mid b, s = a ++ mid ++ b
                          ∧ plain_matches pre a ∧ plain_matches suf b))
  ∧ stringmatchlen (replicate (S k) "*"%char) s false = Some true.
Proof.
  intros Hpre Hsuf.
  assert (∃ r, stringmatchlen pre s false = Some r
               ∧ (r = true ↔ plain_matches pre s)) as Hplain.
  { unfold stringmatchlen. apply stringmatchlen_go_plain; [done|lia]. }
  split; [exact Hplain|]. split; [|split].
  - intros Hlit. destruct Hplain as (r & Hr & Hiff). exists r.
    split; [exact Hr|]. by rewrite Hiff, plain_matches_literal.
  - unfold stringmatchlen. apply stringmatchlen_go_prefix; [done|done|lia].
  - unfold stringmatchlen.
    destruct (stringmatchlen_go_prefix k [] [] (S (length (replicate (S k) "*"%char))) s)
      as (r & Hr & Hiff); try done.
    + rewrite !app_nil_r. cbn [app]. lia.
    + rewrite app_nil_r in Hr. cbn [app] in Hr. rewrite Hr. f_equal.
      apply Hiff. exists [], s, []. rewrite app_nil_r. by repeat split; constructor.
Qed.

Lemma glob_patterns_witness :
  let pre := sdsnew "user:" in
  let suf := sdsnew ".v?" in
  Forall plain_char pre ∧ Forall plain_char suf
  ∧ stringmatchlen (sdsnew "user:**.v?") (sdsnew "user:42.v1") false = Some true
  ∧ stringmatchlen (sdsnew "user:") (sdsnew "user:42") false = Some false.
Proof.
  intros pre suf.
  assert (Forall plain_char pre) as Hpre
    by (repeat constructor; discriminate).
  assert (Forall plain_char suf) as Hsuf
    by (repeat constructor; discriminate).
  split; [exact Hpre|]. split; [exact Hsuf|]. split.
  - destruct (glob_patterns pre suf 1 (sdsnew "user:42.v1") Hpre Hsuf)
      as (_ & _ & (r & Hr & Hstar) & _).
    change (pre ++ replicate 2 "*"%char ++ suf) with (sdsnew "user:**.v?") in Hr.
    rewrite Hr. f_equal.
    apply Hstar. exists (sdsnew "user:"), (sdsnew "42"), (sdsnew ".v1").
    split; [reflexivity|]. split.
    + repeat constructor; by right.
    + repeat constructor; first [by right | by left].
  - destruct (glob_patterns pre suf 0 (sdsnew "user:42") Hpre Hsuf)
      as (_ & Hlit & _).
    destruct Hlit as (r & Hr & Hiff); [repeat constructor; discriminate|].
    change pre with (sdsnew "user:") in Hr. rewrite Hr. f_equal.
    destruct r; [|done]. by destruct (proj1 Hiff eq_refl).
Defined.

(** ** KEYS *)

Lemma reply_bytes_app r1 r2 :
  reply_bytes (r1 ++ r2) = reply_bytes r1 ++ reply_bytes r2.
Proof. unfold reply_bytes. by rewrite fmap_app, concat_app. Qed.

(** The loop of KEYS, when the matcher answers on every key, appends the
    matching keys, a space before each but the first of the reply, and
    counts them and their bytes. *)
Lemma keys_loop_listed pattern entries : ∀ c numkeys keyslen,
  let listed := filter (λ key, cstr pattern = sdsnew "*"
                               ∨ stringmatchlen pattern key false = Some true)
                  entries.*1 in
  let bytes := concat ((λ key, SP :: key) <$> listed) in
  cstr pattern = sdsnew "*"
  ∨ Forall (λ key, is_Some (stringmatchlen pattern key false)) entries.*1 →
  0 <= numkeys → 0 <= keyslen →
  numkeys + Z.of_nat (length listed) <= INT_MAX →
  keyslen + sdslen (concat listed) <= INT_MAX →
  ∃ items,
    keys_loop pattern entries c numkeys keyslen
    = Some (set_reply c (c_reply c ++ items),
            numkeys + Z.of_nat (length listed),
            keyslen + sdslen (concat listed))
    ∧ reply_bytes items = drop (if numkeys =? 0 then 1%nat else 0%nat) bytes.
Proof.
  induction entries as [|[key o] entries IH]; intros c numkeys keyslen; cbv zeta.
  { cbn. intros _ _ _ _ _. exists []. split; [|by destruct (numkeys =? 0)].
    rewrite app_nil_r, !Z.add_0_r. by destruct c. }
  cbn [keys_loop fmap list_fmap fst]. rewrite filter_cons.
  intros Hdef.
  assert (cstr pattern = sdsnew "*"
          ∨ Forall (λ key, is_Some (stringmatchlen pattern key false)) entries.*1)
    as Hdef'.
  { destruct Hdef as [?|Hall]; [by left|right].
    by apply Forall_cons in Hall as [_ ?]. }
  assert (∃ m, (if sds_eqb (cstr pattern) (sdsnew "*") then Some true
                else stringmatchlen pattern key false) = Some m
               ∧ (m = true ↔ cstr pattern = sdsnew "*"
                             ∨ stringmatchlen pattern key false = Some true))
    as (m & -> & Hm).
  { unfold sds_eqb.
    destruct (bool_decide_reflect (cstr pattern = sdsnew "*")) as [E|E].
    - exists true. split; [done|]. split; [by left|done].
    - destruct Hdef as [?|Hall]; [done|].
      apply Forall_cons in Hall as [[m Hk] _]. exists m. split; [done|].
      rewrite Hk. split; [intros ->; by right|].
      intros [?|[= ->]]; done. }
  cbv zeta in IH.
  destruct m.
  2:{ rewrite decide_False by (intros H; by apply Hm in H). by apply IH. }
  rewrite decide_True by (by apply Hm).
  cbn [length fmap list_fmap concat].
  intros Hn Hl Hcount Hbytes.
  pose proof (sdslen_nonneg key) as Hk.
  set (listed := filter _ entries.*1) in *.
  assert (sdslen (key ++ concat listed) = sdslen key + sdslen (concat listed))
    as Hlen by (unfold sdslen; rewrite length_app; lia).
  rewrite Hlen in *.
  pose proof (sdslen_nonneg (concat listed)) as Hrest.
  rewrite (to_int_id (numkeys + 1)) by (unfold INT_MIN, INT_MAX in *; lia).
  rewrite (to_int_id (keyslen + sdslen key)) by (unfold INT_MIN, INT_MAX in *; lia).
  destruct (IH (addReply (if negb (numkeys =? 0) then addReply c shared.space else c)
                  (StringObject key))
              (numkeys + 1) (keyslen + sdslen key))
    as (items & Hloop & Hitems); try done; try lia.
  fold listed in Hloop, Hitems.
  assert ((numkeys + 1 =? 0) = false) as Hnz by (apply Z.eqb_neq; lia).
  rewrite Hnz in Hitems. cbn [drop] in Hitems.
  exists ((if negb (numkeys =? 0) then [shared.space] else [])
          ++ StringObject key :: items).
  split.
  - rewrite Hloop. f_equal. f_equal; [f_equal|]; [|lia|lia].
    destruct (numkeys =? 0); cbn [negb]; destruct c; cbn;
      by rewrite <- ?app_assoc.
  - rewrite reply_bytes_app.
    change (reply_bytes (StringObject key :: items))
      with (key ++ reply_bytes items).
    rewrite Hitems. by destruct (numkeys =? 0).
Qed.

(** A key on which the matcher leaves the pattern or the string leaves
    the loop of KEYS without a meaning. *)
Lemma keys_loop_undefined pattern entries : ∀ c numkeys keyslen key,
  cstr pattern ≠ sdsnew "*" →
  key ∈ entries.*1 →
  stringmatchlen pattern key false = None →
  keys_loop pattern entries c numkeys keyslen = None.
Proof.
  induction entries as [|[key' o] entries IH];
    intros c numkeys keyslen key Hstar Hin Hnone.
  { by apply elem_of_nil in Hin. }
  cbn [keys_loop]. unfold sds_eqb. rewrite bool_decide_eq_false_2 by done.
  cbn [fmap list_fmap fst] in Hin.
  destruct (stringmatchlen pattern key' false) as [[|]|] eqn:Hkey'; [| |done].
  - apply elem_of_cons in Hin as [->|Hin]; [congruence|].
    by apply (IH _ _ _ key).
  - apply elem_of_cons in Hin as [->|Hin]; [congruence|].
    by apply (IH _ _ _ key).
Qed.

Lemma join_tokens_drop tokens :
  drop 1 (concat ((λ t, SP :: t) <$> tokens)) = join_tokens tokens.
Proof. by destruct tokens. Qed.

Lemma join_tokens_length tokens :
  sdslen (join_tokens tokens)
  = sdslen (concat tokens)
    + (if negb (Z.of_nat (length tokens) =? 0)
       then Z.of_nat (length tokens) - 1 else 0).
Proof.
  destruct tokens as [|t ts]; [done|].
  assert ((Z.of_nat (length (t :: ts)) =? 0) = false) as ->
    by (apply Z.eqb_neq; simpl; lia).
  cbn [negb join_tokens concat]. unfold sdslen. rewrite !length_app.
  assert (length (concat ((λ t', SP :: t') <$> ts))
          = (length (concat ts) + length ts)%nat) as ->.
  { induction ts as [|x ts IH]; [done|]. cbn. rewrite !length_app, IH. lia. }
  simpl length. lia.
Qed.

(** X30: KEYS lists each matching key once, on one line.  With [listed]
    the keys of the selected database that the pattern matches (all of
    them for the pattern of one star), in the order of the table: when the
    pattern is the one star, or the matcher answers on every key of the
    database, the reply of KEYS is the number of bytes of the line, CR LF,
    the listed keys with one space between two of them, CR LF, and the
    server is left as it was; the matcher answers on every key when the
    pattern has no bracket, backslash or NUL byte; when the pattern is
    not the one star and the matcher, on some key of the database, leaves
    the pattern or the string (a read outside them, or the string pointer
    moved further past its end), the behaviour of KEYS is undefined.  No
    key is listed twice and none that matches is left out.  (The line is
    taken to be shorter than [INT_MAX], the range of the counters the
    command adds up.) *)
Theorem keys_lists_each_matching_key c s :
  let pattern := sds_ptr (argv_at c 1) in
  let db := client_dict c s in
  let listed := keys_listed pattern db in
  let line := join_tokens listed in
  let answers :=
    cstr pattern = sdsnew "*"
    ∨ ∀ key, is_Some (db !! key) → is_Some (stringmatchlen pattern key false) in
  sdslen line < INT_MAX →
  (answers →
   ∃ c', keysCommand c s = Alive c' s
         ∧ reply_bytes (c_reply c')
           = reply_bytes (c_reply c) ++ fmt_lu (sdslen line) ++ crlf_bytes
             ++ line ++ crlf_bytes)
  ∧ (Forall (λ ch, ch ≠ "["%char ∧ ch ≠ "\"%char ∧ ch ≠ NUL) pattern → answers)
  ∧ (cstr pattern ≠ sdsnew "*" →
     ∀ key, is_Some (db !! key) → stringmatchlen pattern key false = None →
            keysCommand c s = Undefined)
  ∧ NoDup listed
  ∧ ∀ key, key ∈ listed
           ↔ is_Some (db !! key)
             ∧ (cstr pattern = sdsnew "*"
                ∨ stringmatchlen pattern key false = Some true).
Proof.
  intros pattern db listed line answers Hline.
  assert (∀ key, key ∈ (dictEntries db).*1 ↔ is_Some (db !! key)) as Hkeys.
  { intros key. unfold dictEntries. split.
    - intros Hin. apply list_elem_of_fmap in Hin as ([k v] & -> & Hin).
      apply elem_of_map_to_list in Hin. by exists v.
    - intros [v Hv]. apply list_elem_of_fmap. exists (key, v). split; [done|].
      by apply elem_of_map_to_list. }
  split; [|split; [|split; [|split]]].
  - intros Hans.
    pose proof (join_tokens_length listed) as Hlen. fold line in Hlen.
    pose proof (sdslen_nonneg (concat listed)) as Hbytes.
    assert (Z.of_nat (length listed) <= INT_MAX
            ∧ sdslen (concat listed) <= INT_MAX) as [Hn Hl].
    { destruct (Z.of_nat (length listed) =? 0) eqn:E; cbn [negb] in Hlen.
      - apply Z.eqb_eq in E. unfold INT_MAX in *. lia.
      - unfold INT_MAX in *. lia. }
    unfold keysCommand. cbv zeta.
    change (client_dict (addReply c (StringObject [])) s) with db.
    fold pattern.
    destruct (keys_loop_listed pattern (dictEntries db)
                (addReply c (StringObject [])) 0 0)
      as (items & Hloop & Hitems); try done.
    { destruct Hans as [?|Hall]; [by left|right].
      apply Forall_forall. intros key Hin. by apply Hall, Hkeys. }
    fold (keys_listed pattern db) in Hloop, Hitems.
    fold listed in Hloop, Hitems.
    rewrite Hloop. rewrite !Z.add_0_l.
    change (0 =? 0) with true in Hitems. cbv iota in Hitems.
    rewrite join_tokens_drop in Hitems. fold line in Hitems.
    rewrite <- Hlen.
    rewrite (to_int_id (sdslen line))
      by (pose proof (sdslen_nonneg line); unfold INT_MIN, INT_MAX in *; lia).
    eexists. split; [reflexivity|].
    cbn [c_reply addReply set_reply]. unfold addReply.
    cbn [c_reply set_reply]. rewrite <- !app_assoc.
    rewrite insert_app_r_alt by lia. rewrite Nat.sub_diag.
    cbn [app insert list_insert]. rewrite !reply_bytes_app.
    change (reply_bytes (?o :: ?r)) with (sds_ptr o ++ reply_bytes r).
    cbn [sds_ptr]. rewrite Hitems.
    change (sds_ptr shared.crlf ++ reply_bytes []) with crlf_bytes.
    by rewrite <- !app_assoc.
  - intros Hpat. right. intros key _. unfold stringmatchlen.
    apply stringmatchlen_go_defined; [done|lia].
  - intros Hstar key Hkey Hnone. unfold keysCommand. cbv zeta.
    change (client_dict (addReply c (StringObject [])) s) with db.
    fold pattern.
    rewrite (keys_loop_undefined pattern (dictEntries db) _ 0 0 key); try done.
    by apply Hkeys.
  - unfold listed, keys_listed. apply NoDup_filter, NoDup_fst_map_to_list.
  - intros key. unfold listed, keys_listed. rewrite list_elem_of_filter.
    rewrite Hkeys. tauto.
Qed.

Lemma keys_lists_each_matching_key_witness :
  let s := round_trip_example in
  let c := set_argv (createClient 5 s)
             (StringObject <$> [sdsnew "keys"; sdsnew "?o*"]) in
  let listed := keys_listed (sdsnew "?o*") (client_dict c s) in
  sdslen (join_tokens listed) < INT_MAX
  ∧ listed = [sdsnew "foo"]
  ∧ ∃ c', keysCommand c s = Alive c' s
          ∧ reply_bytes (c_reply c') = wire ["3"; "foo"]%string.
Proof.
  intros s c listed.
  assert (sdslen (join_tokens listed) < INT_MAX) as Hline by (vm_compute; reflexivity).
  split; [exact Hline|]. split; [vm_compute; reflexivity|].
  destruct (keys_lists_each_matching_key c s Hline) as (Hrun & Hans & _).
  destruct Hrun as (c' & Hrun & Hreply).
  { apply Hans. repeat constructor; discriminate. }
  exists c'. split; [exact Hrun|]. rewrite Hreply. vm_compute. reflexivity.
Defined.
